(** * SoundSphere: the audio graph controller, embedded and verified

    The development follows the JavaScript sources of the extension:

    - [FireFox/1.1/SoundSphere/background.js]: [mapVolumeToGain],
      [makeSourceForElement];
    - the page-context WebAudio tap ([inject/webaudio_tap.js], the first
      unnamed source part): [clamp], [applySettings], [getChainFor], the
      patched [AudioNode.prototype.connect], the [SS_SETTINGS] handler;
    - the Chrome tab-capture engine (third unnamed part):
      [TabAudioController.setEqGains], [_applyEqFilters];
    - the Chrome YouTube content script (fourth unnamed part):
      [makeSourceForElement], [hookElementYouTube];
    - [FireFox/1.2/SoundSphere/popup.js]: [DRM_GUARD], [AudioBus],
      [MediaHook], [SoundSpherePageController] and its message handler.

    Numbers.  A JavaScript number is modelled as an exact rational or one
    of the three special values; arithmetic on finite values is exact (the
    rounding of binary64 is not modelled, nor is the sign of zero).  The
    module [Binary64] re-runs the gain curve on the kernel's binary64
    floats at the points the specification names, and the module
    [SoftClip] computes the table of the soft clipper on binary64 and
    rounds each sample to binary32, as the code stores it. *)

From Stdlib Require Import QArith Qminmax Lqa ZArith Lia Bool List.
From Stdlib Require Import Strings.String Strings.Ascii.
From Stdlib Require Floats.PrimFloat.
From stdpp Require Import base option list gmap.
Import ListNotations.

(** ** JavaScript values *)

Inductive number : Type :=
| Fin (q : Q)
| PosInf
| NegInf
| NaN.

Inductive jsval : Type :=
| VUndefined
| VNull
| VBool (b : bool)
| VNumber (n : number)
| VString (s : string).

(** Equality of numbers up to the representation of the rational. *)
Definition num_eq (a b : number) : Prop :=
  match a, b with
  | Fin x, Fin y => (x == y)%Q
  | PosInf, PosInf | NegInf, NegInf | NaN, NaN => True
  | _, _ => False
  end.

Module JS.

Local Open Scope Q_scope.

(** [StringToNumber], on the UTF-8 bytes of the text: white space and
    line terminators around the literal are skipped; the empty text is 0;
    the literal is a decimal literal (an optional sign, then [Infinity] or
    digits with an optional fraction and an optional exponent) or an
    unsigned binary, octal or hexadecimal integer literal; every other
    text is [NaN].  The value is the exact rational (neither the rounding
    to binary64 nor the overflow to [Infinity] is modelled). *)

(** The characters of [StrWhiteSpaceChar] at the head of the text are
    dropped: TAB, LF, VT, FF, CR, SP; U+00A0; U+1680, U+2000 to U+200A,
    U+2028, U+2029, U+202F, U+205F, U+3000, U+FEFF. *)
Fixpoint skip_white_space (s : string) : string :=
  match s with
  | String c r =>
      let n := nat_of_ascii c in
      if ((9 <=? n) && (n <=? 13) || (n =? 32))%nat then skip_white_space r
      else
        match r with
        | String c2 r2 =>
            let n2 := nat_of_ascii c2 in
            if ((n =? 194) && (n2 =? 160))%nat then skip_white_space r2
            else
              match r2 with
              | String c3 r3 =>
                  let n3 := nat_of_ascii c3 in
                  if ((n =? 225) && (n2 =? 154) && (n3 =? 128)
                      || (n =? 226) && (n2 =? 128)
                         && ((128 <=? n3) && (n3 <=? 138) || (n3 =? 168) || (n3 =? 169)
                             || (n3 =? 175))
                      || (n =? 226) && (n2 =? 129) && (n3 =? 159)
                      || (n =? 227) && (n2 =? 128) && (n3 =? 128)
                      || (n =? 239) && (n2 =? 187) && (n3 =? 191))%nat
                  then skip_white_space r3
                  else s
              | EmptyString => s
              end
        | EmptyString => s
        end
  | EmptyString => s
  end.

(** The value of a digit in a radix up to 16, if the character is one. *)
Definition digit_of (radix : Z) (c : ascii) : option Z :=
  let n := Z.of_nat (nat_of_ascii c) in
  let d := if ((48 <=? n) && (n <=? 57))%Z then Some (n - 48)%Z
           else if ((97 <=? n) && (n <=? 102))%Z then Some (n - 87)%Z
           else if ((65 <=? n) && (n <=? 70))%Z then Some (n - 55)%Z
           else None in
  match d with
  | Some v => if (v <? radix)%Z then Some v else None
  | None => None
  end.

(** The longest run of digits at the head of the text: its value, the
    number of digits, and the rest of the text. *)
Fixpoint read_digits (radix : Z) (s : string) (acc : Z) (count : nat) : Z * nat * string :=
  match s with
  | String c r =>
      match digit_of radix c with
      | Some v => read_digits radix r (radix * acc + v)%Z (S count)
      | None => (acc, count, s)
      end
  | EmptyString => (acc, count, s)
  end.

(** [0b], [0o] or [0x] (in either case) followed by at least one digit. *)
Definition read_nondecimal (s : string) : option (number * string) :=
  match s with
  | String "0"%char (String p r) =>
      let n := nat_of_ascii p in
      let radix := if ((n =? 98) || (n =? 66))%nat then Some 2%Z
                   else if ((n =? 111) || (n =? 79))%nat then Some 8%Z
                   else if ((n =? 120) || (n =? 88))%nat then Some 16%Z
                   else None in
      match radix with
      | Some b =>
          let '(v, count, rest) := read_digits b r 0%Z 0%nat in
          if (count =? 0)%nat then None else Some (Fin (inject_Z v), rest)
      | None => None
      end
  | _ => None
  end.

(** The exponent part, [e] or [E], an optional sign and at least one
    digit: its value and the rest; without one, 0 and the text itself. *)
Definition read_exponent (s : string) : Z * string :=
  match s with
  | String c r =>
      let n := nat_of_ascii c in
      if ((n =? 101) || (n =? 69))%nat then
        let '(negative, r1) :=
          match r with
          | String "+"%char r' => (false, r')
          | String "-"%char r' => (true, r')
          | _ => (false, r)
          end in
        let '(v, count, rest) := read_digits 10 r1 0%Z 0%nat in
        if (count =? 0)%nat then (0%Z, s)
        else ((if negative then - v else v)%Z, rest)
      else (0%Z, s)
  | EmptyString => (0%Z, s)
  end.

(** [m * 10 ^ e] *)
Definition scale (m e : Z) : Q :=
  if (0 <=? e)%Z then inject_Z (m * 10 ^ e) else m # Z.to_pos (10 ^ (- e)).

Fixpoint strip_prefix (p s : string) : option string :=
  match p, s with
  | EmptyString, _ => Some s
  | String a p', String b s' => if Ascii.eqb a b then strip_prefix p' s' else None
  | _, _ => None
  end.

(** [Infinity], digits with an optional fraction, or a fraction alone,
    then an optional exponent. *)
Definition read_unsigned_decimal (s : string) : option (number * string) :=
  match strip_prefix "Infinity" s with
  | Some rest => Some (PosInf, rest)
  | None =>
      let '(i, ni, r) := read_digits 10 s 0%Z 0%nat in
      match r with
      | String "."%char r1 =>
          let '(f, nf, r2) := read_digits 10 r1 0%Z 0%nat in
          if ((ni =? 0) && (nf =? 0))%nat then None
          else
            let '(e, r3) := read_exponent r2 in
            Some (Fin (scale (i * 10 ^ Z.of_nat nf + f) (e - Z.of_nat nf)), r3)
      | _ =>
          if (ni =? 0)%nat then None
          else let '(e, r3) := read_exponent r in Some (Fin (scale i e), r3)
      end
  end.

Definition read_literal (s : string) : option (number * string) :=
  match read_nondecimal s with
  | Some r => Some r
  | None =>
      match s with
      | String "+"%char r => read_unsigned_decimal r
      | String "-"%char r =>
          match read_unsigned_decimal r with
          | Some (Fin q, rest) => Some (Fin (- q), rest)
          | Some (PosInf, rest) => Some (NegInf, rest)
          | other => other
          end
      | _ => read_unsigned_decimal s
      end
  end.

Definition StringToNumber (s : string) : number :=
  match skip_white_space s with
  | EmptyString => Fin 0
  | s1 =>
      match read_literal s1 with
      | Some (n, rest) =>
          match skip_white_space rest with
          | EmptyString => n
          | _ => NaN
          end
      | None => NaN
      end
  end.

(** [Number(v)] *)
Definition Number (v : jsval) : number :=
  match v with
  | VUndefined => NaN
  | VNull => Fin 0
  | VBool true => Fin 1
  | VBool false => Fin 0
  | VNumber n => n
  | VString s => StringToNumber s
  end.

(** [Number.isFinite(n)] *)
Definition isFinite (n : number) : bool :=
  match n with Fin _ => true | _ => false end.

(** [typeof v === "number"] *)
Definition typeof_number (v : jsval) : bool :=
  match v with VNumber _ => true | _ => false end.

(** Truthiness ([!!v], the test of [||] and of [?:]). *)
Definition truthy_number (n : number) : bool :=
  match n with
  | Fin q => negb (Qeq_bool q 0)
  | PosInf | NegInf => true
  | NaN => false
  end.

Definition truthy (v : jsval) : bool :=
  match v with
  | VUndefined | VNull => false
  | VBool b => b
  | VNumber n => truthy_number n
  | VString s => negb (String.eqb s EmptyString)
  end.

(** [a || b] on numbers. *)
Definition num_or (a b : number) : number :=
  if truthy_number a then a else b.

(** [a ?? b] *)
Definition nullish (a b : jsval) : jsval :=
  match a with
  | VUndefined | VNull => b
  | _ => a
  end.

(** [Math.min(a, b)] and [Math.max(a, b)] *)
Definition Math_min (a b : number) : number :=
  match a, b with
  | NaN, _ | _, NaN => NaN
  | NegInf, _ | _, NegInf => NegInf
  | PosInf, x => x
  | x, PosInf => x
  | Fin x, Fin y => Fin (Qmin x y)
  end.

Definition Math_max (a b : number) : number :=
  match a, b with
  | NaN, _ | _, NaN => NaN
  | PosInf, _ | _, PosInf => PosInf
  | NegInf, x => x
  | x, NegInf => x
  | Fin x, Fin y => Fin (Qmax x y)
  end.

(** [a === b] and [a <= b] on numbers. *)
Definition strict_eq (a b : number) : bool :=
  match a, b with
  | Fin x, Fin y => Qeq_bool x y
  | PosInf, PosInf | NegInf, NegInf => true
  | _, _ => false
  end.

Definition num_le (a b : number) : bool :=
  match a, b with
  | NaN, _ | _, NaN => false
  | NegInf, _ | _, PosInf => true
  | _, NegInf | PosInf, _ => false
  | Fin x, Fin y => Qle_bool x y
  end.

(** Arithmetic.  Zero carries no sign: a non-zero finite value divided by
    zero takes the sign of the dividend. *)
Definition num_neg (a : number) : number :=
  match a with
  | Fin x => Fin (- x)
  | PosInf => NegInf
  | NegInf => PosInf
  | NaN => NaN
  end.

Definition signed (inf : number) (x : Q) : number :=
  match x ?= 0 with
  | Eq => NaN
  | Gt => inf
  | Lt => num_neg inf
  end.

Definition num_add (a b : number) : number :=
  match a, b with
  | NaN, _ | _, NaN => NaN
  | Fin x, Fin y => Fin (x + y)
  | PosInf, NegInf | NegInf, PosInf => NaN
  | PosInf, _ | _, PosInf => PosInf
  | NegInf, _ | _, NegInf => NegInf
  end.

Definition num_sub (a b : number) : number := num_add a (num_neg b).

Definition num_mul (a b : number) : number :=
  match a, b with
  | NaN, _ | _, NaN => NaN
  | Fin x, Fin y => Fin (x * y)
  | Fin x, PosInf | PosInf, Fin x => signed PosInf x
  | Fin x, NegInf | NegInf, Fin x => signed NegInf x
  | PosInf, PosInf | NegInf, NegInf => PosInf
  | PosInf, NegInf | NegInf, PosInf => NegInf
  end.

Definition num_div (a b : number) : number :=
  match a, b with
  | NaN, _ | _, NaN => NaN
  | Fin x, Fin y => if Qeq_bool y 0 then signed PosInf x else Fin (x / y)
  | Fin _, (PosInf | NegInf) => Fin 0
  | PosInf, Fin y => if Qle_bool 0 y then PosInf else NegInf
  | NegInf, Fin y => if Qle_bool 0 y then NegInf else PosInf
  | (PosInf | NegInf), (PosInf | NegInf) => NaN
  end.

End JS.

(** ** GainCurve: [mapVolumeToGain] (FireFox 1.1, background.js) *)

Module GainCurve.
Import JS.

(**
<<
function mapVolumeToGain(percent) {
  const p = Math.max(0, Math.min(800, Number(percent) || 0));
  if (p === 0) return 0;
  if (p <= 600) return (p / 600) * 6;
  const extra = (p - 600) / 200;
  return 6 + extra * 2;
}
>> *)
Definition mapVolumeToGain (percent : jsval) : number :=
  let p := Math_max (Fin 0) (Math_min (Fin 800) (num_or (Number percent) (Fin 0))) in
  if strict_eq p (Fin 0) then Fin 0
  else if num_le p (Fin 600) then num_mul (num_div p (Fin 600)) (Fin 6)
  else
    let extra := num_div (num_sub p (Fin 600)) (Fin 200) in
    num_add (Fin 6) (num_mul extra (Fin 2)).

(** The input as the first line of the function leaves it: a rational in
    [[0, 800]]. *)
Definition clamped_percent (n : number) : Q :=
  match n with
  | Fin q => Qmax 0 (Qmin 800 q)
  | PosInf => 800
  | NegInf => 0
  | NaN => 0
  end.

(** The gain at a finite percentage, and the difference quotient of the
    curve between two percentages. *)
Definition gain_at (q : Q) : Q :=
  match mapVolumeToGain (VNumber (Fin q)) with
  | Fin g => g
  | _ => 0
  end.

Definition slope (a b : Q) : Q := (gain_at b - gain_at a) / (b - a).

End GainCurve.

(** The same curve on binary64, evaluated by the kernel. *)
Module Binary64.
Import PrimFloat.
Local Open Scope float_scope.

Definition mapVolumeToGain (percent : float) : float :=
  let n := if PrimFloat.eqb percent percent then percent else 0 in
  let lo := if PrimFloat.ltb n 800 then n else 800 in
  let p := if PrimFloat.ltb 0 lo then lo else 0 in
  if PrimFloat.eqb p 0 then 0
  else if PrimFloat.leb p 600 then (p / 600) * 6
  else
    let extra := (p - 600) / 200 in
    6 + extra * 2.

End Binary64.


(** ** The page-context WebAudio tap (inject/webaudio_tap.js) and the
    Spotify graph tap of popup.js, which share their text *)

Module Tap.
Import JS.
Local Open Scope Q_scope.

(** [state.mode]: one of the strings "default", "voice", "bass". *)
Inductive tone : Type := Default | Voice | Bass.

(** The two copies of the tap: the injected page script and
    [SPOTIFY_TAP] in popup.js. *)
Inductive variant : Type := Injected | Spotify.

(**
<<
function clamp(n, min, max) {
  const v = Number(n);
  if (!Number.isFinite(v)) return min;
  return Math.max(min, Math.min(max, v));
}
>>
    [min] and [max] are finite literals at every call site. *)
Definition clamp (n : jsval) (min max : Q) : Q :=
  match Number n with
  | Fin v => Qmax min (Qmin max v)
  | _ => min
  end.

Record settings : Type := mkSettings {
  volumePercent : Q;
  muted : bool;
  mode : tone;
  eq : list Q
}.

(** [{ volumePercent: 100, muted: false, mode: "default",
       eq: new Array(10).fill(0) }] *)
Definition initial_settings : settings :=
  mkSettings 100 false Default (replicate 10 0).

(** What the controller can observe of a master chain: the value last
    pushed to the gain node, the gain of each of the ten peaking filters,
    the topology of the mode segment, and the [connected] flag. *)
Record chain : Type := mkChain {
  gain_value : Q;
  eq_gain : list Q;
  mode_name : tone;
  connected : bool
}.

(** [buildChain(ctx)]: a fresh gain node (gain 1), ten filters at 0 dB, a
    pass-through mode segment, [connected: false]. *)
Definition buildChain : chain := mkChain 1 (replicate 10 0) Default false.

(** [state.eq[i]] *)
Definition eq_index (st : settings) (i : nat) : jsval :=
  match eq st !! i with
  | Some q => VNumber (Fin q)
  | None => VUndefined
  end.

(**
<<
function applySettings(chain) {
  const g = state.muted ? 0 : clamp(state.volumePercent, 0, 800) / 100;
  ... chain.gain.gain.setValueAtTime(g, ...) (or .value = g)
  for (let i = 0; i < chain.eq.length; i++) {
    const db = clamp(state.eq[i] ?? 0, -24, 24);
    ... chain.eq[i].gain.setValueAtTime(db, ...) (or .value = db)
  }
  applyMode(chain, state.mode);
}
>>
    [applyMode] leaves the mode segment in the topology of [state.mode]
    (the Spotify copy skips the rebuild when it already is). *)
Definition applySettings (st : settings) (ch : chain) : chain :=
  let g := if muted st then 0
           else clamp (VNumber (Fin (volumePercent st))) 0 800 / 100 in
  mkChain g
    (imap (fun i _ => clamp (nullish (eq_index st i) (VNumber (Fin 0))) (-24) 24)
          (eq_gain ch))
    (mode st)
    (connected ch).

(** Audio nodes.  A page script holds the nodes it created and the
    destination of each of its contexts; the input and the output of a
    master chain live in the tap's closure. *)
Inductive page_node : Type :=
| Created (ctx id : nat)
| Dest (ctx : nat).

Inductive node : Type :=
| Page (n : page_node)
| MasterInput (ctx : nat)
| MasterOutput (ctx : nat).

(** The first argument of [connect]: a node or an [AudioParam]. *)
Inductive target : Type :=
| ToNode (n : node)
| ToParam (ctx id : nat).

#[global] Instance page_node_eq_dec : EqDecision page_node.
Proof. solve_decision. Defined.
#[global] Instance node_eq_dec : EqDecision node.
Proof. solve_decision. Defined.
#[global] Instance target_eq_dec : EqDecision target.
Proof. solve_decision. Defined.

(** [this.context] *)
Definition context (n : node) : nat :=
  match n with
  | Page (Created c _) | Page (Dest c) | MasterInput c | MasterOutput c => c
  end.

(** [this[BYPASS]] (the injected script), [bypass.has(this)] (popup.js):
    set by [buildChain] on the chain's output and on nothing else. *)
Definition bypassed (n : node) : bool :=
  match n with MasterOutput _ => true | _ => false end.

Record tap : Type := mkTap {
  state : settings;
  seenContexts : gset nat;
  chains : gmap nat chain;
  calls : list (node * target)   (* the calls of the native connect, oldest first *)
}.

Definition initial : tap := mkTap initial_settings ∅ ∅ [].

(**
<<
function getChainFor(ctx) {
  let chain = chains.get(ctx);
  if (!chain) {
    chain = buildChain(ctx);
    chains.set(ctx, chain);
    seenContexts.add(ctx);
    applySettings(chain);
  }
  return chain;
}
>> *)
Definition getChainFor (ctx : nat) (w : tap) : tap * chain :=
  match chains w !! ctx with
  | Some ch => (w, ch)
  | None =>
      let ch := applySettings (state w) buildChain in
      (mkTap (state w) ({[ctx]} ∪ seenContexts w) (<[ctx := ch]> (chains w)) (calls w), ch)
  end.

(** How a call of [connect] ends. *)
Inductive completion : Type := Returned | Threw.

Section Connect.

(** Whether the native [connect] throws, for the k-th native call and its
    receiver and target: any behaviour of the host is allowed. *)
Variable native_throws : nat -> node -> target -> bool.

Definition nativeConnect (this : node) (dest : target) (w : tap) : tap * completion :=
  (mkTap (state w) (seenContexts w) (chains w) (calls w ++ [(this, dest)]),
   if native_throws (length (calls w)) this dest then Threw else Returned).

Definition set_connected (ctx : nat) (ch : chain) (w : tap) : tap :=
  mkTap (state w) (seenContexts w)
        (<[ctx := mkChain (gain_value ch) (eq_gain ch) (mode_name ch) true]> (chains w))
        (calls w).

(**
<<
NativeAudioNode.prototype.connect = function (...args) {
  try {
    const dest = args[0];
    if (isAudioParam(dest)) return nativeConnect.apply(this, args);
    const ctx = this && this.context;
    if (ctx && dest === ctx.destination && !this[BYPASS]) {
      const chain = getChainFor(ctx);
      if (chain && chain.input) {
        if (!chain.connected) {
          try { nativeConnect.call(chain.output, ctx.destination); } catch {}
          chain.connected = true;
        }
        nativeConnect.call(this, chain.input);
        return dest;
      }
    }
  } catch { }
  return nativeConnect.apply(this, args);
};
>>
    In popup.js the call that routes the node into the chain's input has
    a [try]/[catch] of its own. *)
Definition patchedConnect (v : variant) (this : node) (dest : target) (w : tap)
  : tap * completion :=
  match dest with
  | ToParam _ _ =>
      match nativeConnect this dest w with
      | (w1, Returned) => (w1, Returned)
      | (w1, Threw) => nativeConnect this dest w1
      end
  | ToNode d =>
      let ctx := context this in
      if bool_decide (d = Page (Dest ctx)) && negb (bypassed this) then
        let '(w1, ch) := getChainFor ctx w in
        let w2 :=
          if connected ch then w1
          else set_connected ctx ch
                 (fst (nativeConnect (MasterOutput ctx) (ToNode (Page (Dest ctx))) w1)) in
        match nativeConnect this (ToNode (MasterInput ctx)) w2, v with
        | (w3, Threw), Injected => nativeConnect this dest w3
        | (w3, _), _ => (w3, Returned)
        end
      else nativeConnect this dest w
  end.

End Connect.

(** The payload of an [SS_SETTINGS] message (the argument of
    [SPOTIFY_TAP.apply]).  A property that is not there reads as
    [undefined]; [p_eq] is [None] when [Array.isArray(p.eq)] is false. *)
Record payload : Type := mkPayload {
  p_volumePercent : jsval;
  p_volume : jsval;
  p_muted : jsval;
  p_mode : jsval;
  p_eq : option (list jsval)
}.

(** [p.mode === "voice" || p.mode === "bass" ? p.mode : "default"] *)
Definition mode_of (v : jsval) : tone :=
  match v with
  | VString s =>
      if String.eqb s "voice" then Voice
      else if String.eqb s "bass" then Bass
      else Default
  | _ => Default
  end.

(** [const arr = p.eq.slice(0, 10); while (arr.length < 10) arr.push(0);] *)
Definition slice_pad10 (a : list jsval) : list jsval :=
  let arr := take 10 a in
  arr ++ replicate (10 - length arr) (VNumber (Fin 0)).

(**
<<
const vp = (typeof p.volumePercent === "number" ? p.volumePercent : p.volume);
state.volumePercent = clamp(vp ?? state.volumePercent, 0, 800);
state.muted = !!p.muted;
state.mode = p.mode === "voice" || p.mode === "bass" ? p.mode : "default";
if (Array.isArray(p.eq)) {
  const arr = p.eq.slice(0, 10);
  while (arr.length < 10) arr.push(0);
  state.eq = arr.map(v => clamp(v, -24, 24));
}
>> *)
Definition store (p : payload) (st : settings) : settings :=
  let vp := if typeof_number (p_volumePercent p) then p_volumePercent p else p_volume p in
  mkSettings
    (clamp (nullish vp (VNumber (Fin (volumePercent st)))) 0 800)
    (truthy (p_muted p))
    (mode_of (p_mode p))
    (match p_eq p with
     | Some a => map (fun v => clamp v (-24) 24) (slice_pad10 a)
     | None => eq st
     end).

(**
<<
for (const ctx of Array.from(seenContexts)) {
  const chain = chains.get(ctx);
  if (chain) applySettings(chain);
}
>> *)
Definition apply_to_seen (w : tap) : tap :=
  mkTap (state w) (seenContexts w)
        (map_imap (fun ctx ch =>
                     Some (if bool_decide (ctx ∈ seenContexts w)
                           then applySettings (state w) ch else ch))
                  (chains w))
        (calls w).

(** The [SS_SETTINGS] branch of the message listener. *)
Definition SS_SETTINGS (p : payload) (w : tap) : tap :=
  apply_to_seen (mkTap (store p (state w)) (seenContexts w) (chains w) (calls w)).

(** A chain that the settings loop reaches. *)
Definition live (w : tap) (ctx : nat) (ch : chain) : Prop :=
  ctx ∈ seenContexts w /\ chains w !! ctx = Some ch.

(** What a page script can pass to [connect]: one of its own nodes, a
    destination, or an [AudioParam]. *)
Inductive page_target : Type :=
| AtNode (n : page_node)
| AtParam (ctx id : nat).

Definition to_target (t : page_target) : target :=
  match t with
  | AtNode n => ToNode (Page n)
  | AtParam c i => ToParam c i
  end.

(** What happens in the page: it posts settings, or one of its nodes calls
    [connect]. *)
Inductive event : Type :=
| Settings (p : payload)
| Connect (this : page_node) (dest : page_target).

Definition step (native_throws : nat -> node -> target -> bool) (v : variant)
    (w : tap) (e : event) : tap :=
  match e with
  | Settings p => SS_SETTINGS p w
  | Connect this dest =>
      fst (patchedConnect native_throws v (Page this) (to_target dest) w)
  end.

Definition run (native_throws : nat -> node -> target -> bool) (v : variant)
    (es : list event) (w : tap) : tap :=
  fold_left (step native_throws v) es w.

(** The native call that connects the master output of [ctx] to the
    destination of [ctx]. *)
Definition output_call (ctx : nat) : node * target :=
  (MasterOutput ctx, ToNode (Page (Dest ctx))).

Fixpoint count_calls (c : node * target) (l : list (node * target)) : nat :=
  match l with
  | [] => 0
  | x :: r => (if bool_decide (x = c) then 1 else 0) + count_calls c r
  end.

Definition output_connections (ctx : nat) (w : tap) : nat :=
  count_calls (output_call ctx) (calls w).

(** Whether an event asks to connect a node of [ctx] to the destination of
    [ctx]: the calls the patch reroutes. *)
Definition asks_destination (ctx : nat) (e : event) : bool :=
  match e with
  | Connect this (AtNode (Dest c)) =>
      bool_decide (context (Page this) = ctx) && bool_decide (c = ctx)
  | _ => false
  end.

(** [n] page nodes of [ctx], each connecting to the destination. *)
Definition sources (ctx n : nat) : list event :=
  map (fun i => Connect (Created ctx i) (AtNode (Dest ctx))) (seq 0 n).

(** No call of the list connects the master output of [ctx] or routes a
    node into the master input of [ctx]. *)
Definition quiet (ctx : nat) (l : list (node * target)) : Prop :=
  forall c, c ∈ l -> c <> output_call ctx /\ snd c <> ToNode (MasterInput ctx).

(** The state of the master bus of [ctx]: either no chain and no call that
    concerns it, or a chain flagged [connected] and exactly one output call,
    with no routing into the bus before it. *)
Definition bus_inv (ctx : nat) (w : tap) : Prop :=
  match chains w !! ctx with
  | None => quiet ctx (calls w)
  | Some ch =>
      connected ch = true /\
      exists l1 l2,
        calls w = l1 ++ output_call ctx :: l2 /\
        quiet ctx l1 /\ output_call ctx ∉ l2
  end.

(** Calls made on behalf of a page node: never an output call; a routing
    call only into the bus of the node's own context. *)
Definition page_calls (this : page_node) (l : list (node * target)) : Prop :=
  forall c, c ∈ l ->
    fst c = Page this /\
    (forall ctx, snd c = ToNode (MasterInput ctx) -> ctx = context (Page this)).

(** The stored vector and the filters of every chain have ten entries. *)
Definition ten_bands (w : tap) : Prop :=
  length (eq (state w)) = 10%nat /\
  forall ctx ch, chains w !! ctx = Some ch -> length (eq_gain ch) = 10%nat.

(** The payload carries no volume: [p.volumePercent] is not a number and
    [p.volume] is [undefined] or [null], so [vp ?? state.volumePercent]
    reads the stored value. *)
Definition volume_absent (p : payload) : Prop :=
  typeof_number (p_volumePercent p) = false /\
  (p_volume p = VUndefined \/ p_volume p = VNull).

(** Payloads used in the examples. *)
Definition only_muted (m : bool) : payload :=
  mkPayload VUndefined VUndefined (VBool m) VUndefined None.

Definition volume_and_muted (pct : Q) (m : bool) : payload :=
  mkPayload (VNumber (Fin pct)) VUndefined (VBool m) VUndefined None.

Definition only_eq (a : list jsval) : payload :=
  mkPayload VUndefined VUndefined VUndefined VUndefined (Some a).

Definition never_throws : nat -> node -> target -> bool := fun _ _ _ => false.

(** The tap after one node of context 1 connected to its destination. *)
Definition one_chain : tap :=
  run never_throws Injected [Connect (Created 1 1) (AtNode (Dest 1))] initial.

End Tap.

(** ** Media elements and the two ways to tap them *)

Module Elements.

(** The outcome of a host call made inside [try]. *)
Inductive call (A : Type) : Type :=
| Throws
| Gives (a : A).
Arguments Throws {A}.
Arguments Gives {A} a.

(** A captured stream; [source_ok] tells whether
    [ctx.createMediaStreamSource] accepts it or throws. *)
Inductive stream : Type := Stream (source_ok : bool).

(** A media element as the binder meets it at one call: its identity and
    what the host answers for it at that moment. *)
Record element : Type := mkElement {
  el_id : nat;
  is_media : bool;            (* nodeType 1 and tagName AUDIO or VIDEO *)
  crossOrigin : bool;         (* [el.crossOrigin] is truthy *)
  mediaKeys : bool;           (* [el.mediaKeys] is truthy *)
  direct_ok : bool;           (* [ctx.createMediaElementSource(el)] returns *)
  captureStream : option (call (option stream));     (* [None]: no such method *)
  mozCaptureStream : option (call (option stream))
}.

(** The node a successful tap returns. *)
Inductive source : Type :=
| ElementSource (el : nat)    (* MediaElementAudioSourceNode: the direct tap *)
| StreamSource (el : nat).    (* MediaStreamAudioSourceNode: the capture tap *)

#[global] Instance source_eq_dec : EqDecision source.
Proof. solve_decision. Defined.

Definition source_element (s : source) : nat :=
  match s with ElementSource e | StreamSource e => e end.

(** [try { return ctx.createMediaElementSource(el); } catch {}] *)
Definition direct_attempt (e : element) : option source :=
  if direct_ok e then Some (ElementSource (el_id e)) else None.

(** [el.captureStream()] if there is such a method, else
    [el.mozCaptureStream()] if there is, else [null]. *)
Definition capture_call (e : element) : call (option stream) :=
  match captureStream e with
  | Some c => c
  | None =>
      match mozCaptureStream e with
      | Some c => c
      | None => Gives None
      end
  end.

(** [try { const s = ...; if (s) return ctx.createMediaStreamSource(s); }
     catch {}] *)
Definition capture_attempt (e : element) : option source :=
  match capture_call e with
  | Gives (Some (Stream true)) => Some (StreamSource (el_id e))
  | _ => None
  end.

(** Whether each strategy, tried alone, succeeds. *)
Definition direct_available (e : element) : Prop := is_Some (direct_attempt e).
Definition capture_available (e : element) : Prop := is_Some (capture_attempt e).

(** A video element for which both strategies work. *)
Definition both_ways (id : nat) : element :=
  mkElement id true false false true (Some (Gives (Some (Stream true)))) None.

(** An element that only the capture strategy can tap. *)
Definition capture_only (id : nat) : element :=
  mkElement id true false false false (Some (Gives (Some (Stream true)))) None.

(** An element that no strategy can tap. *)
Definition untappable (id : nat) : element :=
  mkElement id true false false false None None.

End Elements.

(** ** FireFox 1.1 content script: [makeSourceForElement] *)

Module Firefox11.
Import Elements.

(**
<<
function makeSourceForElement(ctx, el) {
  try { source = ctx.createMediaElementSource(el); return source; } catch (e) {}
  let stream = null;
  try {
    if (typeof el.captureStream === "function") stream = el.captureStream();
    else if (typeof el.mozCaptureStream === "function") stream = el.mozCaptureStream();
  } catch (e) {}
  if (!stream) return null;
  try { source = ctx.createMediaStreamSource(stream); return source; }
  catch (e) { return null; }
}
>> *)
Definition makeSourceForElement (e : element) : option source :=
  match direct_attempt e with
  | Some s => Some s
  | None =>
      let stream := match capture_call e with
                    | Gives s => s
                    | Throws => None
                    end in
      match stream with
      | None => None
      | Some (Stream ok) => if ok then Some (StreamSource (el_id e)) else None
      end
  end.

End Firefox11.

(** ** Chrome YouTube content script (fourth unnamed part) *)

Module YouTube.
Import JS Elements.
Local Open Scope Q_scope.

(**
<<
function makeSourceForElement(el, ctx) {
  try {
    const capture = el.captureStream
      ? el.captureStream()
      : (el.mozCaptureStream ? el.mozCaptureStream() : null);
    if (capture) return ctx.createMediaStreamSource(capture);
  } catch (e) { }
  try { return ctx.createMediaElementSource(el); } catch (e) { return null; }
}
>> *)
Definition makeSourceForElement (e : element) : option source :=
  match capture_attempt e with
  | Some s => Some s
  | None => direct_attempt e
  end.

(** The entry of [mediaMap] for an element: the gain pushed to its gain
    node, the mode of its filter and its ten band gains. *)
Record entry : Type := mkEntry {
  entry_source : source;
  entry_gain : Q;
  entry_mode : string;
  entry_eq : list Q
}.

(** The state of the content script.  [destination] lists, oldest first,
    the sources whose chain was connected to [ctx.destination]. *)
Record script : Type := mkScript {
  currentVolume : Q;
  currentMode : string;
  eqGains : list jsval;
  audioCtx : bool;                      (* [audioCtx] is not null *)
  mediaMap : gmap nat entry;
  hooked : gset nat;                    (* [el.dataset.soundsphereHooked === "1"] *)
  destination : list source
}.

Definition initial : script :=
  mkScript 1 "default" (replicate 10 (VNumber (Fin 0))) false ∅ ∅ [].

(** The page the script runs in. *)
Record page : Type := mkPage {
  IS_YOUTUBE : bool;
  AudioContextAvailable : bool          (* [window.AudioContext || window.webkitAudioContext] *)
}.

(** [AudioContextClass = (IS_YOUTUBE && (window.AudioContext || ...)) || null] *)
Definition AudioContextClass (pg : page) : bool :=
  IS_YOUTUBE pg && AudioContextAvailable pg.

(**
<<
function ensureContext() {
  if (!IS_YOUTUBE) return null;
  if (audioCtx) return audioCtx;
  if (!AudioContextClass) return null;
  audioCtx = new AudioContextClass();
  return audioCtx;
}
>> *)
Definition ensureContext (pg : page) (s : script) : script * bool :=
  if negb (IS_YOUTUBE pg) then (s, false)
  else if audioCtx s then (s, true)
  else if negb (AudioContextClass pg) then (s, false)
  else (mkScript (currentVolume s) (currentMode s) (eqGains s) true
          (mediaMap s) (hooked s) (destination s), true).

(** [applyEqFilters] on the ten fresh nodes of a chain:
    [typeof gains[index] === "number" ? gains[index] : 0] for each node,
    with [gains = eqGains.length === 10 ? eqGains : new Array(10).fill(0)].
    [node.gain.setValueAtTime] throws a [TypeError] on a value that is not
    finite: the result is [None] then. *)
Definition band_value (v : option jsval) : option Q :=
  match v with
  | Some (VNumber (Fin q)) => Some q
  | Some (VNumber _) => None
  | _ => Some 0
  end.

Definition applyEqFilters (gains : list jsval) : option (list Q) :=
  let g := if Nat.eqb (length gains) 10 then gains else replicate 10 (VNumber (Fin 0)) in
  mapM (fun i => band_value (g !! i)) (seq 0 10).

(**
<<
function hookElementYouTube(el) {
  if (!IS_YOUTUBE) return;
  if (!el) return;
  if (mediaMap.has(el)) return;
  if (el.dataset.soundsphereHooked === "1") return;
  const ctx = ensureContext();
  if (!ctx) return;
  const source = makeSourceForElement(el, ctx);
  if (!source) return;
  try {
    ... nodes created ...
    gain.gain.setValueAtTime(currentVolume, ctx.currentTime);
    applyModeFilter(modeFilter, ctx);
    applyEqFilters(eqNodes, ctx);
    ... source -> gain -> modeFilter -> EQs -> compressor ...
    compressor.connect(ctx.destination);
    el.dataset.soundsphereHooked = "1";
    mediaMap.set(el, { gain, modeFilter, eqNodes });
    ... listeners ...
  } catch (err) { console.error(...); }
}
>> *)
Definition hookElementYouTube (pg : page) (e : element) (s : script) : script :=
  if negb (IS_YOUTUBE pg) then s
  else if bool_decide (is_Some (mediaMap s !! el_id e)) then s
  else if bool_decide (el_id e ∈ hooked s) then s
  else
    let '(s1, ctx) := ensureContext pg s in
    if negb ctx then s1
    else
      match makeSourceForElement e with
      | None => s1
      | Some src =>
          match applyEqFilters (eqGains s1) with
          | None => s1                    (* thrown inside [try]: logged, nothing wired *)
          | Some bands =>
              mkScript (currentVolume s1) (currentMode s1) (eqGains s1) (audioCtx s1)
                (<[el_id e := mkEntry src (currentVolume s1) (currentMode s1) bands]>
                   (mediaMap s1))
                ({[el_id e]} ∪ hooked s1)
                (destination s1 ++ [src])
          end
      end.

(** [scanAndHook(root)]: [hookElementYouTube] on every media element
    under the root, in document order. *)
Definition scanAndHook (pg : page) (els : list element) (s : script) : script :=
  fold_left (fun s e => hookElementYouTube pg e s) els s.

(** Chains connected to the destination on behalf of an element. *)
Definition chains_of (el : nat) (s : script) : nat :=
  length (filter (fun src => source_element src = el) (destination s)).

(** The script's records agree with the graph: an element has one chain
    at the destination when [mediaMap] has it, and none otherwise. *)
Definition binder_inv (s : script) : Prop :=
  forall el,
    chains_of el s =
      if bool_decide (is_Some (mediaMap s !! el)) then 1%nat else 0%nat.

Definition youtube : page := mkPage true true.

End YouTube.

(** ** Chrome tab-capture engine (third unnamed part) *)

Module Engine.
Import JS.
Local Open Scope Q_scope.

(** [TabAudioController], as far as the equalizer goes: the stored vector
    and, when a graph exists, the gain of each of its ten filters. *)
Record controller : Type := mkController {
  currentEq : list jsval;
  eqNodes : option (list Q)     (* [None]: [!this.audioCtx || !this.eqNodes.length] *)
}.

Definition initial : controller :=
  mkController (replicate 10 (VNumber (Fin 0))) None.

(** [nodes.forEach((node, index) => { const gain = typeof gains[index] ===
    "number" ? gains[index] : 0; ... node.gain.setValueAtTime(gain, ...) })]:
    the nodes in order, from index [i]; a number that is not finite makes
    [setValueAtTime] throw, and the nodes after it keep their gain. *)
Fixpoint apply_from (gains : list jsval) (i : nat) (nodes : list Q)
  : list Q * Tap.completion :=
  match nodes with
  | [] => ([], Tap.Returned)
  | n :: rest =>
      match gains !! i with
      | Some (VNumber (Fin q)) =>
          let '(r, c) := apply_from gains (S i) rest in (q :: r, c)
      | Some (VNumber _) => (n :: rest, Tap.Threw)
      | _ =>
          let '(r, c) := apply_from gains (S i) rest in (0 :: r, c)
      end
  end.

(** [_applyEqFilters(nodes, ctx)], with
    [gains = this.currentEq.length === 10 ? this.currentEq
                                          : new Array(10).fill(0)]. *)
Definition _applyEqFilters (eqv : list jsval) (nodes : list Q) : list Q * Tap.completion :=
  let gains := if Nat.eqb (length eqv) 10 then eqv else replicate 10 (VNumber (Fin 0)) in
  apply_from gains 0 nodes.

(**
<<
setEqGains(gains) {
  const arr = Array.isArray(gains) ? gains.slice(0, 10) : [];
  while (arr.length < 10) arr.push(0);
  this.currentEq = arr;
  if (!this.audioCtx || !this.eqNodes.length) return;
  this._applyEqFilters(this.eqNodes, this.audioCtx);
}
>>
    The argument is [None] when it is not an array. *)
Definition setEqGains (gains : option (list jsval)) (c : controller)
  : controller * Tap.completion :=
  let arr := Tap.slice_pad10 (match gains with Some a => a | None => [] end) in
  match eqNodes c with
  | None => (mkController arr None, Tap.Returned)
  | Some nodes =>
      let '(nodes', r) := _applyEqFilters arr nodes in
      (mkController arr (Some nodes'), r)
  end.

(** The gain the engine gives a band: the entry if it is a number, else 0. *)
Definition band_gain (v : jsval) : Q :=
  match v with
  | VNumber (Fin q) => q
  | _ => 0
  end.

(** No entry is a number that is not finite ([NaN], an infinity). *)
Definition finite_numbers (a : list jsval) : Prop :=
  Forall (fun v => match v with VNumber n => isFinite n = true | _ => True end) a.

(** The engine once a tab has been captured: ten filters at 0 dB. *)
Definition capturing : controller :=
  mkController (replicate 10 (VNumber (Fin 0))) (Some (replicate 10 0)).

End Engine.

(** ** FireFox 1.2 content script (popup.js): [DRM_GUARD], [AudioBus],
    [MediaHook], [SoundSpherePageController], the message listener *)

Module PageScript.
Import JS Elements.
Local Open Scope Q_scope.

(** [location.hostname], lower case, as the script tells hosts apart:
    equal to "open.spotify.com", ending in "soundcloud.com", or neither. *)
Inductive site : Type := OpenSpotify | SoundCloud | OtherSite.

(** What [SPOTIFY_TAP.install] finds in the page. *)
Inductive bridge : Type :=
| NoWrappedJSObject
| NoExportFunction
| NoAudioNodeConnect
| ExportThrows (message : string)
| Bridged.

Record host : Type := mkHost {
  location : site;
  AudioContextAvailable : bool;   (* [window.AudioContext || window.webkitAudioContext] *)
  page_bridge : bridge
}.

(** [const IS_SPOTIFY = HOSTNAME === "open.spotify.com"] *)
Definition IS_SPOTIFY (h : host) : bool :=
  match location h with OpenSpotify => true | _ => false end.

(** [clampNumber(v, min, max)]: the text of [clamp] in the page tap. *)
Definition clampNumber (v : jsval) (min max : Q) : Q := Tap.clamp v min max.

(** [AudioContext.state] *)
Inductive context_state : Type := Suspended | Running | Closed.

(** What the script does to the page and to the extension, in order. *)
Inductive effect : Type :=
| SetCrossOriginAnonymous (el : nat)
| SetElementVolume (el : nat) (v : Q)
| SetElementMuted (el : nat) (m : bool)
| AddElementListener (el : nat) (type : string)
| AddDocumentListener (type : string)
| AddWindowListener (type : string)
| ObserveDocument
| SpotifyUiVolumeMute (v : Q) (m : bool)      (* [applySpotifyUiVolumeMute] *)
| SoundCloudUiVolumeMute (v : Q) (m : bool)   (* [applySoundCloudUiVolumeMute] *)
| PostSettingsToTap (p : Tap.payload)
| StorageSet (key : string) (v : jsval)
| StorageSetEq (eqGains : list Q).

(** [DRM_GUARD.state], with [watched] and the elements that still carry
    the one-shot "encrypted" listener. *)
Record drm_guard : Type := mkGuard {
  inUse : bool;
  encryptedEvent : bool;
  mediaKeysSeen : bool;
  lastChangedAt : nat;
  watched : gset nat;
  armed : gset nat
}.

(** [AudioBus] *)
Record audio_bus : Type := mkBus {
  _wired : bool;
  bus_gain : Q;
  bus_eq : list Q;
  modeStage : Tap.tone;
  bus_inputs : list source        (* the nodes connected to [bus.input], oldest first *)
}.

(** [MediaHook] *)
Record media_hook : Type := mkHook {
  sources : gmap nat source;
  hookedCount : nat;
  _pendingRetry : gset nat
}.

(** [SPOTIFY_TAP] *)
Record spotify_tap : Type := mkSpotifyTap {
  installed : bool;
  lastError : string;
  patched : bool;                 (* [exportFunction(patchedConnect, ...)] went through *)
  graph : Tap.tap
}.

(** [SoundSpherePageController] *)
Record controller : Type := mkController {
  spotifyExperimental : bool;
  volumePercent : Q;
  muted : bool;
  mode : Tap.tone;
  eqDb : list Q;
  _observer : bool;               (* [this._observer] is set *)
  _started : bool
}.

(** The whole content script, the page around it, and what it did. *)
Record world : Type := mkWorld {
  ctl : controller;
  bus : audio_bus;
  hook : media_hook;
  guard : drm_guard;
  tap_ready : bool;               (* [WEB_AUDIO_TAP.ready] *)
  tap_lastSeenAt : nat;
  stap : spotify_tap;
  spotifyExperimentalEnabled : bool;
  document : list element;        (* [document.querySelectorAll("audio,video")] *)
  clock : nat;                    (* [Date.now()] *)
  ctx_state : context_state;      (* [bus.ctx.state] once there is a context *)
  effects : list effect
}.

Definition set_ctl (c : controller) (w : world) : world :=
  mkWorld c (bus w) (hook w) (guard w) (tap_ready w) (tap_lastSeenAt w) (stap w)
    (spotifyExperimentalEnabled w) (document w) (clock w) (ctx_state w) (effects w).

Definition set_bus (b : audio_bus) (w : world) : world :=
  mkWorld (ctl w) b (hook w) (guard w) (tap_ready w) (tap_lastSeenAt w) (stap w)
    (spotifyExperimentalEnabled w) (document w) (clock w) (ctx_state w) (effects w).

Definition set_hook (k : media_hook) (w : world) : world :=
  mkWorld (ctl w) (bus w) k (guard w) (tap_ready w) (tap_lastSeenAt w) (stap w)
    (spotifyExperimentalEnabled w) (document w) (clock w) (ctx_state w) (effects w).

Definition set_guard (g : drm_guard) (w : world) : world :=
  mkWorld (ctl w) (bus w) (hook w) g (tap_ready w) (tap_lastSeenAt w) (stap w)
    (spotifyExperimentalEnabled w) (document w) (clock w) (ctx_state w) (effects w).

Definition set_stap (t : spotify_tap) (w : world) : world :=
  mkWorld (ctl w) (bus w) (hook w) (guard w) (tap_ready w) (tap_lastSeenAt w) t
    (spotifyExperimentalEnabled w) (document w) (clock w) (ctx_state w) (effects w).

Definition emit (es : list effect) (w : world) : world :=
  mkWorld (ctl w) (bus w) (hook w) (guard w) (tap_ready w) (tap_lastSeenAt w) (stap w)
    (spotifyExperimentalEnabled w) (document w) (clock w) (ctx_state w) (effects w ++ es).

(** The script as loaded: [new SoundSpherePageController()], an unwired
    bus, nothing hooked, nothing detected. *)
Definition loaded (doc : list element) : world :=
  mkWorld
    (mkController false 100 false Tap.Default (replicate 10 0) false false)
    (mkBus false 1 [] Tap.Default [])
    (mkHook ∅ 0 ∅)
    (mkGuard false false false 0 ∅ ∅)
    false 0
    (mkSpotifyTap false EmptyString false Tap.initial)
    false doc 0 Suspended [].

Section Page.
Variable h : host.

(** *** DRM_GUARD *)

Inductive signal : Type := EncryptedSignal | MediaKeysSignal.

(**
<<
function mark(kind) {
  if (kind === "encrypted") state.encryptedEvent = true;
  if (kind === "mediaKeys") state.mediaKeys = true;
  if (!state.inUse) state.inUse = true;
  state.lastChangedAt = Date.now();
}
>> *)
Definition mark (kind : signal) (w : world) : world :=
  let g := guard w in
  set_guard
    (mkGuard true
       (match kind with EncryptedSignal => true | _ => encryptedEvent g end)
       (match kind with MediaKeysSignal => true | _ => mediaKeysSeen g end)
       (clock w) (watched g) (armed g))
    w.

(** [inspectElement(el)]: [if (el && el.mediaKeys) mark("mediaKeys")] *)
Definition inspectElement (e : element) (w : world) : world :=
  if mediaKeys e then mark MediaKeysSignal w else w.

(**
<<
function watchElement(el) {
  if (!el || watched.has(el)) return;
  watched.add(el);
  inspectElement(el);
  el.addEventListener("encrypted", () => mark("encrypted"), { once: true, ... });
}
>> *)
Definition watchElement (e : element) (w : world) : world :=
  if bool_decide (el_id e ∈ watched (guard w)) then w
  else
    let g := guard w in
    let w1 := set_guard (mkGuard (inUse g) (encryptedEvent g) (mediaKeysSeen g)
                           (lastChangedAt g) ({[el_id e]} ∪ watched g) (armed g)) w in
    let w2 := inspectElement e w1 in
    let g2 := guard w2 in
    emit [AddElementListener (el_id e) "encrypted"]
      (set_guard (mkGuard (inUse g2) (encryptedEvent g2) (mediaKeysSeen g2)
                    (lastChangedAt g2) (watched g2) ({[el_id e]} ∪ armed g2)) w2).

(** [scan()]: [watchElement] on every media element of the document. *)
Definition guard_scan (w : world) : world :=
  fold_left (fun w e => watchElement e w) (document w) w.

(** The one-shot "encrypted" listener of an element fires. *)
Definition element_encrypted (el : nat) (w : world) : world :=
  if bool_decide (el ∈ armed (guard w)) then
    let g := guard w in
    mark EncryptedSignal
      (set_guard (mkGuard (inUse g) (encryptedEvent g) (mediaKeysSeen g)
                    (lastChangedAt g) (watched g) (armed g ∖ {[el]})) w)
  else w.

(** The capture-phase "encrypted" listener of the document, installed on
    Spotify only. *)
Definition document_encrypted (w : world) : world :=
  if IS_SPOTIFY h then mark EncryptedSignal w else w.

(** *** AudioBus *)

(** [ensure()]: [true] at once when wired; [false] without an
    [AudioContext] constructor; else the graph is built (gain 1, ten bands
    at 0 dB, a pass-through mode stage) and two listeners resume the
    context on a user gesture. *)
Definition ensure (w : world) : world * bool :=
  if _wired (bus w) then (w, true)
  else if negb (AudioContextAvailable h) then (w, false)
  else
    (emit [AddWindowListener "pointerdown"; AddWindowListener "keydown"]
       (set_bus (mkBus true 1 (replicate 10 0) Tap.Default (bus_inputs (bus w))) w),
     true).

(** [setGainLinear(value)]: [clampNumber(value, 0, 8)] on the gain node. *)
Definition setGainLinear (value : Q) (w : world) : world :=
  let b := bus w in
  if negb (_wired b) then w
  else set_bus (mkBus (_wired b) (clampNumber (VNumber (Fin value)) 0 8)
                  (bus_eq b) (modeStage b) (bus_inputs b)) w.

(** [setEqDb(dbArray)]: for each band,
    [clampNumber(Number(arr[i]) || 0, -24, 24)]. *)
Definition bus_setEqDb (arr : list jsval) (w : world) : world :=
  let b := bus w in
  if negb (_wired b) then w
  else
    set_bus
      (mkBus (_wired b) (bus_gain b)
         (imap (fun i _ =>
                  let db := num_or (Number (default VUndefined (arr !! i))) (Fin 0) in
                  clampNumber (VNumber db) (-24) 24)
               (bus_eq b))
         (modeStage b) (bus_inputs b))
      w.

(** [setMode(mode)]: the mode segment is rebuilt for [mode]. *)
Definition bus_setMode (m : Tap.tone) (w : world) : world :=
  let b := bus w in
  if negb (_wired b) then w
  else set_bus (mkBus (_wired b) (bus_gain b) (bus_eq b) m (bus_inputs b)) w.

(** *** MediaHook *)

(**
<<
_makeSource(el) {
  const ctx = this.bus.ctx;
  if (!ctx) return null;
  // Attempt 1: MediaElementAudioSourceNode
  try { return ctx.createMediaElementSource(el); } catch {}
  // Attempt 2: captureStream / mozCaptureStream
  try {
    const s = typeof el.captureStream === "function" ? el.captureStream()
            : typeof el.mozCaptureStream === "function" ? el.mozCaptureStream()
            : null;
    if (s) return ctx.createMediaStreamSource(s);
  } catch {}
  return null;
}
>>
    [bus.ctx] is set exactly when the bus is wired. *)
Definition _makeSource (e : element) (w : world) : option source :=
  if negb (_wired (bus w)) then None
  else
    match direct_attempt e with
    | Some s => Some s
    | None => capture_attempt e
    end.

(**
<<
async hook(el) {
  if (!isMediaElement(el)) return false;
  if (IS_SPOTIFY) DRM_GUARD.watchElement(el);
  if (!this.bus.ensure()) return false;
  if (this.sources.has(el)) return true;
  if (!IS_SPOTIFY) { try { if (!el.crossOrigin) el.crossOrigin = "anonymous"; } catch {} }
  const node = this._makeSource(el);
  if (!node) {
    if (!this._pendingRetry.has(el)) {
      this._pendingRetry.add(el);
      ... el.addEventListener("playing", retry, { once: true });
      ... el.addEventListener("loadedmetadata", retry, { once: true });
    }
    return false;
  }
  node.connect(this.bus.input);
  this.sources.set(el, node);
  this.hookedCount++;
  if (IS_SPOTIFY && spotifyExperimentalEnabled) { el.muted = true; el.volume = 1; }
  el.volume = 1;
  return true;
}
>>
    The body has no [await]: it runs to its end when called.  Connecting
    the new source to the input of the bus, a node of the same context,
    is taken to succeed. *)
Definition hook_element (e : element) (w : world) : world * bool :=
  if negb (is_media e) then (w, false)
  else
    let w1 := if IS_SPOTIFY h then watchElement e w else w in
    let '(w2, ok) := ensure w1 in
    if negb ok then (w2, false)
    else if bool_decide (is_Some (sources (hook w2) !! el_id e)) then (w2, true)
    else
      let w3 := if negb (IS_SPOTIFY h) && negb (crossOrigin e)
                then emit [SetCrossOriginAnonymous (el_id e)] w2 else w2 in
      match _makeSource e w3 with
      | None =>
          let k := hook w3 in
          if bool_decide (el_id e ∈ _pendingRetry k) then (w3, false)
          else
            (emit [AddElementListener (el_id e) "playing";
                   AddElementListener (el_id e) "loadedmetadata"]
               (set_hook (mkHook (sources k) (hookedCount k)
                            ({[el_id e]} ∪ _pendingRetry k)) w3),
             false)
      | Some node =>
          let k := hook w3 in
          let b := bus w3 in
          let w4 :=
            set_hook (mkHook (<[el_id e := node]> (sources k)) (S (hookedCount k))
                        (_pendingRetry k))
              (set_bus (mkBus (_wired b) (bus_gain b) (bus_eq b) (modeStage b)
                          (bus_inputs b ++ [node])) w3) in
          let w5 := if IS_SPOTIFY h && spotifyExperimentalEnabled w4
                    then emit [SetElementMuted (el_id e) true;
                               SetElementVolume (el_id e) 1] w4
                    else w4 in
          (emit [SetElementVolume (el_id e) 1] w5, true)
      end.

(** [scan(root)]: [hook] on every media element under the root. *)
Definition hook_scan (els : list element) (w : world) : world :=
  fold_left (fun w e => fst (hook_element e w)) els w.

(** One of the two one-shot retry listeners of an element fires
    ("playing" or "loadedmetadata"):
    [this._pendingRetry.delete(el); this.hook(el)]. *)
Definition retry (e : element) (w : world) : world :=
  let k := hook w in
  fst (hook_element e
         (set_hook (mkHook (sources k) (hookedCount k)
                      (_pendingRetry k ∖ {[el_id e]})) w)).

(** *** SPOTIFY_TAP *)

(** [install()]: once; on Spotify only; [lastError] names what is missing
    in the page, and the patch goes in when nothing is. *)
Definition install (w : world) : world :=
  let t := stap w in
  if installed t then w
  else
    let t1 := mkSpotifyTap true (lastError t) (patched t) (graph t) in
    if negb (IS_SPOTIFY h) then set_stap t1 w
    else
      match page_bridge h with
      | NoWrappedJSObject =>
          set_stap (mkSpotifyTap true "wrappedJSObject unavailable" (patched t) (graph t)) w
      | NoExportFunction =>
          set_stap (mkSpotifyTap true "exportFunction unavailable" (patched t) (graph t)) w
      | NoAudioNodeConnect =>
          set_stap (mkSpotifyTap true "AudioNode.connect unavailable" (patched t) (graph t)) w
      | ExportThrows m =>
          set_stap (mkSpotifyTap true m (patched t) (graph t)) w
      | Bridged =>
          set_stap (mkSpotifyTap true (lastError t) true (graph t)) w
      end.

(** [engaged()]: [contexts.size > 0] *)
Definition engaged (w : world) : bool :=
  negb (Nat.eqb (size (Tap.seenContexts (graph (stap w)))) 0).

(** [info()] *)
Record tap_info : Type := mkTapInfo {
  info_installed : bool;
  info_contexts : nat;
  info_lastError : string
}.

Definition info (w : world) : tap_info :=
  mkTapInfo (installed (stap w)) (size (Tap.seenContexts (graph (stap w))))
    (lastError (stap w)).

(** [apply(payload)] *)
Definition tap_apply (p : Tap.payload) (w : world) : world :=
  let t := stap w in
  set_stap (mkSpotifyTap (installed t) (lastError t) (patched t)
              (Tap.SS_SETTINGS p (graph t))) w.

(** *** SoundSpherePageController *)

Definition mode_string (m : Tap.tone) : string :=
  match m with
  | Tap.Default => "default"
  | Tap.Voice => "voice"
  | Tap.Bass => "bass"
  end.

(** [{ volumePercent: clampNumber(this.volumePercent, 0, 800),
       muted: !!this.muted, mode: this.mode, eq: this.eqDb.slice() }] *)
Definition settings_payload (c : controller) : Tap.payload :=
  Tap.mkPayload
    (VNumber (Fin (clampNumber (VNumber (Fin (volumePercent c))) 0 800)))
    VUndefined
    (VBool (muted c))
    (VString (mode_string (mode c)))
    (Some (map (fun q => VNumber (Fin q)) (eqDb c))).

(** The last lines of [_applyAll]: the volume and mute of every media
    element, then the per-site control. *)
Definition basic_controls (w : world) : world :=
  let c := ctl w in
  let v := clampNumber (VNumber (Fin (volumePercent c))) 0 100 / 100 in
  let w1 :=
    emit (flat_map (fun e => [SetElementMuted (el_id e) (muted c);
                              SetElementVolume (el_id e) v]) (document w)) w in
  match location h with
  | OpenSpotify => emit [SpotifyUiVolumeMute v (muted c)] w1
  | SoundCloud => emit [SoundCloudUiVolumeMute v (muted c)] w1
  | OtherSite => w1
  end.

(**
<<
_applyAll() {
  if (IS_SPOTIFY && !this.spotifyExperimental) {
    const v = clampNumber(this.volumePercent, 0, 100) / 100;
    applySpotifyUiVolumeMute(v, !!this.muted);
    return;
  }
  const usingWebAudio = this.bus._wired && this.hook.hookedCount > 0;
  const usingGenericTap = WEB_AUDIO_TAP.ready;
  const usingSpotifyTap = IS_SPOTIFY && this.spotifyExperimental && SPOTIFY_TAP.engaged();
  const payload = { ... };
  if (IS_SPOTIFY && this.spotifyExperimental) {
    SPOTIFY_TAP.apply(payload);
    if (usingSpotifyTap) return;
  }
  if (usingWebAudio) {
    const gainLinear = this.muted ? 0 : clampNumber(this.volumePercent, 0, 800) / 100;
    this.bus.setGainLinear(gainLinear);
    this.bus.setEqDb(this.eqDb);
    this.bus.setMode(this.mode);
    return;
  }
  if (usingGenericTap) { postSettingsToTap(payload); return; }
  ... basic element controls ...
}
>> *)
Definition _applyAll (w : world) : world :=
  let c := ctl w in
  if IS_SPOTIFY h && negb (spotifyExperimental c) then
    emit [SpotifyUiVolumeMute
            (clampNumber (VNumber (Fin (volumePercent c))) 0 100 / 100) (muted c)] w
  else
    let usingWebAudio := _wired (bus w) && negb (Nat.eqb (hookedCount (hook w)) 0) in
    let usingGenericTap := tap_ready w in
    let usingSpotifyTap := IS_SPOTIFY h && spotifyExperimental c && engaged w in
    let payload := settings_payload c in
    let w1 := if IS_SPOTIFY h && spotifyExperimental c then tap_apply payload w else w in
    if IS_SPOTIFY h && spotifyExperimental c && usingSpotifyTap then w1
    else if usingWebAudio then
      let gainLinear :=
        if muted c then 0
        else clampNumber (VNumber (Fin (volumePercent c))) 0 800 / 100 in
      bus_setMode (mode c)
        (bus_setEqDb (map (fun q => VNumber (Fin q)) (eqDb c))
           (setGainLinear gainLinear w1))
    else if usingGenericTap then emit [PostSettingsToTap payload] w1
    else basic_controls w1.

(**
<<
_installMediaHooks() {
  if (this._observer) return;
  this.hook.scan();
  this._observer = new MutationObserver(...);
  try { this._observer.observe(document.documentElement || document, ...); } catch {}
  document.addEventListener("play", ..., true);
}
>> *)
Definition _installMediaHooks (w : world) : world :=
  if _observer (ctl w) then w
  else
    let w1 := hook_scan (document w) w in
    let c := ctl w1 in
    emit [ObserveDocument; AddDocumentListener "play"]
      (set_ctl (mkController (spotifyExperimental c) (volumePercent c) (muted c)
                  (mode c) (eqDb c) true (_started c)) w1).

(**
<<
start() {
  if (this._started) return;
  this._started = true;
  if (!IS_SPOTIFY) this._installMediaHooks();
  else if (this.spotifyExperimental) SPOTIFY_TAP.install();
  this._applyAll();
}
>> *)
Definition start (w : world) : world :=
  let c := ctl w in
  if _started c then w
  else
    let w1 := set_ctl (mkController (spotifyExperimental c) (volumePercent c) (muted c)
                         (mode c) (eqDb c) (_observer c) true) w in
    let w2 := if negb (IS_SPOTIFY h) then _installMediaHooks w1
              else if spotifyExperimental c then install w1
              else w1 in
    _applyAll w2.

(** [setVolumePercent(pct)] *)
Definition setVolumePercent (pct : jsval) (w : world) : world :=
  let c := ctl w in
  _applyAll
    (start (set_ctl (mkController (spotifyExperimental c) (clampNumber pct 0 800)
                       (muted c) (mode c) (eqDb c) (_observer c) (_started c)) w)).

(** [setMuted(m)] *)
Definition setMuted (m : jsval) (w : world) : world :=
  let c := ctl w in
  _applyAll
    (start (set_ctl (mkController (spotifyExperimental c) (volumePercent c)
                       (truthy m) (mode c) (eqDb c) (_observer c) (_started c)) w)).

(** [setMode(mode)] *)
Definition setMode (m : jsval) (w : world) : world :=
  let c := ctl w in
  _applyAll
    (start (set_ctl (mkController (spotifyExperimental c) (volumePercent c)
                       (muted c) (Tap.mode_of m) (eqDb c) (_observer c) (_started c)) w)).

(**
<<
setEqDb(arr) {
  const a = Array.isArray(arr) ? arr.slice(0, 10) : [];
  while (a.length < 10) a.push(0);
  this.eqDb = a.map((x) => clampNumber(x, -24, 24));
  this.start();
  this._applyAll();
}
>>
    The argument is [None] when it is not an array. *)
Definition stored_eq (arr : option (list jsval)) : list Q :=
  map (fun x => clampNumber x (-24) 24)
      (Tap.slice_pad10 (match arr with Some a => a | None => [] end)).

Definition setEqDb (arr : option (list jsval)) (w : world) : world :=
  let c := ctl w in
  _applyAll
    (start (set_ctl (mkController (spotifyExperimental c) (volumePercent c)
                       (muted c) (mode c) (stored_eq arr) (_observer c) (_started c)) w)).

(** The object [getState()] returns. *)
Inductive backend_kind : Type :=
| Protected | WebAudio | SpotifyTapBackend | TapBackend | ElementBackend.

Record page_state : Type := mkState {
  st_volume : Q;
  st_muted : bool;
  st_mode : Tap.tone;
  st_eq : list Q;
  canBoost : bool;
  backend : backend_kind;
  st_hooked : nat;
  ctxState : option context_state;     (* [None]: "none" *)
  tapInfo : option tap_info;
  drm : bool;
  drmSignals : option (bool * bool * nat);
  blockedEffects : bool;
  blockReason : option string
}.

Definition protected_notice : string :=
  "Protected playback detected (DRM/Widevine). Advanced SoundSphere processing is not available for Spotify in this browser session. Mute and 0–100% volume remain supported.".

(**
<<
getState() {
  const usingWebAudio = this.bus._wired && this.hook.hookedCount > 0;
  const usingSpotifyTap = IS_SPOTIFY && this.spotifyExperimental && SPOTIFY_TAP.engaged();
  const usingTap = WEB_AUDIO_TAP.ready || usingSpotifyTap;
  const drmInUse = IS_SPOTIFY && DRM_GUARD.state.inUse;
  const blockedEffects = !!drmInUse;
  const canBoost = !blockedEffects && (usingWebAudio || usingTap);
  const backend = blockedEffects ? "protected"
    : (usingWebAudio ? "webaudio"
       : (usingSpotifyTap ? "spotifyTap" : (usingTap ? "tap" : "element")));
  const blockReason = blockedEffects ? "Protected playback detected ..." : null;
  return { volume, muted, mode, eq, canBoost, backend, hooked, ctxState,
           tapInfo, drm, drmSignals, blockedEffects, blockReason };
}
>> *)
Definition getState (w : world) : page_state :=
  let c := ctl w in
  let usingWebAudio := _wired (bus w) && negb (Nat.eqb (hookedCount (hook w)) 0) in
  let usingSpotifyTap := IS_SPOTIFY h && spotifyExperimental c && engaged w in
  let usingTap := tap_ready w || usingSpotifyTap in
  let drmInUse := IS_SPOTIFY h && inUse (guard w) in
  let blocked := drmInUse in
  mkState
    (volumePercent c) (muted c) (mode c) (eqDb c)
    (negb blocked && (usingWebAudio || usingTap))
    (if blocked then Protected
     else if usingWebAudio then WebAudio
     else if usingSpotifyTap then SpotifyTapBackend
     else if usingTap then TapBackend
     else ElementBackend)
    (hookedCount (hook w))
    (if _wired (bus w) then Some (ctx_state w) else None)
    (if IS_SPOTIFY h then Some (info w) else None)
    drmInUse
    (if IS_SPOTIFY h
     then Some (encryptedEvent (guard w), mediaKeysSeen (guard w), lastChangedAt (guard w))
     else None)
    blocked
    (if blocked then Some protected_notice else None).

(** *** The message listener *)

Inductive message : Type :=
| GetState
| SetVolume (volume : jsval)
| ToggleMute
| SetMuted (m : jsval)
| SetMode (m : jsval)
| SetEqGains (gains : option (list jsval)).

Inductive response : Type :=
| StateResponse (s : page_state)
| Ok
| OkMuted (m : bool).

(**
<<
API.runtime.onMessage.addListener((msg, _sender, sendResponse) => {
  if (msg.action === "getState") {
    controller.start();
    sendResponse(controller.getState());
    return;
  }
  if (msg.action === "setVolume") {
    controller.setVolumePercent(msg.volume);
    try { API.storage.sync.set({ vol_global: controller.volumePercent }); } catch {}
    sendResponse({ ok: true });
    return;
  }
  ... toggleMute, setMuted, setMode, setEqGains alike ...
});
>> *)
Definition onMessage (msg : message) (w : world) : world * response :=
  match msg with
  | GetState =>
      let w1 := start w in (w1, StateResponse (getState w1))
  | SetVolume v =>
      let w1 := setVolumePercent v w in
      (emit [StorageSet "vol_global" (VNumber (Fin (volumePercent (ctl w1))))] w1, Ok)
  | ToggleMute =>
      let w1 := setMuted (VBool (negb (muted (ctl w)))) w in
      (emit [StorageSet "muted" (VBool (muted (ctl w1)))] w1, OkMuted (muted (ctl w1)))
  | SetMuted m =>
      let w1 := setMuted (VBool (truthy m)) w in
      (emit [StorageSet "muted" (VBool (muted (ctl w1)))] w1, OkMuted (muted (ctl w1)))
  | SetMode m =>
      let w1 := setMode m w in
      (emit [StorageSet "mode" (VString (mode_string (mode (ctl w1))))] w1, Ok)
  | SetEqGains gains =>
      let w1 := setEqDb gains w in
      (emit [StorageSetEq (eqDb (ctl w1))] w1, Ok)
  end.

(** *** Everything that can happen to the script *)

(** A node added to the document, as the mutation observer sees it: a
    media element, or a subtree with the media elements under it. *)
Inductive added_node : Type :=
| AddedMedia (e : element)
| AddedSubtree (els : list element).

Inductive event : Type :=
| Message (m : message)
| StorageLoaded (data_mode : jsval) (data_eq : option (list jsval))
    (data_muted : jsval) (data_vol : jsval) (data_experimental : jsval)
| ExperimentalChanged (newValue : jsval)
| Mutation (nodes : list added_node)
| Play (e : element)
| RetryFires (e : element)
| Encrypted (el : nat)
| DocumentEncrypted
| GuardScan
| TapAnnounces                         (* SS_TAP_READY or SS_TAP_PONG *)
| PageConnects (native_throws : nat -> Tap.node -> Tap.target -> bool)
    (this : Tap.page_node) (dest : Tap.page_target)
| DocumentBecomes (els : list element)
| ClockBecomes (t : nat)
| ContextBecomes (s : context_state).

(** The mutation observer's callback on one added node. *)
Definition observe_added (n : added_node) (w : world) : world :=
  match n with
  | AddedMedia e => fst (hook_element e w)
  | AddedSubtree els => hook_scan els w
  end.

(** The callback of [API.storage.sync.get] at load. *)
Definition storage_loaded (d_mode : jsval) (d_eq : option (list jsval))
    (d_muted d_vol d_exp : jsval) (w : world) : world :=
  let c := ctl w in
  let w1 := set_ctl (mkController (truthy d_exp) (volumePercent c) (muted c) (mode c)
                       (eqDb c) (_observer c) (_started c)) w in
  let w2 := mkWorld (ctl w1) (bus w1) (hook w1) (guard w1) (tap_ready w1)
              (tap_lastSeenAt w1) (stap w1) (truthy d_exp) (document w1) (clock w1)
              (ctx_state w1) (effects w1) in
  let w3 := if IS_SPOTIFY h && truthy d_exp then install w2 else w2 in
  let vol := num_or (Number d_vol) (Fin 100) in
  setVolumePercent (VNumber vol)
    (setMuted (VBool (truthy d_muted)) (setEqDb d_eq (setMode d_mode w3))).

(** The listener of [API.storage.onChanged] for [spotifyExperimental]. *)
Definition experimental_changed (v : jsval) (w : world) : world :=
  let c := ctl w in
  let w1 := set_ctl (mkController (truthy v) (volumePercent c) (muted c) (mode c)
                       (eqDb c) (_observer c) (_started c)) w in
  let w2 := mkWorld (ctl w1) (bus w1) (hook w1) (guard w1) (tap_ready w1)
              (tap_lastSeenAt w1) (stap w1) (truthy v) (document w1) (clock w1)
              (ctx_state w1) (effects w1) in
  let w3 := if IS_SPOTIFY h && truthy v then install w2 else w2 in
  _applyAll (start w3).

Definition step (w : world) (e : event) : world :=
  match e with
  | Message m => fst (onMessage m w)
  | StorageLoaded d_mode d_eq d_muted d_vol d_exp =>
      storage_loaded d_mode d_eq d_muted d_vol d_exp w
  | ExperimentalChanged v => experimental_changed v w
  | Mutation nodes =>
      if _observer (ctl w) then fold_left (fun w n => observe_added n w) nodes w else w
  | Play e =>
      if _observer (ctl w) then fst (hook_element e w) else w
  | RetryFires e => retry e w
  | Encrypted el => element_encrypted el w
  | DocumentEncrypted => document_encrypted w
  | GuardScan => if IS_SPOTIFY h then guard_scan w else w
  | TapAnnounces =>
      mkWorld (ctl w) (bus w) (hook w) (guard w) true (clock w) (stap w)
        (spotifyExperimentalEnabled w) (document w) (clock w) (ctx_state w) (effects w)
  | PageConnects nt this dest =>
      let t := stap w in
      if patched t then
        set_stap (mkSpotifyTap (installed t) (lastError t) (patched t)
                    (fst (Tap.patchedConnect nt Tap.Spotify (Tap.Page this)
                            (Tap.to_target dest) (graph t)))) w
      else w
  | DocumentBecomes els =>
      mkWorld (ctl w) (bus w) (hook w) (guard w) (tap_ready w) (tap_lastSeenAt w) (stap w)
        (spotifyExperimentalEnabled w) els (clock w) (ctx_state w) (effects w)
  | ClockBecomes t =>
      mkWorld (ctl w) (bus w) (hook w) (guard w) (tap_ready w) (tap_lastSeenAt w) (stap w)
        (spotifyExperimentalEnabled w) (document w) t (ctx_state w) (effects w)
  | ContextBecomes s =>
      mkWorld (ctl w) (bus w) (hook w) (guard w) (tap_ready w) (tap_lastSeenAt w) (stap w)
        (spotifyExperimentalEnabled w) (document w) (clock w) s (effects w)
  end.

Definition run (es : list event) (w : world) : world := fold_left step es w.

(** Sources wired into the bus on behalf of an element. *)
Definition bound_chains (el : nat) (w : world) : nat :=
  length (filter (fun s => source_element s = el) (bus_inputs (bus w))).

(** The binder's records agree with the graph: an element has one source
    wired into the bus when [sources] has it, and none otherwise. *)
Definition binder_inv (w : world) : Prop :=
  forall el,
    bound_chains el w =
      if bool_decide (is_Some (sources (hook w) !! el)) then 1%nat else 0%nat.

End Page.

(** A wired bus has its ten bands. *)
Definition bus_ok (w : world) : Prop :=
  _wired (bus w) = true -> length (bus_eq (bus w)) = 10%nat.

(** Two relations between a world and a later one.  Both say that the
    guard has not left the state "in use", that the controller has not
    left the state "started", and that a wired bus kept its ten bands.
    [frame] adds that the graph inputs, the bound sources and the stored
    equalizer vector are the same; [keeps], only that the binder's
    invariant and the length of the stored vector are kept. *)
Definition frame (w w' : world) : Prop :=
  (inUse (guard w) = true -> inUse (guard w') = true) /\
  (_started (ctl w) = true -> _started (ctl w') = true) /\
  (bus_ok w -> bus_ok w') /\
  bus_inputs (bus w') = bus_inputs (bus w) /\
  sources (hook w') = sources (hook w) /\
  eqDb (ctl w') = eqDb (ctl w).

Definition keeps (w w' : world) : Prop :=
  (inUse (guard w) = true -> inUse (guard w') = true) /\
  (_started (ctl w) = true -> _started (ctl w') = true) /\
  (bus_ok w -> bus_ok w') /\
  (binder_inv w -> binder_inv w') /\
  (length (eqDb (ctl w)) = 10%nat -> length (eqDb (ctl w')) = 10%nat).

(** Hosts and pages used in the examples. *)
Definition spotify_host : host := mkHost OpenSpotify true NoWrappedJSObject.
Definition plain_host : host := mkHost OtherSite true NoWrappedJSObject.

(** A Spotify page on which the document-level "encrypted" listener has
    fired once. *)
Definition spotify_protected : world :=
  run spotify_host [ClockBecomes 5; DocumentEncrypted] (loaded []).

(** What follows on that page: a new element is tapped with success, the
    generic tap announces itself, and the popup asks for 700 percent. *)
Definition later_taps : list event :=
  [RetryFires (both_ways 2); TapAnnounces;
   Message (SetVolume (VNumber (Fin 700)))].

(** A plain page with one video element, the script just loaded. *)
Definition fresh_page : world := loaded [both_ways 1].

(** That page once the popup has asked for the state: the bus is wired. *)
Definition started_page : world := run plain_host [Message GetState] fresh_page.

(** The same element reported three times over: by the first scan, by the
    mutation observer twice, and by the "play" listener. *)
Definition same_element_again : list event :=
  [Message GetState;
   Mutation [AddedMedia (both_ways 1); AddedSubtree [both_ways 1]];
   Play (both_ways 1)].

End PageScript.

From Stdlib Require Floats.SpecFloat Floats.FloatOps.
From Stdlib Require Numbers.Cyclic.Int63.Uint63.

(** ** The soft clipper of the master chain ([makeSoftClipCurve]) *)

(** The table is computed as the code computes it: every operation on
    binary64 (the kernel's floats), every store into the [Float32Array]
    rounded to binary32. *)
Module SoftClip.
Import PrimFloat SpecFloat FloatOps.

Definition N : nat := 2048.

(** The loop index, an integer, as a number. *)
Definition of_index (i : nat) : float := of_uint63 (Uint63.of_Z (Z.of_nat i)).

(** [const x = (i / (N - 1)) * 2 - 1;] *)
Definition x_at (i : nat) : float :=
  ((of_index i / of_index (N - 1)) * 2 - 1)%float.

(** [x / (1 + 0.65 * Math.abs(x))]; the literal [0.65] is the binary64
    number [0x1.4cccccccccccdp-1]. *)
Definition shape (x : float) : float :=
  (x / (1 + 0x1.4cccccccccccdp-1 * abs x))%float.

(** A store into a [Float32Array]: the nearest binary32 number, ties to
    even (24 bits of precision, exponents up to 128); zeros, infinities
    and [NaN] are stored as they are. *)
Definition fround (x : float) : spec_float :=
  match Prim2SF x with
  | S754_finite s m e => binary_round 24 128 s m e
  | sf => sf
  end.

(**
<<
function makeSoftClipCurve() {
  const N = 2048;
  const curve = new Float32Array(N);
  for (let i = 0; i < N; i++) {
    const x = (i / (N - 1)) * 2 - 1;
    curve[i] = x / (1 + 0.65 * Math.abs(x));
  }
  return curve;
}
>> *)
Definition makeSoftClipCurve : list spec_float :=
  map (fun i => fround (shape (x_at i))) (seq 0 N).

(** A sample is a number (not an infinity, not [NaN]). *)
Definition is_number (f : spec_float) : bool :=
  match f with
  | S754_zero _ | S754_finite _ _ _ => true
  | _ => false
  end.

(** The rational a sample stands for: [m * 2 ^ e], with its sign. *)
Definition value (f : spec_float) : Q :=
  match f with
  | S754_finite s m e =>
      let z := if s then Z.neg m else Z.pos m in
      if (0 <=? e)%Z then inject_Z (z * 2 ^ e) else z # Z.to_pos (2 ^ (- e))
  | _ => 0
  end.

(** The largest sample: [10168010 / 2 ^ 24], about 0.60606062. *)
Definition peak : Q := 10168010 # 16777216.

(** Each value is below the next one. *)
Fixpoint rising (l : list Q) : bool :=
  match l with
  | a :: (b :: _) as rest => negb (Qle_bool b a) && rising rest
  | _ => true
  end.

(** The values of [l] are the opposites of the values of [r], place by
    place. *)
Fixpoint opposite (l r : list Q) : bool :=
  match l, r with
  | a :: l', b :: r' => Qeq_bool a (- b) && opposite l' r'
  | [], [] => true
  | _, _ => false
  end.

End SoftClip.

(** ** The tap: what holds of every state it reaches *)

Module TapReach.
Import JS Tap.
Local Open Scope Q_scope.

(** The range of an equalizer band, in dB. *)
Definition band_ok (q : Q) : Prop := -24 <= q <= 24.

(** The stored settings and the values pushed to the nodes are inside the
    ranges of [clamp]: the volume in [[0, 800]], the linear gain in
    [[0, 8]], every band in [[-24, 24]]. *)
Definition bounded (w : tap) : Prop :=
  0 <= volumePercent (state w) <= 800 /\
  Forall band_ok (eq (state w)) /\
  forall ctx ch, chains w !! ctx = Some ch ->
    0 <= gain_value ch <= 8 /\ Forall band_ok (eq_gain ch).

(** A chain carries the settings [st]: its gain is [volumePercent / 100]
    (0 when muted), its filters hold the stored bands, its mode segment
    is the stored mode. *)
Definition in_sync (st : settings) (ch : chain) : Prop :=
  gain_value ch == (if muted st then 0 else volumePercent st / 100) /\
  Forall2 Qeq (eq_gain ch) (eq st) /\
  mode_name ch = mode st.

(** Two chains hold the same node values (the [connected] flag apart). *)
Definition same_values (a b : chain) : Prop :=
  gain_value a = gain_value b /\ eq_gain a = eq_gain b /\ mode_name a = mode_name b.

(** What every state the tap reaches satisfies: ten bands everywhere, the
    stored settings in range, every chain registered in [seenContexts] and
    holding the values [applySettings] computes from the stored settings. *)
Definition reach_inv (w : tap) : Prop :=
  ten_bands w /\
  0 <= volumePercent (state w) <= 800 /\
  Forall band_ok (eq (state w)) /\
  forall ctx ch, chains w !! ctx = Some ch ->
    ctx ∈ seenContexts w /\
    same_values ch (applySettings (state w) buildChain).

(** A native call that connects a page node straight to the destination
    of its own context. *)
Definition direct_call (c : node * target) : Prop :=
  exists n, c = (Page n, ToNode (Page (Dest (context (Page n))))).

(** A payload that carries a volume and nothing else. *)
Definition only_volume (pct : Q) : payload :=
  mkPayload (VNumber (Fin pct)) VUndefined VUndefined VUndefined None.

(** A payload of the older protocol: the volume under the key [volume]. *)
Definition legacy_volume (pct : Q) : payload :=
  mkPayload VUndefined (VNumber (Fin pct)) VUndefined VUndefined None.

(** A native [connect] that refuses every connection into the master
    input of context 1. *)
Definition routing_throws : nat -> node -> target -> bool :=
  fun _ _ d => bool_decide (d = ToNode (MasterInput 1)).

End TapReach.

(** ** The content script: what holds of every state it reaches *)

Module PageReach.
Import JS Elements PageScript.
Local Open Scope Q_scope.

(** The stored settings are inside the ranges of [clampNumber]. *)
Definition ctl_ok (c : controller) : Prop :=
  0 <= volumePercent c <= 800 /\
  length (eqDb c) = 10%nat /\
  Forall TapReach.band_ok (eqDb c).

(** The nodes of a wired bus hold values inside those ranges. *)
Definition bus_in_range (b : audio_bus) : Prop :=
  _wired b = true ->
  0 <= bus_gain b <= 8 /\
  length (bus_eq b) = 10%nat /\
  Forall TapReach.band_ok (bus_eq b).

(** The counter of the binder, its map and the inputs of the bus agree. *)
Definition counted (w : world) : Prop :=
  hookedCount (hook w) = length (bus_inputs (bus w)) /\
  size (sources (hook w)) = hookedCount (hook w) /\
  (_wired (bus w) = false -> bus_inputs (bus w) = []).

(** A payload for the tap that carries a volume in [[0, 800]] and ten
    bands in [[-24, 24]]. *)
Definition payload_ok (p : Tap.payload) : Prop :=
  (exists q, Tap.p_volumePercent p = VNumber (Fin q) /\ 0 <= q <= 800) /\
  (exists l, Tap.p_eq p = Some (map (fun q => VNumber (Fin q)) l) /\
             length l = 10%nat /\ Forall TapReach.band_ok l).

(** What the script writes is in range: a volume given to a media element
    or to the player of the site lies in [[0, 1]]; a payload posted to the
    tap, a volume and a vector put into the storage lie in the ranges of
    the settings. *)
Definition effect_ok (e : effect) : Prop :=
  match e with
  | SetElementVolume _ v => 0 <= v <= 1
  | SpotifyUiVolumeMute v _ => 0 <= v <= 1
  | SoundCloudUiVolumeMute v _ => 0 <= v <= 1
  | PostSettingsToTap p => payload_ok p
  | StorageSet _ (VNumber n) => exists q, n = Fin q /\ 0 <= q <= 800
  | StorageSetEq l => length l = 10%nat /\ Forall TapReach.band_ok l
  | _ => True
  end.

(** How many times the "encrypted" listener was added to an element. *)
Definition is_encrypted_listener (el : nat) (e : effect) : bool :=
  match e with
  | AddElementListener x type => bool_decide (x = el) && String.eqb type "encrypted"
  | _ => false
  end.

Definition encrypted_listeners (el : nat) (l : list effect) : nat :=
  length (filter (fun e => is_encrypted_listener el e = true) l).

(** Effects among which there is no "encrypted" listener. *)
Definition plain (es : list effect) : Prop :=
  forall el, encrypted_listeners el es = 0%nat.

(** The guard added its listener once to each element it watches and to
    no other; only watched elements still carry it. *)
Definition watched_once (w : world) : Prop :=
  (forall el, encrypted_listeners el (effects w) =
              if bool_decide (el ∈ watched (guard w)) then 1%nat else 0%nat) /\
  armed (guard w) ⊆ watched (guard w).

Definition page_inv (w : world) : Prop :=
  ctl_ok (ctl w) /\
  bus_in_range (bus w) /\
  counted w /\
  Forall effect_ok (effects w) /\
  watched_once w /\
  TapReach.reach_inv (graph (stap w)).

(** A chain of the graph tap carries the settings of the controller. *)
Definition follows (c : controller) (ch : Tap.chain) : Prop :=
  Tap.gain_value ch == (if muted c then 0 else volumePercent c / 100) /\
  Forall2 Qeq (Tap.eq_gain ch) (eqDb c) /\
  Tap.mode_name ch = mode c.

(** The settings of the graph tap are those of the controller. *)
Definition settings_match (c : controller) (st : Tap.settings) : Prop :=
  Tap.volumePercent st == volumePercent c /\
  Tap.muted st = muted c /\
  Tap.mode st = mode c /\
  Forall2 Qeq (Tap.eq st) (eqDb c).

(** On Spotify, while the experimental flag is set, the graph tap holds
    the settings of the controller. *)
Definition tap_synced (h : host) (w : world) : Prop :=
  IS_SPOTIFY h = true -> spotifyExperimental (ctl w) = true ->
  settings_match (ctl w) (Tap.state (graph (stap w))).

(** The four settings of the controller. *)
Definition settings_of (c : controller) : Q * bool * Tap.tone * list Q :=
  (volumePercent c, muted c, mode c, eqDb c).

(** The values the nodes of the bus hold. *)
Definition bus_values (b : audio_bus) : Q * list Q * Tap.tone :=
  (bus_gain b, bus_eq b, modeStage b).

(** A Spotify page whose bridge to the page's [AudioNode] is there. *)
Definition spotify_bridged : host := mkHost OpenSpotify true Bridged.

(** A plain page without media at first: the stored settings (50 %, voice)
    arrive; then a video element is added to the document. *)
Definition stored_voice_50 : list event :=
  [StorageLoaded (VString "voice") None (VBool false) (VNumber (Fin 50)) VUndefined].

Definition late_media : list event :=
  stored_voice_50 ++ [Mutation [AddedMedia (both_ways 1)]].

(** On Spotify with the experimental flag: the settings arrive, a node of
    the player connects to its destination, and the popup asks for 250 %. *)
Definition spotify_session : list event :=
  [StorageLoaded (VString "bass") None (VBool false) (VNumber (Fin 120)) (VBool true);
   PageConnects Tap.never_throws (Tap.Created 1 1) (Tap.AtNode (Tap.Dest 1));
   Message (SetVolume (VNumber (Fin 250)))].

(** While nothing is bound, a wired bus is as [ensure] built it: unity
    gain, ten bands at 0 dB, the default mode. *)
Definition fresh_bus (w : world) : Prop :=
  hookedCount (hook w) = 0%nat -> _wired (bus w) = true ->
  bus_values (bus w) = (1, replicate 10 0, Tap.Default).

(** The settings a response to [getState] reports. *)
Definition reported (r : response) : option (Q * bool * Tap.tone * list Q) :=
  match r with
  | StateResponse s => Some (st_volume s, st_muted s, st_mode s, st_eq s)
  | _ => None
  end.

(** The settings after a message, from the settings before it: each
    message replaces the one setting it names. *)
Definition after_message (m : message) (c : controller) : Q * bool * Tap.tone * list Q :=
  match m with
  | GetState => (volumePercent c, muted c, mode c, eqDb c)
  | SetVolume v => (clampNumber v 0 800, muted c, mode c, eqDb c)
  | ToggleMute => (volumePercent c, negb (muted c), mode c, eqDb c)
  | SetMuted x => (volumePercent c, truthy x, mode c, eqDb c)
  | SetMode x => (volumePercent c, muted c, Tap.mode_of x, eqDb c)
  | SetEqGains g => (volumePercent c, muted c, mode c, stored_eq g)
  end.

End PageReach.

(** ** Chrome YouTube content script: the message listener and the
    clean-up of a chain *)

Module YouTubeMessages.
Import JS Elements YouTube.
Local Open Scope Q_scope.

(** A property of a runtime message.  The message is JSON: a number in it
    is finite, and a property that is not there reads as [undefined]. *)
Inductive json : Type :=
| JAbsent
| JNull
| JBool (b : bool)
| JNumber (q : Q)
| JString (s : string).

Definition to_jsval (j : json) : jsval :=
  match j with
  | JAbsent => VUndefined
  | JNull => VNull
  | JBool b => VBool b
  | JNumber q => VNumber (Fin q)
  | JString s => VString s
  end.

(** [IS_BANDCAMP] and [IS_SOUNDCLOUD]. *)
Record flags : Type := mkFlags {
  IS_BANDCAMP : bool;
  IS_SOUNDCLOUD : bool
}.

(** What the listener does to the media elements of the document. *)
Inductive effect : Type :=
| ElementMuted (el : nat) (m : bool)      (* [el.muted = m] *)
| ElementVolume (el : nat) (v : Q).       (* [el.volume = v] *)

(** The script, the media elements of the document and what was done to
    them, oldest first. *)
Record world : Type := mkWorld {
  script_of : script;
  document : list nat;
  effects : list effect
}.

Definition loaded (doc : list nat) : world := mkWorld YouTube.initial doc [].

Section Listener.
Variable pg : page.
Variable fl : flags.

(** [mediaMap.forEach(({ gain }) => gain.gain.setValueAtTime(currentVolume, ...))] *)
Definition push_gain (v : Q) (m : gmap nat entry) : gmap nat entry :=
  (fun en => mkEntry (entry_source en) v (entry_mode en) (entry_eq en)) <$> m.

(** [mediaMap.forEach(({ modeFilter }) => applyModeFilter(modeFilter, ctx))] *)
Definition push_mode (md : string) (m : gmap nat entry) : gmap nat entry :=
  (fun en => mkEntry (entry_source en) (entry_gain en) md (entry_eq en)) <$> m.

(** [mediaMap.forEach(({ eqNodes }) => applyEqFilters(eqNodes, ctx))] *)
Definition push_eq (bands : list Q) (m : gmap nat entry) : gmap nat entry :=
  (fun en => mkEntry (entry_source en) (entry_gain en) (entry_mode en) bands) <$> m.

(**
<<
if (message.action === "setVolume") {
  const raw = typeof message.volume === "number" ? message.volume : 100;
  const clamped = Math.max(0, Math.min(raw, 800));
  currentVolume = clamped / 100;
  if (IS_YOUTUBE && ctx) { mediaMap.forEach(({ gain }) => { ... currentVolume ... }); }
  const directPercent = Math.max(0, Math.min(raw, 100));
  const directVolume = directPercent / 100;
  const shouldMute = directPercent === 0;
  const elements = document.querySelectorAll("audio, video");
  elements.forEach(el => {
    if (IS_BANDCAMP || IS_SOUNDCLOUD || !IS_YOUTUBE) {
      if (shouldMute) { el.muted = true; }
      else { el.muted = false; el.volume = directVolume; }
    }
  });
  return;
}
>>
    with [const ctx = ensureContext()] at the head of the listener. *)
Definition raw_volume (volume : json) : Q :=
  match volume with JNumber q => q | _ => 100 end.

Definition direct_controls (raw : Q) (doc : list nat) : list effect :=
  let directPercent := Qmax 0 (Qmin raw 100) in
  let directVolume := directPercent / 100 in
  let shouldMute := Qeq_bool directPercent 0 in
  if IS_BANDCAMP fl || IS_SOUNDCLOUD fl || negb (IS_YOUTUBE pg) then
    flat_map (fun el => if shouldMute then [ElementMuted el true]
                        else [ElementMuted el false; ElementVolume el directVolume]) doc
  else [].

Definition setVolume (volume : json) (w : world) : world :=
  let '(s1, ctx) := ensureContext pg (script_of w) in
  let raw := raw_volume volume in
  let clamped := Qmax 0 (Qmin raw 800) in
  let vol := clamped / 100 in
  mkWorld
    (mkScript vol (currentMode s1) (eqGains s1) (audioCtx s1)
       (if IS_YOUTUBE pg && ctx then push_gain vol (mediaMap s1) else mediaMap s1)
       (hooked s1) (destination s1))
    (document w)
    (effects w ++ direct_controls raw (document w)).

(**
<<
if (message.action === "setMode") {
  currentMode = message.mode || "default";
  if (IS_YOUTUBE && ctx) { mediaMap.forEach(({ modeFilter }) => { applyModeFilter(modeFilter, ctx); }); }
  return;
}
>>
    [message.mode] is a string, or is not there ([None]). *)
Definition setMode (mode : option string) (w : world) : world :=
  let '(s1, ctx) := ensureContext pg (script_of w) in
  let md := match mode with
            | Some m => if String.eqb m EmptyString then "default"%string else m
            | None => "default"%string
            end in
  mkWorld
    (mkScript (currentVolume s1) md (eqGains s1) (audioCtx s1)
       (if IS_YOUTUBE pg && ctx then push_mode md (mediaMap s1) else mediaMap s1)
       (hooked s1) (destination s1))
    (document w) (effects w).

(**
<<
if (message.action === "setEqGains") {
  const gains = Array.isArray(message.gains) ? message.gains.slice(0, 10) : [];
  while (gains.length < 10) gains.push(0);
  eqGains = gains;
  if (IS_YOUTUBE && ctx) { mediaMap.forEach(({ eqNodes }) => { applyEqFilters(eqNodes, ctx); }); }
  return;
}
>>
    [message.gains] is [None] when it is not an array.  [applyEqFilters]
    cannot throw on the entries of a JSON array (see
    [applyEqFilters_json]); the branch for a throw leaves the nodes
    alone. *)
Definition setEqGains (gains : option (list json)) (w : world) : world :=
  let '(s1, ctx) := ensureContext pg (script_of w) in
  let arr := Tap.slice_pad10 (match gains with Some a => map to_jsval a | None => [] end) in
  mkWorld
    (mkScript (currentVolume s1) (currentMode s1) arr (audioCtx s1)
       (if IS_YOUTUBE pg && ctx then
          match applyEqFilters arr with
          | Some bands => push_eq bands (mediaMap s1)
          | None => mediaMap s1
          end
        else mediaMap s1)
       (hooked s1) (destination s1))
    (document w) (effects w).

(** [{ volume: currentVolume * 100, mode: currentMode, eq: eqGains.slice() }];
    the listener has called [ensureContext] before. *)
Definition getState (w : world) : world * (Q * string * list jsval) :=
  let '(s1, _) := ensureContext pg (script_of w) in
  (mkWorld s1 (document w) (effects w),
   (currentVolume s1 * 100, currentMode s1, eqGains s1)).

(**
<<
const cleanup = () => {
  mediaMap.delete(el);
  delete el.dataset.soundsphereHooked;
  el.removeEventListener("ended", cleanup);
  el.removeEventListener("emptied", cleanup);
};
>>
    The nodes of the chain are left as they are: nothing is disconnected. *)
Definition cleanup (el : nat) (w : world) : world :=
  let s := script_of w in
  mkWorld
    (mkScript (currentVolume s) (currentMode s) (eqGains s) (audioCtx s)
       (delete el (mediaMap s)) (hooked s ∖ {[el]}) (destination s))
    (document w) (effects w).

Inductive message : Type :=
| SetVolume (volume : json)
| SetMode (mode : option string)
| SetEqGains (gains : option (list json))
| GetState.

(** What happens to the script: a scan finds media elements (the first
    scan, the timer, the mutation observer), an element the script has
    bound fires "ended" or "emptied", a message arrives, or the document
    changes. *)
Inductive event : Type :=
| Scan (els : list element)
| Ended (el : nat)
| Message (m : message)
| DocumentBecomes (doc : list nat).

Definition step (w : world) (e : event) : world :=
  match e with
  | Scan els => mkWorld (scanAndHook pg els (script_of w)) (document w) (effects w)
  | Ended el => cleanup el w
  | Message (SetVolume v) => setVolume v w
  | Message (SetMode m) => setMode m w
  | Message (SetEqGains g) => setEqGains g w
  | Message GetState => fst (getState w)
  | DocumentBecomes doc => mkWorld (script_of w) doc (effects w)
  end.

Definition run (es : list event) (w : world) : world := fold_left step es w.

End Listener.

(** Every chain the script holds carries the stored settings. *)
Definition entries_follow (s : script) : Prop :=
  forall el en, mediaMap s !! el = Some en ->
    entry_gain en = currentVolume s /\
    entry_mode en = currentMode s /\
    applyEqFilters (eqGains s) = Some (entry_eq en).

(** The stored settings are well formed: a gain in [[0, 8]], ten bands,
    none of them a number that is not finite.  A chain exists only on
    YouTube and once the context does; it is connected to the destination,
    and the flag of its element is set. *)
Definition script_ok (pg : page) (s : script) : Prop :=
  0 <= currentVolume s <= 8 /\
  length (eqGains s) = 10%nat /\
  Engine.finite_numbers (eqGains s) /\
  (forall el, is_Some (mediaMap s !! el) ->
     IS_YOUTUBE pg = true /\ audioCtx s = true /\ (1 <= chains_of el s)%nat).

(** A volume written to an element lies in [[0, 1]] and is not 0. *)
Definition effect_ok (e : effect) : Prop :=
  match e with
  | ElementVolume _ v => 0 < v <= 1
  | ElementMuted _ _ => True
  end.

(** What holds of the script whatever reaches it. *)
Definition listener_inv (pg : page) (w : world) : Prop :=
  script_ok pg (script_of w) /\ entries_follow (script_of w) /\
  Forall effect_ok (effects w).

Definition other_site : page := mkPage false true.
Definition no_flags : flags := mkFlags false false.

(** An afternoon on YouTube: 300 % is asked for, a video is found and
    bound, the mode is set to bass. *)
Definition boosted_video : list event :=
  [Message (SetVolume (JNumber 300)); Scan [both_ways 1];
   Message (SetMode (Some "bass"%string))].

End YouTubeMessages.

(** ** FireFox 1.1 content script (background.js): the chains of the media
    elements and the message listener *)

Module Firefox11Script.
Import JS Elements GainCurve.
Local Open Scope Q_scope.

(** The parameters of a [BiquadFilterNode] and of a
    [DynamicsCompressorNode] as the script sets them. *)
Record biquad : Type := mkFilter {
  f_type : string;
  f_frequency : Q;
  f_Q : Q;
  f_gain : Q
}.

Record compressor : Type := mkCompressor {
  threshold : Q;
  knee : Q;
  ratio : Q;
  attack : Q;
  release : Q
}.

(** [currentMode === name] *)
Definition is_mode (m : jsval) (name : string) : bool :=
  match m with VString s => String.eqb s name | _ => false end.

(**
<<
function setFilterForMode(filter) {
  if (currentMode === "voice") { highshelf, 3000, 0.9, 10; return; }
  if (currentMode === "bass")  { lowshelf, 160, 0.8, 12; return; }
  peaking, 1000, 1, 0
}
>> *)
Definition setFilterForMode (currentMode : jsval) : biquad :=
  if is_mode currentMode "voice" then mkFilter "highshelf" 3000 (9 # 10) 10
  else if is_mode currentMode "bass" then mkFilter "lowshelf" 160 (8 # 10) 12
  else mkFilter "peaking" 1000 1 0.

(** [applyOverdriveToCompressor(compressor)] *)
Definition applyOverdriveToCompressor (overdriveEnabled : bool) : compressor :=
  if overdriveEnabled then mkCompressor (-18) 15 8 (3 # 1000) (25 # 100)
  else mkCompressor 0 0 1 (3 # 1000) (25 # 100).

(** An entry of [audioElements]: [{ source, filter, compressor, gain }]. *)
Record chain : Type := mkChain {
  ch_source : source;
  ch_filter : biquad;
  ch_compressor : compressor;
  ch_gain : Q
}.

(** The state of the script.  [destination] lists, oldest first, the
    sources whose chain is connected to [ctx.destination]. *)
Record script : Type := mkScript {
  audioContext : bool;                 (* [audioContext] is not null *)
  currentVolumePercent : number;
  currentGain : number;
  currentMode : jsval;
  overdriveEnabled : bool;
  audioElements : gmap nat chain;
  destination : list source
}.

Definition initial : script :=
  mkScript false (Fin 100) (Fin 1) (VString "default") false ∅ [].

Section Script.

(** [window.AudioContext || window.webkitAudioContext] *)
Variable AudioContextAvailable : bool.

(**
<<
function attachMedia(el) {
  if (!el || audioElements.has(el)) return;
  const ctx = ensureContext();
  if (!ctx) return;
  try {
    const source = makeSourceForElement(ctx, el);
    if (!source) return;
    ... source -> filter -> compressor -> gain -> ctx.destination ...
    currentGain = mapVolumeToGain(currentVolumePercent);
    gain.gain.setValueAtTime(currentGain, ctx.currentTime);
    setFilterForMode(filter);
    applyOverdriveToCompressor(compressor);
    el.addEventListener("play", ...);
    el.addEventListener("ended", () => { audioElements.delete(el); ... disconnect ... });
    audioElements.set(el, { source, filter, compressor, gain });
  } catch (e) { console.error(...); }
}
>>
    [setValueAtTime] throws on a value that is not finite: the chain is
    connected by then, and neither the listeners nor the entry are added. *)
Definition attachMedia (e : element) (s : script) : script :=
  if bool_decide (is_Some (audioElements s !! el_id e)) then s
  else if negb (audioContext s || AudioContextAvailable) then s
  else
    match Firefox11.makeSourceForElement e with
    | None =>
        mkScript true (currentVolumePercent s) (currentGain s) (currentMode s)
          (overdriveEnabled s) (audioElements s) (destination s)
    | Some src =>
        let g := mapVolumeToGain (VNumber (currentVolumePercent s)) in
        match g with
        | Fin q =>
            mkScript true (currentVolumePercent s) g (currentMode s) (overdriveEnabled s)
              (<[el_id e := mkChain src (setFilterForMode (currentMode s))
                              (applyOverdriveToCompressor (overdriveEnabled s)) q]>
                 (audioElements s))
              (destination s ++ [src])
        | _ =>
            mkScript true (currentVolumePercent s) g (currentMode s) (overdriveEnabled s)
              (audioElements s) (destination s ++ [src])
        end
    end.

(** [scanForMedia(root)] *)
Definition scanForMedia (els : list element) (s : script) : script :=
  fold_left (fun s e => attachMedia e s) els s.

(** The "ended" listeners of an element fire: every chain that was built
    for it removes the entry and disconnects its own nodes. *)
Definition ended (el : nat) (s : script) : script :=
  mkScript (audioContext s) (currentVolumePercent s) (currentGain s) (currentMode s)
    (overdriveEnabled s) (delete el (audioElements s))
    (filter (fun src => source_element src <> el) (destination s)).

(**
<<
if (message.action === "setVolume") {
  const value = Math.max(0, Math.min(800, Number(message.volume) || 0));
  currentVolumePercent = value;
  currentGain = mapVolumeToGain(currentVolumePercent);
  if (audioContext) { audioElements.forEach(({ gain }) => { gain.gain.setValueAtTime(currentGain, t); }); }
  sendResponse({ success: true });
}
>>
    On a gain that is not finite the first [setValueAtTime] throws and no
    node is changed. *)
Definition clamp_volume (v : jsval) : number :=
  Math_max (Fin 0) (Math_min (Fin 800) (num_or (Number v) (Fin 0))).

Definition setVolume (v : jsval) (s : script) : script :=
  let value := clamp_volume v in
  let g := mapVolumeToGain (VNumber value) in
  mkScript (audioContext s) value g (currentMode s) (overdriveEnabled s)
    (if audioContext s then
       match g with
       | Fin q => (fun c => mkChain (ch_source c) (ch_filter c) (ch_compressor c) q)
                    <$> audioElements s
       | _ => audioElements s
       end
     else audioElements s)
    (destination s).

(**
<<
if (message.action === "setMode") {
  currentMode = message.mode || "default";
  if (audioContext) { audioElements.forEach(({ filter }) => setFilterForMode(filter)); }
  ...
}
>> *)
Definition setMode (m : jsval) (s : script) : script :=
  let md := if truthy m then m else VString "default" in
  mkScript (audioContext s) (currentVolumePercent s) (currentGain s) md (overdriveEnabled s)
    (if audioContext s then
       (fun c => mkChain (ch_source c) (setFilterForMode md) (ch_compressor c) (ch_gain c))
         <$> audioElements s
     else audioElements s)
    (destination s).

(**
<<
if (message.action === "setOverdrive") {
  overdriveEnabled = !!message.enabled;
  if (audioContext) { audioElements.forEach(({ compressor }) => { applyOverdriveToCompressor(compressor); }); }
  ...
}
>> *)
Definition setOverdrive (enabled : jsval) (s : script) : script :=
  let on := truthy enabled in
  mkScript (audioContext s) (currentVolumePercent s) (currentGain s) (currentMode s) on
    (if audioContext s then
       (fun c => mkChain (ch_source c) (ch_filter c) (applyOverdriveToCompressor on) (ch_gain c))
         <$> audioElements s
     else audioElements s)
    (destination s).

Inductive message : Type :=
| SetVolume (volume : jsval)
| SetMode (mode : jsval)
| SetOverdrive (enabled : jsval).

(** What happens on a page where the media elements are tapped: a scan or
    the mutation observer reports elements, an element's playback ends, a
    message arrives. *)
Inductive event : Type :=
| Scan (els : list element)
| Ended (el : nat)
| Message (m : message).

Definition step (s : script) (e : event) : script :=
  match e with
  | Scan els => scanForMedia els s
  | Ended el => ended el s
  | Message (SetVolume v) => setVolume v s
  | Message (SetMode m) => setMode m s
  | Message (SetOverdrive x) => setOverdrive x s
  end.

Definition run (es : list event) (s : script) : script := fold_left step es s.

End Script.

(** Chains connected to the destination on behalf of an element. *)
Definition chains_of (el : nat) (s : script) : nat :=
  length (filter (fun src => source_element src = el) (destination s)).

(** What holds of the script whatever reaches it: the stored percentage is
    a number in [[0, 800]] and the stored gain its image under the curve;
    every entry holds that gain, the filter of the stored mode and the
    compressor of the stored overdrive flag; an element has one chain at
    the destination when it has an entry, and none otherwise. *)
Definition script_inv (s : script) : Prop :=
  (exists p, currentVolumePercent s = Fin p /\ 0 <= p <= 800) /\
  num_eq (currentGain s) (mapVolumeToGain (VNumber (currentVolumePercent s))) /\
  (forall el c, audioElements s !! el = Some c ->
     audioContext s = true /\
     num_eq (Fin (ch_gain c)) (currentGain s) /\
     ch_filter c = setFilterForMode (currentMode s) /\
     ch_compressor c = applyOverdriveToCompressor (overdriveEnabled s)) /\
  (forall el, chains_of el s =
              if bool_decide (is_Some (audioElements s !! el)) then 1%nat else 0%nat).

(** A video is bound at 300 %, its playback ends, it is found again by a
    scan, and the mode is set to bass. *)
Definition replayed : list event :=
  [Message (SetVolume (VNumber (Fin 300))); Scan [both_ways 1]; Ended 1%nat;
   Scan [both_ways 1]; Message (SetMode (VString "bass"))].

End Firefox11Script.

(** ** FireFox 1.1: the script injected into the page on SoundCloud and
    Bandcamp ([injectWebAudioHook]) and the commands it is sent *)

Module InjectedHook11.
Import JS GainCurve.
Local Open Scope Q_scope.

(** Audio nodes: the nodes of the page, the destinations, and the three
    nodes of the chain the hook builds in front of a destination. *)
Inductive node : Type :=
| PageNode (id : nat)
| DestinationNode (d : nat)
| ChainFilter (d : nat)
| ChainCompressor (d : nat)
| ChainGain (d : nat).

(** The argument of [connect]: a node or an [AudioParam]. *)
Inductive target : Type :=
| ToNode (n : node)
| ToParam (id : nat).

#[global] Instance node_eq_dec : EqDecision node.
Proof. solve_decision. Defined.
#[global] Instance target_eq_dec : EqDecision target.
Proof. solve_decision. Defined.

(** [dest.__soundSphereChain] *)
Record chain : Type := mkChain {
  c_filter : Firefox11Script.biquad;
  c_compressor : Firefox11Script.compressor;
  c_gain : Q
}.

Record hook : Type := mkHook {
  chains : gmap nat chain;
  destinations : gset nat;
  calls : list (node * target)     (* the calls of the native connect, oldest first *)
}.

Definition initial : hook := mkHook ∅ ∅ [].

Inductive completion : Type := Returned | Threw.

Section Connect.

(** Whether the native [connect] throws, for the k-th native call and its
    receiver and target. *)
Variable native_throws : nat -> node -> target -> bool.

Definition nativeConnect (this : node) (dest : target) (w : hook) : hook * completion :=
  (mkHook (chains w) (destinations w) (calls w ++ [(this, dest)]),
   if native_throws (length (calls w)) this dest then Threw else Returned).

(**
<<
function ensureChain(dest) {
  var ctx = dest.context || dest.audioContext || null;
  if (!ctx) return null;
  if (!dest.__soundSphereChain) {
    var filter = ctx.createBiquadFilter();
    var compressor = ctx.createDynamicsCompressor();
    var gain = ctx.createGain();
    filter.connect(compressor);
    compressor.connect(gain);
    nativeConnect.call(gain, dest);
    dest.__soundSphereChain = { filter: filter, compressor: compressor, gain: gain };
    applyModeToFilter(filter, ctx, "default");
    applyOverdriveToCompressor(compressor, ctx, false);
  }
  destinations.add(dest);
  return dest.__soundSphereChain;
}
>>
    A destination node has its context.  [filter.connect] and
    [compressor.connect] are the patched method, which hands a target that
    is no destination to the native one.  The result is [None] when one
    of the three connections threw: no chain is recorded then. *)
Definition ensureChain (d : nat) (w : hook) : hook * option chain :=
  match chains w !! d with
  | Some c => (mkHook (chains w) ({[d]} ∪ destinations w) (calls w), Some c)
  | None =>
      match nativeConnect (ChainFilter d) (ToNode (ChainCompressor d)) w with
      | (w1, Threw) => (w1, None)
      | (w1, Returned) =>
          match nativeConnect (ChainCompressor d) (ToNode (ChainGain d)) w1 with
          | (w2, Threw) => (w2, None)
          | (w2, Returned) =>
              match nativeConnect (ChainGain d) (ToNode (DestinationNode d)) w2 with
              | (w3, Threw) => (w3, None)
              | (w3, Returned) =>
                  let c := mkChain (Firefox11Script.setFilterForMode (VString "default"))
                             (Firefox11Script.applyOverdriveToCompressor false) 1 in
                  (mkHook (<[d := c]> (chains w3)) ({[d]} ∪ destinations w3) (calls w3),
                   Some c)
              end
          end
      end
  end.

(**
<<
AudioNode.prototype.connect = function (target) {
  try {
    if (target instanceof AudioDestinationNode) {
      var chain = ensureChain(target);
      if (chain) { return nativeConnect.call(this, chain.filter); }
    }
  } catch (e) {}
  return nativeConnect.apply(this, arguments);
};
>> *)
Definition patchedConnect (this : node) (dest : target) (w : hook) : hook * completion :=
  match dest with
  | ToNode (DestinationNode d) =>
      match ensureChain d w with
      | (w1, Some _) =>
          match nativeConnect this (ToNode (ChainFilter d)) w1 with
          | (w2, Returned) => (w2, Returned)
          | (w2, Threw) => nativeConnect this dest w2
          end
      | (w1, None) => nativeConnect this dest w1
      end
  | _ => nativeConnect this dest w
  end.

End Connect.

(** The commands the content script posts to the page. *)
Inductive command : Type :=
| CmdVolume (volume : jsval)
| CmdMode (mode : jsval)
| CmdOverdrive (enabled : jsval).

(** [destinations.forEach(function (dest) { var chain =
     dest.__soundSphereChain; if (!chain) return; ... })] *)
Definition each_chain (f : chain -> chain) (w : hook) : hook :=
  mkHook (map_imap (fun d c => Some (if bool_decide (d ∈ destinations w) then f c else c))
                   (chains w))
         (destinations w) (calls w).

(**
<<
if (data.kind === "setVolume") {
  var percent = Number(data.volume) || 0;
  var gainVal = mapVolumeToGain(percent);
  destinations.forEach(... try { chain.gain.gain.value = gainVal; } catch (e) {} ...);
}
if (data.kind === "setMode") {
  var mode = data.mode || "default";
  destinations.forEach(... applyModeToFilter(chain.filter, ctx, mode); ...);
}
if (data.kind === "setOverdrive") {
  var enabled = !!data.enabled;
  destinations.forEach(... applyOverdriveToCompressor(chain.compressor, ctx, enabled); ...);
}
>>
    An assignment of a value that is not finite to [gain.value] throws and
    is swallowed. *)
Definition onCommand (c : command) (w : hook) : hook :=
  match c with
  | CmdVolume v =>
      match mapVolumeToGain (VNumber (num_or (Number v) (Fin 0))) with
      | Fin q => each_chain (fun ch => mkChain (c_filter ch) (c_compressor ch) q) w
      | _ => w
      end
  | CmdMode m =>
      let mode := if truthy m then m else VString "default" in
      each_chain (fun ch => mkChain (Firefox11Script.setFilterForMode mode)
                              (c_compressor ch) (c_gain ch)) w
  | CmdOverdrive x =>
      each_chain (fun ch => mkChain (c_filter ch)
                              (Firefox11Script.applyOverdriveToCompressor (truthy x))
                              (c_gain ch)) w
  end.

(** What the content script posts for a message of the popup on these
    hosts: the volume clamped to [[0, 800]], the mode or "default", the
    flag as a boolean. *)
Definition forward (m : Firefox11Script.message) : command :=
  match m with
  | Firefox11Script.SetVolume v => CmdVolume (VNumber (Firefox11Script.clamp_volume v))
  | Firefox11Script.SetMode md => CmdMode (if truthy md then md else VString "default")
  | Firefox11Script.SetOverdrive x => CmdOverdrive (VBool (truthy x))
  end.

(** What a page script can pass to [connect]. *)
Inductive page_target : Type :=
| AtNode (id : nat)
| AtDestination (d : nat)
| AtParam (id : nat).

Definition to_target (t : page_target) : target :=
  match t with
  | AtNode id => ToNode (PageNode id)
  | AtDestination d => ToNode (DestinationNode d)
  | AtParam id => ToParam id
  end.

(** What happens in the page: one of its nodes calls [connect], or a
    message of the popup is forwarded by the content script. *)
Inductive event : Type :=
| Connect (this : nat) (dest : page_target)
| Popup (m : Firefox11Script.message).

Definition step (native_throws : nat -> node -> target -> bool) (w : hook) (e : event)
  : hook :=
  match e with
  | Connect this dest => fst (patchedConnect native_throws (PageNode this) (to_target dest) w)
  | Popup m => onCommand (forward m) w
  end.

Definition run (native_throws : nat -> node -> target -> bool) (es : list event) (w : hook)
  : hook :=
  fold_left (step native_throws) es w.

(** The native call that connects the gain node of the chain of [d] to
    the destination [d]. *)
Definition output_call (d : nat) : node * target :=
  (ChainGain d, ToNode (DestinationNode d)).

Definition count_calls (c : node * target) (l : list (node * target)) : nat :=
  length (filter (fun x => x = c) l).

(** A native call that connects a page node straight to a destination. *)
Definition direct_call (c : node * target) : Prop :=
  exists id d, c = (PageNode id, ToNode (DestinationNode d)).

Definition never_throws : nat -> node -> target -> bool := fun _ _ _ => false.

(** With a native [connect] that does not throw: every destination that
    has a chain is registered and fed by one output connection, a
    destination without a chain by none, and no page node is connected
    straight to a destination. *)
Definition routed (w : hook) : Prop :=
  (forall d, count_calls (output_call d) (calls w) =
             if bool_decide (is_Some (chains w !! d)) then 1%nat else 0%nat) /\
  (forall d, is_Some (chains w !! d) -> d ∈ destinations w) /\
  Forall (fun c => ~ direct_call c) (calls w).

(** The calls [ensureChain] makes when it builds a chain. *)
Definition chain_calls (d : nat) : list (node * target) :=
  [(ChainFilter d, ToNode (ChainCompressor d));
   (ChainCompressor d, ToNode (ChainGain d));
   output_call d].

(** Every chain belongs to a registered destination. *)
Definition registered (w : hook) : Prop :=
  forall d, is_Some (chains w !! d) -> d ∈ destinations w.

(** The chain [ensureChain] builds. *)
Definition fresh_chain : chain :=
  mkChain (Firefox11Script.setFilterForMode (VString "default"))
          (Firefox11Script.applyOverdriveToCompressor false) 1.

(** Three nodes of the page connect to destination 1, one of them twice,
    and one to a parameter; a volume message comes in between. *)
Definition busy_page : list event :=
  [Connect 1 (AtDestination 1); Connect 2 (AtDestination 1);
   Popup (Firefox11Script.SetVolume (VNumber (Fin 300)));
   Connect 1 (AtDestination 1); Connect 3 (AtParam 9); Connect 3 (AtDestination 1)].

End InjectedHook11.

(** ** The popup of the FireFox 1.2 build (popup.js): the volume it sends
    and the equalizer presets *)

Module Popup.
Import JS.
Local Open Scope Q_scope.

(** What the popup sends to the content script of the tab. *)
Inductive message : Type :=
| SetVolumeMsg (volume : number)         (* [{ action: "setVolume", volume }] *)
| SetEqGainsMsg (gains : list Q).        (* [{ action: "setEqGains", gains }] *)

(** The state of the popup, as far as the volume and the presets go.
    [slider] is [Number(slider.value)]; [lastSentVolume] is [None] for
    [null]; [sent] lists the messages given to [chrome.tabs.sendMessage],
    oldest first. *)
Record popup : Type := mkPopup {
  currentTabId : option nat;
  pageCanBoost : bool;
  overdrive : bool;                      (* [prefs.overdrive] *)
  effectsEnabled : bool;
  slider : number;
  lastSentVolume : option number;
  eqGains : list Q;
  eqPreset : string;                     (* [prefs.eqPreset] *)
  sent : list message
}.

(**
<<
const EQ_PRESETS = {
  flat: [0, 0, 0, 0, 0, 0, 0, 0, 0, 0],
  rock: [4, 3, 2, 0, -1, -2, 1, 3, 4, 4],
  ...
  vShape: [6, 4, 2, 0, -4, -4, 0, 2, 4, 6]
};
>> *)
Definition EQ_PRESETS : list (string * list Q) :=
  [("flat"%string,        [0; 0; 0; 0; 0; 0; 0; 0; 0; 0]);
   ("rock"%string,        [4; 3; 2; 0; -1; -2; 1; 3; 4; 4]);
   ("pop"%string,         [3; 2; 1; 0; -1; 0; 1; 2; 3; 3]);
   ("hipHop"%string,      [6; 5; 4; 2; 0; -1; 1; 2; 3; 2]);
   ("jazz"%string,        [2; 2; 1; 1; 1; 1; 0; 1; 1; 0]);
   ("classical"%string,   [-2; -1; 0; 0; 1; 1; 2; 3; 3; 3]);
   ("electronic"%string,  [6; 5; 3; 1; 0; 1; 3; 4; 5; 4]);
   ("vocalBoost"%string,  [-6; -4; -2; 0; 2; 4; 4; 3; 1; -2]);
   ("liveClean"%string,   [-12; -8; -4; -2; 0; 2; 4; 4; 2; -2]);
   ("speech"%string,      [-6; -4; -2; 0; 2; 4; 4; 3; 1; -2]);
   ("bassBoost"%string,   [8; 7; 6; 4; 2; 0; -1; -2; -3; -4]);
   ("trebleBoost"%string, [0; -1; -2; -2; 0; 2; 4; 6; 7; 8]);
   ("vShape"%string,      [6; 4; 2; 0; -4; -4; 0; 2; 4; 6])].

(** [EQ_PRESETS[name]], for a name that is a key of the table or is no
    property at all. *)
Fixpoint preset_of (name : string) (table : list (string * list Q)) : option (list Q) :=
  match table with
  | [] => None
  | (k, v) :: rest => if String.eqb k name then Some v else preset_of name rest
  end.

(**
<<
function maxVolume() {
  if (!pageCanBoost) return 100;
  return prefs.overdrive ? 800 : 600;
}
>> *)
Definition maxVolume (p : popup) : Q :=
  if negb (pageCanBoost p) then 100 else if overdrive p then 800 else 600.

(** [!currentTabId] is false: there is a tab, and its id is not 0. *)
Definition has_tab (p : popup) : bool :=
  match currentTabId p with
  | Some (S _) => true
  | _ => false
  end.

(** [sendToTab(message)]: [if (!currentTabId) return;] and the message is
    handed to the browser. *)
Definition sendToTab (m : message) (p : popup) : popup :=
  if has_tab p then
    mkPopup (currentTabId p) (pageCanBoost p) (overdrive p) (effectsEnabled p) (slider p)
      (lastSentVolume p) (eqGains p) (eqPreset p) (sent p ++ [m])
  else p.

(** [Math.max(0, Math.min(percentRaw, limit))] *)
Definition within (raw : number) (limit : Q) : number :=
  Math_max (Fin 0) (Math_min raw (Fin limit)).

(**
<<
function applyVolume(percentRaw) {
  const limit = maxVolume();
  const value = Math.max(0, Math.min(percentRaw, limit));
  if (lastSentVolume === value) { return; }
  lastSentVolume = value;
  sendToTab({ action: "setVolume", volume: value });
}
>> *)
Definition applyVolume (percentRaw : number) (p : popup) : popup :=
  let value := within percentRaw (maxVolume p) in
  if match lastSentVolume p with
     | Some l => strict_eq l value
     | None => false
     end
  then p
  else
    sendToTab (SetVolumeMsg value)
      (mkPopup (currentTabId p) (pageCanBoost p) (overdrive p) (effectsEnabled p) (slider p)
         (Some value) (eqGains p) (eqPreset p) (sent p)).

(**
<<
function setSlider(percentRaw) {
  const limit = maxVolume();
  const value = Math.max(0, Math.min(percentRaw, limit));
  slider.max = String(limit);
  slider.value = String(value);
  showDisplay(value);
  applyVolume(value);
}
>>
    The range input takes the value it is given. *)
Definition setSlider (percentRaw : number) (p : popup) : popup :=
  let value := within percentRaw (maxVolume p) in
  applyVolume value
    (mkPopup (currentTabId p) (pageCanBoost p) (overdrive p) (effectsEnabled p) value
       (lastSentVolume p) (eqGains p) (eqPreset p) (sent p)).

(** The "input" listener of the slider, the user having moved it to [v]:
<<
let value = Number(slider.value) || 0;
value = Math.max(0, Math.min(value, limit));
slider.value = String(value);
showDisplay(value);
applyVolume(value);
>> *)
Definition sliderInput (v : number) (p : popup) : popup :=
  let value := within (num_or v (Fin 0)) (maxVolume p) in
  applyVolume value
    (mkPopup (currentTabId p) (pageCanBoost p) (overdrive p) (effectsEnabled p) value
       (lastSentVolume p) (eqGains p) (eqPreset p) (sent p)).

(** The "click" listener of the mute button:
<<
const isMuted = Number(slider.value) === 0;
const newValue = isMuted ? 100 : 0;
setSlider(newValue);
>>
    (the value is put into the storage as well). *)
Definition muteClick (p : popup) : popup :=
  let isMuted := strict_eq (slider p) (Fin 0) in
  setSlider (if isMuted then Fin 100 else Fin 0) p.

(** The "click" listener of the reset button: [setSlider(100)]. *)
Definition resetClick (p : popup) : popup := setSlider (Fin 100) p.

(**
<<
function applyPreset(name) {
  const preset = EQ_PRESETS[name];
  if (!preset) return;
  eqGains = preset.slice(0, 10);
  while (eqGains.length < 10) eqGains.push(0);
  setPresetValue(name);
  applyEqToUi();
  sendEqToContent();        // if (!effectsEnabled) return; sendToTab({ action: "setEqGains", gains: eqGains });
  storageSet({ ... });
}
>> *)
Definition slice_pad (preset : list Q) : list Q :=
  take 10 preset ++ replicate (10 - length (take 10 preset)) 0.

Definition applyPreset (name : string) (p : popup) : popup :=
  match preset_of name EQ_PRESETS with
  | None => p
  | Some preset =>
      let g := slice_pad preset in
      let p1 := mkPopup (currentTabId p) (pageCanBoost p) (overdrive p) (effectsEnabled p)
                  (slider p) (lastSentVolume p) g name (sent p) in
      if effectsEnabled p then sendToTab (SetEqGainsMsg g) p1 else p1
  end.

(** What the user does. *)
Inductive event : Type :=
| SliderInput (v : number)
| MuteClick
| ResetClick
| Preset (name : string).

Definition step (p : popup) (e : event) : popup :=
  match e with
  | SliderInput v => sliderInput v p
  | MuteClick => muteClick p
  | ResetClick => resetClick p
  | Preset name => applyPreset name p
  end.

Definition run (es : list event) (p : popup) : popup := fold_left step es p.

(** The volumes of the messages sent, oldest first. *)
Definition volumes (l : list message) : list number :=
  omap (fun m => match m with SetVolumeMsg v => Some v | _ => None end) l.

(** No two neighbours of the list are equal numbers. *)
Fixpoint adjacent_distinct (l : list number) : Prop :=
  match l with
  | a :: ((b :: _) as rest) => strict_eq a b = false /\ adjacent_distinct rest
  | _ => True
  end.

(** A finite volume between 0 and the limit. *)
Definition in_limit (limit : Q) (v : number) : Prop :=
  exists q, v = Fin q /\ 0 <= q <= limit.

(** A popup that was just opened on a tab. *)
Definition opened (tab : nat) (canBoost od : bool) : popup :=
  mkPopup (Some tab) canBoost od true (Fin 100) None (replicate 10 0) "flat" [].

(** What holds of the popup while the user works with it: the volumes it
    has sent lie within the limit and no two in a row are equal; with a
    tab, the last volume sent is the one it remembers; without one,
    nothing was sent. *)
Definition sending_inv (p : popup) : Prop :=
  Forall (in_limit (maxVolume p)) (volumes (sent p)) /\
  adjacent_distinct (volumes (sent p)) /\
  (has_tab p = true -> lastSentVolume p = last (volumes (sent p))) /\
  (has_tab p = false -> sent p = []).

(** The user asks for 950 % twice, mutes, unmutes, and picks a preset. *)
Definition session : list event :=
  [SliderInput (Fin 950); SliderInput (Fin 950); MuteClick; MuteClick;
   Preset "rock"; SliderInput NaN].

End Popup.

(** ** The tab-capture engine: the gain of a percentage *)

Module EngineGain.
Import JS.

(**
<<
async setGainPercent(tabId, percent) {
  const gainValue = Math.max(0, Number(percent) || 0) / 100.0;
  this.currentGain = gainValue;
  ...
}
>> *)
Definition gainValue (percent : jsval) : number :=
  num_div (Math_max (Fin 0) (num_or (Number percent) (Fin 0))) (Fin 100).

End EngineGain.
(** ** Properties of the gain curve *)

Module GainCurveFacts.
Import JS GainCurve.
Import PrimFloat.
Local Open Scope Q_scope.

Lemma Qeq_bool_false x y : Qeq_bool x y = false -> ~ x == y.
Proof. intros H E. apply Qeq_bool_iff in E. congruence. Qed.

Lemma Qle_bool_false x y : Qle_bool x y = false -> y < x.
Proof.
  intros H. apply Qnot_le_lt. intros L. apply Qle_bool_iff in L. congruence.
Qed.

Lemma clamp_bounds q : 0 <= Qmax 0 (Qmin 800 q) <= 800.
Proof.
  destruct (Q.max_spec 0 (Qmin 800 q)) as [[? ->]|[? ->]];
    destruct (Q.min_spec 800 q) as [[? E]|[? E]]; rewrite ?E in *; lra.
Qed.

Lemma clamp_cases q :
  (q <= 0 -> Qmax 0 (Qmin 800 q) == 0) /\
  (0 <= q <= 800 -> Qmax 0 (Qmin 800 q) == q) /\
  (800 <= q -> Qmax 0 (Qmin 800 q) == 800).
Proof.
  destruct (Q.max_spec 0 (Qmin 800 q)) as [[? ->]|[? ->]];
    destruct (Q.min_spec 800 q) as [[? E]|[? E]]; rewrite ?E in *;
    repeat split; intros; lra.
Qed.

(** On a finite, already clamped input the function is [branch]. *)
Lemma body_fin (p : Q) :
  (if strict_eq (Fin p) (Fin 0) then Fin 0
   else if num_le (Fin p) (Fin 600) then num_mul (num_div (Fin p) (Fin 600)) (Fin 6)
   else num_add (Fin 6)
          (num_mul (num_div (num_sub (Fin p) (Fin 600)) (Fin 200)) (Fin 2)))
  = Fin (if Qeq_bool p 0 then 0
         else if Qle_bool p 600 then (p / 600) * 6
         else 6 + ((p + - (600)) / 200) * 2).
Proof.
  unfold strict_eq, num_le. destruct (Qeq_bool p 0); [reflexivity|].
  destruct (Qle_bool p 600); reflexivity.
Qed.

Lemma mapVolumeToGain_fin (q : Q) :
  exists p, p == Qmax 0 (Qmin 800 q) /\
    mapVolumeToGain (VNumber (Fin q)) =
      Fin (if Qeq_bool p 0 then 0
           else if Qle_bool p 600 then (p / 600) * 6
           else 6 + ((p + - (600)) / 200) * 2).
Proof.
  unfold mapVolumeToGain, Number, num_or, truthy_number.
  destruct (Qeq_bool q 0) eqn:E; cbn [negb].
  - exists (Qmax 0 (Qmin 800 0)). split.
    + apply Qeq_bool_iff in E. rewrite E. reflexivity.
    + change (Math_max (Fin 0) (Math_min (Fin 800) (Fin 0)))
        with (Fin (Qmax 0 (Qmin 800 0))).
      apply body_fin.
  - exists (Qmax 0 (Qmin 800 q)). split; [reflexivity|].
    change (Math_max (Fin 0) (Math_min (Fin 800) (Fin q)))
      with (Fin (Qmax 0 (Qmin 800 q))).
    apply body_fin.
Qed.


(** The same for any argument: the input is replaced by its clamped value
    ([NaN] counts as 0, the infinities as the nearer end of the range). *)
Lemma mapVolumeToGain_any (v : jsval) :
  exists p, p == clamped_percent (Number v) /\
    mapVolumeToGain v =
      Fin (if Qeq_bool p 0 then 0
           else if Qle_bool p 600 then (p / 600) * 6
           else 6 + ((p + - (600)) / 200) * 2).
Proof.
  destruct (Number v) as [q| | |] eqn:N.
  - destruct (mapVolumeToGain_fin q) as (p & Hp & E). exists p. split; [exact Hp|].
    rewrite <- E. unfold mapVolumeToGain. cbn [Number]. rewrite N. reflexivity.
  - exists 800. split; [reflexivity|].
    unfold mapVolumeToGain. rewrite N. vm_compute. reflexivity.
  - exists 0. split; [reflexivity|].
    unfold mapVolumeToGain. rewrite N. vm_compute. reflexivity.
  - exists 0. split; [reflexivity|].
    unfold mapVolumeToGain. rewrite N. vm_compute. reflexivity.
Qed.

Lemma branch_values (p : Q) :
  let g := if Qeq_bool p 0 then 0
           else if Qle_bool p 600 then (p / 600) * 6
           else 6 + ((p + - (600)) / 200) * 2 in
  (p == 0 -> g == 0) /\
  (0 < p /\ p <= 600 -> g == (p / 600) * 6) /\
  (600 < p -> g == 6 + ((p - 600) / 200) * 2) /\
  (0 <= p -> g == p / 100).
Proof.
  cbv zeta.
  destruct (Qeq_bool p 0) eqn:E0.
  - apply Qeq_bool_iff in E0. repeat split; intros; try lra.
    rewrite E0. reflexivity.
  - apply Qeq_bool_false in E0.
    destruct (Qle_bool p 600) eqn:E6.
    + apply Qle_bool_iff in E6. repeat split; intros; try lra; field.
    + apply Qle_bool_false in E6.
      repeat split; intros; try lra; try (unfold Qminus; reflexivity); field.
Qed.

(** The curve is the straight line [p / 100] on the clamped input. *)
Lemma gain_at_linear (q : Q) : gain_at q == Qmax 0 (Qmin 800 q) / 100.
Proof.
  unfold gain_at. destruct (mapVolumeToGain_fin q) as (p & Hp & ->).
  destruct (branch_values p) as (_ & _ & _ & L).
  rewrite L.
  - rewrite Hp. reflexivity.
  - rewrite Hp. apply clamp_bounds.
Qed.

Lemma clamp_monotone (a b : Q) :
  a <= b -> Qmax 0 (Qmin 800 a) <= Qmax 0 (Qmin 800 b).
Proof.
  intros L.
  apply Q.max_le_compat_l. apply Q.min_le_compat_l. exact L.
Qed.

Lemma gain_at_monotone (a b : Q) : a <= b -> gain_at a <= gain_at b.
Proof.
  intros L. rewrite !gain_at_linear.
  pose proof (clamp_monotone a b L) as M.
  unfold Qdiv. apply Qmult_le_compat_r; [exact M|]. discriminate.
Qed.


(** C1.  The contract of the gain curve.  For every argument [v], with
    [p] the value of [Number(v)] clamped to [[0, 800]] ([NaN] read as 0):
    the result is a finite number [g]; [g] is 0 when [p] is 0,
    [(p / 600) * 6] when [0 < p <= 600] and [6 + ((p - 600) / 200) * 2]
    when [600 < p <= 800].  Clamping leaves [[0, 800]] fixed and sends
    what lies outside to the nearer end.  The curve takes the values 0, 1,
    6 and 8 at 0, 100, 600 and 800, agrees at -5 with 0 and at 999 with
    800, and never decreases.  The named values are also what the
    binary64 evaluation returns. *)
Theorem mapVolumeToGain_contract :
  (forall v : jsval, exists g : Q,
      mapVolumeToGain v = Fin g /\
      let p := clamped_percent (Number v) in
      0 <= p <= 800 /\
      (p == 0 -> g == 0) /\
      (0 < p /\ p <= 600 -> g == (p / 600) * 6) /\
      (600 < p /\ p <= 800 -> g == 6 + ((p - 600) / 200) * 2)) /\
  (forall q : Q,
      (q <= 0 -> clamped_percent (Fin q) == 0) /\
      (0 <= q <= 800 -> clamped_percent (Fin q) == q) /\
      (800 <= q -> clamped_percent (Fin q) == 800)) /\
  (num_eq (mapVolumeToGain (VNumber (Fin 0))) (Fin 0) /\
   num_eq (mapVolumeToGain (VNumber (Fin 100))) (Fin 1) /\
   num_eq (mapVolumeToGain (VNumber (Fin 600))) (Fin 6) /\
   num_eq (mapVolumeToGain (VNumber (Fin 800))) (Fin 8)) /\
  (num_eq (mapVolumeToGain (VNumber (Fin (-5)))) (mapVolumeToGain (VNumber (Fin 0))) /\
   num_eq (mapVolumeToGain (VNumber (Fin 999))) (mapVolumeToGain (VNumber (Fin 800))) /\
   num_eq (mapVolumeToGain (VNumber NegInf)) (mapVolumeToGain (VNumber (Fin 0))) /\
   num_eq (mapVolumeToGain (VNumber PosInf)) (mapVolumeToGain (VNumber (Fin 800))) /\
   num_eq (mapVolumeToGain (VNumber NaN)) (mapVolumeToGain (VNumber (Fin 0)))) /\
  (forall a b : Q, a <= b -> gain_at a <= gain_at b) /\
  (Binary64.mapVolumeToGain 0 = 0 /\
   Binary64.mapVolumeToGain 100 = 1 /\
   Binary64.mapVolumeToGain 600 = 6 /\
   Binary64.mapVolumeToGain 800 = 8 /\
   Binary64.mapVolumeToGain (-5) = Binary64.mapVolumeToGain 0 /\
   Binary64.mapVolumeToGain 999 = Binary64.mapVolumeToGain 800)%float.
Proof.
  split; [|split; [|split; [|split; [|split]]]].
  - intros v. destruct (mapVolumeToGain_any v) as (p & Hp & E).
    eexists. split; [exact E|]. cbv zeta.
    destruct (branch_values p) as (B0 & B1 & B2 & _).
    assert (Hb : 0 <= clamped_percent (Number v) <= 800).
    { destruct (Number v) as [q| | |]; cbn [clamped_percent];
        [apply clamp_bounds | lra | lra | lra]. }
    split; [exact Hb|]. rewrite <- Hp.
    split; [exact B0|]. split; [exact B1|].
    intros [H6 _]. apply B2. exact H6.
  - intros q. apply clamp_cases.
  - repeat split; vm_compute; reflexivity.
  - repeat split; vm_compute; reflexivity.
  - exact gain_at_monotone.
  - repeat split; vm_compute; reflexivity.
Qed.

(** Both segments have the slope 1/100. *)
Lemma slope_common (a b : Q) :
  0 <= a -> a < b -> b <= 800 -> slope a b == 1 / 100.
Proof.
  intros Ha Hab Hb. unfold slope. rewrite !gain_at_linear.
  assert (Ea : Qmax 0 (Qmin 800 a) == a).
  { destruct (clamp_cases a) as (_ & E & _). apply E. lra. }
  assert (Eb : Qmax 0 (Qmin 800 b) == b).
  { destruct (clamp_cases b) as (_ & E & _). apply E. lra. }
  rewrite Ea, Eb. field. intros E. lra.
Qed.

(** C2, as stated, fails: the segment above 600 is not steeper than the
    segment below it. *)
Lemma upper_segment_not_steeper : ~ (slope 0 600 < slope 600 800).
Proof. vm_compute. intros H. discriminate H. Qed.

(** C2, amended.  The two segments of the gain curve have the same slope,
    1/100 gain per percent: over any two points of [[600, 800]] and over
    any two points of [[0, 600]] the difference quotient is 1/100.  The
    two pieces agree at 600, where the gain is 6, and the curve is
    continuous there: on [[0, 800]] the gain differs from 6 by
    [(q - 600) / 100]. *)
Theorem segments_share_slope :
  (forall a b : Q, 600 <= a -> a < b -> b <= 800 -> slope a b == 1 / 100) /\
  (forall c d : Q, 0 <= c -> c < d -> d <= 600 -> slope c d == 1 / 100) /\
  gain_at 600 == 6 /\
  (600 / 600) * 6 == 6 + ((600 - 600) / 200) * 2 /\
  (forall q : Q, 0 <= q <= 800 -> gain_at q - 6 == (q - 600) / 100).
Proof.
  split; [|split; [|split; [|split]]].
  - intros a b Ha Hab Hb. apply slope_common; lra.
  - intros c d Hc Hcd Hd. apply slope_common; lra.
  - vm_compute. reflexivity.
  - vm_compute. reflexivity.
  - intros q Hq. rewrite gain_at_linear.
    assert (Eq : Qmax 0 (Qmin 800 q) == q).
    { destruct (clamp_cases q) as (_ & E & _). apply E. exact Hq. }
    rewrite Eq. field.
Qed.

(** Two difference quotients, one inside each segment. *)
Lemma slopes_650_750_and_100_500 :
  slope 650 750 == 1 / 100 /\ slope 100 500 == 1 / 100.
Proof.
  destruct segments_share_slope as (Up & Low & _).
  split; [apply Up; lra|apply Low; lra].
Defined.

End GainCurveFacts.

(** ** The tap: settings *)

Module TapFacts.
Import JS Tap.
Local Open Scope Q_scope.

Lemma clamp_range (n : jsval) (lo hi : Q) :
  lo <= hi -> lo <= clamp n lo hi <= hi.
Proof.
  intros L. unfold clamp. destruct (Number n) as [v| | |]; try lra.
  destruct (Q.max_spec lo (Qmin hi v)) as [[? ->]|[? ->]];
    destruct (Q.min_spec hi v) as [[? E]|[? E]]; rewrite ?E in *; lra.
Qed.

Lemma clamp_in_range (q lo hi : Q) :
  lo <= q <= hi -> clamp (VNumber (Fin q)) lo hi == q.
Proof.
  intros L. unfold clamp. cbn [Number].
  destruct (Q.max_spec lo (Qmin hi q)) as [[? ->]|[? ->]];
    destruct (Q.min_spec hi q) as [[? E]|[? E]]; rewrite ?E in *; lra.
Qed.

Lemma clamp_finite (v : jsval) (q lo hi : Q) :
  Number v = Fin q -> lo <= hi ->
  (q <= lo -> clamp v lo hi == lo) /\
  (lo <= q <= hi -> clamp v lo hi == q) /\
  (hi <= q -> clamp v lo hi == hi).
Proof.
  intros N L. unfold clamp. rewrite N.
  destruct (Q.max_spec lo (Qmin hi q)) as [[? ->]|[? ->]];
    destruct (Q.min_spec hi q) as [[? E]|[? E]]; rewrite ?E in *;
    repeat split; intros; lra.
Qed.

Lemma clamp_not_finite (v : jsval) (lo hi : Q) :
  isFinite (Number v) = false -> clamp v lo hi = lo.
Proof. unfold clamp. destruct (Number v); [discriminate|reflexivity..]. Qed.

Lemma lookup_apply_to_seen (w : tap) (ctx : nat) :
  chains (apply_to_seen w) !! ctx =
  (fun ch => if bool_decide (ctx ∈ seenContexts w)
             then applySettings (state w) ch else ch) <$> chains w !! ctx.
Proof.
  unfold apply_to_seen. cbn [chains]. rewrite map_lookup_imap.
  destruct (chains w !! ctx); reflexivity.
Qed.

(** After a settings message the live chains are the former live chains
    with the stored settings applied. *)
Lemma live_SS_SETTINGS (p : payload) (w : tap) (ctx : nat) (ch' : chain) :
  live (SS_SETTINGS p w) ctx ch' <->
  exists ch, live w ctx ch /\ ch' = applySettings (store p (state w)) ch.
Proof.
  unfold live, SS_SETTINGS. rewrite lookup_apply_to_seen. cbn.
  split.
  - intros [Hin H]. destruct (chains w !! ctx) as [ch|]; [|discriminate].
    cbn in H. rewrite bool_decide_true in H by exact Hin.
    exists ch. split; [split; [exact Hin|reflexivity]|congruence].
  - intros (ch & [Hin H] & ->). split; [exact Hin|].
    rewrite H. cbn. rewrite bool_decide_true by exact Hin. reflexivity.
Qed.

Lemma state_SS_SETTINGS (p : payload) (w : tap) :
  state (SS_SETTINGS p w) = store p (state w).
Proof. reflexivity. Qed.

Lemma store_volume_absent (p : payload) (st : settings) :
  volume_absent p ->
  volumePercent (store p st) = clamp (VNumber (Fin (volumePercent st))) 0 800.
Proof.
  intros [T V]. unfold store. cbn [volumePercent]. rewrite T.
  destruct V as [-> | ->]; reflexivity.
Qed.

(** C3.  A settings message with a truthy [muted] sets the gain pushed to
    every live chain to 0, whatever volume is stored or sent along; a chain
    created while muted starts at 0 as well.  A later message with a falsy
    [muted] that carries no volume leaves the stored [volumePercent] as it
    was and sets the gain of every live chain to [volumePercent / 100];
    the chains that were live stay live throughout. *)
Theorem mute_forces_zero_unmute_restores (w : tap) (p1 p2 : payload) :
  truthy (p_muted p1) = true ->
  truthy (p_muted p2) = false ->
  volume_absent p2 ->
  let w1 := SS_SETTINGS p1 w in
  let w2 := SS_SETTINGS p2 w1 in
  (forall ctx ch, live w1 ctx ch -> gain_value ch = 0) /\
  (forall ctx, chains w1 !! ctx = None -> gain_value (snd (getChainFor ctx w1)) = 0) /\
  volumePercent (state w2) == volumePercent (state w1) /\
  (forall ctx ch, live w2 ctx ch -> gain_value ch == volumePercent (state w1) / 100) /\
  (forall ctx ch, live w ctx ch -> exists ch1 ch2, live w1 ctx ch1 /\ live w2 ctx ch2).
Proof.
  intros M1 M2 A w1 w2.
  assert (R1 : 0 <= volumePercent (state w1) <= 800).
  { subst w1. rewrite state_SS_SETTINGS. cbn [store volumePercent].
    apply clamp_range. lra. }
  assert (V2 : volumePercent (state w2) == volumePercent (state w1)).
  { subst w2. rewrite state_SS_SETTINGS, store_volume_absent by exact A.
    apply clamp_in_range. exact R1. }
  split; [|split; [|split; [exact V2|split]]].
  - intros ctx ch L. apply live_SS_SETTINGS in L. destruct L as (ch0 & _ & ->).
    cbn [applySettings gain_value store muted]. rewrite M1. reflexivity.
  - intros ctx N. unfold getChainFor. rewrite N. cbn [snd].
    subst w1. rewrite state_SS_SETTINGS.
    cbn [applySettings gain_value store muted]. rewrite M1. reflexivity.
  - intros ctx ch L. apply live_SS_SETTINGS in L. destruct L as (ch0 & _ & ->).
    cbn [applySettings gain_value]. fold w1.
    replace (muted (store p2 (state w1))) with false
      by (cbn [store muted]; symmetry; exact M2).
    rewrite clamp_in_range.
    + change (volumePercent (store p2 (state w1))) with (volumePercent (state w2)).
      rewrite V2. reflexivity.
    + change (volumePercent (store p2 (state w1))) with (volumePercent (state w2)).
      rewrite V2. exact R1.
  - intros ctx ch L.
    assert (L1 : live w1 ctx (applySettings (store p1 (state w)) ch)).
    { apply live_SS_SETTINGS. exists ch. split; [exact L|reflexivity]. }
    eexists. eexists. split; [exact L1|].
    apply live_SS_SETTINGS. eexists. split; [exact L1|reflexivity].
Qed.

Lemma live_one_chain : exists ch, live one_chain 1%nat ch.
Proof.
  eexists. split.
  - apply (bool_decide_unpack (1%nat ∈ seenContexts one_chain)). vm_compute. exact I.
  - vm_compute. reflexivity.
Qed.

(** With one chain live: volumePercent 400 sent with muted = true gives
    gain 0; muted = false alone then gives gain 4. *)
Lemma mute_400_example :
  truthy (p_muted (volume_and_muted 400 true)) = true /\
  truthy (p_muted (only_muted false)) = false /\
  volume_absent (only_muted false) /\
  (exists ch, live (SS_SETTINGS (volume_and_muted 400 true) one_chain) 1%nat ch /\
              gain_value ch = 0) /\
  (exists ch, live (SS_SETTINGS (only_muted false)
                      (SS_SETTINGS (volume_and_muted 400 true) one_chain)) 1%nat ch /\
              gain_value ch == 4).
Proof.
  assert (A : volume_absent (only_muted false)).
  { split; [reflexivity|left; reflexivity]. }
  destruct (mute_forces_zero_unmute_restores one_chain
              (volume_and_muted 400 true) (only_muted false)
              eq_refl eq_refl A) as (Z & _ & _ & G & L).
  destruct live_one_chain as (ch & Hch).
  destruct (L _ _ Hch) as (ch1 & ch2 & L1 & L2).
  split; [reflexivity|]. split; [reflexivity|]. split; [exact A|]. split.
  - exists ch1. split; [exact L1|]. exact (Z _ _ L1).
  - exists ch2. split; [exact L2|]. rewrite (G _ _ L2). vm_compute. reflexivity.
Defined.

End TapFacts.

(** ** The tap: the master bus is connected once *)

Module BusFacts.
Import JS Tap TapFacts.

Lemma count_calls_app c l1 l2 :
  count_calls c (l1 ++ l2) = (count_calls c l1 + count_calls c l2)%nat.
Proof. induction l1 as [|x r IH]; cbn; [reflexivity|]. rewrite IH. lia. Qed.

Lemma count_calls_notin c l : c ∉ l -> count_calls c l = 0%nat.
Proof.
  induction l as [|x r IH]; cbn; [reflexivity|]. intros N.
  rewrite bool_decide_false.
  - apply IH. intros H. apply N. right. exact H.
  - intros ->. apply N. left.
Qed.

Lemma quiet_nil ctx : quiet ctx [].
Proof. intros c H. inversion H. Qed.

Lemma quiet_app ctx l1 l2 : quiet ctx l1 -> quiet ctx l2 -> quiet ctx (l1 ++ l2).
Proof.
  intros Q1 Q2 c H. apply elem_of_app in H. destruct H; [apply Q1|apply Q2]; assumption.
Qed.

Lemma quiet_notin ctx l : quiet ctx l -> output_call ctx ∉ l.
Proof. intros Q H. destruct (Q _ H) as [N _]. apply N. reflexivity. Qed.

Lemma page_calls_notin this l ctx : page_calls this l -> output_call ctx ∉ l.
Proof. intros P H. destruct (P _ H) as [F _]. discriminate F. Qed.

Lemma page_calls_quiet this l ctx :
  page_calls this l -> ctx <> context (Page this) -> quiet ctx l.
Proof.
  intros P N c H. destruct (P _ H) as [F R]. split.
  - intros ->. discriminate F.
  - intros E. apply N. apply R. exact E.
Qed.

Ltac case_throws :=
  repeat match goal with
         | |- context [if ?f ?k ?a ?b then Threw else Returned] =>
             destruct (f k a b)
         end.

Ltac page_call_list :=
  let c := fresh "c" in
  let H := fresh "H" in
  intros c H;
  repeat (apply elem_of_cons in H; destruct H as [-> | H]);
  try (apply elem_of_nil in H; destruct H);
  (split; [reflexivity | cbn; intros; congruence]).

Section Bus.
Variable native_throws : nat -> node -> target -> bool.
Variable v : variant.

(** The shape of a call of the patched [connect] by a page node: either it
    is rerouted (the target is the destination of the node's context) and
    then the chain of that context exists afterwards, flagged, the output
    call was appended first if and only if the flag was not set, and only
    calls on behalf of the node follow; or it only appends calls on behalf
    of the node, none of them into a master input. *)
Lemma patchedConnect_shape (this : page_node) (dest : page_target) (w : tap) :
  let ctx := context (Page this) in
  let w' := fst (patchedConnect native_throws v (Page this) (to_target dest) w) in
  state w' = state w /\
  (forall c, c <> ctx -> chains w' !! c = chains w !! c) /\
  if asks_destination ctx (Connect this dest) then
    exists ch extra,
      chains w' !! ctx = Some ch /\ connected ch = true /\
      page_calls this extra /\
      match chains w !! ctx with
      | Some ch0 =>
          if connected ch0 then calls w' = calls w ++ extra
          else calls w' = calls w ++ output_call ctx :: extra
      | None => calls w' = calls w ++ output_call ctx :: extra
      end
  else
    chains w' !! ctx = chains w !! ctx /\
    exists extra, calls w' = calls w ++ extra /\
      forall c, c ∈ extra -> fst c = Page this /\ forall x, snd c <> ToNode (MasterInput x).
Proof.
  intros ctx w'. subst w'.
  destruct dest as [d|pc pi]; cbn [to_target patchedConnect].
  - fold ctx. cbn [bypassed negb]. rewrite andb_true_r.
    destruct (bool_decide (Page d = Page (Dest ctx))) eqn:B.
    + apply bool_decide_eq_true in B. injection B as ->.
      cbn [asks_destination]. fold ctx. rewrite !bool_decide_true by reflexivity.
      cbn [andb]. unfold getChainFor.
      destruct (chains w !! ctx) as [ch0|] eqn:E.
      * destruct (connected ch0) eqn:C.
        -- unfold nativeConnect.
           case_throws; destruct v; cbn;
             (split; [reflexivity|]); (split; [reflexivity|]);
             exists ch0; eexists; (split; [exact E|]); (split; [exact C|]);
             (split; [|rewrite <- ?app_assoc; reflexivity]); page_call_list.
        -- unfold nativeConnect, set_connected.
           cbn [fst calls chains state seenContexts]; case_throws; destruct v; cbn;
             (split; [reflexivity|]);
             (split; [intros c N; apply lookup_insert_ne; congruence|]);
             eexists; eexists; (split; [apply lookup_insert_eq|]);
             (split; [reflexivity|]);
             (split; [|rewrite <- ?app_assoc; reflexivity]); page_call_list.
      * cbn [connected applySettings]. unfold nativeConnect, set_connected.
        cbn [fst calls chains state seenContexts].
        cbn [fst calls chains state seenContexts]; case_throws; destruct v; cbn;
          (split; [reflexivity|]);
          (split; [intros c N; rewrite !lookup_insert_ne by congruence; reflexivity|]);
          eexists; eexists; (split; [apply lookup_insert_eq|]);
          (split; [reflexivity|]);
          (split; [|rewrite <- ?app_assoc; reflexivity]); page_call_list.
    + assert (A : asks_destination ctx (Connect this (AtNode d)) = false).
      { cbn [asks_destination]. destruct d as [c i|c]; [reflexivity|].
        fold ctx. rewrite bool_decide_true by reflexivity. cbn [andb].
        apply bool_decide_eq_false. apply bool_decide_eq_false in B. congruence. }
      rewrite A. unfold nativeConnect. cbn.
      split; [reflexivity|]. split; [reflexivity|]. split; [reflexivity|].
      eexists. split; [reflexivity|].
      intros c H. apply list_elem_of_singleton in H. subst c.
      split; [reflexivity|]. cbn. congruence.
  - cbn [asks_destination]. unfold nativeConnect.
    case_throws; cbn;
      (split; [reflexivity|]); (split; [reflexivity|]); (split; [reflexivity|]);
      eexists; (split; [rewrite <- ?app_assoc; reflexivity|]);
      intros c H;
      repeat (apply elem_of_cons in H; destruct H as [-> | H]);
      try (apply elem_of_nil in H; destruct H);
      (split; [reflexivity | cbn; congruence]).
Qed.

Lemma bus_inv_append (ctx : nat) (w w' : tap) (l' : list (node * target)) :
  bus_inv ctx w ->
  chains w' !! ctx = chains w !! ctx ->
  calls w' = calls w ++ l' ->
  quiet ctx l' ->
  bus_inv ctx w'.
Proof.
  unfold bus_inv. intros I C L Q. rewrite C, L.
  destruct (chains w !! ctx) as [ch|].
  - destruct I as (F & l1 & l2 & E & Q1 & N2). split; [exact F|].
    exists l1, (l2 ++ l'). rewrite E, <- app_assoc. cbn.
    split; [reflexivity|]. split; [exact Q1|].
    intros H. apply elem_of_app in H. destruct H as [H|H]; [exact (N2 H)|].
    exact (quiet_notin _ _ Q H).
  - apply quiet_app; assumption.
Qed.

Lemma bus_inv_fresh (ctx : nat) (w w' : tap) (ch : chain) (extra : list (node * target)) :
  bus_inv ctx w ->
  chains w !! ctx = None ->
  chains w' !! ctx = Some ch -> connected ch = true ->
  calls w' = calls w ++ output_call ctx :: extra ->
  output_call ctx ∉ extra ->
  bus_inv ctx w'.
Proof.
  unfold bus_inv. intros I N C F L X. rewrite N in I. rewrite C.
  split; [exact F|]. exists (calls w), extra. auto.
Qed.

Lemma bus_inv_more (ctx : nat) (w w' : tap) (ch0 ch : chain) (extra : list (node * target)) :
  bus_inv ctx w ->
  chains w !! ctx = Some ch0 ->
  chains w' !! ctx = Some ch -> connected ch = true ->
  calls w' = calls w ++ extra ->
  output_call ctx ∉ extra ->
  bus_inv ctx w'.
Proof.
  unfold bus_inv. intros I N C F L X. rewrite N in I. rewrite C.
  destruct I as (_ & l1 & l2 & E & Q1 & N2). split; [exact F|].
  exists l1, (l2 ++ extra). rewrite L, E, <- app_assoc. cbn.
  split; [reflexivity|]. split; [exact Q1|].
  intros H. apply elem_of_app in H. destruct H as [H|H]; [exact (N2 H)|exact (X H)].
Qed.

Lemma asks_destination_context ctx this dest :
  asks_destination ctx (Connect this dest) = true -> ctx = context (Page this).
Proof.
  destruct dest as [[c i|c]|c i]; cbn [asks_destination]; try discriminate.
  intros H. apply andb_true_iff in H. destruct H as [H _].
  apply bool_decide_eq_true in H. congruence.
Qed.

Lemma step_bus_inv (ctx : nat) (w : tap) (e : event) :
  bus_inv ctx w -> bus_inv ctx (step native_throws v w e).
Proof.
  intros I. destruct e as [p|this dest]; cbn [step].
  - unfold bus_inv in *. unfold SS_SETTINGS. rewrite lookup_apply_to_seen.
    cbn [chains calls seenContexts state].
    destruct (chains w !! ctx) as [ch|]; cbn; [|exact I].
    destruct I as [F D]. split; [|exact D].
    destruct (bool_decide _); cbn; exact F.
  - destruct (patchedConnect_shape this dest w) as (_ & Other & Shape).
    cbv zeta in Other, Shape.
    set (w' := fst (patchedConnect native_throws v (Page this) (to_target dest) w)) in *.
    set (c0 := context (Page this)) in *.
    destruct (decide (ctx = c0)) as [->|Ne].
    + destruct (asks_destination c0 (Connect this dest)).
      * destruct Shape as (ch & extra & C & F & P & L).
        destruct (chains w !! c0) as [ch0|] eqn:E.
        -- assert (F0 : connected ch0 = true).
           { unfold bus_inv in I. rewrite E in I. apply I. }
           rewrite F0 in L.
           eapply bus_inv_more; eauto using page_calls_notin.
        -- eapply bus_inv_fresh; eauto using page_calls_notin.
      * destruct Shape as (C & extra & L & Q).
        eapply bus_inv_append; eauto.
        intros c H. destruct (Q c H) as [Fc Sc]. split; [|apply Sc].
        intros ->. discriminate Fc.
    + specialize (Other ctx Ne).
      destruct (asks_destination c0 (Connect this dest)).
      * destruct Shape as (ch & extra & _ & _ & P & L).
        assert (Q : quiet ctx extra) by (eapply page_calls_quiet; eauto).
        assert (Q' : quiet ctx (output_call c0 :: extra)).
        { intros c H. apply elem_of_cons in H. destruct H as [->|H]; [|exact (Q c H)].
          split; [unfold output_call; congruence|discriminate]. }
        destruct (chains w !! c0) as [ch0|]; [destruct (connected ch0)|];
          eapply bus_inv_append; eauto.
      * destruct Shape as (_ & extra & L & Q).
        eapply bus_inv_append; eauto.
        intros c H. destruct (Q c H) as [Fc Sc]. split; [|apply Sc].
        intros ->. discriminate Fc.
Qed.

Lemma step_chain_exists (ctx : nat) (w : tap) (e : event) :
  is_Some (chains (step native_throws v w e) !! ctx) <->
  is_Some (chains w !! ctx) \/ asks_destination ctx e = true.
Proof.
  destruct e as [p|this dest]; cbn [step].
  - unfold SS_SETTINGS. rewrite lookup_apply_to_seen. cbn [chains seenContexts state].
    rewrite fmap_is_Some. cbn [asks_destination]. intuition discriminate.
  - destruct (patchedConnect_shape this dest w) as (_ & Other & Shape).
    cbv zeta in Other, Shape.
    set (w' := fst (patchedConnect native_throws v (Page this) (to_target dest) w)) in *.
    set (c0 := context (Page this)) in *.
    destruct (decide (ctx = c0)) as [->|Ne].
    + destruct (asks_destination c0 (Connect this dest)).
      * destruct Shape as (ch & extra & C & _). rewrite C. split; eauto.
      * destruct Shape as (C & _). rewrite C. intuition discriminate.
    + rewrite (Other ctx Ne). split; [auto|]. intros [H|H]; [exact H|].
      apply asks_destination_context in H. contradiction.
Qed.

Lemma run_bus_inv (ctx : nat) (es : list event) (w : tap) :
  bus_inv ctx w -> bus_inv ctx (run native_throws v es w).
Proof.
  revert w. induction es as [|e es IH]; intros w I; cbn; [exact I|].
  apply IH. apply step_bus_inv. exact I.
Qed.

Lemma run_chain_exists (ctx : nat) (es : list event) (w : tap) :
  is_Some (chains (run native_throws v es w) !! ctx) <->
  is_Some (chains w !! ctx) \/ existsb (asks_destination ctx) es = true.
Proof.
  revert w. induction es as [|e es IH]; intros w; cbn [run fold_left existsb].
  - intuition discriminate.
  - change (fold_left (step native_throws v) es (step native_throws v w e))
      with (run native_throws v es (step native_throws v w e)).
    rewrite IH, step_chain_exists, orb_true_iff. tauto.
Qed.

End Bus.

Lemma bus_inv_initial (ctx : nat) : bus_inv ctx initial.
Proof. unfold bus_inv, initial. cbn. rewrite lookup_empty. apply quiet_nil. Qed.

Lemma existsb_sources (ctx n : nat) :
  existsb (asks_destination ctx) (sources ctx n) = negb (Nat.eqb n 0).
Proof.
  unfold sources. destruct n as [|n]; [reflexivity|].
  cbn. rewrite !bool_decide_true by reflexivity. reflexivity.
Qed.

(** C6.  Start from the tap as installed and let the page post settings
    and call [connect] in any order, with any behaviour of the native
    [connect].  For every context: the native call that connects the master
    output to the destination has been issued exactly once if some node of
    the context asked for the destination, and not at all otherwise; so
    with N >= 1 sources it is issued once.  A chain that exists has its
    [connected] flag set, and every native call that routes a node into
    the master input comes after the output call. *)
Theorem master_bus_connected_once
    (native_throws : nat -> node -> target -> bool) (v : variant)
    (es : list event) (ctx : nat) :
  let w := run native_throws v es initial in
  output_connections ctx w
    = (if existsb (asks_destination ctx) es then 1 else 0)%nat /\
  (forall n : nat,
      output_connections ctx (run native_throws v (sources ctx n) initial)
        = Nat.min 1 n) /\
  (forall ch, chains w !! ctx = Some ch -> connected ch = true) /\
  (forall l1 c l2,
      calls w = l1 ++ c :: l2 -> snd c = ToNode (MasterInput ctx) ->
      output_call ctx ∈ l1).
Proof.
  assert (Count : forall es',
    output_connections ctx (run native_throws v es' initial)
      = (if existsb (asks_destination ctx) es' then 1 else 0)%nat).
  { intros es'.
    pose proof (run_bus_inv native_throws v ctx es' initial (bus_inv_initial ctx)) as I.
    pose proof (run_chain_exists native_throws v ctx es' initial) as X.
    unfold initial at 2 in X. cbn [chains] in X. rewrite lookup_empty in X.
    unfold bus_inv in I. unfold output_connections.
    destruct (chains (run native_throws v es' initial) !! ctx) as [ch|].
    - destruct I as (_ & l1 & l2 & -> & Q1 & N2).
      destruct X as [X _]. destruct (X (ex_intro _ ch eq_refl)) as [[? [=]]| ->].
      rewrite count_calls_app. cbn [count_calls].
      rewrite bool_decide_true by reflexivity.
      rewrite (count_calls_notin _ l1) by (apply quiet_notin; exact Q1).
      rewrite (count_calls_notin _ l2) by exact N2. reflexivity.
    - destruct (existsb (asks_destination ctx) es') eqn:A.
      + destruct X as [_ X]. destruct (X (or_intror eq_refl)) as [? [=]].
      + apply count_calls_notin. apply quiet_notin. exact I. }
  intros w. subst w.
  pose proof (run_bus_inv native_throws v ctx es initial (bus_inv_initial ctx)) as I.
  unfold bus_inv in I.
  split; [apply Count|]. split; [|split].
  - intros n. rewrite Count, existsb_sources. destruct n; reflexivity.
  - intros ch E. rewrite E in I. apply I.
  - intros l1 c l2 L R.
    destruct (chains (run native_throws v es initial) !! ctx) as [ch|].
    + destruct I as (_ & k1 & k2 & E & Q1 & _). rewrite E in L.
      apply app_eq_app in L. destruct L as (l & [[E1 E2]|[E1 E2]]).
      * destruct l as [|x l]; cbn in E2.
        -- injection E2 as E2 _. subst c. discriminate R.
        -- injection E2 as <- _. subst k1.
           exfalso. destruct (Q1 c) as [_ N]; [|exact (N R)].
           apply elem_of_app. right. left.
      * subst l1. destruct l as [|x l]; cbn in E2.
        -- injection E2 as E2 _. subst c. discriminate R.
        -- injection E2 as -> _. apply elem_of_app. right. left.
    + exfalso. destruct (I c) as [_ N]; [|exact (N R)].
      rewrite L. apply elem_of_app. right. left.
Qed.

End BusFacts.

(** ** Binding: the order of the strategies, and idempotence *)

Module SourceFacts.
Import Elements.

Lemma direct_attempt_element e s : direct_attempt e = Some s -> source_element s = el_id e.
Proof. unfold direct_attempt. destruct (direct_ok e); intros [= <-]; reflexivity. Qed.

Lemma capture_attempt_element e s : capture_attempt e = Some s -> source_element s = el_id e.
Proof.
  unfold capture_attempt. destruct (capture_call e) as [|[[[|]]|]]; intros [= <-]; reflexivity.
Qed.

Lemma firefox11_order (e : element) :
  Firefox11.makeSourceForElement e =
    match direct_attempt e with Some s => Some s | None => capture_attempt e end.
Proof.
  unfold Firefox11.makeSourceForElement, capture_attempt.
  destruct (direct_attempt e); [reflexivity|].
  destruct (capture_call e) as [|[[[|]]|]]; reflexivity.
Qed.

Lemma youtube_source_element e s :
  YouTube.makeSourceForElement e = Some s -> source_element s = el_id e.
Proof.
  unfold YouTube.makeSourceForElement.
  destruct (capture_attempt e) eqn:C.
  - intros [= <-]. eapply capture_attempt_element; eauto.
  - apply direct_attempt_element.
Qed.

Lemma page_source_element e w s :
  PageScript._makeSource e w = Some s -> source_element s = el_id e.
Proof.
  unfold PageScript._makeSource. destruct (negb _); [discriminate|].
  destruct (direct_attempt e) eqn:D.
  - intros [= <-]. eapply direct_attempt_element; eauto.
  - apply capture_attempt_element.
Qed.

(** *** The YouTube script *)

Section YouTubeHook.
Import YouTube.
Variable pg : page.

Lemma ensureContext_frame (s : script) :
  mediaMap (fst (ensureContext pg s)) = mediaMap s /\
  hooked (fst (ensureContext pg s)) = hooked s /\
  destination (fst (ensureContext pg s)) = destination s /\
  eqGains (fst (ensureContext pg s)) = eqGains s.
Proof.
  unfold ensureContext.
  destruct (negb (IS_YOUTUBE pg)); [auto|].
  destruct (audioCtx s); [auto|].
  destruct (negb (AudioContextClass pg)); cbn; auto.
Qed.

(** What one call of [hookElementYouTube] does to the records and to the
    graph: nothing, or one new chain for an element that had no entry. *)
Lemma hook_effect (e : element) (s : script) :
  let s' := hookElementYouTube pg e s in
  (mediaMap s' = mediaMap s /\ hooked s' = hooked s /\ destination s' = destination s) \/
  (exists src bands,
      mediaMap s !! el_id e = None /\
      YouTube.makeSourceForElement e = Some src /\
      mediaMap s' = <[el_id e := mkEntry src (currentVolume s') (currentMode s') bands]> (mediaMap s) /\
      hooked s' = {[el_id e]} ∪ hooked s /\
      destination s' = destination s ++ [src]).
Proof.
  cbv zeta. unfold hookElementYouTube.
  destruct (negb (IS_YOUTUBE pg)); [left; auto|].
  destruct (bool_decide (is_Some (mediaMap s !! el_id e))) eqn:B; [left; auto|].
  destruct (bool_decide (el_id e ∈ hooked s)); [left; auto|].
  destruct (ensureContext_frame s) as (M & H & D & G).
  destruct (ensureContext pg s) as [s1 ctx]. cbn [fst] in *.
  destruct (negb ctx); [left; auto|].
  destruct (YouTube.makeSourceForElement e) as [src|] eqn:S; [|left; auto].
  destruct (applyEqFilters (eqGains s1)) as [bands|]; [|left; auto].
  right. exists src, bands. cbn. rewrite M, H, D.
  apply bool_decide_eq_false in B.
  split; [|auto]. destruct (mediaMap s !! el_id e); [|reflexivity].
  exfalso. apply B. eauto.
Qed.

Lemma hook_bound_noop (e : element) (s : script) :
  is_Some (mediaMap s !! el_id e) -> hookElementYouTube pg e s = s.
Proof.
  intros B. unfold hookElementYouTube.
  destruct (negb (IS_YOUTUBE pg)); [reflexivity|].
  rewrite bool_decide_true by exact B. reflexivity.
Qed.

Lemma chains_of_snoc (el : nat) (s s' : script) (src : source) :
  destination s' = destination s ++ [src] ->
  chains_of el s' =
    (chains_of el s + if bool_decide (source_element src = el) then 1 else 0)%nat.
Proof.
  intros D. unfold chains_of. rewrite D, filter_app, length_app. f_equal.
  destruct (decide (source_element src = el)) as [E|N].
  - rewrite filter_cons_True by exact E. rewrite bool_decide_true by exact E. reflexivity.
  - rewrite filter_cons_False by exact N. rewrite bool_decide_false by exact N. reflexivity.
Qed.

Lemma hook_binder_inv (e : element) (s : script) :
  binder_inv s -> binder_inv (hookElementYouTube pg e s).
Proof.
  intros I el. destruct (hook_effect e s) as [(M & _ & D)|(src & bands & N & S & M & _ & D)].
  - unfold chains_of. rewrite M, D. apply I.
  - rewrite (chains_of_snoc el s _ src D), M, (I el).
    apply youtube_source_element in S. rewrite S.
    destruct (decide (el_id e = el)) as [<-|Ne].
    + rewrite lookup_insert_eq, N.
      rewrite (bool_decide_false (is_Some None)) by (intros [? [=]]).
      rewrite !bool_decide_true by eauto. reflexivity.
    + rewrite lookup_insert_ne by exact Ne.
      rewrite (bool_decide_false (el_id e = el)) by exact Ne. lia.
Qed.

Lemma scan_binder_inv (els : list element) (s : script) :
  binder_inv s -> binder_inv (scanAndHook pg els s).
Proof.
  revert s. induction els as [|e els IH]; intros s I; cbn; [exact I|].
  apply IH. apply hook_binder_inv. exact I.
Qed.

End YouTubeHook.

Lemma youtube_initial_inv vol md eqv ctx :
  YouTube.binder_inv (YouTube.mkScript vol md eqv ctx ∅ ∅ []).
Proof. intros el. unfold YouTube.chains_of. cbn. rewrite lookup_empty.
  rewrite bool_decide_false by (intros [? [=]]). reflexivity. Qed.

End SourceFacts.

(** ** The page controller: what every step keeps *)

Module PageFacts.
Import JS Elements PageScript SourceFacts.

Lemma frame_refl w : frame w w.
Proof. unfold frame. repeat split; auto. Qed.

Lemma frame_trans w1 w2 w3 : frame w1 w2 -> frame w2 w3 -> frame w1 w3.
Proof.
  unfold frame. intros (A & B & C & D & E & F) (A' & B' & C' & D' & E' & F').
  repeat split; [auto|auto|auto|congruence..].
Qed.

Lemma keeps_refl w : keeps w w.
Proof. unfold keeps. repeat split; auto. Qed.

Lemma keeps_trans w1 w2 w3 : keeps w1 w2 -> keeps w2 w3 -> keeps w1 w3.
Proof.
  unfold keeps. intros (A & B & C & D & E) (A' & B' & C' & D' & E').
  repeat split; auto.
Qed.

Lemma frame_keeps w w' : frame w w' -> keeps w w'.
Proof.
  unfold frame, keeps. intros (A & B & C & D & E & F).
  split; [exact A|]. split; [exact B|]. split; [exact C|]. split.
  - unfold binder_inv, bound_chains. rewrite D, E. auto.
  - rewrite F. auto.
Qed.

Lemma fold_frame {A} (f : world -> A -> world) (l : list A) :
  (forall w x, frame w (f w x)) -> forall w, frame w (fold_left f l w).
Proof.
  intros F. induction l as [|x l IH]; intros w; cbn; [apply frame_refl|].
  eapply frame_trans; [apply F|apply IH].
Qed.

Lemma fold_keeps {A} (f : world -> A -> world) (l : list A) :
  (forall w x, keeps w (f w x)) -> forall w, keeps w (fold_left f l w).
Proof.
  intros F. induction l as [|x l IH]; intros w; cbn; [apply keeps_refl|].
  eapply keeps_trans; [apply F|apply IH].
Qed.

(** Closes a [frame] goal about a function that rebuilds records without
    touching the framed fields. *)
Ltac framed :=
  unfold frame, bus_ok; repeat case_match; cbn; repeat split; auto;
  try (intros; congruence).

Ltac split_if :=
  match goal with
  | |- frame _ (if ?c then _ else _) => destruct c
  | |- keeps _ (if ?c then _ else _) => destruct c
  end.

Lemma frame_emit es w : frame w (emit es w).
Proof. framed. Qed.

Lemma frame_mark k w : frame w (mark k w).
Proof. framed. Qed.

Lemma frame_inspectElement e w : frame w (inspectElement e w).
Proof. unfold inspectElement. case_match; [apply frame_mark|apply frame_refl]. Qed.

Lemma frame_watchElement e w : frame w (watchElement e w).
Proof.
  unfold watchElement. case_match; [apply frame_refl|].
  unfold inspectElement. case_match; framed.
Qed.

Lemma frame_guard_scan w : frame w (guard_scan w).
Proof. unfold guard_scan. apply fold_frame. intros; apply frame_watchElement. Qed.

Lemma frame_element_encrypted el w : frame w (element_encrypted el w).
Proof. unfold element_encrypted. framed. Qed.

Lemma frame_document_encrypted h w : frame w (document_encrypted h w).
Proof. unfold document_encrypted. framed. Qed.

Lemma frame_ensure h w : frame w (fst (ensure h w)).
Proof. unfold ensure. framed. Qed.

Lemma frame_setGainLinear v w : frame w (setGainLinear v w).
Proof. unfold setGainLinear. framed. Qed.

Lemma frame_bus_setEqDb a w : frame w (bus_setEqDb a w).
Proof.
  unfold bus_setEqDb. cbv zeta. split_if; [apply frame_refl|].
  unfold frame, bus_ok. cbn. rewrite length_imap. repeat split; auto.
Qed.

Lemma frame_bus_setMode m w : frame w (bus_setMode m w).
Proof. unfold bus_setMode. framed. Qed.

Lemma frame_install h w : frame w (install h w).
Proof. unfold install. framed. Qed.

Lemma frame_tap_apply p w : frame w (tap_apply p w).
Proof. framed. Qed.

Lemma frame_basic_controls h w : frame w (basic_controls h w).
Proof. unfold basic_controls. framed. Qed.

Lemma frame__applyAll h w : frame w (_applyAll h w).
Proof.
  unfold _applyAll.
  assert (T : frame w (if IS_SPOTIFY h && spotifyExperimental (ctl w)
                       then tap_apply (settings_payload (ctl w)) w else w)).
  { split_if; [apply frame_tap_apply|apply frame_refl]. }
  cbv zeta.
  split_if; [apply frame_emit|].
  split_if; [exact T|].
  split_if.
  { eapply frame_trans; [exact T|].
    eapply frame_trans; [apply frame_setGainLinear|].
    eapply frame_trans; [apply frame_bus_setEqDb|apply frame_bus_setMode]. }
  split_if.
  - eapply frame_trans; [exact T|apply frame_emit].
  - eapply frame_trans; [exact T|apply frame_basic_controls].
Qed.

(** What one call of [hook] does to the records and to the graph:
    nothing, or one new source for an element that had none. *)
Lemma hook_element_effect h e w :
  let w' := fst (hook_element h e w) in
  (inUse (guard w) = true -> inUse (guard w') = true) /\
  (_started (ctl w) = true -> _started (ctl w') = true) /\
  (bus_ok w -> bus_ok w') /\
  eqDb (ctl w') = eqDb (ctl w) /\
  ((bus_inputs (bus w') = bus_inputs (bus w) /\ sources (hook w') = sources (hook w)) \/
   (exists node,
       sources (hook w) !! el_id e = None /\
       source_element node = el_id e /\
       sources (hook w') = <[el_id e := node]> (sources (hook w)) /\
       bus_inputs (bus w') = bus_inputs (bus w) ++ [node])).
Proof.
  cbv zeta. unfold hook_element.
  destruct (negb (is_media e)); [cbn; auto 7|].
  set (w1 := if IS_SPOTIFY h then watchElement e w else w).
  assert (F1 : frame w w1).
  { subst w1. split_if; [apply frame_watchElement|apply frame_refl]. }
  pose proof (frame_ensure h w1) as F2.
  destruct (ensure h w1) as [w2 ok]. cbn [fst] in F2.
  destruct (frame_trans _ _ _ F1 F2) as (G & T & K & I & S & Q).
  destruct (negb ok); [cbn [fst]; auto 7|].
  destruct (bool_decide (is_Some (sources (hook w2) !! el_id e))) eqn:B;
    [cbn [fst]; auto 7|].
  set (w3 := if negb (IS_SPOTIFY h) && negb (crossOrigin e)
             then emit [SetCrossOriginAnonymous (el_id e)] w2 else w2).
  assert (E3 : guard w3 = guard w2 /\ bus w3 = bus w2 /\ hook w3 = hook w2 /\ ctl w3 = ctl w2).
  { subst w3. destruct (negb (IS_SPOTIFY h) && negb (crossOrigin e)); cbn; auto. }
  destruct E3 as (G3 & B3 & H3 & C3).
  destruct (_makeSource e w3) as [node|] eqn:M.
  - assert (N : sources (hook w) !! el_id e = None).
    { apply bool_decide_eq_false in B. rewrite <- S.
      destruct (sources (hook w2) !! el_id e); [exfalso; apply B; eauto|reflexivity]. }
    apply page_source_element in M.
    match goal with |- context [if ?c then _ else _] => destruct c end;
      unfold bus_ok in *; cbn; rewrite G3, C3, H3, B3, S, I;
      (split; [exact G|]); (split; [exact T|]); (split; [exact K|]);
      (split; [exact Q|]); right; exists node; auto.
  - destruct (bool_decide (el_id e ∈ _pendingRetry (hook w3)));
      unfold bus_ok in *; cbn; rewrite G3, C3, ?H3, B3; auto 7.
Qed.

Lemma bound_chains_snoc (el : nat) (w w' : world) (node : source) :
  bus_inputs (bus w') = bus_inputs (bus w) ++ [node] ->
  bound_chains el w' =
    (bound_chains el w + if bool_decide (source_element node = el) then 1 else 0)%nat.
Proof.
  intros D. unfold bound_chains. rewrite D, filter_app, length_app. f_equal.
  destruct (decide (source_element node = el)) as [E|N].
  - rewrite filter_cons_True by exact E. rewrite bool_decide_true by exact E. reflexivity.
  - rewrite filter_cons_False by exact N. rewrite bool_decide_false by exact N. reflexivity.
Qed.

Lemma keeps_hook_element h e w : keeps w (fst (hook_element h e w)).
Proof.
  destruct (hook_element_effect h e w)
    as (G & T & K & Q & [[I S]|(node & N & E & S & I)]).
  - apply frame_keeps. unfold frame. auto 7.
  - split; [exact G|]. split; [exact T|]. split; [exact K|].
    split; [|rewrite Q; auto].
    intros J el. rewrite (bound_chains_snoc el w _ node I), S, (J el), E.
    destruct (decide (el_id e = el)) as [<-|Ne].
    + rewrite lookup_insert_eq, N.
      rewrite (bool_decide_false (is_Some None)) by (intros [? [=]]).
      rewrite !bool_decide_true by eauto. reflexivity.
    + rewrite lookup_insert_ne by exact Ne.
      rewrite (bool_decide_false (el_id e = el)) by exact Ne. lia.
Qed.

Lemma keeps_hook_scan h els w : keeps w (hook_scan h els w).
Proof. unfold hook_scan. apply fold_keeps. intros; apply keeps_hook_element. Qed.

Lemma keeps_retry h e w : keeps w (retry h e w).
Proof.
  unfold retry. eapply keeps_trans; [|apply keeps_hook_element].
  apply frame_keeps. framed.
Qed.

Lemma keeps__installMediaHooks h w : keeps w (_installMediaHooks h w).
Proof.
  unfold _installMediaHooks. split_if; [apply keeps_refl|].
  eapply keeps_trans; [apply keeps_hook_scan|]. apply frame_keeps. framed.
Qed.

Lemma keeps__applyAll h w : keeps w (_applyAll h w).
Proof. apply frame_keeps, frame__applyAll. Qed.

Lemma keeps_start h w : keeps w (start h w).
Proof.
  unfold start. cbv zeta. split_if; [apply keeps_refl|].
  set (w1 := set_ctl _ w).
  assert (K1 : keeps w w1) by (apply frame_keeps; subst w1; framed).
  eapply keeps_trans; [exact K1|].
  eapply keeps_trans; [|apply keeps__applyAll].
  split_if; [apply keeps__installMediaHooks|].
  split_if; [apply frame_keeps, frame_install|apply keeps_refl].
Qed.

Lemma length_slice_pad10 (a : list jsval) : length (Tap.slice_pad10 a) = 10%nat.
Proof.
  unfold Tap.slice_pad10. rewrite length_app, length_replicate, length_take. lia.
Qed.

Lemma length_stored_eq (arr : option (list jsval)) : length (stored_eq arr) = 10%nat.
Proof. unfold stored_eq. rewrite length_map. apply length_slice_pad10. Qed.

Lemma keeps_setVolumePercent h v w : keeps w (setVolumePercent h v w).
Proof.
  unfold setVolumePercent. cbv zeta. set (w1 := set_ctl _ w).
  assert (K1 : keeps w w1) by (apply frame_keeps; subst w1; framed).
  eapply keeps_trans; [exact K1|].
  eapply keeps_trans; [apply keeps_start|apply keeps__applyAll].
Qed.

Lemma keeps_setMuted h v w : keeps w (setMuted h v w).
Proof.
  unfold setMuted. cbv zeta. set (w1 := set_ctl _ w).
  assert (K1 : keeps w w1) by (apply frame_keeps; subst w1; framed).
  eapply keeps_trans; [exact K1|].
  eapply keeps_trans; [apply keeps_start|apply keeps__applyAll].
Qed.

Lemma keeps_setMode h v w : keeps w (setMode h v w).
Proof.
  unfold setMode. cbv zeta. set (w1 := set_ctl _ w).
  assert (K1 : keeps w w1) by (apply frame_keeps; subst w1; framed).
  eapply keeps_trans; [exact K1|].
  eapply keeps_trans; [apply keeps_start|apply keeps__applyAll].
Qed.

Lemma keeps_setEqDb h a w : keeps w (setEqDb h a w).
Proof.
  unfold setEqDb. cbv zeta. set (w1 := set_ctl _ w).
  assert (K1 : keeps w w1).
  { subst w1. unfold keeps. cbn. repeat split; auto.
    intros _. apply length_stored_eq. }
  eapply keeps_trans; [exact K1|].
  eapply keeps_trans; [apply keeps_start|apply keeps__applyAll].
Qed.

Lemma keeps_onMessage h m w : keeps w (fst (onMessage h m w)).
Proof.
  destruct m; cbn [onMessage fst].
  - apply keeps_start.
  - eapply keeps_trans; [apply keeps_setVolumePercent|apply frame_keeps, frame_emit].
  - eapply keeps_trans; [apply keeps_setMuted|apply frame_keeps, frame_emit].
  - eapply keeps_trans; [apply keeps_setMuted|apply frame_keeps, frame_emit].
  - eapply keeps_trans; [apply keeps_setMode|apply frame_keeps, frame_emit].
  - eapply keeps_trans; [apply keeps_setEqDb|apply frame_keeps, frame_emit].
Qed.

Lemma keeps_storage_loaded h a b c d e w : keeps w (storage_loaded h a b c d e w).
Proof.
  unfold storage_loaded. cbv zeta.
  eapply keeps_trans; [|apply keeps_setVolumePercent].
  eapply keeps_trans; [|apply keeps_setMuted].
  eapply keeps_trans; [|apply keeps_setEqDb].
  eapply keeps_trans; [|apply keeps_setMode].
  split_if.
  - eapply keeps_trans; [|apply frame_keeps, frame_install]. apply frame_keeps. framed.
  - apply frame_keeps. framed.
Qed.

Lemma keeps_experimental_changed h v w : keeps w (experimental_changed h v w).
Proof.
  unfold experimental_changed. cbv zeta.
  eapply keeps_trans; [|apply keeps__applyAll].
  eapply keeps_trans; [|apply keeps_start].
  split_if.
  - eapply keeps_trans; [|apply frame_keeps, frame_install]. apply frame_keeps. framed.
  - apply frame_keeps. framed.
Qed.

Lemma keeps_observe_added h n w : keeps w (observe_added h n w).
Proof. destruct n; [apply keeps_hook_element|apply keeps_hook_scan]. Qed.

Lemma keeps_step h w e : keeps w (step h w e).
Proof.
  destruct e; cbn [step].
  - apply keeps_onMessage.
  - apply keeps_storage_loaded.
  - apply keeps_experimental_changed.
  - split_if; [|apply keeps_refl]. apply fold_keeps. intros; apply keeps_observe_added.
  - split_if; [apply keeps_hook_element|apply keeps_refl].
  - apply keeps_retry.
  - apply frame_keeps, frame_element_encrypted.
  - apply frame_keeps, frame_document_encrypted.
  - split_if; [apply frame_keeps, frame_guard_scan|apply keeps_refl].
  - apply frame_keeps. framed.
  - cbv zeta. split_if; [|apply keeps_refl]. apply frame_keeps. framed.
  - apply frame_keeps. framed.
  - apply frame_keeps. framed.
  - apply frame_keeps. framed.
Qed.

Lemma keeps_run h es w : keeps w (run h es w).
Proof. unfold run. apply fold_keeps. intros; apply keeps_step. Qed.

Lemma loaded_binder_inv doc : binder_inv (loaded doc).
Proof.
  intros el. unfold bound_chains. cbn. rewrite lookup_empty.
  rewrite bool_decide_false by (intros [? [=]]). reflexivity.
Qed.

End PageFacts.

(** ** The equalizer vector *)

Module EqFacts.
Import JS Tap TapFacts PageFacts.
Local Open Scope Q_scope.

Lemma slice_pad10_lookup (a : list jsval) (i : nat) :
  (i < 10)%nat ->
  slice_pad10 a !! i = Some (default (VNumber (Fin 0)) (a !! i)).
Proof.
  intros L. unfold slice_pad10.
  destruct (decide (i < length a)%nat) as [H|H].
  - rewrite lookup_app_l by (rewrite length_take; lia).
    rewrite lookup_take_lt by lia.
    destruct (lookup_lt_is_Some_2 a i H) as [v ->]. reflexivity.
  - rewrite lookup_app_r by (rewrite length_take; lia).
    rewrite lookup_replicate_2 by (rewrite length_take; lia).
    rewrite lookup_ge_None_2 by lia. reflexivity.
Qed.

(** The stored band [i] after an array [a] was sent: the clamped entry,
    and 0 where the array has no entry. *)
Lemma stored_band (a : list jsval) (i : nat) :
  (i < 10)%nat ->
  exists band,
    map (fun v => clamp v (-24) 24) (slice_pad10 a) !! i = Some band /\
    -24 <= band <= 24 /\
    (forall v q, a !! i = Some v -> Number v = Fin q ->
       (q <= -24 -> band == -24) /\
       (-24 <= q <= 24 -> band == q) /\
       (24 <= q -> band == 24)) /\
    (a !! i = None -> band == 0).
Proof.
  intros L. rewrite list_lookup_fmap, (slice_pad10_lookup a i L). cbn.
  eexists. split; [reflexivity|]. split; [apply clamp_range; lra|]. split.
  - intros v q E N. rewrite E. cbn. apply clamp_finite; [exact N|lra].
  - intros E. rewrite E. cbn. apply clamp_in_range. lra.
Qed.

Lemma length_store_eq (p : payload) (st : settings) :
  length (eq st) = 10%nat -> length (eq (store p st)) = 10%nat.
Proof.
  intros L. unfold store. cbn. destruct (p_eq p); [|exact L].
  rewrite length_map. apply length_slice_pad10.
Qed.

Lemma length_applySettings (st : settings) (ch : chain) :
  length (eq_gain (applySettings st ch)) = length (eq_gain ch).
Proof. cbn. apply length_imap. Qed.

Lemma ten_bands_SS_SETTINGS (p : payload) (w : tap) :
  ten_bands w -> ten_bands (SS_SETTINGS p w).
Proof.
  intros [L C]. split.
  - apply length_store_eq. exact L.
  - intros ctx ch. unfold SS_SETTINGS. rewrite lookup_apply_to_seen.
    cbn [chains seenContexts state].
    destruct (chains w !! ctx) as [ch0|] eqn:E; [|discriminate].
    cbn. intros [= <-]. destruct (bool_decide _).
    + rewrite length_applySettings. eauto.
    + eauto.
Qed.

Lemma ten_bands_patchedConnect nt v this dest w :
  ten_bands w -> ten_bands (fst (patchedConnect nt v this dest w)).
Proof.
  intros [L C].
  assert (New : length (eq_gain (applySettings (state w) buildChain)) = 10%nat).
  { rewrite length_applySettings. reflexivity. }
  unfold patchedConnect, getChainFor, nativeConnect, set_connected.
  destruct dest as [d|pc pi].
  - destruct (bool_decide _ && negb _); [|cbn; split; [exact L|exact C]].
    destruct (chains w !! context this) as [ch0|] eqn:E.
    + destruct (connected ch0) eqn:Cn; cbn [fst calls chains state seenContexts].
      * destruct (nt _ _ _); destruct v; cbn; (split; [exact L|exact C]).
      * destruct (nt _ _ _); destruct v; cbn; (split; [exact L|]);
          intros ctx ch; cbn [chains];
          (destruct (decide (context this = ctx)) as [<-|Ne];
           [rewrite lookup_insert_eq; intros [= <-]; cbn; eauto
           |rewrite lookup_insert_ne by exact Ne; apply C]).
    + cbn [fst calls chains state seenContexts connected applySettings].
      destruct (nt _ _ _); destruct v; cbn; (split; [exact L|]);
        intros ctx ch; cbn [chains];
        (destruct (decide (context this = ctx)) as [<-|Ne];
         [rewrite lookup_insert_eq; intros [= <-]; cbn; reflexivity
         |rewrite !lookup_insert_ne by exact Ne; apply C]).
  - destruct (nt _ _ _); cbn; (split; [exact L|exact C]).
Qed.


Lemma ten_bands_initial : ten_bands initial.
Proof. split; [reflexivity|]. intros ctx ch. cbn. rewrite lookup_empty. discriminate. Qed.

(** *** The tab-capture engine *)

Lemma apply_from_finite (gains : list jsval) (nodes : list Q) (i : nat) :
  Engine.finite_numbers gains ->
  Engine.apply_from gains i nodes =
    (map (fun k => Engine.band_gain (default VUndefined (gains !! k)))
         (seq i (length nodes)), Returned).
Proof.
  intros F. revert i. induction nodes as [|n rest IH]; intros i; cbn; [reflexivity|].
  destruct (gains !! i) as [v|] eqn:E; cbn.
  - destruct v as [| |b|[q| | |]|s]; try (rewrite IH; reflexivity).
    all: exfalso; unfold Engine.finite_numbers in F; rewrite Forall_lookup in F;
      specialize (F _ _ E); cbn in F; discriminate.
  - rewrite IH. reflexivity.
Qed.

Lemma finite_slice_pad10 (a : list jsval) :
  Engine.finite_numbers a -> Engine.finite_numbers (slice_pad10 a).
Proof.
  intros F. unfold Engine.finite_numbers, slice_pad10. apply Forall_app. split.
  - apply Forall_take. exact F.
  - apply Forall_replicate. reflexivity.
Qed.

Lemma engine_setEqGains_finite (a old : list jsval) (nodes : list Q) :
  length nodes = 10%nat -> Engine.finite_numbers a ->
  Engine.setEqGains (Some a) (Engine.mkController old (Some nodes)) =
    (Engine.mkController (slice_pad10 a)
       (Some (map (fun k => Engine.band_gain (default VUndefined (slice_pad10 a !! k)))
                  (seq 0 10))),
     Returned).
Proof.
  intros L F. unfold Engine.setEqGains, Engine._applyEqFilters. cbn [Engine.eqNodes].
  rewrite length_slice_pad10. cbn [Nat.eqb].
  rewrite apply_from_finite by (apply finite_slice_pad10; exact F).
  rewrite L. reflexivity.
Qed.

(** C4.  The code at the failing input.  The settings handler of the tap
    is sent an equalizer array whose first band is the text "abc": the
    band is stored at the lower bound, -24 dB, and not at 0 dB as the
    claim has it ([clamp] returns [min] for a value that is not finite). *)
Lemma nonnumeric_band_at_lower_bound :
  exists band,
    eq (state (SS_SETTINGS
                 (only_eq (VString "abc" :: replicate 9 (VNumber (Fin 0))))
                 initial)) !! 0%nat = Some band /\
    band == -24 /\ ~ band == 0.
Proof.
  eexists. split; [vm_compute; reflexivity|].
  split; [reflexivity|]. intros H. discriminate H.
Qed.

(** The same array in the sibling paths: the tab-capture engine, the
    YouTube script and [AudioBus.setEqDb] give the band that is not a
    number 0 dB. *)
Lemma nonnumeric_band_elsewhere_at_zero :
  (exists g,
     Engine.eqNodes
       (fst (Engine.setEqGains (Some (VString "abc" :: replicate 9 (VNumber (Fin 0))))
               Engine.capturing)) = Some g /\
     g !! 0%nat = Some 0) /\
  (exists g,
     YouTube.applyEqFilters (VString "abc" :: replicate 9 (VNumber (Fin 0))) = Some g /\
     g !! 0%nat = Some 0) /\
  (exists band,
     PageScript.bus_eq
       (PageScript.bus
          (PageScript.bus_setEqDb (VString "abc" :: replicate 9 (VNumber (Fin 0)))
             PageScript.started_page)) !! 0%nat = Some band /\
     band == 0).
Proof.
  split; [|split].
  - eexists. split; [vm_compute; reflexivity|reflexivity].
  - eexists. split; [vm_compute; reflexivity|reflexivity].
  - eexists. split; [vm_compute; reflexivity|reflexivity].
Qed.

(** The tab-capture engine does not clamp: a band of 30 dB is given to
    the filter as 30, where the tap stores 24. *)
Lemma engine_band_not_clamped :
  (exists g,
     Engine.eqNodes
       (fst (Engine.setEqGains (Some (VNumber (Fin 30) :: replicate 9 (VNumber (Fin 0))))
               Engine.capturing)) = Some g /\
     g !! 0%nat = Some 30) /\
  (exists band,
     eq (store (only_eq (VNumber (Fin 30) :: replicate 9 (VNumber (Fin 0))))
               initial_settings) !! 0%nat = Some band /\
     band == 24).
Proof.
  split.
  - eexists. split; [vm_compute; reflexivity|reflexivity].
  - eexists. split; [vm_compute; reflexivity|reflexivity].
Qed.

End EqFacts.

(** ** Binding order, idempotence, capability, [getState] *)

Module ControllerFacts.
Import JS Elements PageScript SourceFacts PageFacts.

(** C8, as stated, fails, in two places.  The order: the YouTube script
    tries the capture strategy first, and uses it although the direct tap
    is available.  The failed attempt: [MediaHook.hook], called in a
    freshly loaded script for an element that nothing can tap, returns
    [false] after it has wired the bus, set [crossOrigin], queued the
    element for a retry and added four listeners. *)
Lemma capture_first_and_failed_hook_leaves_traces :
  (direct_available (both_ways 1) /\
   YouTube.makeSourceForElement (both_ways 1) = Some (StreamSource 1) /\
   YouTube.makeSourceForElement (both_ways 1) <> direct_attempt (both_ways 1)) /\
  (snd (hook_element plain_host (untappable 4) (loaded [])) = false /\
   _wired (bus (loaded [])) = false /\
   _wired (bus (fst (hook_element plain_host (untappable 4) (loaded [])))) = true /\
   bool_decide (4%nat ∈ _pendingRetry (hook (loaded []))) = false /\
   bool_decide
     (4%nat ∈ _pendingRetry (hook (fst (hook_element plain_host (untappable 4) (loaded [])))))
     = true /\
   effects (loaded []) = [] /\
   effects (fst (hook_element plain_host (untappable 4) (loaded []))) =
     [AddWindowListener "pointerdown"; AddWindowListener "keydown";
      SetCrossOriginAnonymous 4;
      AddElementListener 4 "playing"; AddElementListener 4 "loadedmetadata"]).
Proof.
  split.
  - split; [exists (ElementSource 1); reflexivity|].
    split; [reflexivity|]. intros H. discriminate H.
  - repeat (split; [vm_compute; reflexivity|]). vm_compute. reflexivity.
Qed.

Lemma hook_element_failed h e w :
  snd (hook_element h e w) = false ->
  bus_inputs (bus (fst (hook_element h e w))) = bus_inputs (bus w) /\
  sources (hook (fst (hook_element h e w))) = sources (hook w) /\
  hookedCount (hook (fst (hook_element h e w))) = hookedCount (hook w).
Proof.
  unfold hook_element.
  destruct (negb (is_media e)); [cbn; auto|].
  set (w1 := if IS_SPOTIFY h then watchElement e w else w).
  assert (E1 : bus w1 = bus w /\ hook w1 = hook w).
  { subst w1. destruct (IS_SPOTIFY h); [|auto].
    unfold watchElement, inspectElement. repeat case_match; cbn; auto. }
  assert (E2 : bus_inputs (bus (fst (ensure h w1))) = bus_inputs (bus w1) /\
               hook (fst (ensure h w1)) = hook w1).
  { unfold ensure. repeat case_match; cbn; auto. }
  destruct (ensure h w1) as [w2 ok]. cbn [fst] in E2.
  destruct E1 as [B1 H1]. destruct E2 as [B2 H2].
  destruct (negb ok); [cbn; rewrite B2, H2, B1, H1; auto|].
  destruct (bool_decide (is_Some (sources (hook w2) !! el_id e))); [discriminate|].
  set (w3 := if negb (IS_SPOTIFY h) && negb (crossOrigin e)
             then emit [SetCrossOriginAnonymous (el_id e)] w2 else w2).
  assert (E3 : bus w3 = bus w2 /\ hook w3 = hook w2).
  { subst w3. destruct (negb (IS_SPOTIFY h) && negb (crossOrigin e)); cbn; auto. }
  destruct E3 as [B3 H3].
  destruct (_makeSource e w3); [discriminate|].
  destruct (bool_decide (el_id e ∈ _pendingRetry (hook w3)));
    cbn; rewrite ?H3, B3, B2, H2, B1, H1; auto.
Qed.

(** [ensure] answers whether the bus is wired afterwards, and leaves what
    the script did before in place. *)
Lemma ensure_result h w :
  snd (ensure h w) = _wired (bus (fst (ensure h w))) /\
  (AudioContextAvailable h = true -> snd (ensure h w) = true) /\
  hook (fst (ensure h w)) = hook w /\
  exists l, effects (fst (ensure h w)) = effects w ++ l.
Proof.
  unfold ensure. destruct (_wired (bus w)) eqn:W.
  - cbn [fst snd]. rewrite W. split; [reflexivity|]. split; [auto|].
    split; [reflexivity|]. exists []. rewrite app_nil_r. reflexivity.
  - destruct (AudioContextAvailable h); cbn [negb fst snd].
    + split; [reflexivity|]. split; [auto|]. split; [reflexivity|].
      eexists. reflexivity.
    + rewrite W. split; [reflexivity|]. split; [discriminate|].
      split; [reflexivity|]. exists []. rewrite app_nil_r. reflexivity.
Qed.

(** What a failed call of [hook] has done by the time it returns, for a
    media element on a host with an [AudioContext]. *)
Lemma hook_element_failed_traces h e w :
  snd (hook_element h e w) = false ->
  is_media e = true -> AudioContextAvailable h = true ->
  _wired (bus (fst (hook_element h e w))) = true /\
  el_id e ∈ _pendingRetry (hook (fst (hook_element h e w))) /\
  (IS_SPOTIFY h = false -> crossOrigin e = false ->
   In (SetCrossOriginAnonymous (el_id e)) (effects (fst (hook_element h e w)))) /\
  (el_id e ∉ _pendingRetry (hook w) ->
   exists l, effects (fst (hook_element h e w)) =
             l ++ [AddElementListener (el_id e) "playing";
                   AddElementListener (el_id e) "loadedmetadata"]).
Proof.
  intros F M A. revert F. unfold hook_element. rewrite M. cbn [negb].
  set (w1 := if IS_SPOTIFY h then watchElement e w else w).
  assert (P1 : _pendingRetry (hook w1) = _pendingRetry (hook w)).
  { subst w1. destruct (IS_SPOTIFY h); [|reflexivity].
    unfold watchElement, inspectElement. repeat case_match; reflexivity. }
  destruct (ensure_result h w1) as (R & Ok & Hk & (l2 & E2)).
  destruct (ensure h w1) as [w2 ok]. cbn [fst snd] in *.
  rewrite (Ok A) in *. cbn [negb].
  destruct (bool_decide (is_Some (sources (hook w2) !! el_id e))); [discriminate|].
  set (w3 := if negb (IS_SPOTIFY h) && negb (crossOrigin e)
             then emit [SetCrossOriginAnonymous (el_id e)] w2 else w2).
  assert (E3 : bus w3 = bus w2 /\ hook w3 = hook w2 /\
               (IS_SPOTIFY h = false -> crossOrigin e = false ->
                In (SetCrossOriginAnonymous (el_id e)) (effects w3))).
  { subst w3. destruct (IS_SPOTIFY h), (crossOrigin e); cbn; repeat split; auto;
      try discriminate.
    intros _ _. apply in_or_app. right. left. reflexivity. }
  destruct E3 as (B3 & H3 & C3).
  destruct (_makeSource e w3); [discriminate|]. intros _.
  destruct (bool_decide (el_id e ∈ _pendingRetry (hook w3))) eqn:P; cbn [fst].
  - apply bool_decide_eq_true in P.
    split; [rewrite B3; auto|]. split; [exact P|]. split; [exact C3|].
    intros N. exfalso. apply N. rewrite <- P1, <- Hk, <- H3. exact P.
  - cbn [emit set_hook bus hook effects _pendingRetry].
    split; [rewrite B3; auto|]. split; [apply elem_of_union_l, elem_of_singleton; reflexivity|].
    split.
    + intros S C. apply in_or_app. left. apply C3; assumption.
    + intros _. eexists. reflexivity.
Qed.

(** C8, amended.  The page controller ([MediaHook._makeSource], on a
    wired bus) and the FireFox 1.1 script try the direct tap of the
    element first: it is the result whenever the host allows it, whatever
    capture would give, and the capture tap is the result only when the
    direct one fails.  The YouTube script tries the capture tap first: it
    is the result whenever capture works, although the direct tap may be
    available, and the direct tap is the result only when capture fails.
    A binding in which no strategy succeeds binds nothing: the page
    controller's sources, hooked count and bus inputs, the YouTube
    script's map, flags and destination connections are as before.  It is
    not free of side effects: by then [MediaHook.hook] has, for a media
    element on a host with an [AudioContext], wired the bus, set
    [crossOrigin] on an element without one (off Spotify), and queued the
    element for a retry, with the "playing" and "loadedmetadata"
    listeners if it was not queued already; and the YouTube script has
    created its [AudioContext]. *)
Theorem strategies_tried_in_order :
  (forall e w, _wired (bus w) = true ->
     (direct_ok e = true -> _makeSource e w = Some (ElementSource (el_id e))) /\
     (direct_ok e = false -> _makeSource e w = capture_attempt e)) /\
  (forall e,
     (direct_ok e = true ->
      Firefox11.makeSourceForElement e = Some (ElementSource (el_id e))) /\
     (direct_ok e = false -> Firefox11.makeSourceForElement e = capture_attempt e)) /\
  (forall e,
     (capture_available e ->
      YouTube.makeSourceForElement e = Some (StreamSource (el_id e))) /\
     (~ capture_available e -> YouTube.makeSourceForElement e = direct_attempt e)) /\
  (forall h e w, snd (hook_element h e w) = false ->
     (bus_inputs (bus (fst (hook_element h e w))) = bus_inputs (bus w) /\
      sources (hook (fst (hook_element h e w))) = sources (hook w) /\
      hookedCount (hook (fst (hook_element h e w))) = hookedCount (hook w)) /\
     (is_media e = true -> AudioContextAvailable h = true ->
      _wired (bus (fst (hook_element h e w))) = true /\
      el_id e ∈ _pendingRetry (hook (fst (hook_element h e w))) /\
      (IS_SPOTIFY h = false -> crossOrigin e = false ->
       In (SetCrossOriginAnonymous (el_id e)) (effects (fst (hook_element h e w)))) /\
      (el_id e ∉ _pendingRetry (hook w) ->
       exists l, effects (fst (hook_element h e w)) =
                 l ++ [AddElementListener (el_id e) "playing";
                       AddElementListener (el_id e) "loadedmetadata"]))) /\
  (forall pg e s, YouTube.makeSourceForElement e = None ->
     YouTube.mediaMap (YouTube.hookElementYouTube pg e s) = YouTube.mediaMap s /\
     YouTube.hooked (YouTube.hookElementYouTube pg e s) = YouTube.hooked s /\
     YouTube.destination (YouTube.hookElementYouTube pg e s) = YouTube.destination s /\
     (YouTube.IS_YOUTUBE pg = true -> YouTube.AudioContextAvailable pg = true ->
      YouTube.mediaMap s !! el_id e = None -> el_id e ∉ YouTube.hooked s ->
      YouTube.audioCtx (YouTube.hookElementYouTube pg e s) = true)).
Proof.
  split; [|split; [|split; [|split]]].
  - intros e w W. unfold _makeSource, direct_attempt. rewrite W. cbn [negb].
    split; intros ->; reflexivity.
  - intros e. rewrite firefox11_order. unfold direct_attempt.
    split; intros ->; reflexivity.
  - intros e. unfold YouTube.makeSourceForElement, capture_available.
    split.
    + intros [s Hs]. rewrite Hs. f_equal.
      unfold capture_attempt in Hs.
      destruct (capture_call e) as [|[[[|]]|]]; try discriminate Hs.
      injection Hs as <-. reflexivity.
    + intros N. destruct (capture_attempt e) as [s|]; [|reflexivity].
      exfalso. apply N. eauto.
  - intros h e w F. split; [apply hook_element_failed, F|].
    intros M A. apply hook_element_failed_traces; assumption.
  - intros pg e s N.
    assert (H : YouTube.mediaMap (YouTube.hookElementYouTube pg e s) = YouTube.mediaMap s /\
                YouTube.hooked (YouTube.hookElementYouTube pg e s) = YouTube.hooked s /\
                YouTube.destination (YouTube.hookElementYouTube pg e s)
                  = YouTube.destination s).
    { destruct (hook_effect pg e s) as [H|(src & bands & _ & S & _)]; [exact H|].
      congruence. }
    destruct H as (H1 & H2 & H3). repeat (split; [assumption|]).
    intros Y A M F. unfold YouTube.hookElementYouTube, YouTube.ensureContext,
      YouTube.AudioContextClass.
    rewrite Y, A, M, N. cbn [negb andb].
    rewrite bool_decide_false by (intros [? [=]]).
    rewrite bool_decide_false by exact F.
    destruct (YouTube.audioCtx s) eqn:C; cbn; [exact C|reflexivity].
Qed.

(** On a wired bus: the direct tap wins when both work, capture is used
    when only it works, and an element nothing can tap stays unbound, is
    queued for a retry and has [crossOrigin] set. *)
Lemma strategies_examples :
  _makeSource (both_ways 3) started_page = Some (ElementSource 3) /\
  _makeSource (capture_only 3) started_page = Some (StreamSource 3) /\
  YouTube.makeSourceForElement (both_ways 3) = Some (StreamSource 3) /\
  snd (hook_element plain_host (untappable 4) started_page) = false /\
  sources (hook (fst (hook_element plain_host (untappable 4) started_page)))
    = sources (hook started_page) /\
  bus_inputs (bus (fst (hook_element plain_host (untappable 4) started_page)))
    = bus_inputs (bus started_page) /\
  4%nat ∈ _pendingRetry (hook (fst (hook_element plain_host (untappable 4) started_page))) /\
  In (SetCrossOriginAnonymous 4)
     (effects (fst (hook_element plain_host (untappable 4) started_page))).
Proof.
  destruct strategies_tried_in_order as (P & _ & Y & F & _).
  assert (W : _wired (bus started_page) = true) by (vm_compute; reflexivity).
  assert (N : snd (hook_element plain_host (untappable 4) started_page) = false)
    by (vm_compute; reflexivity).
  destruct (F plain_host (untappable 4) started_page N) as ((I & S & _) & T).
  destruct (T eq_refl eq_refl) as (_ & Q & C & _).
  destruct (P (both_ways 3) started_page W) as [P1 _].
  destruct (P (capture_only 3) started_page W) as [_ P2].
  destruct (Y (both_ways 3)) as [Y1 _].
  split; [exact (P1 eq_refl)|].
  split; [rewrite (P2 eq_refl); reflexivity|].
  split; [apply Y1; eexists; reflexivity|].
  split; [exact N|]. split; [exact S|]. split; [exact I|]. split; [exact Q|].
  exact (C eq_refl eq_refl).
Defined.

(** Binding is idempotent while an element stays bound.  In the page
    controller, after any sequence of events on a freshly loaded script,
    an element has exactly one source wired into the bus if the binder
    holds a source for it and none otherwise, so never two; and [hook] on
    an element the binder already holds a source for leaves the graph and
    the records as they are.  In the YouTube script the same holds for
    the chains connected to the destination after any sequence of scans
    (scans only: the clean-up on "ended" is the subject of the theorem
    that follows), and [hookElementYouTube] on an element that is in the
    map changes nothing. *)
Theorem binding_is_idempotent :
  (forall h es doc el,
     bound_chains el (run h es (loaded doc)) =
       (if bool_decide (is_Some (sources (hook (run h es (loaded doc))) !! el))
        then 1 else 0)%nat /\
     (bound_chains el (run h es (loaded doc)) <= 1)%nat) /\
  (forall h e w, is_Some (sources (hook w) !! el_id e) ->
     bus_inputs (bus (fst (hook_element h e w))) = bus_inputs (bus w) /\
     sources (hook (fst (hook_element h e w))) = sources (hook w)) /\
  (forall pg vol md eqv ctx scans el,
     let s := fold_left (fun s els => YouTube.scanAndHook pg els s) scans
                (YouTube.mkScript vol md eqv ctx ∅ ∅ []) in
     YouTube.chains_of el s =
       (if bool_decide (is_Some (YouTube.mediaMap s !! el)) then 1 else 0)%nat /\
     (YouTube.chains_of el s <= 1)%nat) /\
  (forall pg e s, is_Some (YouTube.mediaMap s !! el_id e) ->
     YouTube.hookElementYouTube pg e s = s) /\
  bound_chains 1 (run plain_host same_element_again fresh_page) = 1%nat /\
  YouTube.chains_of 1
    (YouTube.scanAndHook YouTube.youtube [both_ways 1; both_ways 1; both_ways 1]
       YouTube.initial) = 1%nat.
Proof.
  split; [|split; [|split; [|split; [|split]]]].
  - intros h es doc el.
    destruct (keeps_run h es (loaded doc)) as (_ & _ & _ & B & _).
    specialize (B (loaded_binder_inv doc) el). split; [exact B|].
    rewrite B. destruct (bool_decide _); lia.
  - intros h e w [s0 S0].
    destruct (hook_element_effect h e w) as (_ & _ & _ & _ & [H|(node & N & _)]).
    + exact H.
    + congruence.
  - intros pg vol md eqv ctx scans el s.
    assert (I : YouTube.binder_inv s).
    { subst s. generalize (youtube_initial_inv vol md eqv ctx).
      generalize (YouTube.mkScript vol md eqv ctx ∅ ∅ []).
      induction scans as [|els scans IH]; intros s0 I0; cbn; [exact I0|].
      apply IH. apply scan_binder_inv. exact I0. }
    split; [apply I|]. rewrite (I el). destruct (bool_decide _); lia.
  - intros pg e s. apply hook_bound_noop.
  - vm_compute. reflexivity.
  - vm_compute. reflexivity.
Qed.

(** C5.  The code at the failing input.  On YouTube a video is found by
    a scan and bound; a second scan binds nothing more: one chain.  Then
    its playback ends: the clean-up forgets the element and removes its
    flag but disconnects nothing.  The next scan presents the same
    element again and binds it again: two chains for the one element at
    the destination, of which the map knows one.  The FireFox 1.1 script,
    whose "ended" listener disconnects the chain it forgets, has one
    chain after the same events. *)
Theorem youtube_binds_again_after_ended :
  YouTube.chains_of 1
    (YouTubeMessages.script_of
       (YouTubeMessages.run YouTube.youtube YouTubeMessages.no_flags
          [YouTubeMessages.Scan [both_ways 1]; YouTubeMessages.Scan [both_ways 1]]
          (YouTubeMessages.loaded [1%nat]))) = 1%nat /\
  YouTube.destination
    (YouTubeMessages.script_of
       (YouTubeMessages.run YouTube.youtube YouTubeMessages.no_flags
          [YouTubeMessages.Scan [both_ways 1]; YouTubeMessages.Scan [both_ways 1];
           YouTubeMessages.Ended 1%nat; YouTubeMessages.Scan [both_ways 1]]
          (YouTubeMessages.loaded [1%nat]))) = [StreamSource 1; StreamSource 1] /\
  YouTube.chains_of 1
    (YouTubeMessages.script_of
       (YouTubeMessages.run YouTube.youtube YouTubeMessages.no_flags
          [YouTubeMessages.Scan [both_ways 1]; YouTubeMessages.Scan [both_ways 1];
           YouTubeMessages.Ended 1%nat; YouTubeMessages.Scan [both_ways 1]]
          (YouTubeMessages.loaded [1%nat]))) = 2%nat /\
  Firefox11Script.chains_of 1
    (Firefox11Script.run true
       [Firefox11Script.Scan [both_ways 1]; Firefox11Script.Scan [both_ways 1];
        Firefox11Script.Ended 1%nat; Firefox11Script.Scan [both_ways 1]]
       Firefox11Script.initial) = 1%nat.
Proof. repeat split; vm_compute; reflexivity. Qed.

(** The controller is started once [start] has run. *)
Lemma started_after_start h w : _started (ctl (start h w)) = true.
Proof.
  unfold start. cbv zeta. destruct (_started (ctl w)) eqn:S; [exact S|].
  set (w1 := set_ctl _ w).
  assert (S1 : _started (ctl w1) = true) by reflexivity.
  match goal with |- _started (ctl (_applyAll h ?w2)) = true =>
    assert (K : keeps w1 w2) end.
  { split_if; [apply keeps__installMediaHooks|].
    split_if; [apply frame_keeps, frame_install|apply keeps_refl]. }
  destruct K as (_ & K & _).
  match goal with |- _started (ctl (_applyAll h ?w2)) = true =>
    destruct (keeps__applyAll h w2) as (_ & A & _) end.
  auto.
Qed.

Lemma start_started h w : _started (ctl w) = true -> start h w = w.
Proof. intros S. unfold start. cbv zeta. rewrite S. reflexivity. Qed.

(** C10, as stated, fails for the message handler: the first "getState"
    message to a controller that has not started makes it start, which
    installs the observer and the "play" listener, wires the bus and
    hooks the element of the page. *)
Lemma first_getState_starts_controller :
  _started (ctl fresh_page) = false /\
  _observer (ctl (fst (onMessage plain_host GetState fresh_page))) = true /\
  _wired (bus (fst (onMessage plain_host GetState fresh_page))) = true /\
  hookedCount (hook (fst (onMessage plain_host GetState fresh_page))) = 1%nat /\
  In ObserveDocument (effects (fst (onMessage plain_host GetState fresh_page))) /\
  fst (onMessage plain_host GetState fresh_page) <> fresh_page.
Proof.
  split; [reflexivity|]. split; [reflexivity|]. split; [reflexivity|].
  split; [reflexivity|]. split.
  - vm_compute. auto 10.
  - intros H. apply (f_equal (fun w => _started (ctl w))) in H.
    vm_compute in H. discriminate H.
Qed.

(** C10, amended.  The method [getState] reads the stored settings and
    the capability fields off the controller.  The "getState" message
    first calls [start]: on a controller that has started, the message
    leaves the whole world as it is and answers [getState()]; in every
    case a second "getState" message right after the first changes
    nothing and gets the same answer. *)
Theorem getState_message_reads_once_started :
  (forall h w,
     st_volume (getState h w) = volumePercent (ctl w) /\
     st_muted (getState h w) = muted (ctl w) /\
     st_mode (getState h w) = mode (ctl w) /\
     st_eq (getState h w) = eqDb (ctl w) /\
     blockedEffects (getState h w) = IS_SPOTIFY h && inUse (guard w)) /\
  (forall h w, _started (ctl w) = true ->
     onMessage h GetState w = (w, StateResponse (getState h w))) /\
  (forall h w,
     onMessage h GetState (fst (onMessage h GetState w)) = onMessage h GetState w) /\
  onMessage plain_host GetState (fst (onMessage plain_host GetState fresh_page))
    = (fst (onMessage plain_host GetState fresh_page),
       StateResponse (getState plain_host (fst (onMessage plain_host GetState fresh_page)))).
Proof.
  assert (Started : forall h w, _started (ctl w) = true ->
            onMessage h GetState w = (w, StateResponse (getState h w))).
  { intros h w S. cbn [onMessage]. rewrite (start_started h w S). reflexivity. }
  assert (Twice : forall h w,
            onMessage h GetState (fst (onMessage h GetState w)) = onMessage h GetState w).
  { intros h w. cbn [onMessage fst].
    rewrite (start_started h (start h w)) by apply started_after_start. reflexivity. }
  split; [|split; [exact Started|split; [exact Twice|]]].
  - intros h w. repeat split; reflexivity.
  - apply Started.
    change (fst (onMessage plain_host GetState fresh_page))
      with (start plain_host fresh_page).
    apply started_after_start.
Qed.

(** C7.  Once [getState] reports blocked effects (the guard is in use on
    Spotify), it does so after every further sequence of events: blocked
    effects stay, [canBoost] stays false, the backend stays "protected"
    and the reason stays set, also when elements are tapped with success
    in between. *)
Theorem capability_is_sticky (h : host) (w : world) (es : list event) :
  blockedEffects (getState h w) = true ->
  blockedEffects (getState h (run h es w)) = true /\
  canBoost (getState h (run h es w)) = false /\
  backend (getState h (run h es w)) = Protected /\
  blockReason (getState h (run h es w)) = Some protected_notice /\
  drm (getState h (run h es w)) = true.
Proof.
  intros B. cbn [getState blockedEffects] in B.
  apply andb_true_iff in B. destruct B as [S U].
  destruct (keeps_run h es w) as (G & _). specialize (G U).
  unfold getState. cbn. rewrite S, G. cbn. auto.
Qed.

(** On Spotify, after the document-level "encrypted" signal: a new
    element is tapped with success, a tap announces itself and 700
    percent is asked for; the volume is stored, the source is counted,
    and the page stays restricted. *)
Lemma sticky_after_successful_tap :
  blockedEffects (getState spotify_host spotify_protected) = true /\
  st_hooked (getState spotify_host (run spotify_host later_taps spotify_protected)) = 1%nat /\
  (st_volume (getState spotify_host (run spotify_host later_taps spotify_protected)) == 700)%Q /\
  canBoost (getState spotify_host (run spotify_host later_taps spotify_protected)) = false /\
  backend (getState spotify_host (run spotify_host later_taps spotify_protected)) = Protected.
Proof.
  assert (B : blockedEffects (getState spotify_host spotify_protected) = true)
    by reflexivity.
  destruct (capability_is_sticky spotify_host spotify_protected later_taps B)
    as (_ & C & K & _).
  split; [exact B|]. split; [vm_compute; reflexivity|].
  split; [vm_compute; reflexivity|]. split; [exact C|exact K].
Defined.

End ControllerFacts.

(** ** The tap: reachable states *)

Module TapReachFacts.
Import JS Tap TapFacts BusFacts EqFacts TapReach.
Local Open Scope Q_scope.

Lemma applySettings_values (st : settings) (ch : chain) :
  length (eq_gain ch) = 10%nat ->
  same_values (applySettings st ch) (applySettings st buildChain).
Proof.
  intros L. unfold same_values. cbn [applySettings gain_value eq_gain mode_name buildChain].
  split; [reflexivity|]. split; [|reflexivity].
  rewrite !imap_seq_0, L, length_replicate. reflexivity.
Qed.

Lemma applySettings_idem (st : settings) (ch : chain) :
  applySettings st (applySettings st ch) = applySettings st ch.
Proof.
  unfold applySettings. cbn [gain_value eq_gain mode_name connected]. f_equal.
  rewrite !imap_seq_0, length_fmap, length_seq. reflexivity.
Qed.

Lemma applySettings_bounded (st : settings) (ch : chain) :
  0 <= gain_value (applySettings st ch) <= 8 /\
  Forall band_ok (eq_gain (applySettings st ch)).
Proof.
  cbn [applySettings gain_value eq_gain]. split.
  - destruct (muted st); [lra|].
    pose proof (clamp_range (VNumber (Fin (volumePercent st))) 0 800 ltac:(lra)) as R.
    set (c := clamp _ 0 800) in *. split.
    + apply Qle_shift_div_l; lra.
    + apply Qle_shift_div_r; lra.
  - apply Forall_forall. intros x H. apply list_elem_of_lookup in H. destruct H as [i H].
    rewrite list_lookup_imap in H. destruct (eq_gain ch !! i); [|discriminate].
    cbn in H. injection H as <-. apply clamp_range. lra.
Qed.

Lemma applySettings_in_sync (st : settings) (ch : chain) :
  0 <= volumePercent st <= 800 ->
  length (eq st) = length (eq_gain ch) ->
  Forall band_ok (eq st) ->
  in_sync st (applySettings st ch).
Proof.
  intros V L B. unfold in_sync. cbn [applySettings gain_value eq_gain mode_name].
  split; [|split; [|reflexivity]].
  - destruct (muted st); [reflexivity|]. rewrite clamp_in_range by exact V. reflexivity.
  - apply Forall2_same_length_lookup_2.
    + rewrite length_imap. symmetry. exact L.
    + intros i x y Hx Hy. rewrite list_lookup_imap in Hx.
      destruct (eq_gain ch !! i); [|discriminate]. cbn in Hx. injection Hx as <-.
      unfold eq_index. rewrite Hy. cbn [nullish].
      apply clamp_in_range. rewrite Forall_lookup in B. exact (B _ _ Hy).
Qed.

Lemma same_values_refl (ch : chain) : same_values ch ch.
Proof. repeat split. Qed.

Lemma same_values_trans (a b c : chain) :
  same_values a b -> same_values b c -> same_values a c.
Proof. intros (? & ? & ?) (? & ? & ?). repeat split; congruence. Qed.

(** The chains after a call of the patched [connect]: a chain that was
    there keeps its values, a chain that was not there is registered and
    holds the stored settings.  The settings themselves are not touched. *)
Lemma patchedConnect_chain nt v this dest w :
  let w' := fst (patchedConnect nt v this dest w) in
  state w' = state w /\
  (forall c, c ∈ seenContexts w -> c ∈ seenContexts w') /\
  forall ctx ch', chains w' !! ctx = Some ch' ->
    (exists ch, chains w !! ctx = Some ch /\ same_values ch' ch) \/
    (ctx ∈ seenContexts w' /\ same_values ch' (applySettings (state w) buildChain)).
Proof.
  assert (Old : forall ctx ch', chains w !! ctx = Some ch' ->
            (exists ch, chains w !! ctx = Some ch /\ same_values ch' ch) \/
            (ctx ∈ seenContexts w /\ same_values ch' (applySettings (state w) buildChain))).
  { intros ctx ch' H. left. exists ch'. split; [exact H|apply same_values_refl]. }
  unfold patchedConnect, getChainFor, nativeConnect, set_connected.
  destruct dest as [d|pc pi].
  - destruct (bool_decide _ && negb _);
      [|cbn; split; [reflexivity|split; [tauto|exact Old]]].
    destruct (chains w !! context this) as [ch0|] eqn:E.
    + destruct (connected ch0) eqn:Cn; cbn [fst calls chains state seenContexts].
      * destruct (nt _ _ _); destruct v; cbn;
          (split; [reflexivity|split; [tauto|exact Old]]).
      * destruct (nt _ _ _); destruct v; cbn;
          (split; [reflexivity|split; [tauto|]]);
          intros ctx ch'; cbn [chains];
          (destruct (decide (context this = ctx)) as [<-|Ne];
           [rewrite lookup_insert_eq; intros [= <-]; left; exists ch0;
            split; [exact E|repeat split]
           |rewrite lookup_insert_ne by exact Ne; apply Old]).
    + cbn [fst calls chains state seenContexts connected applySettings].
      destruct (nt _ _ _); destruct v; cbn;
        (split; [reflexivity|split; [intros c Hc; set_solver|]]);
        intros ctx ch'; cbn [chains];
        (destruct (decide (context this = ctx)) as [<-|Ne];
         [rewrite lookup_insert_eq; intros [= <-]; right;
          split; [set_solver|repeat split]
         |rewrite !lookup_insert_ne by exact Ne; intros H;
          left; exists ch'; split; [exact H|apply same_values_refl]]).
  - destruct (nt _ _ _); cbn; (split; [reflexivity|split; [tauto|exact Old]]).
Qed.

Lemma reach_inv_initial : reach_inv initial.
Proof.
  split; [apply ten_bands_initial|]. split; [cbn; lra|]. split.
  - unfold initial, initial_settings. cbn [state eq].
    apply Forall_replicate. unfold band_ok. lra.
  - intros ctx ch. cbn. rewrite lookup_empty. discriminate.
Qed.

Lemma store_bounded (p : payload) (st : settings) :
  Forall band_ok (eq st) ->
  0 <= volumePercent (store p st) <= 800 /\ Forall band_ok (eq (store p st)).
Proof.
  intros B. unfold store. cbn [volumePercent eq]. split; [apply clamp_range; lra|].
  destruct (p_eq p) as [a|]; [|exact B].
  apply Forall_fmap, Forall_forall. intros x _. cbn. apply clamp_range. lra.
Qed.

Lemma reach_inv_SS_SETTINGS (p : payload) (w : tap) :
  reach_inv w -> reach_inv (SS_SETTINGS p w).
Proof.
  intros (T & V & B & C).
  destruct (store_bounded p (state w) B) as [V' B'].
  split; [apply ten_bands_SS_SETTINGS; exact T|].
  split; [exact V'|]. split; [exact B'|].
  intros ctx ch'. unfold SS_SETTINGS. rewrite lookup_apply_to_seen.
  cbn [chains seenContexts state apply_to_seen].
  destruct (chains w !! ctx) as [ch|] eqn:E; [|discriminate].
  destruct (C _ _ E) as [S _]. cbn. rewrite bool_decide_true by exact S.
  intros [= <-]. split; [exact S|].
  apply applySettings_values. destruct T as [_ T]. exact (T _ _ E).
Qed.

Lemma reach_inv_patchedConnect nt v this dest w :
  reach_inv w -> reach_inv (fst (patchedConnect nt v this dest w)).
Proof.
  intros (T & V & B & C).
  destruct (patchedConnect_chain nt v this dest w) as (S & Sub & Ch).
  split; [apply ten_bands_patchedConnect; exact T|].
  rewrite S. split; [exact V|]. split; [exact B|].
  intros ctx ch' H. destruct (Ch _ _ H) as [(ch & E & Sv)|[In Sv]].
  - destruct (C _ _ E) as [In Sv']. split; [apply Sub; exact In|].
    eapply same_values_trans; eassumption.
  - split; assumption.
Qed.

Lemma reach_inv_run nt v es w : reach_inv w -> reach_inv (run nt v es w).
Proof.
  revert w. induction es as [|e es IH]; intros w I; cbn; [exact I|].
  apply IH. destruct e; cbn [step].
  - apply reach_inv_SS_SETTINGS. exact I.
  - apply reach_inv_patchedConnect. exact I.
Qed.

Lemma reach_inv_bounded (w : tap) : reach_inv w -> bounded w.
Proof.
  intros (_ & V & B & C). split; [exact V|]. split; [exact B|].
  intros ctx ch H. destruct (C _ _ H) as [_ (G & E & _)].
  rewrite G, E. apply applySettings_bounded.
Qed.

Lemma reach_inv_in_sync (w : tap) (ctx : nat) (ch : chain) :
  reach_inv w -> chains w !! ctx = Some ch -> live w ctx ch /\ in_sync (state w) ch.
Proof.
  intros ([L _] & V & B & C) H. destruct (C _ _ H) as [In (G & E & M)].
  split; [split; assumption|].
  destruct (applySettings_in_sync (state w) buildChain V) as (G' & E' & M').
  - rewrite L. reflexivity.
  - exact B.
  - unfold in_sync. rewrite G, E, M. auto.
Qed.

(** X1.  Whatever the page posts and connects, starting from the script's
    initial state: the stored volume stays within 0 and 800, every stored
    band within -24 and 24 dB, and the same holds of what the nodes of
    every master chain were given: a linear gain between 0 and 8, band
    gains between -24 and 24. *)
Theorem tap_values_stay_in_range :
  forall nt v es, bounded (run nt v es initial).
Proof.
  intros nt v es. apply reach_inv_bounded, reach_inv_run, reach_inv_initial.
Qed.

(** X2.  In every state the tap reaches, every master chain is reached by
    the settings loop and carries the stored settings: gain
    [volumePercent / 100] (0 when muted), the stored bands, the stored
    mode.  A chain built after the settings arrived starts with them; a
    chain built before follows every later message. *)
Theorem chains_carry_stored_settings nt v es ctx ch :
  chains (run nt v es initial) !! ctx = Some ch ->
  live (run nt v es initial) ctx ch /\ in_sync (state (run nt v es initial)) ch.
Proof.
  apply reach_inv_in_sync, reach_inv_run, reach_inv_initial.
Qed.

(** A chain built at 250 % while muted, then unmuted by a message that
    carries the volume again. *)
Lemma chain_after_settings_example :
  exists ch,
    chains (run never_throws Injected
              [Settings (volume_and_muted 250 true);
               Connect (Created 1 1) (AtNode (Dest 1));
               Settings (volume_and_muted 250 false)] initial) !! 1%nat = Some ch /\
    gain_value ch == 250 / 100.
Proof.
  eexists. split; [vm_compute; reflexivity|].
  refine (proj1 (proj2 (chains_carry_stored_settings never_throws Injected
            [Settings (volume_and_muted 250 true);
             Connect (Created 1 1) (AtNode (Dest 1));
             Settings (volume_and_muted 250 false)] 1%nat _ _))).
  vm_compute. reflexivity.
Defined.

(** *** Settings messages *)

Lemma clamp_volume_idem (x : Q) :
  Qmax 0 (Qmin 800 (Qmax 0 (Qmin 800 x))) = Qmax 0 (Qmin 800 x).
Proof.
  unfold Qmax, Qmin, GenericMinMax.gmax, GenericMinMax.gmin.
  destruct (800 ?= x) eqn:E1; try reflexivity;
    destruct (0 ?= x) eqn:E2; try reflexivity;
    rewrite ?E1, ?E2; reflexivity.
Qed.

Lemma store_idem (p : payload) (st : settings) :
  store p (store p st) = store p st.
Proof.
  unfold store. cbn [volumePercent eq]. f_equal.
  - destruct (if typeof_number (p_volumePercent p) then p_volumePercent p else p_volume p)
      as [| |b|n|s]; cbn [nullish]; try reflexivity;
      unfold clamp; cbn [Number]; apply clamp_volume_idem.
  - destruct (p_eq p); reflexivity.
Qed.

(** X3.  A settings message is idempotent: delivering the same payload a
    second time changes nothing, neither in the stored settings nor in
    any chain. *)
Theorem settings_message_idempotent :
  forall p w, SS_SETTINGS p (SS_SETTINGS p w) = SS_SETTINGS p w.
Proof.
  intros p w. unfold SS_SETTINGS, apply_to_seen.
  cbn [state seenContexts chains calls]. rewrite store_idem. f_equal.
  apply map_eq. intros ctx. rewrite !map_lookup_imap.
  destruct (chains w !! ctx) as [ch|]; [|reflexivity]. cbn.
  destruct (bool_decide (ctx ∈ seenContexts w)); [|reflexivity].
  rewrite applySettings_idem. reflexivity.
Qed.

Lemma run_snoc nt v es e w : run nt v (es ++ [e]) w = step nt v (run nt v es w) e.
Proof. unfold run. rewrite fold_left_app. reflexivity. Qed.

(** X4.  What a settings message leaves out.  In a state the tap has
    reached: a payload without an [eq] array leaves the stored bands and
    the filters of every chain as they were, and a payload without a volume
    leaves the stored volume; but [muted] and [mode] are not retained: a
    payload without [muted] unmutes, so that every chain plays at the
    stored volume again, and a payload without [mode] puts every chain back
    into the default mode. *)
Theorem absent_keys_keep_eq_and_volume_but_reset_flags nt v es p ctx ch :
  chains (SS_SETTINGS p (run nt v es initial)) !! ctx = Some ch ->
  (p_eq p = None ->
     eq (state (SS_SETTINGS p (run nt v es initial))) = eq (state (run nt v es initial)) /\
     Forall2 Qeq (eq_gain ch) (eq (state (run nt v es initial)))) /\
  (volume_absent p ->
     volumePercent (state (SS_SETTINGS p (run nt v es initial)))
       == volumePercent (state (run nt v es initial))) /\
  (p_muted p = VUndefined ->
     muted (state (SS_SETTINGS p (run nt v es initial))) = false /\
     gain_value ch == volumePercent (state (SS_SETTINGS p (run nt v es initial))) / 100) /\
  (p_mode p = VUndefined ->
     mode (state (SS_SETTINGS p (run nt v es initial))) = Default /\
     mode_name ch = Default).
Proof.
  intros H.
  pose proof (reach_inv_run nt v es initial reach_inv_initial) as I.
  set (w := run nt v es initial) in *.
  pose proof (reach_inv_SS_SETTINGS p w I) as I'.
  destruct (reach_inv_in_sync _ _ _ I' H) as [_ (G & E & M)].
  rewrite state_SS_SETTINGS in *.
  assert (Eq : p_eq p = None -> eq (store p (state w)) = eq (state w)).
  { intros N. unfold store. cbn [eq]. rewrite N. reflexivity. }
  split; [|split; [|split]].
  - intros N. split; [exact (Eq N)|]. rewrite <- (Eq N). exact E.
  - intros A. rewrite store_volume_absent by exact A.
    apply clamp_in_range. destruct I as (_ & V & _). exact V.
  - intros N. assert (Mu : muted (store p (state w)) = false).
    { unfold store. cbn [muted]. rewrite N. reflexivity. }
    split; [exact Mu|]. rewrite Mu in G. exact G.
  - intros N. assert (Mo : mode (store p (state w)) = Default).
    { unfold store. cbn [mode]. rewrite N. reflexivity. }
    split; [exact Mo|]. rewrite M. exact Mo.
Qed.

(** A chain built while muted in voice mode at 250 %; a message that only
    says 300 % leaves it unmuted at gain 3 in the default mode. *)
Lemma volume_only_message_example :
  exists ch,
    chains (SS_SETTINGS (only_volume 300)
              (run never_throws Injected
                 [Settings (mkPayload (VNumber (Fin 250)) VUndefined (VBool true)
                                      (VString "voice") None);
                  Connect (Created 1 1) (AtNode (Dest 1))] initial)) !! 1%nat = Some ch /\
    gain_value ch == 3 /\ mode_name ch = Default.
Proof.
  eexists. split; [vm_compute; reflexivity|].
  destruct (absent_keys_keep_eq_and_volume_but_reset_flags never_throws Injected
              [Settings (mkPayload (VNumber (Fin 250)) VUndefined (VBool true)
                                   (VString "voice") None);
               Connect (Created 1 1) (AtNode (Dest 1))]
              (only_volume 300) 1%nat _ ltac:(vm_compute; reflexivity))
    as (_ & _ & Mu & Mo).
  destruct (Mu eq_refl) as [_ G]. destruct (Mo eq_refl) as [_ M].
  split; [|exact M]. rewrite G. vm_compute. reflexivity.
Defined.

(** *** Connections the tap does not reroute *)

(** X5.  A call of the patched [connect] whose target is not the
    destination of the calling node's own context (another node, the
    destination of another context, an [AudioParam]) is handed to the
    native [connect] with its arguments: no chain is built, no setting and
    no chain changes, and the call ends as the native call ended.  The
    native call is made once; only when it threw for an [AudioParam] is it
    made a second time. *)
Theorem other_connections_pass_through nt v this dest w :
  asks_destination (context (Page this)) (Connect this dest) = false ->
  let r := patchedConnect nt v (Page this) (to_target dest) w in
  state (fst r) = state w /\
  seenContexts (fst r) = seenContexts w /\
  chains (fst r) = chains w /\
  (calls (fst r) = calls w ++ [(Page this, to_target dest)] \/
   (exists c i, dest = AtParam c i) /\
   nt (length (calls w)) (Page this) (to_target dest) = true /\
   calls (fst r) = calls w ++ [(Page this, to_target dest); (Page this, to_target dest)]) /\
  snd r = (if nt (pred (length (calls (fst r)))) (Page this) (to_target dest)
           then Threw else Returned).
Proof.
  intros A r. subst r. destruct dest as [d|pc pi]; cbn [to_target patchedConnect].
  - cbn [bypassed negb]. rewrite andb_true_r.
    destruct (bool_decide (Page d = Page (Dest (context (Page this))))) eqn:B.
    + apply bool_decide_eq_true in B. injection B as ->.
      cbn [asks_destination] in A. rewrite !bool_decide_true in A by reflexivity.
      discriminate A.
    + unfold nativeConnect. cbn [fst snd state seenContexts chains calls].
      repeat split; [left; reflexivity|].
      rewrite length_app, Nat.add_1_r. reflexivity.
  - unfold nativeConnect.
    destruct (nt (length (calls w)) (Page this) (ToParam pc pi)) eqn:N1;
      cbn [fst snd state seenContexts chains calls].
    + repeat split.
      * right. split; [eauto|]. split; [reflexivity|].
        rewrite <- app_assoc. reflexivity.
      * rewrite !length_app. cbn [length]. rewrite !Nat.add_1_r. reflexivity.
    + repeat split; [left; reflexivity|].
      rewrite length_app, Nat.add_1_r. cbn [pred]. rewrite N1. reflexivity.
Qed.

(** A gain node connected to a filter of its own context. *)
Lemma pass_through_example :
  calls (fst (patchedConnect never_throws Injected (Page (Created 1 1))
                (to_target (AtNode (Created 1 2))) one_chain))
    = calls one_chain ++ [(Page (Created 1 1), ToNode (Page (Created 1 2)))] /\
  chains (fst (patchedConnect never_throws Injected (Page (Created 1 1))
                 (to_target (AtNode (Created 1 2))) one_chain)) = chains one_chain.
Proof.
  destruct (other_connections_pass_through never_throws Injected
              (Created 1 1) (AtNode (Created 1 2)) one_chain eq_refl)
    as (_ & _ & C & [L|(_ & F & _)] & _).
  - split; [exact L|exact C].
  - discriminate F.
Defined.

(** *** No way around the master bus *)

Ltac not_direct :=
  let n := fresh "n" in
  let E := fresh "E" in
  intros [n E]; try discriminate E; injection E; intros; subst; congruence.

Lemma patchedConnect_no_direct nt v this dest w :
  (forall k a b, nt k a b = false) ->
  Forall (fun c => ~ direct_call c) (calls w) ->
  Forall (fun c => ~ direct_call c)
         (calls (fst (patchedConnect nt v (Page this) (to_target dest) w))).
Proof.
  intros Hnt0 Old.
  assert (Hnt : v = Injected -> forall k a b, nt k a b = false) by (intros _; exact Hnt0).
  destruct dest as [d|pc pi]; cbn [to_target patchedConnect].
  - cbn [bypassed negb]. rewrite andb_true_r.
    destruct (bool_decide (Page d = Page (Dest (context (Page this))))) eqn:B.
    + unfold getChainFor, nativeConnect, set_connected.
      destruct v.
      * specialize (Hnt eq_refl).
        destruct (chains w !! context (Page this)) as [ch0|];
          [destruct (connected ch0)|];
          cbn [fst snd state seenContexts chains calls connected applySettings buildChain];
          rewrite ?Hnt; cbn [fst calls];
          rewrite ?Forall_app, ?Forall_cons, ?Forall_nil;
          repeat split; try exact Old; not_direct.
      * destruct (chains w !! context (Page this)) as [ch0|];
          [destruct (connected ch0)|];
          cbn [fst snd state seenContexts chains calls connected applySettings buildChain];
          case_throws; cbn [fst calls];
          rewrite ?Forall_app, ?Forall_cons, ?Forall_nil;
          repeat split; try exact Old; not_direct.
    + apply bool_decide_eq_false in B. unfold nativeConnect. cbn [fst calls].
      rewrite Forall_app, Forall_cons, Forall_nil.
      repeat split; [exact Old|]. intros [n E]. apply B. congruence.
  - unfold nativeConnect. case_throws; cbn [fst calls];
      rewrite ?Forall_app, ?Forall_cons, ?Forall_nil;
      repeat split; try exact Old; not_direct.
Qed.

(** X6.  As long as the native [connect] does not throw, no page node is
    ever connected straight to the destination of its own context, in
    either copy of the tap: every native call the tap makes for the page
    either routes a node into a master bus, connects a master output, or
    is a connection the page asked for to something other than its own
    destination. *)
Theorem no_connection_bypasses_the_bus nt v es :
  (forall k a b, nt k a b = false) ->
  Forall (fun c => ~ direct_call c) (calls (run nt v es initial)).
Proof.
  intros Hnt.
  assert (G : forall w, Forall (fun c => ~ direct_call c) (calls w) ->
                        Forall (fun c => ~ direct_call c) (calls (run nt v es w))).
  { induction es as [|e es IH]; intros w Old; cbn; [exact Old|].
    apply IH. destruct e; cbn [step].
    - exact Old.
    - apply patchedConnect_no_direct; assumption. }
  apply G. constructor.
Qed.

(** Three nodes of one context connect to its destination, a fourth to an
    [AudioParam]. *)
Lemma no_bypass_example :
  Forall (fun c => ~ direct_call c)
         (calls (run never_throws Injected
                   (sources 1 3 ++ [Connect (Created 1 7) (AtParam 1 0)]) initial)).
Proof.
  apply (no_connection_bypasses_the_bus never_throws Injected).
  intros k a b. reflexivity.
Defined.

(** X7.  When the native call that routes a node into the master input
    throws, the two copies of the tap part ways.  The injected script falls
    back to the connection the page asked for: the node is connected
    straight to the destination and the call ends as that native call
    ends.  The copy for Spotify swallows the error and returns: the node
    is connected to nothing. *)
Theorem routing_failure_falls_back_or_is_swallowed nt this w :
  (forall k, nt k (Page this) (ToNode (MasterInput (context (Page this)))) = true) ->
  let ctx := context (Page this) in
  let inj := patchedConnect nt Injected (Page this) (ToNode (Page (Dest ctx))) w in
  let spo := patchedConnect nt Spotify (Page this) (ToNode (Page (Dest ctx))) w in
  (exists l,
     calls (fst inj) = l ++ [(Page this, ToNode (MasterInput ctx));
                             (Page this, ToNode (Page (Dest ctx)))] /\
     snd inj = (if nt (pred (length (calls (fst inj)))) (Page this)
                      (ToNode (Page (Dest ctx)))
                then Threw else Returned)) /\
  (exists l,
     calls (fst spo) = l ++ [(Page this, ToNode (MasterInput ctx))] /\
     snd spo = Returned /\
     forall c, c ∈ calls (fst spo) -> fst c = Page this ->
               c ∈ calls w \/ c = (Page this, ToNode (MasterInput ctx))).
Proof.
  intros T ctx inj spo. subst inj spo. cbn [patchedConnect]. fold ctx.
  cbn [bypassed negb]. rewrite bool_decide_true by reflexivity. cbn [andb].
  unfold getChainFor, nativeConnect, set_connected.
  assert (In : forall (l : list (node * target)) x, ∃ l0,
             (l ++ [(Page this, ToNode (MasterInput ctx))]) ++ [x]
             = l0 ++ [(Page this, ToNode (MasterInput ctx)); x]).
  { intros l x. exists l. rewrite <- app_assoc. reflexivity. }
  assert (Len : forall (l : list (node * target)) x,
             Init.Nat.pred (length (l ++ [x])) = length l).
  { intros l x. rewrite length_app, Nat.add_1_r. reflexivity. }
  destruct (chains w !! ctx) as [ch0|]; [destruct (connected ch0)|];
    cbn [fst snd state seenContexts chains calls connected applySettings buildChain];
    rewrite !T; cbn [fst snd calls]; split.
  all: try (destruct (In (calls w) (Page this, ToNode (Page (Dest ctx)))) as [l0 E0];
            destruct (In (calls w ++ [(MasterOutput ctx, ToNode (Page (Dest ctx)))])
                         (Page this, ToNode (Page (Dest ctx)))) as [l1 E1]).
  1: exists l0. 3: exists l1. 5: exists l1.
  1,3,5: split; [assumption|rewrite Len; reflexivity].
  all: eexists; (split; [reflexivity|]); (split; [reflexivity|]); intros c H F.
  - apply elem_of_app in H. destruct H as [H|H]; [left; exact H|].
    apply list_elem_of_singleton in H. right. exact H.
  - apply elem_of_app in H. destruct H as [H|H].
    + apply elem_of_app in H. destruct H as [H|H]; [left; exact H|].
      apply list_elem_of_singleton in H. subst c. discriminate F.
    + apply list_elem_of_singleton in H. right. exact H.
  - apply elem_of_app in H. destruct H as [H|H].
    + apply elem_of_app in H. destruct H as [H|H]; [left; exact H|].
      apply list_elem_of_singleton in H. subst c. discriminate F.
    + apply list_elem_of_singleton in H. right. exact H.
Qed.

(** A node of context 1, with a native [connect] that refuses every
    connection into the master input. *)
Lemma routing_failure_example :
  calls (fst (patchedConnect routing_throws Injected (Page (Created 1 1))
                (ToNode (Page (Dest 1))) initial))
    = [output_call 1%nat;
       (Page (Created 1 1), ToNode (MasterInput 1));
       (Page (Created 1 1), ToNode (Page (Dest 1)))] /\
  snd (patchedConnect routing_throws Spotify (Page (Created 1 1))
         (ToNode (Page (Dest 1))) initial) = Returned.
Proof.
  destruct (routing_failure_falls_back_or_is_swallowed routing_throws (Created 1 1) initial
              ltac:(intros k; reflexivity)) as [_ (_ & _ & R & _)].
  split; [vm_compute; reflexivity|exact R].
Defined.

End TapReachFacts.

(** ** The soft clipper *)

Module SoftClipFacts.
Import SoftClip.
Local Open Scope Q_scope.

Lemma length_curve : length makeSoftClipCurve = 2048%nat.
Proof. unfold makeSoftClipCurve. rewrite length_map, length_seq. reflexivity. Qed.

Lemma Qlt_from_bool (a b : Q) : negb (Qle_bool b a) = true -> a < b.
Proof.
  intros H. apply negb_true_iff in H. apply Qnot_le_lt. intros L.
  apply Qle_bool_iff in L. congruence.
Qed.

Lemma rising_next (l : list Q) (i : nat) (a b : Q) :
  rising l = true -> l !! i = Some a -> l !! S i = Some b -> a < b.
Proof.
  revert i. induction l as [|x l IH]; intros i R Ha Hb; [discriminate Ha|].
  destruct l as [|y l]; [discriminate Hb|].
  cbn [rising] in R. apply andb_true_iff in R. destruct R as [R1 R2].
  destruct i as [|i].
  - cbn in Ha, Hb. injection Ha as <-. injection Hb as <-. apply Qlt_from_bool, R1.
  - apply (IH i R2); assumption.
Qed.

(** Rising from each place to the next is rising throughout. *)
Lemma rising_lookup (l : list Q) (i j : nat) (a b : Q) :
  rising l = true -> (i < j)%nat -> l !! i = Some a -> l !! j = Some b -> a < b.
Proof.
  intros R L Ha. revert b. induction L as [|j L IH]; intros b Hb.
  - apply (rising_next l i); assumption.
  - destruct (lookup_lt_is_Some_2 l j) as [c Hc];
      [apply lookup_lt_Some in Hb; lia|].
    apply Qlt_trans with c; [apply IH; exact Hc|].
    apply (rising_next l j); assumption.
Qed.

Lemma opposite_lookup (l r : list Q) (i : nat) (a b : Q) :
  opposite l r = true -> l !! i = Some a -> r !! i = Some b -> a == - b.
Proof.
  revert r i. induction l as [|x l IH]; intros r i O Ha Hb; [discriminate Ha|].
  destruct r as [|y r]; [discriminate Hb|].
  cbn [opposite] in O. apply andb_true_iff in O. destruct O as [O1 O2].
  destruct i as [|i].
  - cbn in Ha, Hb. injection Ha as <-. injection Hb as <-. apply Qeq_bool_iff, O1.
  - apply (IH r i O2); assumption.
Qed.

(** What the four checks of the table give for the samples at two
    places. *)
Lemma table_facts (c : list SpecFloat.spec_float) (i j : nat)
    (yi yj : SpecFloat.spec_float) :
  length c = 2048%nat ->
  forallb is_number c = true ->
  rising (map value c) = true ->
  forallb (fun v => Qle_bool (- peak) v && Qle_bool v peak) (map value c) = true ->
  opposite (map value c) (reverse (map value c)) = true ->
  c !! i = Some yi -> c !! j = Some yj ->
  is_number yi = true /\
  ((i < j)%nat -> value yi < value yj) /\
  - peak <= value yi <= peak /\
  ((i + j = 2047)%nat -> value yj == - value yi).
Proof.
  intros Len C1 C2 C3 C4 Hi Hj.
  assert (Vi : map value c !! i = Some (value yi))
    by (rewrite list_lookup_fmap, Hi; reflexivity).
  assert (Vj : map value c !! j = Some (value yj))
    by (rewrite list_lookup_fmap, Hj; reflexivity).
  assert (LenV : length (map value c) = 2048%nat) by (rewrite length_map; exact Len).
  revert Vi Vj LenV C2 C3 C4. generalize (map value c). intros vs Vi Vj LenV C2 C3 C4.
  split; [|split; [|split]].
  - apply Is_true_true_2, forallb_True in C1. rewrite Forall_lookup in C1.
    apply Is_true_true_1. exact (C1 i yi Hi).
  - intros L. apply (rising_lookup vs i j); assumption.
  - apply Is_true_true_2, forallb_True in C3. rewrite Forall_lookup in C3.
    pose proof (C3 i _ Vi) as B. apply Is_true_true_1, andb_true_iff in B.
    destruct B as [B1 B2]. split; apply Qle_bool_iff; assumption.
  - intros E. apply (opposite_lookup vs (reverse vs) j); [exact C4|exact Vj|].
    rewrite reverse_lookup by lia.
    rewrite LenV. replace (2048 - S j)%nat with i by lia. exact Vi.
Qed.

(** X8.  The table of the soft clipper, as it is stored: 2048 binary32
    numbers that rise strictly with the index, lie between
    -10168010/2^24 and 10168010/2^24 (about 0.606, below full scale), and
    form an odd table: the samples at [i] and at [2047 - i] are exactly
    opposite, rounding included. *)
Theorem soft_clip_curve_is_odd_rising_and_bounded (i j : nat)
    (yi yj : SpecFloat.spec_float) :
  makeSoftClipCurve !! i = Some yi ->
  makeSoftClipCurve !! j = Some yj ->
  length makeSoftClipCurve = 2048%nat /\
  is_number yi = true /\
  ((i < j)%nat -> value yi < value yj) /\
  - peak <= value yi <= peak /\
  ((i + j = 2047)%nat -> value yj == - value yi).
Proof.
  intros Hi Hj. split; [exact length_curve|].
  refine (table_facts makeSoftClipCurve i j yi yj length_curve _ _ _ _ Hi Hj).
  - vm_compute. reflexivity.
  - vm_compute. reflexivity.
  - vm_compute. reflexivity.
  - vm_compute. reflexivity.
Qed.

(** The two ends of the table: the first sample is -10168010/2^24, the
    last 10168010/2^24, which is above 20/33, the value of the formula at
    1 before rounding, and below 1. *)
Lemma soft_clip_end_samples :
  makeSoftClipCurve !! 0%nat = Some (SpecFloat.S754_finite true 10168010 (-24)) /\
  makeSoftClipCurve !! 2047%nat = Some (SpecFloat.S754_finite false 10168010 (-24)) /\
  value (SpecFloat.S754_finite true 10168010 (-24))
    < value (SpecFloat.S754_finite false 10168010 (-24)) /\
  value (SpecFloat.S754_finite false 10168010 (-24)) == peak /\
  20 # 33 < peak < 1.
Proof.
  assert (H0 : makeSoftClipCurve !! 0%nat = Some (SpecFloat.S754_finite true 10168010 (-24)))
    by (vm_compute; reflexivity).
  assert (H1 : makeSoftClipCurve !! 2047%nat
               = Some (SpecFloat.S754_finite false 10168010 (-24)))
    by (vm_compute; reflexivity).
  destruct (soft_clip_curve_is_odd_rising_and_bounded 0 2047 _ _ H0 H1)
    as (_ & _ & R & _ & _).
  split; [exact H0|]. split; [exact H1|]. split; [apply R; lia|].
  split; [reflexivity|]. split; reflexivity.
Defined.

End SoftClipFacts.

(** ** The content script: reachable states *)

Module PageReachFacts.
Import JS Elements PageScript TapFacts PageFacts PageReach.
Local Open Scope Q_scope.

Ltac pg_inv_split := split; [|split; [|split; [|split; [|split]]]].

Lemma encrypted_listeners_app el l1 l2 :
  encrypted_listeners el (l1 ++ l2) =
  (encrypted_listeners el l1 + encrypted_listeners el l2)%nat.
Proof. unfold encrypted_listeners. rewrite filter_app, length_app. reflexivity. Qed.

Lemma pg_inv_emit es w :
  Forall effect_ok es -> plain es -> page_inv w -> page_inv (emit es w).
Proof.
  intros Ok Pl (C & B & N & E & [W A] & T). pg_inv_split; try assumption.
  - cbn. apply Forall_app. split; assumption.
  - split; [|exact A]. intros el. cbn [emit effects guard].
    rewrite encrypted_listeners_app, Pl, Nat.add_0_r. apply W.
Qed.

(** Changes of the guard that leave [watched] and [armed] alone. *)
Lemma pg_inv_set_guard g w :
  watched g = watched (guard w) -> armed g ⊆ watched g ->
  page_inv w -> page_inv (set_guard g w).
Proof.
  intros Hw Ha (C & B & N & E & [W A] & T). pg_inv_split; try assumption.
  split; [|exact Ha]. intros el. cbn [set_guard effects guard]. rewrite Hw. apply W.
Qed.

Lemma pg_inv_mark k w : page_inv w -> page_inv (mark k w).
Proof.
  intros I. unfold mark. apply pg_inv_set_guard; [reflexivity| |exact I].
  cbn. destruct I as (_ & _ & _ & _ & [_ A] & _). exact A.
Qed.

Lemma pg_inv_inspectElement e w : page_inv w -> page_inv (inspectElement e w).
Proof. intros I. unfold inspectElement. destruct (mediaKeys e); [apply pg_inv_mark|]; exact I. Qed.

Lemma watched_mark k w : watched (guard (mark k w)) = watched (guard w).
Proof. reflexivity. Qed.

Lemma watched_inspectElement e w : watched (guard (inspectElement e w)) = watched (guard w).
Proof. unfold inspectElement. destruct (mediaKeys e); reflexivity. Qed.

Lemma armed_inspectElement e w : armed (guard (inspectElement e w)) = armed (guard w).
Proof. unfold inspectElement. destruct (mediaKeys e); reflexivity. Qed.

Lemma effects_inspectElement e w : effects (inspectElement e w) = effects w.
Proof. unfold inspectElement. destruct (mediaKeys e); reflexivity. Qed.

Lemma encrypted_listeners_one el x :
  encrypted_listeners el [AddElementListener x "encrypted"] =
  if bool_decide (x = el) then 1%nat else 0%nat.
Proof.
  unfold encrypted_listeners. cbn [filter list_filter is_encrypted_listener].
  destruct (bool_decide (x = el)) eqn:D; cbn.
  - rewrite decide_True by reflexivity. reflexivity.
  - rewrite decide_False by discriminate. reflexivity.
Qed.

Lemma pg_inv_watchElement e w : page_inv w -> page_inv (watchElement e w).
Proof.
  intros I. unfold watchElement.
  destruct (bool_decide (el_id e ∈ watched (guard w))) eqn:D; [exact I|].
  apply bool_decide_eq_false in D.
  destruct I as (C & B & N & E & [W A] & T).
  set (w1 := set_guard _ w).
  assert (I1 : ctl (inspectElement e w1) = ctl w /\ bus (inspectElement e w1) = bus w /\
               hook (inspectElement e w1) = hook w /\ stap (inspectElement e w1) = stap w).
  { unfold inspectElement. destruct (mediaKeys e); repeat split. }
  destruct I1 as (Ec & Eb & Eh & Et).
  pg_inv_split.
  - cbn [emit set_guard ctl]. rewrite Ec. exact C.
  - cbn [emit set_guard bus]. rewrite Eb. exact B.
  - unfold counted. cbn [emit set_guard bus hook]. rewrite Eb, Eh. exact N.
  - cbn [emit set_guard effects]. rewrite effects_inspectElement. cbn.
    apply Forall_app. split; [exact E|]. repeat constructor.
  - split.
    + intros el. cbn [emit set_guard effects guard watched].
      rewrite encrypted_listeners_app, encrypted_listeners_one,
        effects_inspectElement, watched_inspectElement.
      cbn [w1 set_guard effects guard watched]. rewrite W.
      destruct (decide (el_id e = el)) as [<-|Ne].
      * rewrite (bool_decide_false _ D), (bool_decide_true (el_id e = el_id e)) by reflexivity.
        rewrite bool_decide_true; [reflexivity|].
        apply elem_of_union_l, elem_of_singleton. reflexivity.
      * rewrite (bool_decide_false (el_id e = el)) by exact Ne. rewrite Nat.add_0_r.
        rewrite (bool_decide_ext (el ∈ {[el_id e]} ∪ watched (guard w))
                   (el ∈ watched (guard w))); [reflexivity|].
        rewrite elem_of_union, elem_of_singleton. intuition congruence.
    + cbn [emit set_guard guard watched armed].
      rewrite armed_inspectElement, watched_inspectElement.
      cbn [w1 set_guard guard watched armed].
      intros x Hx. apply elem_of_union in Hx. apply elem_of_union.
      destruct Hx as [Hx|Hx]; [left; exact Hx|right; apply A, Hx].
  - cbn [emit set_guard stap]. rewrite Et. exact T.
Qed.

Lemma pg_inv_fold {A} (f : world -> A -> world) (l : list A) :
  (forall w a, page_inv w -> page_inv (f w a)) ->
  forall w, page_inv w -> page_inv (fold_left f l w).
Proof. intros H. induction l as [|a l IH]; intros w I; cbn; [exact I|]. apply IH, H, I. Qed.

Lemma pg_inv_guard_scan w : page_inv w -> page_inv (guard_scan w).
Proof. unfold guard_scan. apply pg_inv_fold. intros. apply pg_inv_watchElement. assumption. Qed.

Lemma pg_inv_element_encrypted el w : page_inv w -> page_inv (element_encrypted el w).
Proof.
  intros I. unfold element_encrypted. destruct (bool_decide _); [|exact I].
  apply pg_inv_mark, pg_inv_set_guard; [reflexivity| |exact I].
  cbn. destruct I as (_ & _ & _ & _ & [_ A] & _).
  intros x Hx. apply elem_of_difference in Hx. apply A, Hx.
Qed.

Lemma pg_inv_document_encrypted h w : page_inv w -> page_inv (document_encrypted h w).
Proof. intros I. unfold document_encrypted. destruct (IS_SPOTIFY h); [apply pg_inv_mark|]; exact I. Qed.

(** *** The bus *)

Lemma zeros_ok : Forall TapReach.band_ok (replicate 10 0).
Proof. apply Forall_replicate. unfold TapReach.band_ok. lra. Qed.

Lemma plain_window_listeners a b : plain [AddWindowListener a; AddWindowListener b].
Proof. intros el. reflexivity. Qed.

Lemma ensure_wired h w : snd (ensure h w) = true -> _wired (bus (fst (ensure h w))) = true.
Proof.
  unfold ensure. destruct (_wired (bus w)) eqn:Wd; [intros _; exact Wd|].
  destruct (AudioContextAvailable h); cbn; [reflexivity|discriminate].
Qed.

Lemma pg_inv_ensure h w : page_inv w -> page_inv (fst (ensure h w)).
Proof.
  intros I. unfold ensure. destruct (_wired (bus w)) eqn:Wd; [exact I|].
  destruct (AudioContextAvailable h); [|exact I]. cbn [negb fst].
  apply pg_inv_emit; [repeat constructor|apply plain_window_listeners|].
  destruct I as (C & B & (N1 & N2 & N3) & E & W & T). pg_inv_split; try assumption.
  - intros _. cbn. split; [lra|]. split; [reflexivity|exact zeros_ok].
  - split; [exact N1|]. split; [exact N2|]. cbn. discriminate.
Qed.

Lemma pg_inv_set_bus_values g q m w :
  (0 <= g <= 8) -> length q = 10%nat -> Forall TapReach.band_ok q ->
  page_inv w ->
  page_inv (set_bus (mkBus (_wired (bus w)) g q m (bus_inputs (bus w))) w).
Proof.
  intros G L F (C & B & N & E & W & T). pg_inv_split; try assumption.
  intros _. cbn. auto.
Qed.

Lemma pg_inv_setGainLinear v w : page_inv w -> page_inv (setGainLinear v w).
Proof.
  intros I. unfold setGainLinear. destruct (_wired (bus w)) eqn:Wd; [|exact I].
  cbn [negb]. rewrite <- Wd.
  destruct I as (C & B & N & E & W & T). destruct (B Wd) as (_ & L & F).
  apply pg_inv_set_bus_values; try assumption.
  - apply clamp_range. lra.
  - pg_inv_split; assumption.
Qed.

Lemma pg_inv_bus_setEqDb a w : page_inv w -> page_inv (bus_setEqDb a w).
Proof.
  intros I. unfold bus_setEqDb. destruct (_wired (bus w)) eqn:Wd; [|exact I].
  cbn [negb]. rewrite <- Wd.
  destruct I as (C & B & N & E & W & T). destruct (B Wd) as (G & L & F).
  apply pg_inv_set_bus_values; try assumption.
  - rewrite length_imap. exact L.
  - apply Forall_forall. intros x H. apply list_elem_of_lookup in H. destruct H as [i H].
    rewrite list_lookup_imap in H. destruct (bus_eq (bus w) !! i); [|discriminate].
    cbn in H. injection H as <-. apply clamp_range. lra.
  - pg_inv_split; assumption.
Qed.

Lemma pg_inv_bus_setMode m w : page_inv w -> page_inv (bus_setMode m w).
Proof.
  intros I. unfold bus_setMode. destruct (_wired (bus w)) eqn:Wd; [|exact I].
  cbn [negb]. rewrite <- Wd.
  destruct I as (C & B & N & E & W & T). destruct (B Wd) as (G & L & F).
  apply pg_inv_set_bus_values; try assumption. pg_inv_split; assumption.
Qed.

(** *** The binder *)

Lemma plain_retry_listeners el :
  plain [AddElementListener el "playing"; AddElementListener el "loadedmetadata"].
Proof.
  intros x. unfold encrypted_listeners. cbn [filter list_filter is_encrypted_listener].
  rewrite !andb_false_r. cbn. reflexivity.
Qed.

Lemma pg_inv_set_pending p w :
  page_inv w ->
  page_inv (set_hook (mkHook (sources (hook w)) (hookedCount (hook w)) p) w).
Proof. intros (C & B & N & E & W & T). pg_inv_split; assumption. Qed.

Lemma pg_inv_hook_element h e w : page_inv w -> page_inv (fst (hook_element h e w)).
Proof.
  intros I. unfold hook_element.
  destruct (is_media e); [|exact I]. cbn [negb].
  set (w1 := if IS_SPOTIFY h then watchElement e w else w).
  assert (I1 : page_inv w1).
  { subst w1. destruct (IS_SPOTIFY h); [apply pg_inv_watchElement|]; exact I. }
  pose proof (pg_inv_ensure h w1 I1) as I2. pose proof (ensure_wired h w1) as Wd.
  destruct (ensure h w1) as [w2 ok]. cbn [fst snd] in I2, Wd.
  destruct ok; [|exact I2]. cbn [negb]. specialize (Wd eq_refl).
  destruct (bool_decide (is_Some (sources (hook w2) !! el_id e))) eqn:Has; [exact I2|].
  apply bool_decide_eq_false in Has.
  set (w3 := if negb (IS_SPOTIFY h) && negb (crossOrigin e)
             then emit [SetCrossOriginAnonymous (el_id e)] w2 else w2).
  assert (I3 : page_inv w3).
  { subst w3. destruct (negb (IS_SPOTIFY h) && negb (crossOrigin e)); [|exact I2].
    apply pg_inv_emit; [repeat constructor|intros el; reflexivity|exact I2]. }
  assert (S3 : sources (hook w3) = sources (hook w2) /\ _wired (bus w3) = true).
  { subst w3. destruct (negb (IS_SPOTIFY h) && negb (crossOrigin e)); split;
      first [reflexivity|exact Wd]. }
  destruct S3 as [S3 Wd3].
  destruct (_makeSource e w3) as [node|].
  - cbn [fst]. apply pg_inv_emit.
    + repeat constructor; cbn; lra.
    + intros el. reflexivity.
    + match goal with
      | |- page_inv (if ?c then emit ?es ?w4 else _) =>
          assert (I4 : page_inv w4); [|destruct c; [apply pg_inv_emit|]; try exact I4]
      end.
      * destruct I3 as (C & B & (N1 & N2 & N3) & E & W & T). pg_inv_split; try assumption.
        split; [|split].
        -- cbn. rewrite length_app, N1. cbn. lia.
        -- cbn. rewrite map_size_insert_None, N2; [reflexivity|].
           rewrite S3. destruct (sources (hook w2) !! el_id e) eqn:L; [|reflexivity].
           exfalso. apply Has. eauto.
        -- cbn. rewrite Wd3. discriminate.
      * repeat constructor; cbn; lra.
      * intros el. reflexivity.
  - destruct (bool_decide (el_id e ∈ _pendingRetry (hook w3))); [exact I3|].
    cbn [fst]. apply pg_inv_emit; [repeat constructor|apply plain_retry_listeners|].
    apply pg_inv_set_pending, I3.
Qed.

Lemma pg_inv_hook_scan h els w : page_inv w -> page_inv (hook_scan h els w).
Proof. unfold hook_scan. apply pg_inv_fold. intros. apply pg_inv_hook_element. assumption. Qed.

Lemma pg_inv_retry h e w : page_inv w -> page_inv (retry h e w).
Proof. intros I. unfold retry. apply pg_inv_hook_element, pg_inv_set_pending, I. Qed.

(** *** The graph tap *)

Lemma pg_inv_set_stap_graph i l p g w :
  TapReach.reach_inv g -> page_inv w -> page_inv (set_stap (mkSpotifyTap i l p g) w).
Proof. intros G (C & B & N & E & W & T). pg_inv_split; assumption. Qed.

Lemma pg_inv_install h w : page_inv w -> page_inv (install h w).
Proof.
  intros I. assert (T : TapReach.reach_inv (graph (stap w))) by apply I.
  unfold install. destruct (installed (stap w)); [exact I|].
  destruct (negb (IS_SPOTIFY h)); [apply pg_inv_set_stap_graph; assumption|].
  destruct (page_bridge h); apply pg_inv_set_stap_graph; assumption.
Qed.

Lemma pg_inv_tap_apply p w : page_inv w -> page_inv (tap_apply p w).
Proof.
  intros I. unfold tap_apply. apply pg_inv_set_stap_graph; [|exact I].
  apply TapReachFacts.reach_inv_SS_SETTINGS, I.
Qed.

(** *** The controller *)

Lemma unit_volume (v : Q) : 0 <= clampNumber (VNumber (Fin v)) 0 100 / 100 <= 1.
Proof.
  pose proof (clamp_range (VNumber (Fin v)) 0 100 ltac:(lra)) as R.
  unfold clampNumber. set (c := Tap.clamp _ 0 100) in *. split.
  - apply Qle_shift_div_l; lra.
  - apply Qle_shift_div_r; lra.
Qed.

Lemma element_controls_ok (m : bool) (v : Q) (doc : list element) :
  0 <= v <= 1 ->
  Forall effect_ok
    (flat_map (fun e => [SetElementMuted (el_id e) m; SetElementVolume (el_id e) v]) doc) /\
  plain (flat_map (fun e => [SetElementMuted (el_id e) m; SetElementVolume (el_id e) v]) doc).
Proof.
  intros V. induction doc as [|e doc [IH1 IH2]]; cbn [flat_map].
  - split; [constructor|intros el; reflexivity].
  - split.
    + cbn [app]. constructor; [exact I|]. constructor; [exact V|exact IH1].
    + intros el. change (encrypted_listeners el
        ([SetElementMuted (el_id e) m; SetElementVolume (el_id e) v] ++
         flat_map (fun e => [SetElementMuted (el_id e) m; SetElementVolume (el_id e) v]) doc)
        = 0%nat).
      rewrite encrypted_listeners_app, IH2. reflexivity.
Qed.

Lemma pg_inv_basic_controls h w : page_inv w -> page_inv (basic_controls h w).
Proof.
  intros I. unfold basic_controls.
  pose proof (unit_volume (volumePercent (ctl w))) as V.
  destruct (element_controls_ok (muted (ctl w)) _ (document w) V) as [F P].
  pose proof (pg_inv_emit _ w F P I) as I1.
  destruct (location h); [apply pg_inv_emit|apply pg_inv_emit|exact I1];
    try exact I1; try (intros el; reflexivity); repeat constructor; apply V.
Qed.

Lemma settings_payload_ok (c : controller) : ctl_ok c -> payload_ok (settings_payload c).
Proof.
  intros (V & L & F). split.
  - eexists. split; [reflexivity|]. apply clamp_range. lra.
  - exists (eqDb c). auto.
Qed.

Lemma pg_inv__applyAll h w : page_inv w -> page_inv (_applyAll h w).
Proof.
  intros I. unfold _applyAll.
  destruct (IS_SPOTIFY h && negb (spotifyExperimental (ctl w))).
  { apply pg_inv_emit; [|intros el; reflexivity|exact I].
    repeat constructor; apply unit_volume. }
  set (w1 := if IS_SPOTIFY h && spotifyExperimental (ctl w)
             then tap_apply (settings_payload (ctl w)) w else w).
  assert (I1 : page_inv w1).
  { subst w1. destruct (IS_SPOTIFY h && spotifyExperimental (ctl w));
      [apply pg_inv_tap_apply|]; exact I. }
  destruct (IS_SPOTIFY h && spotifyExperimental (ctl w) &&
            (IS_SPOTIFY h && spotifyExperimental (ctl w) && engaged w)); [exact I1|].
  destruct (_wired (bus w) && negb (hookedCount (hook w) =? 0)%nat).
  { apply pg_inv_bus_setMode, pg_inv_bus_setEqDb, pg_inv_setGainLinear, I1. }
  destruct (tap_ready w).
  - apply pg_inv_emit; [|intros el; reflexivity|exact I1].
    constructor; [|constructor]. cbn. apply settings_payload_ok, I.
  - apply pg_inv_basic_controls, I1.
Qed.

Lemma pg_inv_set_flags x o s w :
  page_inv w ->
  page_inv (set_ctl (mkController x (volumePercent (ctl w)) (muted (ctl w)) (mode (ctl w))
                       (eqDb (ctl w)) o s) w).
Proof. intros (C & B & N & E & W & T). pg_inv_split; assumption. Qed.

Lemma pg_inv__installMediaHooks h w : page_inv w -> page_inv (_installMediaHooks h w).
Proof.
  intros I. unfold _installMediaHooks. destruct (_observer (ctl w)); [exact I|].
  apply pg_inv_emit; [repeat constructor|intros el; reflexivity|].
  apply pg_inv_set_flags, pg_inv_hook_scan, I.
Qed.

Lemma pg_inv_start h w : page_inv w -> page_inv (start h w).
Proof.
  intros I. unfold start. destruct (_started (ctl w)); [exact I|].
  apply pg_inv__applyAll.
  pose proof (pg_inv_set_flags (spotifyExperimental (ctl w)) (_observer (ctl w)) true w I) as I1.
  destruct (negb (IS_SPOTIFY h)); [apply pg_inv__installMediaHooks; exact I1|].
  destruct (spotifyExperimental (ctl w)); [apply pg_inv_install|]; exact I1.
Qed.

Lemma pg_inv_set_settings x v m md q o s w :
  0 <= v <= 800 -> length q = 10%nat -> Forall TapReach.band_ok q ->
  page_inv w -> page_inv (set_ctl (mkController x v m md q o s) w).
Proof.
  intros V L F (C & B & N & E & W & T). pg_inv_split; try assumption.
  split; [exact V|]. split; assumption.
Qed.

Lemma stored_eq_ok (arr : option (list jsval)) : Forall TapReach.band_ok (stored_eq arr).
Proof.
  unfold stored_eq. apply Forall_fmap, Forall_forall. intros x _. cbn.
  apply clamp_range. lra.
Qed.

Lemma pg_inv_setVolumePercent h v w : page_inv w -> page_inv (setVolumePercent h v w).
Proof.
  intros I. unfold setVolumePercent. apply pg_inv__applyAll, pg_inv_start.
  destruct (proj1 I) as (V & L & F).
  apply pg_inv_set_settings; [apply clamp_range; lra|exact L|exact F|exact I].
Qed.

Lemma pg_inv_setMuted h v w : page_inv w -> page_inv (setMuted h v w).
Proof.
  intros I. unfold setMuted. apply pg_inv__applyAll, pg_inv_start.
  destruct (proj1 I) as (V & L & F).
  apply pg_inv_set_settings; [exact V|exact L|exact F|exact I].
Qed.

Lemma pg_inv_setMode h v w : page_inv w -> page_inv (setMode h v w).
Proof.
  intros I. unfold setMode. apply pg_inv__applyAll, pg_inv_start.
  destruct (proj1 I) as (V & L & F).
  apply pg_inv_set_settings; [exact V|exact L|exact F|exact I].
Qed.

Lemma pg_inv_setEqDb h a w : page_inv w -> page_inv (setEqDb h a w).
Proof.
  intros I. unfold setEqDb. apply pg_inv__applyAll, pg_inv_start.
  destruct (proj1 I) as (V & L & F).
  apply pg_inv_set_settings; [exact V|apply length_stored_eq|apply stored_eq_ok|exact I].
Qed.

Lemma pg_inv_onMessage h m w : page_inv w -> page_inv (fst (onMessage h m w)).
Proof.
  intros I. destruct m; cbn [onMessage fst].
  - apply pg_inv_start, I.
  - pose proof (pg_inv_setVolumePercent h volume w I) as I1.
    apply pg_inv_emit; [|intros el; reflexivity|exact I1].
    constructor; [|constructor]. cbn. eexists. split; [reflexivity|apply I1].
  - apply pg_inv_emit; [repeat constructor|intros el; reflexivity|apply pg_inv_setMuted, I].
  - apply pg_inv_emit; [repeat constructor|intros el; reflexivity|apply pg_inv_setMuted, I].
  - apply pg_inv_emit; [repeat constructor|intros el; reflexivity|apply pg_inv_setMode, I].
  - pose proof (pg_inv_setEqDb h gains w I) as I1.
    apply pg_inv_emit; [|intros el; reflexivity|exact I1].
    constructor; [|constructor]. cbn. split; apply I1.
Qed.

Lemma pg_inv_set_experimental v w :
  page_inv w ->
  page_inv (mkWorld (ctl w) (bus w) (hook w) (guard w) (tap_ready w) (tap_lastSeenAt w)
              (stap w) v (document w) (clock w) (ctx_state w) (effects w)).
Proof. intros (C & B & N & E & W & T). pg_inv_split; assumption. Qed.

Lemma pg_inv_storage_loaded h a b c d e w :
  page_inv w -> page_inv (storage_loaded h a b c d e w).
Proof.
  intros I. unfold storage_loaded.
  apply pg_inv_setVolumePercent, pg_inv_setMuted, pg_inv_setEqDb, pg_inv_setMode.
  match goal with
  | |- page_inv (if _ then install h ?w2 else _) => assert (I2 : page_inv w2)
  end.
  { apply (pg_inv_set_experimental (truthy e)). cbn [ctl bus hook guard tap_ready tap_lastSeenAt stap document clock ctx_state effects set_ctl].
    apply (pg_inv_set_flags (truthy e) (_observer (ctl w)) (_started (ctl w)) w I). }
  destruct (IS_SPOTIFY h && truthy e); [apply pg_inv_install|]; exact I2.
Qed.

Lemma pg_inv_experimental_changed h v w :
  page_inv w -> page_inv (experimental_changed h v w).
Proof.
  intros I. unfold experimental_changed. apply pg_inv__applyAll, pg_inv_start.
  match goal with
  | |- page_inv (if _ then install h ?w2 else _) => assert (I2 : page_inv w2)
  end.
  { apply (pg_inv_set_experimental (truthy v)).
    apply (pg_inv_set_flags (truthy v) (_observer (ctl w)) (_started (ctl w)) w I). }
  destruct (IS_SPOTIFY h && truthy v); [apply pg_inv_install|]; exact I2.
Qed.

Lemma pg_inv_step h w e : page_inv w -> page_inv (step h w e).
Proof.
  intros I. destruct e; cbn [step].
  - apply pg_inv_onMessage, I.
  - apply pg_inv_storage_loaded, I.
  - apply pg_inv_experimental_changed, I.
  - destruct (_observer (ctl w)); [|exact I]. revert I. apply pg_inv_fold.
    intros w0 [e|els] I0; cbn [observe_added];
      [apply pg_inv_hook_element|apply pg_inv_hook_scan]; exact I0.
  - destruct (_observer (ctl w)); [apply pg_inv_hook_element|]; exact I.
  - apply pg_inv_retry, I.
  - apply pg_inv_element_encrypted, I.
  - apply pg_inv_document_encrypted, I.
  - destruct (IS_SPOTIFY h); [apply pg_inv_guard_scan|]; exact I.
  - destruct I as (C & B & N & E & W & T). pg_inv_split; assumption.
  - destruct (patched (stap w)); [|exact I].
    apply pg_inv_set_stap_graph; [|exact I].
    apply TapReachFacts.reach_inv_patchedConnect, I.
  - destruct I as (C & B & N & E & W & T). pg_inv_split; assumption.
  - destruct I as (C & B & N & E & W & T). pg_inv_split; assumption.
  - destruct I as (C & B & N & E & W & T). pg_inv_split; assumption.
Qed.

Lemma pg_inv_run h es w : page_inv w -> page_inv (run h es w).
Proof. unfold run. apply pg_inv_fold. intros. apply pg_inv_step. assumption. Qed.

Lemma pg_inv_loaded doc : page_inv (loaded doc).
Proof.
  pg_inv_split.
  - split; [cbn; lra|]. split; [reflexivity|exact zeros_ok].
  - intros W. discriminate W.
  - split; [reflexivity|]. split; [reflexivity|]. reflexivity.
  - constructor.
  - split; [|cbn; set_solver]. intros el. cbn.
    rewrite bool_decide_false by set_solver. reflexivity.
  - apply TapReachFacts.reach_inv_initial.
Qed.

(** *** What the binder leaves alone *)

Lemma watchElement_rest e w :
  ctl (watchElement e w) = ctl w /\ bus (watchElement e w) = bus w /\
  hook (watchElement e w) = hook w /\ stap (watchElement e w) = stap w.
Proof.
  unfold watchElement, inspectElement.
  destruct (bool_decide _); [auto|]. destruct (mediaKeys e); cbn; auto.
Qed.

(** One call of [hook] changes no setting of the controller and nothing
    of the graph tap; the values of a wired bus stay, and a bus it wires
    is at its defaults. *)
Lemma hook_element_values h e w :
  let w' := fst (hook_element h e w) in
  ctl w' = ctl w /\ stap w' = stap w /\
  (if _wired (bus w) then bus_values (bus w') = bus_values (bus w)
   else _wired (bus w') = true ->
        bus_values (bus w') = (1, replicate 10 0, Tap.Default)) /\
  (hookedCount (hook w) <= hookedCount (hook w'))%nat.
Proof.
  cbv zeta. unfold hook_element.
  destruct (negb (is_media e)).
  { cbn [fst]. split; [reflexivity|]. split; [reflexivity|]. split; [|lia].
    destruct (_wired (bus w)) eqn:Wd; [reflexivity|discriminate]. }
  set (w1 := if IS_SPOTIFY h then watchElement e w else w).
  assert (E1 : ctl w1 = ctl w /\ bus w1 = bus w /\ stap w1 = stap w /\ hook w1 = hook w).
  { subst w1. destruct (IS_SPOTIFY h); [|auto].
    destruct (watchElement_rest e w) as (? & ? & ? & ?). auto. }
  destruct E1 as (C1 & B1 & T1 & H1).
  assert (E2 : ctl (fst (ensure h w1)) = ctl w /\ stap (fst (ensure h w1)) = stap w /\
               (if _wired (bus w)
                then bus_values (bus (fst (ensure h w1))) = bus_values (bus w)
                else _wired (bus (fst (ensure h w1))) = true ->
                     bus_values (bus (fst (ensure h w1))) = (1, replicate 10 0, Tap.Default)) /\
               hook (fst (ensure h w1)) = hook w).
  { unfold ensure. rewrite B1. destruct (_wired (bus w)) eqn:Wd.
    - cbn [fst]. rewrite B1. auto.
    - destruct (negb (AudioContextAvailable h)); cbn [fst].
      + rewrite B1, Wd. split; [exact C1|]. split; [exact T1|]. split; [discriminate|exact H1].
      + cbn. rewrite C1, T1. auto. }
  destruct (ensure h w1) as [w2 ok]. cbn [fst] in E2. destruct E2 as (C2 & T2 & V2 & H2).
  destruct (negb ok); [cbn [fst]; rewrite H2; auto|].
  destruct (bool_decide (is_Some (sources (hook w2) !! el_id e)));
    [cbn [fst]; rewrite H2; auto|].
  set (w3 := if negb (IS_SPOTIFY h) && negb (crossOrigin e)
             then emit [SetCrossOriginAnonymous (el_id e)] w2 else w2).
  assert (E3 : ctl w3 = ctl w2 /\ bus w3 = bus w2 /\ stap w3 = stap w2 /\ hook w3 = hook w2).
  { subst w3. destruct (negb (IS_SPOTIFY h) && negb (crossOrigin e)); cbn; auto. }
  destruct E3 as (C3 & B3 & T3 & H3).
  destruct (_makeSource e w3) as [node|].
  - match goal with |- context [if ?c then _ else _] => destruct c end;
      cbn [fst emit set_hook set_bus ctl stap bus hook hookedCount];
      rewrite C3, T3, B3, H3, H2;
      (split; [exact C2|]); (split; [exact T2|]); (split; [|lia]);
      unfold bus_values in *; cbn [bus_gain bus_eq modeStage _wired];
      destruct (_wired (bus w)); exact V2.
  - destruct (bool_decide (el_id e ∈ _pendingRetry (hook w3)));
      cbn [fst emit set_hook set_bus ctl stap bus hook hookedCount];
      rewrite C3, T3, B3, ?H3, H2; auto.
Qed.

Lemma hook_scan_rest h els w :
  ctl (hook_scan h els w) = ctl w /\ stap (hook_scan h els w) = stap w.
Proof.
  unfold hook_scan. revert w. induction els as [|e els IH]; intros w; cbn; [auto|].
  destruct (IH (fst (hook_element h e w))) as [-> ->].
  destruct (hook_element_values h e w) as (-> & -> & _). auto.
Qed.

Lemma ctl__applyAll h w : ctl (_applyAll h w) = ctl w.
Proof.
  unfold _applyAll, basic_controls, bus_setMode, bus_setEqDb, setGainLinear, tap_apply.
  destruct (IS_SPOTIFY h), (spotifyExperimental (ctl w)); cbn [andb negb];
    repeat match goal with
           | |- context [if ?c then _ else _] => destruct c; cbn
           | |- context [match location h with _ => _ end] => destruct (location h); cbn
           end; reflexivity.
Qed.

Lemma graph__applyAll h w :
  IS_SPOTIFY h = true -> spotifyExperimental (ctl w) = true ->
  graph (stap (_applyAll h w)) = Tap.SS_SETTINGS (settings_payload (ctl w)) (graph (stap w)).
Proof.
  intros S X.
  unfold _applyAll, basic_controls, bus_setMode, bus_setEqDb, setGainLinear, tap_apply.
  rewrite S, X. cbn [andb negb].
  repeat match goal with
         | |- context [if ?c then _ else _] => destruct c; cbn
         | |- context [match location h with _ => _ end] => destruct (location h); cbn
         end; reflexivity.
Qed.

Lemma settings_of_installMediaHooks h w :
  settings_of (ctl (_installMediaHooks h w)) = settings_of (ctl w) /\
  spotifyExperimental (ctl (_installMediaHooks h w)) = spotifyExperimental (ctl w) /\
  stap (_installMediaHooks h w) = stap w.
Proof.
  unfold _installMediaHooks. destruct (_observer (ctl w)); [auto|].
  destruct (hook_scan_rest h (document w) w) as [C T].
  unfold settings_of. cbn. rewrite C, T. auto.
Qed.

Lemma install_rest h w :
  ctl (install h w) = ctl w /\
  Tap.state (graph (stap (install h w))) = Tap.state (graph (stap w)).
Proof.
  unfold install. destruct (installed (stap w)); [auto|].
  destruct (negb (IS_SPOTIFY h)); [cbn; auto|]. destruct (page_bridge h); cbn; auto.
Qed.

Lemma settings_of_start h w :
  settings_of (ctl (start h w)) = settings_of (ctl w) /\
  spotifyExperimental (ctl (start h w)) = spotifyExperimental (ctl w).
Proof.
  unfold start. destruct (_started (ctl w)); [auto|]. rewrite ctl__applyAll.
  destruct (negb (IS_SPOTIFY h)).
  - destruct (settings_of_installMediaHooks h
                (set_ctl (mkController (spotifyExperimental (ctl w)) (volumePercent (ctl w))
                            (muted (ctl w)) (mode (ctl w)) (eqDb (ctl w))
                            (_observer (ctl w)) true) w)) as (-> & -> & _).
    auto.
  - destruct (spotifyExperimental (ctl w)) eqn:X.
    + destruct (install_rest h
                (set_ctl (mkController true (volumePercent (ctl w))
                            (muted (ctl w)) (mode (ctl w)) (eqDb (ctl w))
                            (_observer (ctl w)) true) w)) as (-> & _).
      auto.
    + cbn. auto.
Qed.

(** *** The graph tap follows the controller *)

Lemma mode_of_mode_string (m : Tap.tone) : Tap.mode_of (VString (mode_string m)) = m.
Proof. destruct m; reflexivity. Qed.

Lemma store_settings_payload (c : controller) (st : Tap.settings) :
  ctl_ok c -> settings_match c (Tap.store (settings_payload c) st).
Proof.
  intros (V & L & F). unfold settings_match, Tap.store, settings_payload.
  cbn [Tap.p_volumePercent Tap.p_volume Tap.p_muted Tap.p_mode Tap.p_eq typeof_number
       nullish Tap.volumePercent Tap.muted Tap.mode Tap.eq truthy].
  split; [|split; [reflexivity|split; [apply mode_of_mode_string|]]].
  - unfold clampNumber. rewrite clamp_in_range; [apply clamp_in_range; exact V|].
    apply clamp_range. lra.
  - apply Forall2_same_length_lookup_2.
    + rewrite length_fmap, length_slice_pad10. symmetry. exact L.
    + intros i x y Hx Hy.
      assert (Li : (i < 10)%nat) by (rewrite <- L; eapply lookup_lt_Some; exact Hy).
      rewrite list_lookup_fmap, (EqFacts.slice_pad10_lookup _ i Li),
        list_lookup_fmap, Hy in Hx.
      cbn in Hx. injection Hx as <-. apply clamp_in_range.
      rewrite Forall_lookup in F. exact (F _ _ Hy).
Qed.

Lemma synced__applyAll h w : page_inv w -> tap_synced h (_applyAll h w).
Proof.
  intros I S X. rewrite ctl__applyAll in *. rewrite graph__applyAll by assumption.
  rewrite state_SS_SETTINGS. apply store_settings_payload, I.
Qed.

Lemma synced_kept h w w' :
  settings_of (ctl w') = settings_of (ctl w) ->
  spotifyExperimental (ctl w') = spotifyExperimental (ctl w) ->
  Tap.state (graph (stap w')) = Tap.state (graph (stap w)) ->
  tap_synced h w -> tap_synced h w'.
Proof.
  unfold settings_of, tap_synced, settings_match. intros [= V M Md Q] X T H S X'.
  rewrite T, V, M, Md, Q. apply H; [exact S|]. rewrite <- X. exact X'.
Qed.

Lemma synced_same h w w' :
  ctl w' = ctl w -> stap w' = stap w -> tap_synced h w -> tap_synced h w'.
Proof. intros C T. apply synced_kept; rewrite ?C, ?T; reflexivity. Qed.

Lemma inner_start h w :
  page_inv w -> _started (ctl w) = false ->
  exists X, page_inv X /\ start h w = _applyAll h X.
Proof.
  intros I St. unfold start. rewrite St. eexists. split; [|reflexivity].
  pose proof (pg_inv_set_flags (spotifyExperimental (ctl w)) (_observer (ctl w)) true w I) as I1.
  destruct (negb (IS_SPOTIFY h)); [apply pg_inv__installMediaHooks; exact I1|].
  destruct (spotifyExperimental (ctl w)); [apply pg_inv_install|]; exact I1.
Qed.

Lemma synced_start h w : page_inv w -> tap_synced h w -> tap_synced h (start h w).
Proof.
  intros I Sy. destruct (_started (ctl w)) eqn:St.
  - unfold start. rewrite St. exact Sy.
  - destruct (inner_start h w I St) as (X & IX & ->). apply synced__applyAll, IX.
Qed.

Lemma synced_hook_element h e w :
  tap_synced h w -> tap_synced h (fst (hook_element h e w)).
Proof. destruct (hook_element_values h e w) as (C & T & _). apply synced_same; assumption. Qed.

Lemma synced_fold {A} h (f : world -> A -> world) (l : list A) :
  (forall w a, tap_synced h w -> tap_synced h (f w a)) ->
  forall w, tap_synced h w -> tap_synced h (fold_left f l w).
Proof. intros H. induction l as [|a l IH]; intros w I; cbn; [exact I|]. apply IH, H, I. Qed.

Lemma synced_watchElement h e w : tap_synced h w -> tap_synced h (watchElement e w).
Proof. destruct (watchElement_rest e w) as (C & _ & _ & T). apply synced_same; assumption. Qed.

Lemma synced_onMessage h m w :
  page_inv w -> tap_synced h w -> tap_synced h (fst (onMessage h m w)).
Proof.
  intros I Sy.
  assert (E : forall es w0, tap_synced h w0 -> tap_synced h (emit es w0)).
  { intros es w0. apply synced_same; reflexivity. }
  destruct (proj1 I) as (V & L & F).
  destruct m; cbn [onMessage fst]; [apply synced_start; assumption|..];
    apply E, synced__applyAll, pg_inv_start, pg_inv_set_settings;
    first [exact I | exact V | exact L | exact F | apply clamp_range; lra
          | apply length_stored_eq | apply stored_eq_ok].
Qed.

Lemma synced_step h w e : page_inv w -> tap_synced h w -> tap_synced h (step h w e).
Proof.
  intros I Sy. destruct e; cbn [step].
  - apply synced_onMessage; assumption.
  - unfold storage_loaded, setVolumePercent. apply synced__applyAll, pg_inv_start.
    match goal with
    | |- page_inv (set_ctl _ ?x) =>
        assert (IX : page_inv x);
        [|destruct (proj1 IX) as (V & L & F);
          apply pg_inv_set_settings; [apply clamp_range; lra|exact L|exact F|exact IX]]
    end.
    apply pg_inv_setMuted, pg_inv_setEqDb, pg_inv_setMode.
    match goal with
    | |- page_inv (if _ then install h ?w2 else _) => assert (I2 : page_inv w2)
    end.
    { apply (pg_inv_set_experimental (truthy data_experimental)).
      apply (pg_inv_set_flags (truthy data_experimental) (_observer (ctl w))
               (_started (ctl w)) w I). }
    destruct (IS_SPOTIFY h && truthy data_experimental); [apply pg_inv_install|]; exact I2.
  - unfold experimental_changed. apply synced__applyAll, pg_inv_start.
    match goal with
    | |- page_inv (if _ then install h ?w2 else _) => assert (I2 : page_inv w2)
    end.
    { apply (pg_inv_set_experimental (truthy newValue)).
      apply (pg_inv_set_flags (truthy newValue) (_observer (ctl w)) (_started (ctl w)) w I). }
    destruct (IS_SPOTIFY h && truthy newValue); [apply pg_inv_install|]; exact I2.
  - destruct (_observer (ctl w)); [|exact Sy]. revert Sy. apply synced_fold.
    intros w0 [e|els] S0; cbn [observe_added]; [apply synced_hook_element; exact S0|].
    revert S0. unfold hook_scan. apply synced_fold. intros. apply synced_hook_element.
    assumption.
  - destruct (_observer (ctl w)); [apply synced_hook_element|]; exact Sy.
  - unfold retry. apply synced_hook_element. revert Sy. apply synced_same; reflexivity.
  - unfold element_encrypted. destruct (bool_decide _); [|exact Sy].
    revert Sy. apply synced_same; reflexivity.
  - unfold document_encrypted. destruct (IS_SPOTIFY h); [|exact Sy].
    revert Sy. apply synced_same; reflexivity.
  - destruct (IS_SPOTIFY h); [|exact Sy]. revert Sy. unfold guard_scan.
    apply synced_fold. intros. apply synced_watchElement. assumption.
  - revert Sy. apply synced_same; reflexivity.
  - destruct (patched (stap w)); [|exact Sy]. revert Sy.
    apply synced_kept; try reflexivity. cbn.
    apply (TapReachFacts.patchedConnect_chain native_throws Tap.Spotify).
  - revert Sy. apply synced_same; reflexivity.
  - revert Sy. apply synced_same; reflexivity.
  - revert Sy. apply synced_same; reflexivity.
Qed.

Lemma reach h doc es :
  page_inv (run h es (loaded doc)) /\ tap_synced h (run h es (loaded doc)).
Proof.
  assert (G : forall w, page_inv w /\ tap_synced h w ->
                        page_inv (run h es w) /\ tap_synced h (run h es w)).
  { unfold run. induction es as [|e es IH]; intros w [I S]; cbn; [auto|].
    apply IH. split; [apply pg_inv_step|apply synced_step]; assumption. }
  apply G. split; [apply pg_inv_loaded|]. intros _ X. discriminate X.
Qed.

(** *** A bus nothing is bound to *)

Lemma fresh_same w w' : bus w' = bus w -> hook w' = hook w -> fresh_bus w -> fresh_bus w'.
Proof. unfold fresh_bus. intros -> ->. auto. Qed.

Lemma fresh_hook_element h e w : fresh_bus w -> fresh_bus (fst (hook_element h e w)).
Proof.
  intros J Z Wd. destruct (hook_element_values h e w) as (_ & _ & V & Le).
  destruct (_wired (bus w)) eqn:W0.
  - rewrite V. apply J; [lia|exact W0].
  - apply V, Wd.
Qed.

Lemma fresh_fold {A} (f : world -> A -> world) (l : list A) :
  (forall w a, fresh_bus w -> fresh_bus (f w a)) ->
  forall w, fresh_bus w -> fresh_bus (fold_left f l w).
Proof. intros H. induction l as [|a l IH]; intros w I; cbn; [exact I|]. apply IH, H, I. Qed.

Lemma fresh_hook_scan h els w : fresh_bus w -> fresh_bus (hook_scan h els w).
Proof. unfold hook_scan. apply fresh_fold. intros. apply fresh_hook_element. assumption. Qed.

Lemma bus__applyAll h w :
  hook (_applyAll h w) = hook w /\
  (hookedCount (hook w) = 0%nat -> bus (_applyAll h w) = bus w).
Proof.
  unfold _applyAll, basic_controls, tap_apply.
  destruct (IS_SPOTIFY h && negb (spotifyExperimental (ctl w))); [cbn; auto|].
  set (w1 := if IS_SPOTIFY h && spotifyExperimental (ctl w) then _ else w).
  assert (E1 : hook w1 = hook w /\ bus w1 = bus w).
  { subst w1. destruct (IS_SPOTIFY h && spotifyExperimental (ctl w)); cbn; auto. }
  destruct E1 as [H1 B1].
  destruct (IS_SPOTIFY h && spotifyExperimental (ctl w) && _); [auto|].
  destruct (hookedCount (hook w)) as [|n] eqn:Z.
  - cbn [Nat.eqb negb]. rewrite andb_false_r.
    destruct (tap_ready w); [cbn; auto|].
    destruct (location h); cbn; auto.
  - cbn [Nat.eqb negb]. rewrite andb_true_r. split; [|discriminate].
    unfold bus_setMode, bus_setEqDb, setGainLinear.
    destruct (_wired (bus w)) eqn:Wd.
    + rewrite B1, Wd. cbn. exact H1.
    + destruct (tap_ready w); [cbn; auto|]. destruct (location h); cbn; auto.
Qed.

Lemma fresh__applyAll h w : fresh_bus w -> fresh_bus (_applyAll h w).
Proof.
  intros J Z Wd. destruct (bus__applyAll h w) as [H B].
  rewrite H in Z. rewrite (B Z) in *. apply J; assumption.
Qed.

Lemma fresh_install h w : fresh_bus w -> fresh_bus (install h w).
Proof.
  apply fresh_same; unfold install; destruct (installed (stap w)); try reflexivity;
    destruct (negb (IS_SPOTIFY h)); try reflexivity; destruct (page_bridge h); reflexivity.
Qed.

Lemma fresh_start h w : fresh_bus w -> fresh_bus (start h w).
Proof.
  intros J. unfold start. destruct (_started (ctl w)); [exact J|].
  apply fresh__applyAll.
  destruct (negb (IS_SPOTIFY h)).
  - unfold _installMediaHooks. cbn [set_ctl ctl _observer].
    destruct (_observer (ctl w)); [exact J|].
    match goal with
    | |- fresh_bus (emit _ (set_ctl _ ?x)) => assert (JX : fresh_bus x)
    end.
    { apply fresh_hook_scan. exact J. }
    exact JX.
  - destruct (spotifyExperimental (ctl w)); [apply fresh_install|]; exact J.
Qed.

Lemma fresh_setter h c w :
  fresh_bus w -> fresh_bus (_applyAll h (start h (set_ctl c w))).
Proof. intros J. apply fresh__applyAll, fresh_start. exact J. Qed.

Lemma fresh_watchElement e w : fresh_bus w -> fresh_bus (watchElement e w).
Proof. destruct (watchElement_rest e w) as (_ & B & H & _). apply fresh_same; assumption. Qed.

Lemma fresh_step h w e : fresh_bus w -> fresh_bus (step h w e).
Proof.
  intros J. destruct e; cbn [step].
  - destruct m; cbn [onMessage fst];
      [apply fresh_start; exact J|..];
      (eapply fresh_same; [reflexivity|reflexivity|]); apply fresh_setter; exact J.
  - unfold storage_loaded, setVolumePercent, setMuted, setEqDb, setMode.
    repeat apply fresh_setter.
    destruct (IS_SPOTIFY h && truthy data_experimental); [apply fresh_install|]; exact J.
  - unfold experimental_changed. apply fresh__applyAll, fresh_start.
    destruct (IS_SPOTIFY h && truthy newValue); [apply fresh_install|]; exact J.
  - destruct (_observer (ctl w)); [|exact J]. revert J. apply fresh_fold.
    intros w0 [e|els] J0; cbn [observe_added];
      [apply fresh_hook_element|apply fresh_hook_scan]; exact J0.
  - destruct (_observer (ctl w)); [apply fresh_hook_element|]; exact J.
  - unfold retry. apply fresh_hook_element. exact J.
  - unfold element_encrypted. destruct (bool_decide _); exact J.
  - unfold document_encrypted. destruct (IS_SPOTIFY h); exact J.
  - destruct (IS_SPOTIFY h); [|exact J]. revert J. unfold guard_scan.
    apply fresh_fold. intros. apply fresh_watchElement. assumption.
  - exact J.
  - destruct (patched (stap w)); exact J.
  - exact J.
  - exact J.
  - exact J.
Qed.

Lemma fresh_run h doc es : fresh_bus (run h es (loaded doc)).
Proof.
  unfold run. apply fresh_fold; [intros; apply fresh_step; assumption|].
  intros _ W. discriminate W.
Qed.

(** *** What holds after any sequence of events *)

(** X9.  Whatever messages, storage contents, mutations and page events
    reach the content script after it was loaded: the stored volume stays
    within 0 and 800, the stored vector keeps ten bands within -24 and
    24 dB, a wired bus holds a gain within 0 and 8 and ten band gains
    within -24 and 24, and the same ranges hold inside the graph tap. *)
Theorem page_settings_stay_in_range :
  forall h doc es,
    ctl_ok (ctl (run h es (loaded doc))) /\
    bus_in_range (bus (run h es (loaded doc))) /\
    TapReach.bounded (graph (stap (run h es (loaded doc)))).
Proof.
  intros h doc es. destruct (reach h doc es) as [(C & B & _ & _ & _ & T) _].
  split; [exact C|]. split; [exact B|]. apply TapReachFacts.reach_inv_bounded, T.
Qed.

(** X10.  Everything the content script writes is in range, whatever
    reaches it: each volume it gives to a media element or to the player
    of the site lies between 0 and 1; each payload it posts to the page
    tap carries a volume within 0 and 800 and ten bands within -24 and 24;
    the volume and the vector it puts into the storage are within those
    ranges too. *)
Theorem page_writes_stay_in_range :
  forall h doc es, Forall effect_ok (effects (run h es (loaded doc))).
Proof. intros h doc es. apply (reach h doc es). Qed.

(** X11.  The counter [hookedCount], the map of bound sources and the
    inputs of the bus agree in every state the script reaches: as many
    entries as connected sources; and sources are only ever connected to a
    wired bus, so that [hooked > 0] in the reported state means that the
    WebAudio path is in use. *)
Theorem hooked_count_matches_graph :
  forall h doc es,
    hookedCount (hook (run h es (loaded doc)))
      = length (bus_inputs (bus (run h es (loaded doc)))) /\
    size (sources (hook (run h es (loaded doc))))
      = hookedCount (hook (run h es (loaded doc))) /\
    st_hooked (getState h (run h es (loaded doc)))
      = length (bus_inputs (bus (run h es (loaded doc)))) /\
    (st_hooked (getState h (run h es (loaded doc))) <> 0%nat ->
     _wired (bus (run h es (loaded doc))) = true).
Proof.
  intros h doc es. destruct (reach h doc es) as [(_ & _ & (N1 & N2 & N3) & _) _].
  split; [exact N1|]. split; [exact N2|]. split; [exact N1|].
  cbn [getState st_hooked]. intros Nz.
  destruct (_wired (bus (run h es (loaded doc)))) eqn:Wd; [reflexivity|].
  exfalso. apply Nz. rewrite N1, (N3 eq_refl). reflexivity.
Qed.

(** X12.  The guard adds its one-shot "encrypted" listener to an element
    at most once, however often the element is scanned, hooked or
    reported: exactly once to each element it watches, and never to an
    element it does not watch. *)
Theorem encrypted_listener_added_once :
  forall h doc es el,
    (encrypted_listeners el (effects (run h es (loaded doc))) <= 1)%nat /\
    (encrypted_listeners el (effects (run h es (loaded doc))) = 1%nat <->
     el ∈ watched (guard (run h es (loaded doc)))).
Proof.
  intros h doc es el. destruct (reach h doc es) as [(_ & _ & _ & _ & [W _] & _) _].
  rewrite (W el). destruct (decide (el ∈ watched (guard (run h es (loaded doc))))) as [H|H].
  - rewrite bool_decide_true by exact H. split; [lia|]. split; [intros _; exact H|reflexivity].
  - rewrite bool_decide_false by exact H. split; [lia|]. split; [discriminate|].
    intros H'. destruct (H H').
Qed.

Lemma Forall2_Qeq_trans (a b c : list Q) :
  Forall2 Qeq a b -> Forall2 Qeq b c -> Forall2 Qeq a c.
Proof.
  intros H. revert c. induction H as [|x y a b E _ IH]; intros c H'; inversion H'; subst.
  - constructor.
  - constructor; [etransitivity; eassumption|apply IH; assumption].
Qed.

(** X13.  On Spotify, while the experimental flag is set, every master
    chain of the graph tap carries the settings of the controller in every
    state the script reaches: its gain is the stored volume over 100 (0
    when muted), its filters hold the stored bands, its mode is the stored
    mode.  The settings travel from the controller through the payload and
    the tap's own clamping to the nodes without change. *)
Theorem spotify_graph_follows_controller h doc es ctx ch :
  IS_SPOTIFY h = true ->
  spotifyExperimental (ctl (run h es (loaded doc))) = true ->
  Tap.chains (graph (stap (run h es (loaded doc)))) !! ctx = Some ch ->
  follows (ctl (run h es (loaded doc))) ch.
Proof.
  intros S X H. destruct (reach h doc es) as [(_ & _ & _ & _ & _ & T) Sy].
  destruct (Sy S X) as (V & M & Md & Q).
  destruct (TapReachFacts.reach_inv_in_sync _ _ _ T H) as [_ (G & E & Mo)].
  unfold follows. rewrite G, M, Mo, Md. split; [|split; [|reflexivity]].
  - destruct (muted (ctl (run h es (loaded doc)))); [reflexivity|]. rewrite V. reflexivity.
  - eapply Forall2_Qeq_trans; eassumption.
Qed.

(** A bass setting at 120 % loaded from the storage, a player node that
    connects, then 250 % from the popup: the chain plays at gain 2.5. *)
Lemma spotify_session_example :
  exists ch,
    Tap.chains (graph (stap (run spotify_bridged spotify_session (loaded [])))) !! 1%nat
      = Some ch /\
    Tap.gain_value ch == 250 / 100 /\ Tap.mode_name ch = Tap.Bass.
Proof.
  eexists. split; [vm_compute; reflexivity|].
  destruct (spotify_graph_follows_controller spotify_bridged [] spotify_session 1%nat _
              eq_refl ltac:(vm_compute; reflexivity) ltac:(vm_compute; reflexivity))
    as (G & _ & M).
  split; [rewrite G|rewrite M]; vm_compute; reflexivity.
Defined.

Lemma hook_success_wired h e w :
  snd (hook_element h e w) = true -> _wired (bus (fst (hook_element h e w))) = true.
Proof.
  unfold hook_element. destruct (negb (is_media e)); [discriminate|].
  set (w1 := if IS_SPOTIFY h then watchElement e w else w).
  pose proof (ensure_wired h w1) as Wd.
  destruct (ensure h w1) as [w2 ok]. cbn [fst snd] in Wd.
  destruct ok; [|discriminate]. cbn [negb]. specialize (Wd eq_refl).
  destruct (bool_decide (is_Some (sources (hook w2) !! el_id e))); [intros _; exact Wd|].
  set (w3 := if negb (IS_SPOTIFY h) && negb (crossOrigin e)
             then emit [SetCrossOriginAnonymous (el_id e)] w2 else w2).
  assert (B3 : bus w3 = bus w2).
  { subst w3. destruct (negb (IS_SPOTIFY h) && negb (crossOrigin e)); reflexivity. }
  destruct (_makeSource e w3).
  - intros _. match goal with |- context [if ?c then _ else _] => destruct c end;
      cbn; rewrite B3; exact Wd.
  - destruct (bool_decide _); discriminate.
Qed.

(** X14.  Binding does not apply the settings.  When the first source is
    bound, in any state the script has reached, the bus it plays through
    is at unity gain with a flat equalizer in the default mode, whatever
    volume, bands and mode are stored; the stored settings are not
    touched.  (They reach the bus with the next call of a setter.) *)
Theorem first_source_meets_default_bus h doc es e :
  hookedCount (hook (run h es (loaded doc))) = 0%nat ->
  snd (hook_element h e (run h es (loaded doc))) = true ->
  bus_values (bus (fst (hook_element h e (run h es (loaded doc)))))
    = (1, replicate 10 0, Tap.Default) /\
  settings_of (ctl (fst (hook_element h e (run h es (loaded doc)))))
    = settings_of (ctl (run h es (loaded doc))).
Proof.
  intros Z Ok. set (w := run h es (loaded doc)) in *.
  destruct (hook_element_values h e w) as (C & _ & V & _).
  split; [|rewrite C; reflexivity].
  pose proof (hook_success_wired h e w Ok) as Wd.
  destruct (_wired (bus w)) eqn:W0.
  - rewrite V. apply (fresh_run h doc es); assumption.
  - apply V, Wd.
Qed.

(** 50 % in voice mode is stored, then a video is added: it is bound to
    a bus at gain 1 in the default mode, while 50 % and voice stay stored;
    only the next message from the popup brings the bus to gain 0.5. *)
Lemma late_media_example :
  bus_values (bus (fst (hook_element plain_host (both_ways 1)
                          (run plain_host stored_voice_50 (loaded [])))))
    = (1, replicate 10 0, Tap.Default) /\
  settings_of (ctl (fst (hook_element plain_host (both_ways 1)
                           (run plain_host stored_voice_50 (loaded [])))))
    = settings_of (ctl (run plain_host stored_voice_50 (loaded []))) /\
  mode (ctl (run plain_host late_media (loaded []))) = Tap.Voice /\
  volumePercent (ctl (run plain_host late_media (loaded []))) == 50 /\
  bus_gain (bus (run plain_host late_media (loaded []))) == 1 /\
  bus_gain (bus (run plain_host (late_media ++ [Message (SetVolume (VNumber (Fin 50)))])
                   (loaded []))) == 1 / 2.
Proof.
  destruct (first_source_meets_default_bus plain_host [] stored_voice_50 (both_ways 1)
              ltac:(vm_compute; reflexivity) ltac:(vm_compute; reflexivity))
    as [B S].
  split; [exact B|]. split; [exact S|].
  repeat split; vm_compute; reflexivity.
Defined.

(** X15.  What a message sets is what [getState] reports next, on every
    host and in every state: the volume clamped to 0..800, the mute flag,
    the mode ("default" for anything but "voice" and "bass"), the vector
    cut or padded to ten bands and clamped; and each message leaves the
    three settings it does not name as they were. *)
Theorem settings_round_trip :
  forall h m w,
    reported (snd (onMessage h GetState (fst (onMessage h m w))))
      = Some (after_message m (ctl w)).
Proof.
  intros h m w.
  assert (G : forall w1, reported (snd (onMessage h GetState w1)) = Some (settings_of (ctl w1))).
  { intros w1. cbn [onMessage snd reported getState st_volume st_muted st_mode st_eq].
    f_equal. apply settings_of_start. }
  rewrite G. f_equal.
  destruct m; cbn [onMessage fst after_message emit ctl];
    [apply settings_of_start|..];
    unfold setVolumePercent, setMuted, setMode, setEqDb;
    rewrite ctl__applyAll;
    match goal with
    | |- settings_of (ctl (start h ?x)) = _ =>
        rewrite (proj1 (settings_of_start h x))
    end; reflexivity.
Qed.

End PageReachFacts.

(** ** The YouTube script: messages and clean-up *)

Module YouTubeFacts.
Import JS Elements YouTube YouTubeMessages SourceFacts.
Local Open Scope Q_scope.

Lemma band_value_finite (g : list jsval) (i : nat) :
  Engine.finite_numbers g -> is_Some (band_value (g !! i)).
Proof.
  intros F. destruct (g !! i) as [v|] eqn:E; [|cbn; eauto].
  unfold Engine.finite_numbers in F. rewrite Forall_lookup in F. specialize (F _ _ E).
  destruct v as [| |b|[q| | |]|s]; cbn in *; eauto; discriminate.
Qed.

Lemma mapM_is_Some {A B} (f : A -> option B) (l : list A) :
  (forall x, is_Some (f x)) -> is_Some (mapM f l).
Proof.
  intros H. induction l as [|x l [r IH]]; cbn; [eauto|].
  destruct (H x) as [y ->]. cbn. rewrite IH. cbn. eauto.
Qed.

(** [applyEqFilters] does not throw when no stored entry is [NaN] or an
    infinity. *)
Lemma applyEqFilters_finite (g : list jsval) :
  Engine.finite_numbers g -> is_Some (applyEqFilters g).
Proof.
  intros F. unfold applyEqFilters. apply mapM_is_Some. intros i.
  apply band_value_finite. destruct (length g =? 10)%nat; [exact F|].
  apply Forall_replicate. reflexivity.
Qed.

Lemma finite_to_jsval (a : list json) : Engine.finite_numbers (map to_jsval a).
Proof.
  unfold Engine.finite_numbers. apply Forall_fmap, Forall_forall.
  intros [| |b|q|s] _; cbn; auto.
Qed.

Lemma applyEqFilters_json (gains : option (list json)) :
  is_Some (applyEqFilters
             (Tap.slice_pad10 (match gains with Some a => map to_jsval a | None => [] end))).
Proof.
  apply applyEqFilters_finite, EqFacts.finite_slice_pad10.
  destruct gains; [apply finite_to_jsval|constructor].
Qed.

Section Listener.
Variable pg : page.
Variable fl : flags.

Lemma ensureContext_shape (s : script) :
  let r := ensureContext pg s in
  currentVolume (fst r) = currentVolume s /\
  currentMode (fst r) = currentMode s /\
  eqGains (fst r) = eqGains s /\
  mediaMap (fst r) = mediaMap s /\
  hooked (fst r) = hooked s /\
  destination (fst r) = destination s /\
  (audioCtx s = true -> audioCtx (fst r) = true) /\
  (IS_YOUTUBE pg = true -> audioCtx s = true -> snd r = true).
Proof.
  cbv zeta. unfold ensureContext.
  destruct (IS_YOUTUBE pg); cbn [negb]; [|cbn; repeat split; auto; discriminate].
  destruct (audioCtx s) eqn:A; [cbn; repeat split; auto|].
  destruct (negb (AudioContextClass pg)); cbn; repeat split; auto; discriminate.
Qed.

Lemma chains_of_same (el : nat) (s s' : script) :
  destination s' = destination s -> chains_of el s' = chains_of el s.
Proof. unfold chains_of. intros ->. reflexivity. Qed.

Lemma volume_range (raw : Q) : 0 <= Qmax 0 (Qmin raw 800) / 100 <= 8.
Proof.
  destruct (Q.max_spec 0 (Qmin raw 800)) as [[? E]|[? E]];
    destruct (Q.min_spec raw 800) as [[? E']|[? E']];
    rewrite E, ?E' in *; split;
    first [apply Qle_shift_div_l; lra | apply Qle_shift_div_r; lra].
Qed.

Lemma direct_controls_ok (raw : Q) (doc : list nat) :
  Forall effect_ok (direct_controls pg fl raw doc).
Proof.
  unfold direct_controls.
  destruct (IS_BANDCAMP fl || IS_SOUNDCLOUD fl || negb (IS_YOUTUBE pg)); [|constructor].
  set (dp := Qmax 0 (Qmin raw 100)).
  assert (R : 0 <= dp <= 100).
  { subst dp. destruct (Q.max_spec 0 (Qmin raw 100)) as [[? E]|[? E]];
      destruct (Q.min_spec raw 100) as [[? E']|[? E']]; rewrite E, ?E' in *; lra. }
  destruct (Qeq_bool dp 0) eqn:Z.
  - induction doc as [|el doc IH]; cbn; [constructor|]. constructor; [exact I|exact IH].
  - assert (Nz : ~ dp == 0) by (apply Qeq_bool_neq; exact Z).
    induction doc as [|el doc IH]; cbn; [constructor|].
    constructor; [exact I|]. constructor; [|exact IH]. cbn. split.
    + apply Qlt_shift_div_l; lra.
    + apply Qle_shift_div_r; lra.
Qed.

Lemma ensure_ok (s : script) :
  script_ok pg s -> entries_follow s ->
  script_ok pg (fst (ensureContext pg s)) /\
  entries_follow (fst (ensureContext pg s)) /\
  (forall el, is_Some (mediaMap (fst (ensureContext pg s)) !! el) ->
     IS_YOUTUBE pg && snd (ensureContext pg s) = true).
Proof.
  intros (V0 & L0 & F0 & B0) Fo.
  destruct (ensureContext_shape s) as (V & M & G & Mp & H & D & A & C).
  split; [|split].
  - unfold script_ok. rewrite V, G, Mp.
    split; [exact V0|]. split; [exact L0|]. split; [exact F0|].
    intros el Hs. destruct (B0 el Hs) as (? & ? & ?).
    rewrite (chains_of_same el _ _ D). auto.
  - intros el en. rewrite Mp, V, M, G. apply Fo.
  - intros el. rewrite Mp. intros Hs. destruct (B0 el Hs) as (Y & A0 & _).
    rewrite Y, (C Y A0). reflexivity.
Qed.

(** A handler replaces settings and pushes them to every entry. *)
Lemma pushed (s1 : script) (ctx : bool) (f : entry -> entry)
    (vol : Q) (md : string) (arr : list jsval) :
  script_ok pg s1 -> entries_follow s1 ->
  (forall el, is_Some (mediaMap s1 !! el) -> IS_YOUTUBE pg && ctx = true) ->
  0 <= vol <= 8 -> length arr = 10%nat -> Engine.finite_numbers arr ->
  (forall en,
     entry_gain en = currentVolume s1 -> entry_mode en = currentMode s1 ->
     applyEqFilters (eqGains s1) = Some (entry_eq en) ->
     entry_gain (f en) = vol /\ entry_mode (f en) = md /\
     applyEqFilters arr = Some (entry_eq (f en))) ->
  script_ok pg (mkScript vol md arr (audioCtx s1)
                  (if IS_YOUTUBE pg && ctx then f <$> mediaMap s1 else mediaMap s1)
                  (hooked s1) (destination s1)) /\
  entries_follow (mkScript vol md arr (audioCtx s1)
                    (if IS_YOUTUBE pg && ctx then f <$> mediaMap s1 else mediaMap s1)
                    (hooked s1) (destination s1)).
Proof.
  intros (V0 & L0 & F0 & B0) Fo Y V L F P.
  assert (Back : forall el en,
             (if IS_YOUTUBE pg && ctx then f <$> mediaMap s1 else mediaMap s1) !! el = Some en ->
             exists en0, mediaMap s1 !! el = Some en0 /\ en = f en0).
  { intros el en H. destruct (IS_YOUTUBE pg && ctx) eqn:E.
    - rewrite lookup_fmap in H. destruct (mediaMap s1 !! el) as [en0|]; [|discriminate].
      cbn in H. injection H as <-. eauto.
    - specialize (Y el (mk_is_Some _ _ H)). discriminate Y. }
  split.
  - split; [exact V|]. split; [exact L|]. split; [exact F|].
    intros el [en H]. cbn [mediaMap audioCtx] in *.
    destruct (Back _ _ H) as (en0 & H0 & _). apply B0. eauto.
  - intros el en H. cbn [mediaMap currentVolume currentMode eqGains] in *.
    destruct (Back _ _ H) as (en0 & H0 & ->).
    destruct (Fo _ _ H0) as (G0 & M0 & E0). apply P; assumption.
Qed.

Lemma yt_inv_setVolume (v : json) (w : world) :
  listener_inv pg w -> listener_inv pg (setVolume pg fl v w).
Proof.
  intros (Ok & Fo & Ef). unfold setVolume.
  destruct (ensure_ok _ Ok Fo) as (Ok1 & Fo1 & Y).
  destruct (ensureContext pg (script_of w)) as [s1 ctx]. cbn [fst snd] in *.
  destruct (pushed s1 ctx
              (fun en => mkEntry (entry_source en) (Qmax 0 (Qmin (raw_volume v) 800) / 100)
                           (entry_mode en) (entry_eq en))
              (Qmax 0 (Qmin (raw_volume v) 800) / 100) (currentMode s1) (eqGains s1)
              Ok1 Fo1 Y (volume_range _)) as [Ok2 Fo2]; try apply Ok1.
  { intros en _ M E. cbn. auto. }
  split; [exact Ok2|]. split; [exact Fo2|].
  cbn [effects]. apply Forall_app. split; [exact Ef|apply direct_controls_ok].
Qed.

Lemma yt_inv_setMode (m : option string) (w : world) :
  listener_inv pg w -> listener_inv pg (setMode pg m w).
Proof.
  intros (Ok & Fo & Ef). unfold setMode.
  destruct (ensure_ok _ Ok Fo) as (Ok1 & Fo1 & Y).
  destruct (ensureContext pg (script_of w)) as [s1 ctx]. cbn [fst snd] in *.
  match goal with
  | |- listener_inv pg (mkWorld (mkScript _ ?md _ _ _ _ _) _ _) =>
      destruct (pushed s1 ctx
                  (fun en => mkEntry (entry_source en) (entry_gain en) md (entry_eq en))
                  (currentVolume s1) md (eqGains s1) Ok1 Fo1 Y) as [Ok2 Fo2];
      try apply Ok1
  end.
  { intros en G _ E. cbn. auto. }
  split; [exact Ok2|]. split; [exact Fo2|exact Ef].
Qed.

Lemma yt_inv_setEqGains (g : option (list json)) (w : world) :
  listener_inv pg w -> listener_inv pg (setEqGains pg g w).
Proof.
  intros (Ok & Fo & Ef). unfold setEqGains.
  destruct (ensure_ok _ Ok Fo) as (Ok1 & Fo1 & Y).
  destruct (ensureContext pg (script_of w)) as [s1 ctx]. cbn [fst snd] in *.
  destruct (applyEqFilters_json g) as [bands E]. rewrite E.
  destruct (pushed s1 ctx
              (fun en => mkEntry (entry_source en) (entry_gain en) (entry_mode en) bands)
              (currentVolume s1) (currentMode s1)
              (Tap.slice_pad10 (match g with Some a => map to_jsval a | None => [] end))
              Ok1 Fo1 Y) as [Ok2 Fo2]; try apply Ok1.
  { apply PageFacts.length_slice_pad10. }
  { apply EqFacts.finite_slice_pad10. destruct g; [apply finite_to_jsval|constructor]. }
  { intros en G M _. cbn. auto. }
  split; [exact Ok2|]. split; [exact Fo2|exact Ef].
Qed.

Lemma yt_inv_getState (w : world) :
  listener_inv pg w -> listener_inv pg (fst (getState pg w)).
Proof.
  intros (Ok & Fo & Ef). unfold getState.
  destruct (ensure_ok _ Ok Fo) as (Ok1 & Fo1 & _).
  destruct (ensureContext pg (script_of w)) as [s1 ctx]. cbn [fst snd] in *.
  split; [exact Ok1|]. split; [exact Fo1|exact Ef].
Qed.

Lemma ensureContext_true (s : script) :
  snd (ensureContext pg s) = true ->
  audioCtx (fst (ensureContext pg s)) = true /\ IS_YOUTUBE pg = true.
Proof.
  unfold ensureContext. destruct (IS_YOUTUBE pg); cbn [negb]; [|discriminate].
  destruct (audioCtx s) eqn:A; [cbn; auto|].
  destruct (negb (AudioContextClass pg)); cbn; [discriminate|auto].
Qed.

(** One call of [hookElementYouTube]: the settings stay; either the map
    and the graph stay too, or the element gets an entry that holds the
    stored settings and one more chain at the destination. *)
Lemma hook_cases (e : element) (s : script) :
  let s' := hookElementYouTube pg e s in
  currentVolume s' = currentVolume s /\
  currentMode s' = currentMode s /\
  eqGains s' = eqGains s /\
  (audioCtx s = true -> audioCtx s' = true) /\
  ((mediaMap s' = mediaMap s /\ hooked s' = hooked s /\ destination s' = destination s) \/
   (exists src bands,
       mediaMap s !! el_id e = None /\
       YouTube.makeSourceForElement e = Some src /\
       applyEqFilters (eqGains s) = Some bands /\
       IS_YOUTUBE pg = true /\ audioCtx s' = true /\
       mediaMap s' = <[el_id e := mkEntry src (currentVolume s) (currentMode s) bands]>
                       (mediaMap s) /\
       hooked s' = {[el_id e]} ∪ hooked s /\
       destination s' = destination s ++ [src])).
Proof.
  cbv zeta. unfold hookElementYouTube.
  destruct (negb (IS_YOUTUBE pg)); [repeat split; auto|].
  destruct (bool_decide (is_Some (mediaMap s !! el_id e))) eqn:B; [repeat split; auto|].
  destruct (bool_decide (el_id e ∈ hooked s)); [repeat split; auto|].
  destruct (ensureContext_shape s) as (V & M & G & Mp & H & D & A & C).
  pose proof (ensureContext_true s) as T.
  destruct (ensureContext pg s) as [s1 ctx]. cbn [fst snd] in *.
  destruct ctx; cbn [negb]; [|repeat split; auto].
  destruct (T eq_refl) as [A1 Y].
  destruct (YouTube.makeSourceForElement e) as [src|] eqn:S; [|repeat split; auto].
  destruct (applyEqFilters (eqGains s1)) as [bands|] eqn:E; [|repeat split; auto].
  cbn [currentVolume currentMode eqGains audioCtx mediaMap hooked destination].
  split; [exact V|]. split; [exact M|]. split; [exact G|]. split; [auto|].
  right. exists src, bands. rewrite <- G, E, V, M, Mp, H, D.
  apply bool_decide_eq_false in B.
  repeat split; auto.
  destruct (mediaMap s !! el_id e); [exfalso; apply B; eauto|reflexivity].
Qed.

Lemma chains_of_grow (el : nat) (s s' : script) (src : source) :
  destination s' = destination s ++ [src] -> (chains_of el s <= chains_of el s')%nat.
Proof. intros D. rewrite (chains_of_snoc el s s' src D). lia. Qed.

Lemma yt_inv_hook (e : element) (s : script) :
  script_ok pg s /\ entries_follow s ->
  script_ok pg (hookElementYouTube pg e s) /\ entries_follow (hookElementYouTube pg e s).
Proof.
  intros [(V0 & L0 & F0 & B0) Fo].
  destruct (hook_cases e s) as (V & M & G & A & [(Mp & _ & D)|Hk]).
  - split.
    + unfold script_ok. rewrite V, G, Mp.
      split; [exact V0|]. split; [exact L0|]. split; [exact F0|].
      intros el Hs. destruct (B0 el Hs) as (? & ? & ?).
      rewrite (chains_of_same el _ _ D). auto.
    + intros el en. rewrite Mp, V, M, G. apply Fo.
  - destruct Hk as (src & bands & N & S & E & Y & A1 & Mp & _ & D).
    split.
    + unfold script_ok. rewrite V, G, Mp.
      split; [exact V0|]. split; [exact L0|]. split; [exact F0|].
      intros el Hs. split; [exact Y|]. split; [exact A1|].
      destruct (decide (el_id e = el)) as [<-|Ne].
      * rewrite (chains_of_snoc _ s _ src D).
        apply youtube_source_element in S. rewrite S, bool_decide_true by reflexivity. lia.
      * rewrite lookup_insert_ne in Hs by exact Ne.
        destruct (B0 el Hs) as (_ & _ & N1).
        pose proof (chains_of_grow el s _ src D). lia.
    + intros el en. rewrite Mp, V, M, G.
      destruct (decide (el_id e = el)) as [<-|Ne].
      * rewrite lookup_insert_eq. intros [= <-]. cbn. auto.
      * rewrite lookup_insert_ne by exact Ne. apply Fo.
Qed.

Lemma yt_inv_scan (els : list element) (s : script) :
  script_ok pg s /\ entries_follow s ->
  script_ok pg (scanAndHook pg els s) /\ entries_follow (scanAndHook pg els s).
Proof.
  unfold scanAndHook. revert s. induction els as [|e els IH]; intros s I; cbn; [exact I|].
  apply IH, yt_inv_hook, I.
Qed.

Lemma yt_inv_cleanup (el : nat) (w : world) :
  listener_inv pg w -> listener_inv pg (cleanup el w).
Proof.
  intros ((V0 & L0 & F0 & B0) & Fo & Ef). unfold cleanup.
  split; [|split; [|exact Ef]].
  - split; [exact V0|]. split; [exact L0|]. split; [exact F0|].
    intros x [en H]. cbn [script_of mediaMap] in H.
    apply lookup_delete_Some in H. destruct H as [_ H].
    destruct (B0 x (mk_is_Some _ _ H)) as (? & ? & ?). auto.
  - intros x en H. cbn [script_of mediaMap] in H.
    apply lookup_delete_Some in H. destruct H as [_ H]. exact (Fo _ _ H).
Qed.

Lemma yt_inv_step (w : world) (e : event) :
  listener_inv pg w -> listener_inv pg (step pg fl w e).
Proof.
  intros I. destruct e as [els|el|[v|m|g|]|doc]; cbn [step].
  - destruct I as (Ok & Fo & Ef). destruct (yt_inv_scan els _ (conj Ok Fo)) as [Ok' Fo'].
    split; [exact Ok'|]. split; [exact Fo'|exact Ef].
  - apply yt_inv_cleanup, I.
  - apply yt_inv_setVolume, I.
  - apply yt_inv_setMode, I.
  - apply yt_inv_setEqGains, I.
  - apply yt_inv_getState, I.
  - exact I.
Qed.

Lemma yt_inv_run (es : list event) (w : world) :
  listener_inv pg w -> listener_inv pg (run pg fl es w).
Proof.
  unfold run. revert w. induction es as [|e es IH]; intros w I; cbn; [exact I|].
  apply IH, yt_inv_step, I.
Qed.

Lemma yt_inv_loaded (doc : list nat) : listener_inv pg (loaded doc).
Proof.
  split; [|split; [|constructor]].
  - split; [cbn; lra|]. split; [reflexivity|]. split.
    + apply Forall_replicate. reflexivity.
    + intros el [en H]. cbn in H. rewrite lookup_empty in H. discriminate H.
  - intros el en H. cbn in H. rewrite lookup_empty in H. discriminate H.
Qed.

End Listener.

(** X16.  In the YouTube script every chain that [mediaMap] holds carries
    the stored settings, whatever scans, messages and "ended" events have
    reached the script: its gain node holds [currentVolume], which lies
    between 0 and 8, its mode filter was set for [currentMode], and its ten
    filters hold the bands of [eqGains].  A chain built after the settings
    arrived starts with them; a chain built before follows every later
    message for as long as its element is in the map.  (A chain whose
    element was removed from the map by the clean-up stays connected and
    is not reached by later messages: nothing is said of it here.) *)
Theorem youtube_chains_follow_settings pg fl doc es el en :
  mediaMap (script_of (run pg fl es (loaded doc))) !! el = Some en ->
  entry_gain en = currentVolume (script_of (run pg fl es (loaded doc))) /\
  0 <= entry_gain en <= 8 /\
  entry_mode en = currentMode (script_of (run pg fl es (loaded doc))) /\
  applyEqFilters (eqGains (script_of (run pg fl es (loaded doc)))) = Some (entry_eq en).
Proof.
  intros H.
  destruct (yt_inv_run pg fl es (loaded doc) (yt_inv_loaded pg doc)) as ((V & _) & Fo & _).
  destruct (Fo _ _ H) as (G & M & E). rewrite G. auto.
Qed.

Lemma boosted_video_example :
  exists en,
    mediaMap (script_of (run youtube no_flags boosted_video (loaded [1%nat]))) !! 1%nat
      = Some en /\
    entry_gain en == 3 /\ entry_mode en = "bass"%string.
Proof.
  eexists. split; [vm_compute; reflexivity|].
  destruct (youtube_chains_follow_settings youtube no_flags [1%nat] boosted_video 1%nat _
              ltac:(vm_compute; reflexivity)) as (G & _ & M & _).
  split; [rewrite G|rewrite M]; vm_compute; reflexivity.
Defined.

(** X17.  The clean-up on "ended" or "emptied" forgets the element but
    disconnects nothing: the chain stays at the destination.  When the
    element is found again by a scan and can still be tapped, a second
    chain is built next to the first: the element then has at least two
    chains at the destination, of which the script knows one. *)
Theorem ended_then_scan_adds_a_chain pg fl doc es e :
  is_Some (mediaMap (script_of (run pg fl es (loaded doc))) !! el_id e) ->
  is_Some (YouTube.makeSourceForElement e) ->
  mediaMap (script_of (cleanup (el_id e) (run pg fl es (loaded doc)))) !! el_id e = None /\
  chains_of (el_id e) (script_of (cleanup (el_id e) (run pg fl es (loaded doc))))
    = chains_of (el_id e) (script_of (run pg fl es (loaded doc))) /\
  chains_of (el_id e)
      (script_of (run pg fl [Ended (el_id e); Scan [e]] (run pg fl es (loaded doc))))
    = S (chains_of (el_id e) (script_of (run pg fl es (loaded doc)))) /\
  (2 <= chains_of (el_id e)
          (script_of (run pg fl [Ended (el_id e); Scan [e]] (run pg fl es (loaded doc)))))%nat /\
  is_Some (mediaMap (script_of (run pg fl [Ended (el_id e); Scan [e]]
                                  (run pg fl es (loaded doc)))) !! el_id e).
Proof.
  intros B [src Hs].
  pose proof (yt_inv_run pg fl es (loaded doc) (yt_inv_loaded pg doc)) as I.
  set (w := run pg fl es (loaded doc)) in *.
  destruct I as ((V0 & L0 & F0 & B0) & Fo & Ef).
  destruct (B0 _ B) as (Y & A & N).
  destruct (applyEqFilters_finite _ F0) as [bands E].
  assert (Hk : hookElementYouTube pg e (script_of (cleanup (el_id e) w)) =
               mkScript (currentVolume (script_of w)) (currentMode (script_of w))
                 (eqGains (script_of w)) true
                 (<[el_id e := mkEntry src (currentVolume (script_of w))
                                  (currentMode (script_of w)) bands]>
                    (delete (el_id e) (mediaMap (script_of w))))
                 ({[el_id e]} ∪ hooked (script_of w) ∖ {[el_id e]})
                 (destination (script_of w) ++ [src])).
  { unfold hookElementYouTube, cleanup, ensureContext.
    cbn [script_of mediaMap hooked audioCtx eqGains currentVolume currentMode destination].
    rewrite Y, A. cbn [negb]. rewrite lookup_delete_eq.
    rewrite (bool_decide_false (is_Some None)) by (intros [? [=]]).
    rewrite bool_decide_false
      by (intros Hx; apply elem_of_difference in Hx; destruct Hx as [_ Hx];
          apply Hx, elem_of_singleton; reflexivity).
    cbn [negb eqGains]. rewrite Hs, E. reflexivity. }
  split; [cbn; apply lookup_delete_eq|]. split; [reflexivity|].
  cbn [run fold_left step scanAndHook script_of]. rewrite Hk.
  assert (C : chains_of (el_id e)
                (mkScript (currentVolume (script_of w)) (currentMode (script_of w))
                   (eqGains (script_of w)) true
                   (<[el_id e := mkEntry src (currentVolume (script_of w))
                                    (currentMode (script_of w)) bands]>
                      (delete (el_id e) (mediaMap (script_of w))))
                   ({[el_id e]} ∪ hooked (script_of w) ∖ {[el_id e]})
                   (destination (script_of w) ++ [src]))
              = S (chains_of (el_id e) (script_of w))).
  { erewrite (chains_of_snoc (el_id e) (script_of w) _ src); [|reflexivity].
    apply youtube_source_element in Hs. rewrite Hs, bool_decide_true by reflexivity. lia. }
  split; [exact C|]. split; [rewrite C; lia|].
  cbn [mediaMap]. rewrite lookup_insert_eq. eauto.
Qed.

(** A video on YouTube is bound, ends, and is found again by the next
    scan: two chains at the destination. *)
Lemma replayed_video_example :
  chains_of 1
    (script_of (run youtube no_flags [Ended 1%nat; Scan [both_ways 1]]
                  (run youtube no_flags [Scan [both_ways 1]] (loaded [1%nat])))) = 2%nat.
Proof.
  destruct (ended_then_scan_adds_a_chain youtube no_flags [1%nat] [Scan [both_ways 1]]
              (both_ways 1)
              ltac:(vm_compute; eauto) ltac:(vm_compute; eauto)) as (_ & _ & C & _).
  exact C.
Defined.

Lemma getState_reads pg (s : script) (doc : list nat) (es : list effect) :
  snd (getState pg (mkWorld s doc es)) = (currentVolume s * 100, currentMode s, eqGains s).
Proof.
  unfold getState. cbn [script_of].
  destruct (ensureContext_shape pg s) as (V & M & G & _).
  destruct (ensureContext pg s) as [s1 ctx]. cbn [fst snd] in *. rewrite V, M, G. reflexivity.
Qed.

Lemma clamp_800_cases (q : Q) :
  (0 <= q <= 800 -> Qmax 0 (Qmin q 800) == q) /\
  (q <= 0 -> Qmax 0 (Qmin q 800) == 0) /\
  (800 <= q -> Qmax 0 (Qmin q 800) == 800).
Proof.
  destruct (Q.max_spec 0 (Qmin q 800)) as [[? E]|[? E]];
    destruct (Q.min_spec q 800) as [[? E']|[? E']];
    rewrite E, ?E' in *; repeat split; intros; lra.
Qed.

Lemma applyEqFilters_numbers (qs : list Q) :
  length qs = 10%nat ->
  applyEqFilters (Tap.slice_pad10 (map to_jsval (map JNumber qs))) = Some qs.
Proof.
  intros L. do 11 (destruct qs as [|? qs]; try discriminate L). reflexivity.
Qed.

(** X18.  What the YouTube script answers to [getState] after a message.
    A volume message stores the gain [clamped / 100], where [clamped] is
    the percentage cut to 0..800 (100 for a volume that is not a number);
    the gain lies between 0 and 8, and the volume reported afterwards, the
    stored gain times 100, between 0 and 800; for a volume that is not a
    number it is 100.  The mode is the text that was sent, and "default"
    for an empty or missing one.  The equalizer vector is reported as it
    was sent, cut or padded to ten entries: this script does not clamp
    the bands, and the filters are given the numbers as they are. *)
Theorem youtube_state_after_message pg fl w :
  (forall v,
     currentVolume (script_of (setVolume pg fl v w))
       == Qmax 0 (Qmin (raw_volume v) 800) / 100 /\
     0 <= currentVolume (script_of (setVolume pg fl v w)) <= 8 /\
     fst (fst (snd (getState pg (setVolume pg fl v w))))
       = currentVolume (script_of (setVolume pg fl v w)) * 100 /\
     0 <= fst (fst (snd (getState pg (setVolume pg fl v w)))) <= 800) /\
  (forall v, (forall q, v <> JNumber q) ->
     fst (fst (snd (getState pg (setVolume pg fl v w)))) == 100) /\
  (forall m,
     snd (fst (snd (getState pg (setMode pg m w))))
       = match m with
         | Some t => if String.eqb t EmptyString then "default"%string else t
         | None => "default"%string
         end) /\
  (forall g,
     snd (snd (getState pg (setEqGains pg g w)))
       = Tap.slice_pad10 (match g with Some a => map to_jsval a | None => [] end)) /\
  (forall qs, length qs = 10%nat ->
     snd (snd (getState pg (setEqGains pg (Some (map JNumber qs)) w)))
       = map (fun q => VNumber (Fin q)) qs /\
     applyEqFilters (snd (snd (getState pg (setEqGains pg (Some (map JNumber qs)) w))))
       = Some qs).
Proof.
  assert (Cur : forall v,
             currentVolume (script_of (setVolume pg fl v w))
               = Qmax 0 (Qmin (raw_volume v) 800) / 100).
  { intros v. unfold setVolume. destruct (ensureContext pg (script_of w)) as [s1 ctx].
    reflexivity. }
  assert (Rep : forall v,
             fst (fst (snd (getState pg (setVolume pg fl v w))))
               = currentVolume (script_of (setVolume pg fl v w)) * 100).
  { intros v. destruct (setVolume pg fl v w) as [s doc es].
    rewrite getState_reads. reflexivity. }
  assert (Rng : forall v, 0 <= Qmax 0 (Qmin (raw_volume v) 800) <= 800).
  { intros v. split; [apply Q.le_max_l|].
    apply Q.max_lub; [lra|apply Q.le_min_r]. }
  assert (Eq : forall g,
             snd (snd (getState pg (setEqGains pg g w)))
               = Tap.slice_pad10 (match g with Some a => map to_jsval a | None => [] end)).
  { intros g. unfold setEqGains. destruct (ensureContext pg (script_of w)) as [s1 ctx].
    rewrite getState_reads. reflexivity. }
  split; [|split; [|split; [|split; [exact Eq|]]]].
  - intros v. pose proof (Rng v) as R. rewrite Rep, Cur.
    set (c := Qmax 0 (Qmin (raw_volume v) 800)) in *.
    split; [reflexivity|]. split; [|split; [reflexivity|]].
    + split; [apply Qle_shift_div_l; lra|apply Qle_shift_div_r; lra].
    + assert (E : c / 100 * 100 == c) by field. rewrite E. exact R.
  - intros v N. rewrite Rep, Cur.
    replace (raw_volume v) with 100 by (destruct v; try reflexivity; destruct (N q eq_refl)).
    reflexivity.
  - intros m. unfold setMode. destruct (ensureContext pg (script_of w)) as [s1 ctx].
    rewrite getState_reads. reflexivity.
  - intros qs L. rewrite Eq. split; [|apply applyEqFilters_numbers, L].
    unfold Tap.slice_pad10. rewrite take_ge by (rewrite !length_map; lia).
    rewrite !length_map, L. cbn [Nat.sub replicate]. rewrite app_nil_r, map_map. reflexivity.
Qed.

Lemma direct_controls_youtube pg fl raw doc :
  IS_YOUTUBE pg = true -> IS_BANDCAMP fl = false -> IS_SOUNDCLOUD fl = false ->
  direct_controls pg fl raw doc = [].
Proof. intros Y B S. unfold direct_controls. rewrite Y, B, S. reflexivity. Qed.

Lemma effects_step pg fl w e :
  effects (step pg fl w e) = effects w \/
  exists raw, effects (step pg fl w e) = effects w ++ direct_controls pg fl raw (document w).
Proof.
  destruct e as [els|el|[v|m|g|]|doc]; cbn [step]; try (left; reflexivity).
  - right. exists (raw_volume v). unfold setVolume.
    destruct (ensureContext pg (script_of w)); reflexivity.
  - left. unfold setMode. destruct (ensureContext pg (script_of w)); reflexivity.
  - left. unfold setEqGains. destruct (ensureContext pg (script_of w)); reflexivity.
  - left. unfold getState. destruct (ensureContext pg (script_of w)); reflexivity.
Qed.

(** X19.  What the Chrome content script does to the media elements
    themselves.  On YouTube it never touches their volume or mute flag:
    the gain nodes do the work.  Elsewhere a volume message sets every
    element of the document directly: muted when the percentage is 0 or
    less, and otherwise unmuted at the percentage over 100, cut to 1, so
    that every volume written lies above 0 and at most at 1 however large
    the percentage. *)
Theorem direct_control_stays_in_unit_range pg fl doc es :
  Forall effect_ok (effects (run pg fl es (loaded doc))) /\
  (IS_YOUTUBE pg = true -> IS_BANDCAMP fl = false -> IS_SOUNDCLOUD fl = false ->
   effects (run pg fl es (loaded doc)) = []).
Proof.
  split; [apply (yt_inv_run pg fl es (loaded doc) (yt_inv_loaded pg doc))|].
  intros Y B S.
  assert (G : forall w, effects w = [] -> effects (run pg fl es w) = []).
  { unfold run. induction es as [|e es IH]; intros w E; cbn; [exact E|].
    apply IH. destruct (effects_step pg fl w e) as [-> | [raw ->]]; [exact E|].
    rewrite E, direct_controls_youtube by assumption. reflexivity. }
  apply G. reflexivity.
Qed.

End YouTubeFacts.

(** ** The FireFox 1.1 content script *)

Module Firefox11Facts.
Import JS Elements GainCurve GainCurveFacts SourceFacts Firefox11Script.
Local Open Scope Q_scope.

Lemma source_of_element e s :
  Firefox11.makeSourceForElement e = Some s -> source_element s = el_id e.
Proof.
  rewrite firefox11_order. destruct (direct_attempt e) eqn:D.
  - intros [= <-]. eapply direct_attempt_element; eauto.
  - apply capture_attempt_element.
Qed.

(** The first line of the volume handler leaves a number in [[0, 800]]. *)
Lemma clamp_volume_fin (v : jsval) :
  exists p, clamp_volume v = Fin p /\ 0 <= p <= 800.
Proof.
  unfold clamp_volume, num_or.
  destruct (Number v) as [q| | |]; cbn [truthy_number].
  - destruct (negb (Qeq_bool q 0)); cbn [Math_min Math_max];
      eexists; (split; [reflexivity|]); apply clamp_bounds.
  - cbn. eexists. split; [reflexivity|]. apply (clamp_bounds 800).
  - cbn. eexists. split; [reflexivity|]. lra.
  - cbn. eexists. split; [reflexivity|]. apply (clamp_bounds 0).
Qed.

Lemma gain_is_finite (n : number) :
  exists q, mapVolumeToGain (VNumber n) = Fin q.
Proof. destruct (mapVolumeToGain_any (VNumber n)) as (p & _ & E). eauto. Qed.

(** The gain of a percentage in [[0, 800]] is the percentage over 100. *)
Lemma gain_of_percent (p q : Q) :
  0 <= p <= 800 -> mapVolumeToGain (VNumber (Fin p)) = Fin q -> q == p / 100.
Proof.
  intros R E. pose proof (gain_at_linear p) as L. unfold gain_at in L. rewrite E in L.
  rewrite L. destruct (clamp_cases p) as (_ & C & _). rewrite (C R). reflexivity.
Qed.

Lemma num_eq_refl (a : number) : num_eq a a.
Proof. destruct a; cbn; auto. reflexivity. Qed.

Lemma num_eq_sym (a b : number) : num_eq a b -> num_eq b a.
Proof. destruct a, b; cbn; auto. intros H. symmetry. exact H. Qed.

Lemma num_eq_trans (a b c : number) : num_eq a b -> num_eq b c -> num_eq a c.
Proof.
  destruct a, b, c; cbn; auto; try contradiction.
  intros H1 H2. rewrite H1. exact H2.
Qed.

Lemma ff11_chains_of_snoc (el : nat) (s s' : script) (src : source) :
  destination s' = destination s ++ [src] ->
  chains_of el s' =
    (chains_of el s + if bool_decide (source_element src = el) then 1 else 0)%nat.
Proof.
  intros D. unfold chains_of. rewrite D, filter_app, length_app. f_equal.
  destruct (decide (source_element src = el)) as [E|N].
  - rewrite filter_cons_True by exact E. rewrite bool_decide_true by exact E. reflexivity.
  - rewrite filter_cons_False by exact N. rewrite bool_decide_false by exact N. reflexivity.
Qed.

Section Script.
Variable avail : bool.

Lemma ff11_inv_attachMedia (e : element) (s : script) :
  script_inv s -> script_inv (attachMedia avail e s).
Proof.
  intros I. pose proof I as (P & G & C & N). unfold attachMedia.
  destruct (bool_decide (is_Some (audioElements s !! el_id e))) eqn:B; [exact I|].
  apply bool_decide_eq_false in B.
  destruct (negb (audioContext s || avail)); [exact I|].
  destruct (Firefox11.makeSourceForElement e) as [src|] eqn:S.
  - destruct (gain_is_finite (currentVolumePercent s)) as [q E]. rewrite E.
    split; [exact P|]. split; [cbn [currentGain currentVolumePercent]; rewrite E; apply num_eq_refl|].
    split.
    + intros el c. cbn [audioElements audioContext currentGain currentMode overdriveEnabled].
      destruct (decide (el_id e = el)) as [<-|Ne].
      * rewrite lookup_insert_eq. intros [= <-]. cbn. repeat split; reflexivity.
      * rewrite lookup_insert_ne by exact Ne. intros H.
        destruct (C _ _ H) as (_ & Gc & Fc & Cc).
        split; [reflexivity|]. split; [|auto].
        rewrite <- E. eapply num_eq_trans; eassumption.
    + intros el.
      erewrite (ff11_chains_of_snoc el s _ src); [|reflexivity].
      cbn [audioElements]. rewrite (N el), (source_of_element _ _ S).
      destruct (decide (el_id e = el)) as [<-|Ne].
      * rewrite lookup_insert_eq.
        rewrite (bool_decide_false _ B), !bool_decide_true by eauto. reflexivity.
      * rewrite lookup_insert_ne by exact Ne.
        rewrite (bool_decide_false (el_id e = el)) by exact Ne. lia.
  - split; [exact P|]. split; [exact G|]. split; [|exact N].
    intros el c H. destruct (C _ _ H) as (_ & ? & ? & ?). cbn. auto.
Qed.

Lemma ff11_inv_scanForMedia (els : list element) (s : script) :
  script_inv s -> script_inv (scanForMedia avail els s).
Proof.
  unfold scanForMedia. revert s. induction els as [|e els IH]; intros s I; cbn; [exact I|].
  apply IH, ff11_inv_attachMedia, I.
Qed.

Lemma filter_other (el x : nat) (l : list source) :
  x <> el ->
  filter (fun src => source_element src = x) (filter (fun src => source_element src <> el) l)
  = filter (fun src => source_element src = x) l.
Proof.
  intros Ne. induction l as [|a l IH]; [reflexivity|].
  destruct (decide (source_element a = el)) as [E|E].
  - rewrite (filter_cons_False (fun src => source_element src <> el)) by (intros H; apply H, E).
    rewrite IH. rewrite (filter_cons_False (fun src => source_element src = x)); [reflexivity|].
    congruence.
  - rewrite (filter_cons_True (fun src => source_element src <> el)) by exact E.
    destruct (decide (source_element a = x)) as [X|X].
    + rewrite !(filter_cons_True (fun src => source_element src = x)) by exact X.
      rewrite IH. reflexivity.
    + rewrite !(filter_cons_False (fun src => source_element src = x)) by exact X.
      exact IH.
Qed.

Lemma filter_self (el : nat) (l : list source) :
  filter (fun src => source_element src = el) (filter (fun src => source_element src <> el) l)
  = [].
Proof.
  induction l as [|a l IH]; [reflexivity|].
  destruct (decide (source_element a = el)) as [E|E].
  - rewrite (filter_cons_False (fun src => source_element src <> el)) by (intros H; apply H, E).
    exact IH.
  - rewrite (filter_cons_True (fun src => source_element src <> el)) by exact E.
    rewrite (filter_cons_False (fun src => source_element src = el)) by exact E. exact IH.
Qed.

Lemma ff11_inv_ended (el : nat) (s : script) : script_inv s -> script_inv (ended el s).
Proof.
  intros (P & G & C & N). unfold ended.
  split; [exact P|]. split; [exact G|]. split.
  - intros x c H. cbn [audioElements] in H. apply lookup_delete_Some in H.
    destruct H as [_ H]. exact (C _ _ H).
  - intros x. unfold chains_of. cbn [destination audioElements].
    destruct (decide (x = el)) as [->|Ne].
    + rewrite filter_self, lookup_delete_eq.
      rewrite bool_decide_false by (intros [? [=]]). reflexivity.
    + rewrite (filter_other el x) by exact Ne.
      rewrite lookup_delete_ne by congruence. apply N.
Qed.

(** A handler that replaces a setting and pushes it to every entry. *)
Lemma ff11_inv_push (s : script) (vp g : number) (md : jsval) (od : bool)
    (f : chain -> chain) :
  script_inv s ->
  (exists p, vp = Fin p /\ 0 <= p <= 800) ->
  num_eq g (mapVolumeToGain (VNumber vp)) ->
  (forall c, ch_source (f c) = ch_source c) ->
  (forall c,
     num_eq (Fin (ch_gain c)) (currentGain s) ->
     ch_filter c = setFilterForMode (currentMode s) ->
     ch_compressor c = applyOverdriveToCompressor (overdriveEnabled s) ->
     num_eq (Fin (ch_gain (f c))) g /\
     ch_filter (f c) = setFilterForMode md /\
     ch_compressor (f c) = applyOverdriveToCompressor od) ->
  script_inv (mkScript (audioContext s) vp g md od
                (if audioContext s then f <$> audioElements s else audioElements s)
                (destination s)).
Proof.
  intros (P & G & C & N) Pv Gv Src F.
  assert (Back : forall el c,
             (if audioContext s then f <$> audioElements s else audioElements s) !! el = Some c ->
             exists c0, audioElements s !! el = Some c0 /\ c = f c0).
  { intros el c H. destruct (audioContext s) eqn:A.
    - rewrite lookup_fmap in H. destruct (audioElements s !! el) as [c0|]; [|discriminate].
      cbn in H. injection H as <-. eauto.
    - destruct (C _ _ H) as (A' & _). congruence. }
  split; [exact Pv|]. split; [exact Gv|]. split.
  - intros el c H. cbn [audioElements audioContext currentGain currentMode overdriveEnabled] in *.
    destruct (Back _ _ H) as (c0 & H0 & ->).
    destruct (C _ _ H0) as (A & Gc & Fc & Cc). split; [exact A|]. apply F; assumption.
  - intros el. unfold chains_of. cbn [destination audioElements].
    change (chains_of el s = if bool_decide
              (is_Some ((if audioContext s then f <$> audioElements s else audioElements s) !! el))
            then 1%nat else 0%nat).
    rewrite (N el). destruct (audioContext s); [|reflexivity].
    rewrite lookup_fmap. destruct (audioElements s !! el); reflexivity.
Qed.

Lemma ff11_inv_setVolume (v : jsval) (s : script) : script_inv s -> script_inv (setVolume v s).
Proof.
  intros I. unfold setVolume. cbv zeta.
  destruct (gain_is_finite (clamp_volume v)) as [q E]. rewrite E.
  apply (ff11_inv_push s (clamp_volume v) (Fin q) (currentMode s) (overdriveEnabled s)
           (fun c => mkChain (ch_source c) (ch_filter c) (ch_compressor c) q) I).
  - apply clamp_volume_fin.
  - rewrite E. apply num_eq_refl.
  - reflexivity.
  - intros c _ Fc Cc. cbn. repeat split; auto.
Qed.

Lemma ff11_inv_setMode (m : jsval) (s : script) : script_inv s -> script_inv (setMode m s).
Proof.
  intros I. unfold setMode. cbv zeta. pose proof I as (P & G & _).
  apply (ff11_inv_push s (currentVolumePercent s) (currentGain s) _ (overdriveEnabled s)
           (fun c => mkChain (ch_source c)
                       (setFilterForMode (if truthy m then m else VString "default"))
                       (ch_compressor c) (ch_gain c)) I P G).
  - reflexivity.
  - intros c Gc _ Cc. cbn. auto.
Qed.

Lemma ff11_inv_setOverdrive (x : jsval) (s : script) :
  script_inv s -> script_inv (setOverdrive x s).
Proof.
  intros I. unfold setOverdrive. cbv zeta. pose proof I as (P & G & _).
  apply (ff11_inv_push s (currentVolumePercent s) (currentGain s) (currentMode s) (truthy x)
           (fun c => mkChain (ch_source c) (ch_filter c)
                       (applyOverdriveToCompressor (truthy x)) (ch_gain c)) I P G).
  - reflexivity.
  - intros c Gc Fc _. cbn. auto.
Qed.

Lemma ff11_inv_step (s : script) (e : event) : script_inv s -> script_inv (step avail s e).
Proof.
  intros I. destruct e as [els|el|[v|m|x]]; cbn [step].
  - apply ff11_inv_scanForMedia, I.
  - apply ff11_inv_ended, I.
  - apply ff11_inv_setVolume, I.
  - apply ff11_inv_setMode, I.
  - apply ff11_inv_setOverdrive, I.
Qed.

Lemma ff11_inv_run (es : list event) (s : script) : script_inv s -> script_inv (run avail es s).
Proof.
  unfold run. revert s. induction es as [|e es IH]; intros s I; cbn; [exact I|].
  apply IH, ff11_inv_step, I.
Qed.

End Script.

Lemma ff11_inv_initial : script_inv initial.
Proof.
  split; [exists 100; split; [reflexivity|lra]|]. split; [vm_compute; reflexivity|]. split.
  - intros el c H. cbn in H. rewrite lookup_empty in H. discriminate H.
  - intros el. unfold chains_of. cbn. rewrite lookup_empty.
    rewrite bool_decide_false by (intros [? [=]]). reflexivity.
Qed.

(** X20.  In the FireFox 1.1 content script an element never has two
    chains at the destination, and the clean-up releases what binding
    built: whatever scans, "ended" events and messages reach the script,
    an element has exactly one chain at the destination while
    [audioElements] has it and none otherwise; after its playback ended it
    has none, and a later scan gives it one again. *)
Theorem firefox11_one_chain_while_bound :
  forall avail es el,
    chains_of el (run avail es initial) =
      (if bool_decide (is_Some (audioElements (run avail es initial) !! el))
       then 1%nat else 0%nat) /\
    chains_of el (run avail (es ++ [Ended el]) initial) = 0%nat /\
    audioElements (run avail (es ++ [Ended el]) initial) !! el = None.
Proof.
  intros avail es el.
  destruct (ff11_inv_run avail es initial ff11_inv_initial) as (_ & _ & _ & N).
  split; [apply N|].
  destruct (ff11_inv_run avail (es ++ [Ended el]) initial ff11_inv_initial) as (_ & _ & _ & N').
  assert (D : audioElements (run avail (es ++ [Ended el]) initial) !! el = None).
  { unfold run. rewrite fold_left_app. cbn. apply lookup_delete_eq. }
  split; [|exact D]. rewrite (N' el), D.
  rewrite bool_decide_false by (intros [? [=]]). reflexivity.
Qed.

(** X21.  In the FireFox 1.1 content script every chain carries the stored
    settings at all times: the stored percentage is a number between 0 and
    800, the gain node of every bound element holds what [mapVolumeToGain]
    gives for that percentage (a gain between 0 and 8), its filter is the
    one of the stored mode and its compressor the one of the stored
    overdrive flag.  A chain built after the settings arrived starts with
    them. *)
Theorem firefox11_chains_follow_settings avail es el c :
  audioElements (run avail es initial) !! el = Some c ->
  exists p,
    currentVolumePercent (run avail es initial) = Fin p /\
    0 <= p <= 800 /\
    num_eq (Fin (ch_gain c)) (mapVolumeToGain (VNumber (Fin p))) /\
    0 <= ch_gain c <= 8 /\
    ch_filter c = setFilterForMode (currentMode (run avail es initial)) /\
    ch_compressor c = applyOverdriveToCompressor (overdriveEnabled (run avail es initial)).
Proof.
  intros H.
  destruct (ff11_inv_run avail es initial ff11_inv_initial) as ((p & Ep & R) & G & C & _).
  destruct (C _ _ H) as (_ & Gc & Fc & Cc).
  exists p. split; [exact Ep|]. split; [exact R|].
  rewrite Ep in G.
  assert (M : num_eq (Fin (ch_gain c)) (mapVolumeToGain (VNumber (Fin p))))
    by (eapply num_eq_trans; [exact Gc|exact G]).
  split; [exact M|]. split; [|auto].
  destruct (gain_is_finite (Fin p)) as [q Eq].
  pose proof (gain_of_percent p q R Eq) as Q.
  rewrite Eq in M. cbn in M. rewrite M, Q.
  split; [apply Qle_shift_div_l; lra|apply Qle_shift_div_r; lra].
Qed.

(** A video bound at 300 %, ended, found again, then switched to bass:
    one chain, at gain 3, with the low shelf of the bass mode. *)
Lemma replayed_example :
  chains_of 1 (run true replayed initial) = 1%nat /\
  exists c,
    audioElements (run true replayed initial) !! 1%nat = Some c /\
    ch_gain c == 3 /\ f_type (ch_filter c) = "lowshelf"%string.
Proof.
  split; [vm_compute; reflexivity|].
  eexists. split; [vm_compute; reflexivity|].
  destruct (firefox11_chains_follow_settings true replayed 1%nat _
              ltac:(vm_compute; reflexivity)) as (p & Ep & _ & G & _ & F & _).
  split; [|rewrite F; vm_compute; reflexivity].
  vm_compute. reflexivity.
Defined.

End Firefox11Facts.

(** ** The FireFox 1.1 page hook *)

Module InjectedHook11Facts.
Import JS GainCurve GainCurveFacts InjectedHook11.
Local Open Scope Q_scope.

Lemma count_calls_snoc c l x :
  count_calls c (l ++ [x]) = (count_calls c l + if bool_decide (x = c) then 1 else 0)%nat.
Proof.
  unfold count_calls. rewrite filter_app, length_app. f_equal.
  destruct (decide (x = c)) as [E|N].
  - rewrite filter_cons_True by exact E. rewrite bool_decide_true by exact E. reflexivity.
  - rewrite filter_cons_False by exact N. rewrite bool_decide_false by exact N. reflexivity.
Qed.

Lemma lookup_each_chain (f : chain -> chain) (w : hook) (d : nat) :
  chains (each_chain f w) !! d =
  (fun c => if bool_decide (d ∈ destinations w) then f c else c) <$> chains w !! d.
Proof.
  unfold each_chain. cbn [chains]. rewrite map_lookup_imap.
  destruct (chains w !! d); reflexivity.
Qed.

(** A command changes no call and no registration, and keeps the chains
    that exist. *)
Lemma onCommand_frame (c : command) (w : hook) :
  calls (onCommand c w) = calls w /\
  destinations (onCommand c w) = destinations w /\
  forall d, is_Some (chains (onCommand c w) !! d) <-> is_Some (chains w !! d).
Proof.
  assert (E : forall f, calls (each_chain f w) = calls w /\
                        destinations (each_chain f w) = destinations w /\
                        forall d, is_Some (chains (each_chain f w) !! d)
                                  <-> is_Some (chains w !! d)).
  { intros f. split; [reflexivity|]. split; [reflexivity|]. intros d.
    rewrite lookup_each_chain. apply fmap_is_Some. }
  destruct c; cbn [onCommand]; try apply E.
  destruct (mapVolumeToGain _); try apply E;
    (split; [reflexivity|split; [reflexivity|intros d; reflexivity]]).
Qed.

(** [ensureChain]: a chain that is there is returned and its destination
    registered; else the chain is built with its three connections, or one
    of them threw and nothing is recorded. *)
Lemma ensureChain_shape nt d w :
  match chains w !! d with
  | Some c =>
      ensureChain nt d w = (mkHook (chains w) ({[d]} ∪ destinations w) (calls w), Some c)
  | None =>
      ensureChain nt d w =
        (mkHook (<[d := fresh_chain]> (chains w)) ({[d]} ∪ destinations w)
                (calls w ++ chain_calls d), Some fresh_chain) \/
      ((exists k a b, nt k a b = true) /\
         snd (ensureChain nt d w) = None /\
         chains (fst (ensureChain nt d w)) = chains w /\
         destinations (fst (ensureChain nt d w)) = destinations w /\
         exists extra, calls (fst (ensureChain nt d w)) = calls w ++ extra /\
                       Forall (fun c => exists x y, c = (x, ToNode y) /\
                                 forall id, x <> PageNode id) extra)
  end.
Proof.
  unfold ensureChain, nativeConnect. destruct (chains w !! d) as [c|] eqn:E; [reflexivity|].
  cbn [fst snd chains destinations calls].
  destruct (nt (length (calls w)) _ _) eqn:T1.
  { right. split; [eauto|]. cbn [fst snd chains destinations calls].
    repeat split. eexists. split; [reflexivity|].
    repeat constructor; eexists; eexists; (split; [reflexivity|]); discriminate. }
  destruct (nt (length (calls w ++ _)) _ _) eqn:T2.
  { right. split; [eauto|]. cbn [fst snd chains destinations calls].
    repeat split. eexists. split; [rewrite <- app_assoc; reflexivity|].
    repeat constructor; eexists; eexists; (split; [reflexivity|]); discriminate. }
  destruct (nt (length ((calls w ++ _) ++ _)) _ _) eqn:T3.
  { right. split; [eauto|]. cbn [fst snd chains destinations calls].
    repeat split. eexists. split; [rewrite <- !app_assoc; reflexivity|].
    repeat constructor; eexists; eexists; (split; [reflexivity|]); discriminate. }
  left. cbn [fst snd chains destinations calls]. rewrite <- !app_assoc. reflexivity.
Qed.

Lemma registered_patchedConnect nt this dest w :
  registered w -> registered (fst (patchedConnect nt this dest w)).
Proof.
  intros R.
  assert (K : forall w' l, chains w' = chains w -> destinations w' = destinations w ->
                           registered (mkHook (chains w') (destinations w') l)).
  { intros w' l C D x. cbn [chains destinations]. rewrite C, D. apply R. }
  unfold patchedConnect.
  destruct dest as [[id|d|d|d|d]|id]; try (apply (K w); reflexivity).
  pose proof (ensureChain_shape nt d w) as S.
  destruct (chains w !! d) as [c|] eqn:E.
  - rewrite S. unfold nativeConnect. cbn [fst snd chains destinations calls].
    destruct (nt _ _ _); [destruct (nt _ _ _)|]; cbn [fst chains destinations];
      intros x Hx; cbn [chains destinations] in *; apply elem_of_union_r, R, Hx.
  - destruct S as [S|(_ & N & C & D & _)].
    + rewrite S. unfold nativeConnect. cbn [fst snd chains destinations calls].
      destruct (nt _ _ _); [destruct (nt _ _ _)|]; cbn [fst chains destinations];
        intros x Hx; cbn [chains destinations] in *;
        (destruct (decide (x = d)) as [->|Ne];
         [apply elem_of_union_l, elem_of_singleton; reflexivity
         |rewrite lookup_insert_ne in Hx by congruence; apply elem_of_union_r, R, Hx]).
    + destruct (ensureChain nt d w) as [w1 r]. cbn [fst snd] in *. subst r.
      unfold nativeConnect. cbn [fst]. apply K; assumption.
Qed.

Lemma registered_step nt w e : registered w -> registered (step nt w e).
Proof.
  intros R. destruct e as [this dest|m]; cbn [step].
  - apply registered_patchedConnect, R.
  - destruct (onCommand_frame (forward m) w) as (_ & D & C).
    intros d H. rewrite D. apply R, C, H.
Qed.

Lemma registered_run nt es w : registered w -> registered (run nt es w).
Proof.
  unfold run. revert w. induction es as [|e es IH]; intros w R; cbn; [exact R|].
  apply IH, registered_step, R.
Qed.

Lemma registered_initial : registered initial.
Proof. intros d [c H]. cbn in H. rewrite lookup_empty in H. discriminate H. Qed.

(** X22.  The page hook of the FireFox 1.1 script keeps no settings.  A
    volume message reaches the chains that exist: each of them gets what
    the hook's [mapVolumeToGain] gives for the percentage cut to 0..800, a
    gain between 0 and 8.  A chain that is built later, when a node of the
    page first connects to a destination, starts at unity gain with the
    filter of the default mode and the compressor switched off, whatever
    commands came before. *)
Theorem hook_commands_reach_existing_chains_only nt es :
  (forall v d c,
     chains (step nt (run nt es initial) (Popup (Firefox11Script.SetVolume v))) !! d
       = Some c ->
     exists p, Firefox11Script.clamp_volume v = Fin p /\ 0 <= p <= 800 /\
               num_eq (Fin (c_gain c)) (mapVolumeToGain (VNumber (Fin p))) /\
               0 <= c_gain c <= 8) /\
  (forall this d c,
     chains (run nt es initial) !! d = None ->
     chains (step nt (run nt es initial) (Connect this (AtDestination d))) !! d = Some c ->
     c = fresh_chain).
Proof.
  split.
  - intros v d c. cbn [step forward onCommand].
    destruct (Firefox11Facts.clamp_volume_fin v) as (p & Ep & R). rewrite Ep.
    assert (N : num_or (Number (VNumber (Fin p))) (Fin 0) = Fin p \/ p == 0 /\
                num_or (Number (VNumber (Fin p))) (Fin 0) = Fin 0).
    { unfold num_or. cbn [Number truthy_number].
      destruct (Qeq_bool p 0) eqn:Z; cbn [negb]; [right|left; reflexivity].
      split; [apply Qeq_bool_iff; exact Z|reflexivity]. }
    assert (G : exists q, mapVolumeToGain (VNumber (num_or (Number (VNumber (Fin p))) (Fin 0)))
                          = Fin q /\
                          num_eq (Fin q) (mapVolumeToGain (VNumber (Fin p))) /\
                          q == p / 100).
    { destruct (Firefox11Facts.gain_is_finite (Fin p)) as [q Eq].
      pose proof (Firefox11Facts.gain_of_percent p q R Eq) as Q.
      destruct N as [-> | [Z ->]].
      - exists q. split; [exact Eq|]. split; [|exact Q].
        rewrite Eq. apply Firefox11Facts.num_eq_refl.
      - exists 0. split; [vm_compute; reflexivity|]. rewrite Eq. cbn [num_eq].
        rewrite Q, Z. split; reflexivity. }
    destruct G as (q & -> & Mq & Eq).
    rewrite lookup_each_chain. intros H.
    destruct (chains (run nt es initial) !! d) as [c0|] eqn:E; [|discriminate H].
    cbn in H. rewrite bool_decide_true in H
      by (apply (registered_run nt es initial registered_initial); eauto).
    injection H as <-. exists p. split; [reflexivity|]. split; [exact R|].
    cbn [c_gain]. split; [exact Mq|]. rewrite Eq.
    split; [apply Qle_shift_div_l; lra|apply Qle_shift_div_r; lra].
  - intros this d c N. cbn [step to_target patchedConnect].
    pose proof (ensureChain_shape nt d (run nt es initial)) as S. rewrite N in S.
    destruct S as [S|(_ & Nn & C & _)].
    + rewrite S. unfold nativeConnect. cbn [fst snd chains destinations calls].
      destruct (nt _ _ _); [destruct (nt _ _ _)|]; cbn [fst chains];
        rewrite lookup_insert_eq; intros [= <-]; reflexivity.
    + destruct (ensureChain nt d (run nt es initial)) as [w1 r]. cbn [fst snd] in *. subst r.
      unfold nativeConnect. cbn [fst chains]. rewrite C, N. discriminate.
Qed.

(** 300 % first, the connection after: the chain is there, at gain 1. *)
Lemma volume_then_connect_example :
  chains (step never_throws
            (run never_throws [Popup (Firefox11Script.SetVolume (VNumber (Fin 300)))] initial)
            (Connect 1 (AtDestination 1))) !! 1%nat = Some fresh_chain /\
  c_gain fresh_chain == 1.
Proof.
  split; [|reflexivity].
  destruct (hook_commands_reach_existing_chains_only never_throws
              [Popup (Firefox11Script.SetVolume (VNumber (Fin 300)))]) as [_ F].
  assert (H : exists c,
             chains (step never_throws
                       (run never_throws
                          [Popup (Firefox11Script.SetVolume (VNumber (Fin 300)))] initial)
                       (Connect 1 (AtDestination 1))) !! 1%nat = Some c).
  { eexists. vm_compute. reflexivity. }
  destruct H as [c Hc]. rewrite Hc. f_equal.
  apply (F 1%nat 1%nat c); [vm_compute; reflexivity|exact Hc].
Defined.

Lemma hook11_count_calls_app c l1 l2 :
  count_calls c (l1 ++ l2) = (count_calls c l1 + count_calls c l2)%nat.
Proof. unfold count_calls. rewrite filter_app, length_app. reflexivity. Qed.

Lemma count_chain_calls d d' :
  count_calls (output_call d') (chain_calls d) = if bool_decide (d = d') then 1%nat else 0%nat.
Proof.
  unfold count_calls, chain_calls, output_call.
  rewrite filter_cons_False by discriminate. rewrite filter_cons_False by discriminate.
  destruct (decide (d = d')) as [->|Ne].
  - rewrite filter_cons_True by reflexivity. rewrite bool_decide_true by reflexivity. reflexivity.
  - rewrite filter_cons_False by congruence. rewrite bool_decide_false by exact Ne. reflexivity.
Qed.

Lemma count_page_call d this t :
  count_calls (output_call d) [(PageNode this, t)] = 0%nat.
Proof. unfold count_calls. rewrite filter_cons_False by discriminate. reflexivity. Qed.

Ltac not_direct :=
  let id := fresh "id" in
  let d := fresh "d" in
  let E := fresh "E" in
  intros (id & d & E); discriminate E.

Lemma routed_patchedConnect nt this dest w :
  (forall k a b, nt k a b = false) ->
  routed w ->
  routed (fst (patchedConnect nt (PageNode this) (to_target dest) w)).
Proof.
  intros Nt (Cn & Rg & Dr).
  assert (Other : forall t, (forall d, t <> ToNode (DestinationNode d)) ->
            routed (mkHook (chains w) (destinations w) (calls w ++ [(PageNode this, t)]))).
  { intros t Ht. split; [|split].
    - intros d. cbn [calls chains]. rewrite hook11_count_calls_app, count_page_call, Nat.add_0_r.
      apply Cn.
    - exact Rg.
    - cbn [calls]. apply Forall_app. split; [exact Dr|]. constructor; [|constructor].
      intros (id & d & E). injection E as _ E. exact (Ht d E). }
  destruct dest as [id|d|id]; cbn [to_target patchedConnect].
  - unfold nativeConnect. cbn [fst]. apply Other. discriminate.
  - pose proof (ensureChain_shape nt d w) as S.
    destruct (chains w !! d) as [c|] eqn:E.
    + rewrite S. unfold nativeConnect. cbn [fst snd chains destinations calls].
      rewrite Nt. cbn [fst]. split; [|split].
      * intros d'. cbn [calls chains]. rewrite hook11_count_calls_app, count_page_call, Nat.add_0_r.
        apply Cn.
      * intros x Hx. cbn [chains destinations] in *. apply elem_of_union_r, Rg, Hx.
      * cbn [calls]. apply Forall_app. split; [exact Dr|]. constructor; [|constructor].
        not_direct.
    + destruct S as [S|([k [a [b T]]] & _)]; [|rewrite Nt in T; discriminate T].
      rewrite S. unfold nativeConnect. cbn [fst snd chains destinations calls].
      rewrite Nt. cbn [fst]. split; [|split].
      * intros d'. cbn [calls chains].
        rewrite !hook11_count_calls_app, count_page_call, Nat.add_0_r, count_chain_calls, (Cn d').
        destruct (decide (d = d')) as [<-|Ne].
        -- rewrite lookup_insert_eq, E.
           rewrite (bool_decide_false (is_Some None)) by (intros [? [=]]).
           rewrite !bool_decide_true by eauto. reflexivity.
        -- rewrite lookup_insert_ne by exact Ne.
           rewrite (bool_decide_false (d = d')) by exact Ne. lia.
      * intros x Hx. cbn [chains destinations] in *.
        destruct (decide (x = d)) as [->|Ne];
          [apply elem_of_union_l, elem_of_singleton; reflexivity|].
        rewrite lookup_insert_ne in Hx by congruence. apply elem_of_union_r, Rg, Hx.
      * cbn [calls]. rewrite !Forall_app. split; [split; [exact Dr|]|].
        -- unfold chain_calls, output_call. repeat constructor; not_direct.
        -- constructor; [not_direct|constructor].
  - unfold nativeConnect. cbn [fst]. apply Other. discriminate.
Qed.

Lemma routed_step nt w e :
  (forall k a b, nt k a b = false) -> routed w -> routed (step nt w e).
Proof.
  intros Nt R. destruct e as [this dest|m]; cbn [step].
  - apply routed_patchedConnect; assumption.
  - destruct R as (Cn & Rg & Dr).
    destruct (onCommand_frame (forward m) w) as (C & D & S).
    split; [|split].
    + intros d. rewrite C, (Cn d).
      destruct (decide (is_Some (chains w !! d))) as [H|H].
      * rewrite (bool_decide_true _ H), bool_decide_true by (apply S, H). reflexivity.
      * rewrite (bool_decide_false _ H), bool_decide_false; [reflexivity|].
        intros H'. apply H, S, H'.
    + intros d H. rewrite D. apply Rg, S, H.
    + rewrite C. exact Dr.
Qed.

(** X23.  The page hook of the FireFox 1.1 script, with a native
    [connect] that does not throw: whatever the page connects and whatever
    commands arrive, every destination a page node has connected to has
    its chain, fed into the destination by exactly one connection however
    many nodes were routed into it; a destination without a chain has no
    such connection; and no page node is ever connected straight to a
    destination. *)
Theorem injected_hook_routes_every_connection nt es :
  (forall k a b, nt k a b = false) ->
  routed (run nt es initial).
Proof.
  intros Nt.
  assert (G : forall w, routed w -> routed (run nt es w)).
  { unfold run. induction es as [|e es IH]; intros w R; cbn; [exact R|].
    apply IH, routed_step; assumption. }
  apply G. split; [|split].
  - intros d. cbn. rewrite lookup_empty.
    rewrite bool_decide_false by (intros [? [=]]). reflexivity.
  - intros d [c H]. cbn in H. rewrite lookup_empty in H. discriminate H.
  - constructor.
Qed.

Lemma busy_page_example :
  routed (run never_throws busy_page initial) /\
  count_calls (output_call 1) (calls (run never_throws busy_page initial)) = 1%nat.
Proof.
  pose proof (injected_hook_routes_every_connection never_throws busy_page
                ltac:(intros k a b; reflexivity)) as R.
  split; [exact R|]. vm_compute. reflexivity.
Defined.

End InjectedHook11Facts.

(** ** The popup *)

Module PopupFacts.
Import JS Popup.
Local Open Scope Q_scope.

Lemma maxVolume_cases (p : popup) :
  maxVolume p = 100 \/ maxVolume p = 600 \/ maxVolume p = 800.
Proof. unfold maxVolume. destruct (pageCanBoost p), (overdrive p); cbn; auto. Qed.

Lemma maxVolume_range (p : popup) : 100 <= maxVolume p <= 800.
Proof. destruct (maxVolume_cases p) as [-> | [-> | ->]]; lra. Qed.

(** [Math.max(0, Math.min(raw, limit))] is a number between 0 and the
    limit unless [raw] is [NaN]. *)
Lemma within_fin (raw : number) (limit : Q) :
  raw <> NaN -> 0 <= limit -> in_limit limit (within raw limit).
Proof.
  intros N L. unfold within. destruct raw as [q| | |]; cbn [Math_min Math_max].
  - eexists. split; [reflexivity|].
    destruct (Q.max_spec 0 (Qmin q limit)) as [[? E]|[? E]];
      destruct (Q.min_spec q limit) as [[? E']|[? E']]; rewrite E, ?E' in *; lra.
  - eexists. split; [reflexivity|].
    destruct (Q.max_spec 0 limit) as [[? E]|[? E]]; rewrite E; lra.
  - eexists. split; [reflexivity|]. lra.
  - destruct (N eq_refl).
Qed.

Lemma num_or_not_nan (v : number) : num_or v (Fin 0) <> NaN.
Proof. unfold num_or. destruct v; cbn; try discriminate. destruct (negb _); discriminate. Qed.

Lemma strict_eq_refl_fin (v : number) (limit : Q) : in_limit limit v -> strict_eq v v = true.
Proof. intros (q & -> & _). cbn. apply Qeq_bool_iff. reflexivity. Qed.

Lemma adjacent_distinct_snoc (l : list number) (v : number) :
  adjacent_distinct l ->
  (forall a, last l = Some a -> strict_eq a v = false) ->
  adjacent_distinct (l ++ [v]).
Proof.
  induction l as [|a l IH]; intros A L; [exact I|].
  destruct l as [|b r].
  - cbn. split; [apply L; reflexivity|exact I].
  - destruct A as [Ab Ar]. change (strict_eq a b = false /\ adjacent_distinct ((b :: r) ++ [v])).
    split; [exact Ab|]. apply IH; [exact Ar|]. intros x Hx. apply L. exact Hx.
Qed.

Lemma volumes_snoc_volume l v : volumes (l ++ [SetVolumeMsg v]) = volumes l ++ [v].
Proof. unfold volumes. rewrite omap_app. reflexivity. Qed.

Lemma volumes_snoc_eq l g : volumes (l ++ [SetEqGainsMsg g]) = volumes l.
Proof. unfold volumes. rewrite omap_app. cbn. apply app_nil_r. Qed.

Lemma flags_sendToTab m p :
  currentTabId (sendToTab m p) = currentTabId p /\
  pageCanBoost (sendToTab m p) = pageCanBoost p /\
  overdrive (sendToTab m p) = overdrive p /\
  lastSentVolume (sendToTab m p) = lastSentVolume p /\
  slider (sendToTab m p) = slider p.
Proof. unfold sendToTab. destruct (has_tab p); repeat split. Qed.

Lemma sending_intro (p p' : popup) :
  currentTabId p' = currentTabId p ->
  pageCanBoost p' = pageCanBoost p ->
  overdrive p' = overdrive p ->
  Forall (in_limit (maxVolume p)) (volumes (sent p')) ->
  adjacent_distinct (volumes (sent p')) ->
  (has_tab p = true -> lastSentVolume p' = last (volumes (sent p'))) ->
  (has_tab p = false -> sent p' = []) ->
  sending_inv p'.
Proof.
  intros T B O F A L N. unfold sending_inv, maxVolume, has_tab in *.
  rewrite T, B, O. auto.
Qed.

(** [applyVolume] on a value within the limit. *)
Lemma popup_inv_applyVolume (v : number) (p : popup) :
  in_limit (maxVolume p) v -> sending_inv p -> sending_inv (applyVolume v p).
Proof.
  intros Hv (F & A & T & N). unfold applyVolume.
  pose proof (maxVolume_range p) as R.
  assert (Hw : in_limit (maxVolume p) (within v (maxVolume p))).
  { apply within_fin; [|lra]. destruct Hv as (q & -> & _). discriminate. }
  set (value := within v (maxVolume p)) in *.
  destruct (match lastSentVolume p with Some l => strict_eq l value | None => false end) eqn:D.
  { split; [exact F|]. split; [exact A|]. split; assumption. }
  unfold sendToTab.
  replace (has_tab (mkPopup (currentTabId p) (pageCanBoost p) (overdrive p) (effectsEnabled p)
                      (slider p) (Some value) (eqGains p) (eqPreset p) (sent p)))
    with (has_tab p) by reflexivity.
  destruct (has_tab p) eqn:H.
  - apply (sending_intro p); try reflexivity; cbn [sent lastSentVolume];
      rewrite ?volumes_snoc_volume.
    + apply Forall_app. split; [exact F|]. constructor; [exact Hw|constructor].
    + apply adjacent_distinct_snoc; [exact A|].
      intros a La. rewrite <- (T eq_refl) in La. rewrite La in D. exact D.
    + intros _. rewrite last_snoc. reflexivity.
    + rewrite H. discriminate.
  - apply (sending_intro p); try reflexivity; cbn [sent lastSentVolume].
    + exact F.
    + exact A.
    + rewrite H. discriminate.
    + intros _. apply N. reflexivity.
Qed.

Lemma popup_inv_set_slider (v : number) (p : popup) :
  sending_inv p ->
  sending_inv (mkPopup (currentTabId p) (pageCanBoost p) (overdrive p) (effectsEnabled p) v
                 (lastSentVolume p) (eqGains p) (eqPreset p) (sent p)).
Proof. intros I. exact I. Qed.

Lemma popup_inv_setSlider (raw : number) (p : popup) :
  raw <> NaN -> sending_inv p -> sending_inv (setSlider raw p).
Proof.
  intros N I. unfold setSlider. pose proof (maxVolume_range p) as R.
  apply popup_inv_applyVolume; [|apply popup_inv_set_slider, I].
  replace (maxVolume (mkPopup (currentTabId p) (pageCanBoost p) (overdrive p)
                        (effectsEnabled p) (within raw (maxVolume p)) (lastSentVolume p)
                        (eqGains p) (eqPreset p) (sent p)))
    with (maxVolume p) by reflexivity.
  apply within_fin; [exact N|lra].
Qed.

Lemma popup_inv_step (p : popup) (e : event) : sending_inv p -> sending_inv (step p e).
Proof.
  intros I. destruct e as [v| | |name]; cbn [step].
  - unfold sliderInput. pose proof (maxVolume_range p) as R.
    apply popup_inv_applyVolume; [|apply popup_inv_set_slider, I].
    replace (maxVolume (mkPopup (currentTabId p) (pageCanBoost p) (overdrive p)
                          (effectsEnabled p) (within (num_or v (Fin 0)) (maxVolume p))
                          (lastSentVolume p) (eqGains p) (eqPreset p) (sent p)))
      with (maxVolume p) by reflexivity.
    apply within_fin; [apply num_or_not_nan|lra].
  - unfold muteClick. apply popup_inv_setSlider; [|exact I].
    destruct (strict_eq (slider p) (Fin 0)); discriminate.
  - apply popup_inv_setSlider; [discriminate|exact I].
  - unfold applyPreset. destruct (preset_of name EQ_PRESETS) as [preset|]; [|exact I].
    destruct I as (F & A & T & N).
    destruct (effectsEnabled p);
      [|apply (sending_intro p); try reflexivity; cbn [sent lastSentVolume]; assumption].
    unfold sendToTab.
    replace (has_tab (mkPopup (currentTabId p) (pageCanBoost p) (overdrive p) true
                        (slider p) (lastSentVolume p) (slice_pad preset) name (sent p)))
      with (has_tab p) by reflexivity.
    destruct (has_tab p) eqn:H.
    + apply (sending_intro p); try reflexivity; cbn [sent lastSentVolume];
        rewrite ?volumes_snoc_eq; try assumption.
      * intros _. apply T. reflexivity.
      * rewrite H. discriminate.
    + apply (sending_intro p); try reflexivity; cbn [sent lastSentVolume]; try assumption.
      * rewrite H. discriminate.
      * intros _. apply N. reflexivity.
Qed.

Lemma maxVolume_step (p : popup) (e : event) : maxVolume (step p e) = maxVolume p.
Proof.
  assert (A : forall v q, maxVolume (applyVolume v q) = maxVolume q).
  { intros v q. unfold applyVolume.
    destruct (lastSentVolume q) as [l|]; [destruct (strict_eq l _)|];
      try reflexivity; unfold sendToTab; destruct (has_tab _); reflexivity. }
  destruct e as [v| | |name]; cbn [step].
  - unfold sliderInput. rewrite A. reflexivity.
  - unfold muteClick, setSlider. rewrite A. reflexivity.
  - unfold resetClick, setSlider. rewrite A. reflexivity.
  - unfold applyPreset. destruct (preset_of name EQ_PRESETS); [|reflexivity].
    destruct (effectsEnabled p); [|reflexivity].
    unfold sendToTab. destruct (has_tab _); reflexivity.
Qed.

Lemma popup_inv_run (es : list event) (p : popup) :
  sending_inv p -> sending_inv (run es p) /\ maxVolume (run es p) = maxVolume p.
Proof.
  unfold run. revert p. induction es as [|e es IH]; intros p I; cbn; [auto|].
  destruct (IH (step p e) (popup_inv_step p e I)) as [I' M]. split; [exact I'|].
  rewrite M. apply maxVolume_step.
Qed.

(** X24.  The volumes the popup sends.  From a popup that has sent
    nothing yet, whatever the user does with the slider, the mute and
    reset buttons and the presets: every volume handed to the tab is a
    finite number between 0 and the limit of the page (100 when the page
    cannot boost, else 600, or 800 with overdrive), so never above 800;
    and no two volume messages in a row carry the same value. *)
Theorem popup_volumes_within_limit_without_repeats (p : popup) (es : list event) :
  sent p = [] -> lastSentVolume p = None ->
  Forall (in_limit (maxVolume p)) (volumes (sent (run es p))) /\
  maxVolume p <= 800 /\
  (pageCanBoost p = false -> Forall (in_limit 100) (volumes (sent (run es p)))) /\
  adjacent_distinct (volumes (sent (run es p))).
Proof.
  intros S L.
  assert (I : sending_inv p).
  { unfold sending_inv. rewrite S, L. cbn. repeat split; auto. }
  destruct (popup_inv_run es p I) as [(F & A & _) M]. rewrite M in F.
  split; [exact F|]. split; [apply maxVolume_range|]. split; [|exact A].
  intros B. revert F. unfold maxVolume. rewrite B. cbn. auto.
Qed.

(** 950 % asked for twice on a page that can boost with overdrive: 800
    is sent once; then 0, then 100 by the mute button. *)
Lemma session_example :
  volumes (sent (run session (opened 7 true true))) = [Fin 800; Fin 0; Fin 100; Fin 0] /\
  maxVolume (opened 7 true true) = 800 /\
  Forall (in_limit (maxVolume (opened 7 true true)))
         (volumes (sent (run session (opened 7 true true)))).
Proof.
  split; [vm_compute; reflexivity|]. split; [reflexivity|].
  destruct (popup_volumes_within_limit_without_repeats (opened 7 true true) session
              eq_refl eq_refl) as (F & _).
  exact F.
Defined.

Lemma strict_eq_trans (a b c : number) :
  strict_eq a b = true -> strict_eq b c = true -> strict_eq a c = true.
Proof.
  destruct a as [x| | |], b as [y| | |], c as [z| | |]; cbn; try discriminate; auto.
  intros H1 H2. apply Qeq_bool_iff. apply Qeq_bool_iff in H1, H2. rewrite H1. exact H2.
Qed.

Lemma setSlider_result (raw : number) (p : popup) :
  raw <> NaN ->
  slider (setSlider raw p) = within raw (maxVolume p) /\
  maxVolume (setSlider raw p) = maxVolume p /\
  exists l, lastSentVolume (setSlider raw p) = Some l /\
            strict_eq l (within raw (maxVolume p)) = true.
Proof.
  intros N. pose proof (maxVolume_range p) as R.
  assert (W : in_limit (maxVolume p) (within raw (maxVolume p))).
  { apply within_fin; [exact N|lra]. }
  assert (Idem : within (within raw (maxVolume p)) (maxVolume p) = within raw (maxVolume p)
                 \/ strict_eq (within (within raw (maxVolume p)) (maxVolume p))
                              (within raw (maxVolume p)) = true).
  { right. destruct W as (q & E & Rq). rewrite E. unfold within. cbn [Math_min Math_max strict_eq].
    apply Qeq_bool_iff.
    destruct (Q.max_spec 0 (Qmin q (maxVolume p))) as [[? E1]|[? E1]];
      destruct (Q.min_spec q (maxVolume p)) as [[? E2]|[? E2]]; rewrite E1, ?E2 in *; lra. }
  unfold setSlider, applyVolume.
  replace (maxVolume (mkPopup (currentTabId p) (pageCanBoost p) (overdrive p)
                        (effectsEnabled p) (within raw (maxVolume p)) (lastSentVolume p)
                        (eqGains p) (eqPreset p) (sent p)))
    with (maxVolume p) by reflexivity.
  cbn [lastSentVolume].
  set (v1 := within raw (maxVolume p)) in *. set (v2 := within v1 (maxVolume p)) in *.
  assert (E21 : strict_eq v2 v1 = true).
  { destruct Idem as [-> | H]; [|exact H]. eapply strict_eq_refl_fin; exact W. }
  destruct (match lastSentVolume p with Some l => strict_eq l v2 | None => false end) eqn:D.
  - cbn [slider]. split; [reflexivity|]. split; [reflexivity|].
    destruct (lastSentVolume p) as [l|]; [|discriminate D]. exists l. split; [reflexivity|].
    eapply strict_eq_trans; [exact D|exact E21].
  - unfold sendToTab. destruct (has_tab _); cbn [slider lastSentVolume];
      (split; [reflexivity|]); (split; [reflexivity|]); exists v2; auto.
Qed.

Lemma within_literal (p : popup) :
  within (Fin 0) (maxVolume p) = Fin 0 /\ within (Fin 100) (maxVolume p) = Fin 100.
Proof. destruct (maxVolume_cases p) as [-> | [-> | ->]]; split; reflexivity. Qed.

(** X25.  The mute button of the popup does not use the mute flag: it
    sends volume 0, and a second click sends 100.  Whatever the volume was
    before the first click, after muting and unmuting the slider stands at
    100 % and 100 % is the volume last applied to the tab: the earlier
    volume is not restored. *)
Theorem mute_button_returns_to_100 (p : popup) :
  strict_eq (slider p) (Fin 0) = false ->
  slider (muteClick p) = Fin 0 /\
  slider (muteClick (muteClick p)) = Fin 100 /\
  exists l, lastSentVolume (muteClick (muteClick p)) = Some l /\
            strict_eq l (Fin 100) = true.
Proof.
  intros Nz.
  assert (S1 : slider (muteClick p) = Fin 0).
  { unfold muteClick. rewrite Nz.
    destruct (setSlider_result (Fin 0) p ltac:(discriminate)) as (-> & _).
    apply within_literal. }
  split; [exact S1|].
  assert (M1 : maxVolume (muteClick p) = maxVolume p).
  { unfold muteClick. rewrite Nz. apply setSlider_result. discriminate. }
  unfold muteClick at 1 3. rewrite S1.
  replace (strict_eq (Fin 0) (Fin 0)) with true by reflexivity.
  destruct (setSlider_result (Fin 100) (muteClick p) ltac:(discriminate)) as (Sl & _ & l & L & E).
  rewrite (proj2 (within_literal (muteClick p))) in Sl, E.
  split; [exact Sl|]. exists l. split; [exact L|exact E].
Qed.

(** At 350 %: mute, unmute, and the slider is at 100 %. *)
Lemma mute_button_example :
  slider (muteClick (muteClick
            (mkPopup (Some 7%nat) true true true (Fin 350) (Some (Fin 350))
               (replicate 10 0) "flat" []))) = Fin 100.
Proof.
  apply (mute_button_returns_to_100
           (mkPopup (Some 7%nat) true true true (Fin 350) (Some (Fin 350))
              (replicate 10 0) "flat" [])).
  reflexivity.
Defined.

Lemma preset_of_In (name : string) (table : list (string * list Q)) (preset : list Q) :
  preset_of name table = Some preset -> preset ∈ map snd table.
Proof.
  induction table as [|[k v] rest IH]; cbn; [discriminate|].
  destruct (String.eqb k name).
  - intros [= <-]. left.
  - intros H. right. apply IH, H.
Qed.

(** A vector of ten bands within the range passes the clamp of the
    content script unchanged. *)
Lemma stored_eq_in_range (l : list Q) :
  length l = 10%nat -> Forall TapReach.band_ok l ->
  Forall2 Qeq (PageScript.stored_eq (Some (map (fun q => VNumber (Fin q)) l))) l.
Proof.
  intros L F. unfold PageScript.stored_eq. apply Forall2_same_length_lookup_2.
  - rewrite length_fmap, PageFacts.length_slice_pad10. symmetry. exact L.
  - intros i x y Hx Hy.
    assert (Li : (i < 10)%nat) by (rewrite <- L; eapply lookup_lt_Some; exact Hy).
    rewrite list_lookup_fmap, (EqFacts.slice_pad10_lookup _ i Li), list_lookup_fmap, Hy in Hx.
    cbn in Hx. injection Hx as <-. apply TapFacts.clamp_in_range.
    rewrite Forall_lookup in F. exact (F _ _ Hy).
Qed.

Lemma presets_well_formed :
  Forall (fun pr => length pr = 10%nat /\ slice_pad pr = pr /\ Forall TapReach.band_ok pr)
         (map snd EQ_PRESETS).
Proof.
  cbn [map snd EQ_PRESETS].
  repeat (constructor;
          [split; [reflexivity|split; [reflexivity|]];
           repeat (constructor; [unfold TapReach.band_ok; lra|]); constructor|]).
  constructor.
Qed.

(** X26.  The equalizer presets of the popup.  A name that the table
    does not have changes nothing and sends nothing.  Each of the thirteen
    presets has ten bands, all within -24 and 24 dB; choosing it makes it
    the vector of the popup and, with a tab and effects enabled, sends
    exactly that vector; and the content script, which clamps what it
    receives, stores the preset as it is listed. *)
Theorem presets_apply_as_listed :
  (forall name p, preset_of name EQ_PRESETS = None -> applyPreset name p = p) /\
  (forall name preset,
     preset_of name EQ_PRESETS = Some preset ->
     length preset = 10%nat /\
     Forall TapReach.band_ok preset /\
     (forall p,
        eqGains (applyPreset name p) = preset /\
        eqPreset (applyPreset name p) = name /\
        (has_tab p = true -> effectsEnabled p = true ->
         sent (applyPreset name p) = sent p ++ [SetEqGainsMsg preset])) /\
     Forall2 Qeq
       (PageScript.stored_eq (Some (map (fun q => VNumber (Fin q)) preset))) preset).
Proof.
  split.
  - intros name p N. unfold applyPreset. rewrite N. reflexivity.
  - intros name preset H.
    pose proof presets_well_formed as W. rewrite Forall_forall in W.
    destruct (W _ (preset_of_In _ _ _ H)) as (L & Sp & B).
    split; [exact L|]. split; [exact B|]. split; [|apply stored_eq_in_range; assumption].
    intros p. unfold applyPreset. rewrite H, Sp. cbv zeta.
    destruct (effectsEnabled p) eqn:E.
    + unfold sendToTab.
      replace (has_tab (mkPopup (currentTabId p) (pageCanBoost p) (overdrive p) true
                          (slider p) (lastSentVolume p) preset name (sent p)))
        with (has_tab p) by reflexivity.
      destruct (has_tab p); cbn; repeat split; auto; discriminate.
    + cbn. repeat split; auto. discriminate.
Qed.

End PopupFacts.

(** ** One percentage, one division by 100 *)

Module GainAgreement.
Import PrimFloat JS.
Local Open Scope Q_scope.

Lemma engine_gain_nonneg (q : Q) :
  0 <= q -> exists g, EngineGain.gainValue (VNumber (Fin q)) = Fin g /\ g == q / 100.
Proof.
  intros P. unfold EngineGain.gainValue, num_or. cbn [Number truthy_number].
  destruct (Qeq_bool q 0) eqn:Z; cbn [negb Math_max num_div].
  - apply Qeq_bool_iff in Z. eexists. split; [reflexivity|]. rewrite Z. reflexivity.
  - replace (Qeq_bool 100 0) with false by reflexivity.
    eexists. split; [reflexivity|].
    destruct (Q.max_spec 0 q) as [[? E]|[? E]]; rewrite E; [reflexivity|].
    assert (q == 0) by lra. rewrite H0. reflexivity.
Qed.

(** X27.  Four places turn a percentage into a linear gain by one
    division by 100: the settings of the page tap, the bus of the FireFox
    1.2 content script, the YouTube script and the tab-capture engine.
    For a percentage between 0 and 800 their clamps change nothing and all
    four give the percentage over 100.  Above 800 the first three stay at
    8; the engine alone has no upper bound and gives the percentage over
    100 still.  The curve of the FireFox 1.1 script is not among them: it
    computes [(p / 600) * 6], which on binary64 is not the number
    [p / 100] at 15 %. *)
Theorem percent_over_100_paths_agree :
  (forall q, 0 <= q <= 800 ->
     (forall st ch,
        Tap.gain_value (Tap.applySettings (Tap.store (TapReach.only_volume q) st) ch)
          == q / 100) /\
     PageScript.clampNumber
       (VNumber (Fin (PageScript.clampNumber (VNumber (Fin q)) 0 800 / 100))) 0 8
       == q / 100 /\
     (forall pg fl w,
        YouTube.currentVolume
          (YouTubeMessages.script_of
             (YouTubeMessages.setVolume pg fl (YouTubeMessages.JNumber q) w)) == q / 100) /\
     (exists g, EngineGain.gainValue (VNumber (Fin q)) = Fin g /\ g == q / 100)) /\
  (forall q, 800 < q ->
     (forall st ch,
        Tap.gain_value (Tap.applySettings (Tap.store (TapReach.only_volume q) st) ch) == 8) /\
     PageScript.clampNumber
       (VNumber (Fin (PageScript.clampNumber (VNumber (Fin q)) 0 800 / 100))) 0 8 == 8 /\
     (forall pg fl w,
        YouTube.currentVolume
          (YouTubeMessages.script_of
             (YouTubeMessages.setVolume pg fl (YouTubeMessages.JNumber q) w)) == 8) /\
     (exists g, EngineGain.gainValue (VNumber (Fin q)) = Fin g /\ g == q / 100 /\ 8 < g)) /\
  PrimFloat.eqb (Binary64.mapVolumeToGain 15) (15 / 100)%float = false.
Proof.
  assert (Tap1 : forall q st ch,
             Tap.gain_value (Tap.applySettings (Tap.store (TapReach.only_volume q) st) ch)
             == Tap.clamp (VNumber (Fin q)) 0 800 / 100).
  { intros q st ch. cbn [Tap.applySettings Tap.gain_value Tap.store TapReach.only_volume
                         Tap.muted Tap.p_muted truthy Tap.volumePercent Tap.p_volumePercent
                         typeof_number nullish].
    pose proof (TapFacts.clamp_range (VNumber (Fin q)) 0 800 ltac:(lra)) as R.
    rewrite (TapFacts.clamp_in_range _ 0 800 R). reflexivity. }
  assert (Yt : forall q pg fl w,
             YouTube.currentVolume
               (YouTubeMessages.script_of
                  (YouTubeMessages.setVolume pg fl (YouTubeMessages.JNumber q) w))
             = Qmax 0 (Qmin q 800) / 100).
  { intros q pg fl w. unfold YouTubeMessages.setVolume.
    destruct (YouTube.ensureContext pg (YouTubeMessages.script_of w)). reflexivity. }
  split; [|split].
  - intros q R. split; [|split; [|split]].
    + intros st ch. rewrite Tap1, TapFacts.clamp_in_range by exact R. reflexivity.
    + unfold PageScript.clampNumber.
      assert (E : Tap.clamp (VNumber (Fin q)) 0 800 == q)
        by (apply TapFacts.clamp_in_range; exact R).
      pose proof (TapFacts.clamp_range (VNumber (Fin q)) 0 800 ltac:(lra)) as R8.
      rewrite TapFacts.clamp_in_range.
      * rewrite E. reflexivity.
      * set (c := Tap.clamp _ 0 800) in *.
        split; [apply Qle_shift_div_l; lra|apply Qle_shift_div_r; lra].
    + intros pg fl w. rewrite Yt.
      destruct (YouTubeFacts.clamp_800_cases q) as (C & _). rewrite (C R). reflexivity.
    + apply engine_gain_nonneg. lra.
  - intros q R. split; [|split; [|split]].
    + intros st ch. rewrite Tap1.
      destruct (TapFacts.clamp_finite (VNumber (Fin q)) q 0 800 eq_refl ltac:(lra))
        as (_ & _ & C).
      rewrite C by lra. reflexivity.
    + unfold PageScript.clampNumber.
      destruct (TapFacts.clamp_finite (VNumber (Fin q)) q 0 800 eq_refl ltac:(lra))
        as (_ & _ & C).
      assert (E : Tap.clamp (VNumber (Fin q)) 0 800 == 800) by (apply C; lra).
      pose proof (TapFacts.clamp_range (VNumber (Fin q)) 0 800 ltac:(lra)) as R8.
      rewrite TapFacts.clamp_in_range.
      * rewrite E. reflexivity.
      * set (c := Tap.clamp _ 0 800) in *.
        split; [apply Qle_shift_div_l; lra|apply Qle_shift_div_r; lra].
    + intros pg fl w. rewrite Yt.
      destruct (YouTubeFacts.clamp_800_cases q) as (_ & _ & C). rewrite C by lra. reflexivity.
    + destruct (engine_gain_nonneg q ltac:(lra)) as (g & E & G).
      exists g. split; [exact E|]. split; [exact G|]. rewrite G.
      apply Qlt_shift_div_l; lra.
  - vm_compute. reflexivity.
Qed.

End GainAgreement.

(** ** The equalizer vector: what each setter stores *)

Module EqVectorFacts.
Import JS Tap TapFacts PageFacts EqFacts.
Local Open Scope Q_scope.








End EqVectorFacts.
